(** * Distiller: structural extraction engine and cross-reference resolver

    A shallow embedding of [distiller.go].  Go strings are byte sequences and
    are modelled by [string] (a list of 8-bit [ascii]); Go [int] positions are
    modelled by [Z]; a slice expression that Go would reject at run time
    (a panic) is modelled by [None] in the [option] monad; [range] over a Go
    map, whose order the language leaves unspecified, takes the order of the
    iteration as an explicit argument. *)

From stdpp Require Import gmap strings list fin_maps.
From Stdlib Require Import ZArith Ascii.

Open Scope Z_scope.

(** ** Part I: definitions *)

(** *** The Go [strings] and [path/filepath] functions the program calls

    Byte-level models.  Case mapping and white space are the ASCII ones,
    which is what the Go functions compute on ASCII text. *)

Module GoStrings.

Definition nl : ascii := ascii_of_nat 10.
Definition tab : ascii := ascii_of_nat 9.
Definition dquote : ascii := ascii_of_nat 34.
Definition backslash : ascii := ascii_of_nat 92.

(** [len(s)] *)
Definition len (s : string) : Z := Z.of_nat (String.length s).

(** [s[lo:hi]]; Go panics unless [0 <= lo <= hi <= len(s)]. *)
Definition slice (s : string) (lo hi : Z) : option string :=
  if (0 <=? lo) && (lo <=? hi) && (hi <=? len s)
  then Some (String.substring (Z.to_nat lo) (Z.to_nat (hi - lo)) s)
  else None.

(** [s[lo:]] and [s[:hi]] *)
Definition slice_from (s : string) (lo : Z) : option string := slice s lo (len s).
Definition slice_to (s : string) (hi : Z) : option string := slice s 0 hi.

(** [s[i]]; Go panics when [i] is out of range. *)
Definition byte_at (s : string) (i : Z) : option ascii :=
  if (0 <=? i) then String.get (Z.to_nat i) s else None.

Definition HasPrefix (s pre : string) : bool := String.prefix pre s.

Fixpoint drop_bytes (n : nat) (s : string) : string :=
  match n, s with
  | O, _ => s
  | S k, String _ t => drop_bytes k t
  | S _, EmptyString => EmptyString
  end.

Definition HasSuffix (s suf : string) : bool :=
  (String.length suf <=? String.length s)%nat &&
  String.eqb (drop_bytes (String.length s - String.length suf) s) suf.

(** [strings.Index]: first occurrence of [substr], or [-1]. *)
Fixpoint Index (s substr : string) : Z :=
  if String.prefix substr s then 0
  else match s with
       | EmptyString => -1
       | String _ t => let r := Index t substr in if r <? 0 then -1 else r + 1
       end.

(** [strings.LastIndex]: last occurrence of [substr], or [-1]. *)
Fixpoint LastIndex (s substr : string) : Z :=
  match s with
  | EmptyString => if String.prefix substr s then 0 else -1
  | String _ t =>
      let r := LastIndex t substr in
      if 0 <=? r then r + 1
      else if String.prefix substr s then 0 else -1
  end.

Definition Contains (s substr : string) : bool := 0 <=? Index s substr.

(** [strings.Count] for a non-empty [substr]: non-overlapping occurrences,
    scanning from the left.  [skip] bytes of the last occurrence are still to
    be passed over. *)
Fixpoint count_from (substr s : string) (skip : nat) : Z :=
  match s with
  | EmptyString => 0
  | String _ t =>
      match skip with
      | S k => count_from substr t k
      | O => if String.prefix substr s
             then 1 + count_from substr t (String.length substr - 1)
             else count_from substr t 0
      end
  end.

Definition Count (s substr : string) : Z := count_from substr s 0.

(** [strings.Split] for a non-empty separator. *)
Fixpoint split_from (sep s : string) (skip : nat) (cur : string) : list string :=
  match s with
  | EmptyString => [cur]
  | String c t =>
      match skip with
      | S k => split_from sep t k cur
      | O => if String.prefix sep s
             then cur :: split_from sep t (String.length sep - 1) EmptyString
             else split_from sep t 0 (cur ++ String c EmptyString)
      end
  end.

Definition Split (s sep : string) : list string := split_from sep s 0 EmptyString.

(** [strings.SplitN(s, sep, n)] for [n > 0] and a non-empty separator:
    at most [n] pieces, the last one the unsplit remainder. *)
Fixpoint SplitN (s sep : string) (n : nat) : list string :=
  match n with
  | O => []
  | S O => [s]
  | S m =>
      let i := Index s sep in
      if i <? 0 then [s]
      else String.substring 0 (Z.to_nat i) s
             :: SplitN (drop_bytes (Z.to_nat i + String.length sep) s) sep m
  end.

Fixpoint Join (elems : list string) (sep : string) : string :=
  match elems with
  | [] => EmptyString
  | [e] => e
  | e :: rest => e ++ sep ++ Join rest sep
  end.

Definition isSpace (c : ascii) : bool :=
  let n := nat_of_ascii c in
  ((9 <=? n) && (n <=? 13))%nat || (n =? 32)%nat.

Fixpoint trim_left_by (p : ascii -> bool) (s : string) : string :=
  match s with
  | String c t => if p c then trim_left_by p t else s
  | EmptyString => EmptyString
  end.

(** Trailing trim: the result keeps a byte when it, or a later byte, is not
    in the cut set. *)
Fixpoint trim_right_by (p : ascii -> bool) (s : string) : string :=
  match s with
  | String c t =>
      match trim_right_by p t with
      | EmptyString => if p c then EmptyString else String c EmptyString
      | r => String c r
      end
  | EmptyString => EmptyString
  end.

Definition TrimSpace (s : string) : string :=
  trim_right_by isSpace (trim_left_by isSpace s).

Fixpoint mem_byte (c : ascii) (cutset : string) : bool :=
  match cutset with
  | String d t => Ascii.eqb c d || mem_byte c t
  | EmptyString => false
  end.

Definition TrimLeft (s cutset : string) : string :=
  trim_left_by (fun c => mem_byte c cutset) s.

Definition Trim (s cutset : string) : string :=
  trim_right_by (fun c => mem_byte c cutset)
    (trim_left_by (fun c => mem_byte c cutset) s).

Definition TrimPrefix (s pre : string) : string :=
  if HasPrefix s pre then drop_bytes (String.length pre) s else s.

Definition TrimSuffix (s suf : string) : string :=
  if HasSuffix s suf
  then String.substring 0 (String.length s - String.length suf) s
  else s.

Definition lower_byte (c : ascii) : ascii :=
  let n := nat_of_ascii c in
  if ((65 <=? n) && (n <=? 90))%nat then ascii_of_nat (n + 32) else c.

Fixpoint ToLower (s : string) : string :=
  match s with
  | String c t => String (lower_byte c) (ToLower t)
  | EmptyString => EmptyString
  end.

(** [strings.Fields]: the maximal runs of non-space bytes. *)
Fixpoint fields_from (s : string) (cur : string) : list string :=
  match s with
  | EmptyString => if String.eqb cur EmptyString then [] else [cur]
  | String c t =>
      if isSpace c
      then (if String.eqb cur EmptyString then fields_from t EmptyString
            else cur :: fields_from t EmptyString)
      else fields_from t (cur ++ String c EmptyString)
  end.

Definition Fields (s : string) : list string := fields_from s EmptyString.

(** [filepath.Base] with the separator [/]. *)
Definition Base (path : string) : string :=
  if String.eqb path EmptyString then "."
  else
    let p := trim_right_by (fun c => Ascii.eqb c "/"%char) path in
    if String.eqb p EmptyString then "/"
    else
      let i := LastIndex p "/" in
      if 0 <=? i then drop_bytes (Z.to_nat i + 1) p else p.

(** [countLines] of the program (Utility functions). *)
Definition countLines (text : string) : Z := 1 + Count text (String nl EmptyString).

End GoStrings.

(** *** Go regular expressions (package [regexp])

    Go's [regexp] finds the leftmost match and, among the matches starting
    there, the one a backtracking search would find first.  The patterns of
    the program are built from single bytes, byte classes, concatenation,
    alternation, optional groups, greedy and lazy repetition of a byte class,
    capture groups and the multi-line anchor; the matcher below is a
    backtracking search over exactly these, in continuation-passing style.
    None of the program's patterns matches the empty string. *)

Module Regexp.
Import GoStrings.

Inductive re : Type :=
| Byte (p : ascii -> bool)                 (* one byte of a class *)
| Cat (r1 r2 : re)                         (* r1 r2 *)
| Alt (r1 r2 : re)                         (* r1|r2 *)
| Opt (r : re)                             (* r? *)
| Star (greedy : bool) (p : ascii -> bool) (* c* and c*? over a byte class *)
| Cap (n : nat) (r : re)                   (* n-th capture group *)
| Bol                                      (* ^ under the flag m *)
| Eps.

(** Capture positions found so far: group number, start, end. *)
Definition caps := list (nat * (nat * nat)).

Definition get_cap (cs : caps) (n : nat) : option (nat * nat) :=
  snd <$> List.find (fun e => Nat.eqb (fst e) n) cs.

Section Matcher.
Context {R : Type}.

(** Continuation: position, previous byte, rest of the input. *)
Definition cont := nat -> option ascii -> string -> option R.

Fixpoint star_greedy (p : ascii -> bool) (k : cont)
    (pos : nat) (prev : option ascii) (s : string) : option R :=
  match s with
  | String c t =>
      if p c
      then match star_greedy p k (S pos) (Some c) t with
           | Some r => Some r
           | None => k pos prev s
           end
      else k pos prev s
  | EmptyString => k pos prev s
  end.

Fixpoint star_lazy (p : ascii -> bool) (k : cont)
    (pos : nat) (prev : option ascii) (s : string) : option R :=
  match k pos prev s with
  | Some r => Some r
  | None =>
      match s with
      | String c t => if p c then star_lazy p k (S pos) (Some c) t else None
      | EmptyString => None
      end
  end.

Fixpoint run (r : re) (cs : caps) (pos : nat) (prev : option ascii)
    (s : string) (k : caps -> cont) : option R :=
  match r with
  | Byte p =>
      match s with
      | String c t => if p c then k cs (S pos) (Some c) t else None
      | EmptyString => None
      end
  | Cat r1 r2 =>
      run r1 cs pos prev s (fun cs' pos' prev' s' => run r2 cs' pos' prev' s' k)
  | Alt r1 r2 =>
      match run r1 cs pos prev s k with
      | Some x => Some x
      | None => run r2 cs pos prev s k
      end
  | Opt r1 =>
      match run r1 cs pos prev s k with
      | Some x => Some x
      | None => k cs pos prev s
      end
  | Star true p => star_greedy p (k cs) pos prev s
  | Star false p => star_lazy p (k cs) pos prev s
  | Cap n r1 =>
      run r1 cs pos prev s
        (fun cs' pos' prev' s' => k ((n, (pos, pos')) :: cs') pos' prev' s')
  | Bol =>
      match prev with
      | None => k cs pos prev s
      | Some c => if Ascii.eqb c nl then k cs pos prev s else None
      end
  | Eps => k cs pos prev s
  end.
End Matcher.

(** A match anchored at [pos]: its end and captures. *)
Definition match_here (r : re) (pos : nat) (prev : option ascii) (s : string)
  : option (nat * caps) :=
  run r [] pos prev s (fun cs e _ _ => Some (e, cs)).

(** All successive non-overlapping matches, leftmost first: start, end,
    captures.  [skip] bytes of the last match are still to be passed over. *)
Fixpoint find_all_from (r : re) (pos : nat) (prev : option ascii) (s : string)
    (skip : nat) : list (nat * nat * caps) :=
  match skip with
  | S k =>
      match s with
      | String c t => find_all_from r (S pos) (Some c) t k
      | EmptyString => []
      end
  | O =>
      match match_here r pos prev s with
      | Some (e, cs) =>
          (pos, e, cs) ::
          match s with
          | String c t => find_all_from r (S pos) (Some c) t (e - pos - 1)
          | EmptyString => []
          end
      | None =>
          match s with
          | String c t => find_all_from r (S pos) (Some c) t 0
          | EmptyString => []
          end
      end
  end.

(** The index slice Go returns for a match of a pattern with [ngroups]
    capture groups: [2 * (ngroups + 1)] positions, [-1] for a group that
    took no part in the match. *)
Definition cap_index (cs : caps) (n : nat) : list Z :=
  match get_cap cs n with
  | Some (b, e) => [Z.of_nat b; Z.of_nat e]
  | None => [-1; -1]
  end.

Definition index_slice (ngroups : nat) (m : nat * nat * caps) : list Z :=
  let '(b, e, cs) := m in
  [Z.of_nat b; Z.of_nat e] ++ flat_map (cap_index cs) (seq 1 ngroups).

(** [re.FindAllStringSubmatchIndex(s, -1)] *)
Definition FindAllStringSubmatchIndex (r : re) (ngroups : nat) (s : string)
  : list (list Z) :=
  index_slice ngroups <$> find_all_from r 0 None s 0.

(** [re.FindAllStringIndex(s, -1)] *)
Definition FindAllStringIndex (r : re) (s : string) : list (list Z) :=
  FindAllStringSubmatchIndex r 0 s.

Definition cap_text (s : string) (cs : caps) (n : nat) : string :=
  match get_cap cs n with
  | Some (b, e) => String.substring b (e - b) s
  | None => EmptyString
  end.

Definition submatch_texts (ngroups : nat) (s : string) (m : nat * nat * caps)
  : list string :=
  let '(b, e, cs) := m in
  String.substring b (e - b) s :: (cap_text s cs <$> seq 1 ngroups).

(** [re.FindAllStringSubmatch(s, -1)] *)
Definition FindAllStringSubmatch (r : re) (ngroups : nat) (s : string)
  : list (list string) :=
  submatch_texts ngroups s <$> find_all_from r 0 None s 0.

(** [re.FindStringSubmatch(s)]: the first match, or the nil slice. *)
Definition FindStringSubmatch (r : re) (ngroups : nat) (s : string)
  : list string :=
  match find_all_from r 0 None s 0 with
  | m :: _ => submatch_texts ngroups s m
  | [] => []
  end.

(** [m[i]] on an index slice. *)
Definition at_index (m : list Z) (i : nat) : Z := nth i m (-1).

(** Pattern syntax. *)
Definition chr (c : ascii) : re := Byte (Ascii.eqb c).

(** A byte matched without regard to ASCII case (flag i). *)
Definition chr_i (c : ascii) : re :=
  Byte (fun d => Ascii.eqb (lower_byte d) (lower_byte c)).

Fixpoint lit (s : string) : re :=
  match s with
  | EmptyString => Eps
  | String c EmptyString => chr c
  | String c t => Cat (chr c) (lit t)
  end.

Fixpoint lit_i (s : string) : re :=
  match s with
  | EmptyString => Eps
  | String c EmptyString => chr_i c
  | String c t => Cat (chr_i c) (lit_i t)
  end.

Fixpoint cat (rs : list re) : re :=
  match rs with
  | [] => Eps
  | [r] => r
  | r :: rest => Cat r (cat rest)
  end.

(** [\s]: tab, line feed, form feed, carriage return, space. *)
Definition cls_s (c : ascii) : bool :=
  let n := nat_of_ascii c in
  (n =? 9)%nat || (n =? 10)%nat || (n =? 12)%nat || (n =? 13)%nat || (n =? 32)%nat.

(** [\w]: digits, letters, underscore. *)
Definition cls_w (c : ascii) : bool :=
  let n := nat_of_ascii c in
  ((48 <=? n) && (n <=? 57))%nat || ((65 <=? n) && (n <=? 90))%nat
  || ((97 <=? n) && (n <=? 122))%nat || (n =? 95)%nat.

(** [.] without the flag s: any byte but the line feed. *)
Definition cls_dot (c : ascii) : bool := negb (Ascii.eqb c nl).

Definition star (p : ascii -> bool) : re := Star true p.
Definition plus (p : ascii -> bool) : re := Cat (Byte p) (Star true p).
Definition star_lz (p : ascii -> bool) : re := Star false p.

End Regexp.

(** *** The entity model (the [type] declarations of the program)

    [Variable], [Function] and [Import] are written with a trailing
    underscore, and the fields of each record carry a prefix, since field
    names are global here.  A nil slice and an empty slice are both the
    empty list. *)

Record Variable_ := {
  v_Name : string;
  v_Type : string;
  v_Scope : string;
  v_Line : Z
}.

Record Function_ := {
  f_Name : string;
  f_Args : list Variable_;
  f_Returns : list string;
  f_Receiver : string;
  f_Line : Z;
  f_Calls : list string
}.

#[local] Set Warnings "-register-all".

Inductive ControlFlow := {
  cf_Type : string;
  cf_Line : Z;
  cf_Children : list ControlFlow
}.

Record Struct := {
  s_Name : string;
  s_Fields : list Variable_;
  s_Methods : list Function_;
  s_Line : Z
}.

Record Interface := {
  i_Name : string;
  i_Methods : list Function_
}.

Record Import_ := { Path : string }.

Record GoFileSummary := {
  go_FilePath : string;
  go_Variables : list Variable_;
  go_Functions : list Function_;
  go_ControlFlows : list ControlFlow;
  go_Structs : list Struct;
  go_Interfaces : list Interface;
  go_Imports : list Import_
}.

Record HtmlElement := {
  ID : string;
  Classes : list string;
  Attributes : gmap string string;
  h_Line : Z;
  LinkedFunctions : list string
}.

Record PhpFileSummary := {
  php_FilePath : string;
  php_Variables : list Variable_;
  php_Functions : list Function_;
  php_ControlFlows : list ControlFlow;
  php_Classes : list Struct;
  php_Interfaces : list Interface;
  php_Imports : list Import_
}.

Record PythonFileSummary := {
  py_FilePath : string;
  py_Variables : list Variable_;
  py_Functions : list Function_;
  py_ControlFlows : list ControlFlow;
  py_Classes : list Struct;
  py_Imports : list Import_;
  py_Decorators : list string
}.

(** The global registries of the program, and the text printed so far.
    The globals [currentStructName], [currentClassName] and
    [currentFileName] are written and never read; they are left out. *)
Record Registries := {
  allFunctions : gmap string Function_;
  allStructs : gmap string Struct;
  allClasses : gmap string Struct;
  allPythonClasses : gmap string Struct;
  stdout : list string
}.

Definition no_registries : Registries :=
  {| allFunctions := ∅; allStructs := ∅; allClasses := ∅;
     allPythonClasses := ∅; stdout := [] |}.

(** *** Outcomes

    [Ok] is a normal return, [Panic] a run-time failure of the Go program
    (a slice or index expression out of range), [NoFuel] the exhaustion of
    the recursion budget of the model (the program has no such outcome). *)

Inductive Result (A : Type) : Type :=
| Ok (a : A)
| Panic
| NoFuel.
Arguments Ok {A} a.
Arguments Panic {A}.
Arguments NoFuel {A}.

#[global] Instance Result_ret : MRet Result := fun A a => Ok a.
#[global] Instance Result_bind : MBind Result := fun A B f m =>
  match m with
  | Ok a => f a
  | Panic => Panic
  | NoFuel => NoFuel
  end.

(** A slice expression: [None] from the bounds check is a panic. *)
Definition checked {A : Type} (o : option A) : Result A :=
  match o with
  | Some a => Ok a
  | None => Panic
  end.

(** A [for] loop over a slice whose body may fail. *)
Fixpoint for_each {A B : Type} (body : B -> A -> Result B) (l : list A) (b : B)
  : Result B :=
  match l with
  | [] => Ok b
  | x :: rest => b' ← body b x; for_each body rest b'
  end.

(** Loops that [range] over a Go map of patterns take the order of each
    iteration from [choose]: the [n]-th [range] statement executed walks the
    entries in the order [choose n].  [Walk] threads the number of [range]
    statements executed so far. *)
Definition Walk (A : Type) : Type := nat -> Result (A * nat).

Definition walk_ret {A : Type} (a : A) : Walk A := fun n => Ok (a, n).

Definition walk_bind {A B : Type} (m : Walk A) (f : A -> Walk B) : Walk B :=
  fun n => r ← m n; f r.1 r.2.

Definition walk_lift {A : Type} (m : Result A) : Walk A :=
  fun n => a ← m; Ok (a, n).

Fixpoint walk_each {A B : Type} (body : B -> A -> Walk B) (l : list A) (b : B)
  : Walk B :=
  match l with
  | [] => walk_ret b
  | x :: rest => walk_bind (body b x) (walk_each body rest)
  end.

(** [appendIfNotExists] *)
Definition appendIfNotExists (slice : list string) (item : string) : list string :=
  if existsb (fun s => String.eqb s item) slice then slice else slice ++ [item].

(** *** The cross-reference resolver ([findLinkedFunctions]) *)

Module Resolver.
Import GoStrings Regexp.
Open Scope string_scope.
Open Scope Z_scope.

(** [([a-zA-Z0-9_]+)\(] *)
Definition re_handler : re := cat [Cap 1 (plus cls_w); chr "("].

(** The orders in which one evaluation walks its maps: the two [range]
    loops over [element.Attributes], the [range] over [allFunctions] of the
    form-action rule, and the [range] over [allFunctions] run for the
    attribute [key] inside the second loop. *)
Record RangeOrder := {
  events_order : list (string * string);
  action_order : list string;
  hx_order : list (string * string);
  hx_funcs_order : string -> list string
}.

Definition registered (allFunctions : gmap string Function_) (name : string) : bool :=
  bool_decide (is_Some (allFunctions !! name)).

(** Body of the first loop: event handlers in attributes. *)
Definition event_rule (allFunctions : gmap string Function_)
    (linkedFunctions : list string) (kv : string * string) : list string :=
  let '(key, value) := kv in
  if HasPrefix key "on" && Contains value "(" then
    let matches := FindStringSubmatch re_handler 1 value in
    if (1 <? length matches)%nat then
      let funcName := nth 1 matches "" in
      if registered allFunctions funcName
      then appendIfNotExists linkedFunctions funcName
      else linkedFunctions
    else linkedFunctions
  else linkedFunctions.

(** The rules for [data-function] and [onclick]: exact registry match. *)
Definition exact_rule (allFunctions : gmap string Function_)
    (attr : option string) (linkedFunctions : list string) : list string :=
  match attr with
  | Some funcName =>
      if registered allFunctions funcName
      then appendIfNotExists linkedFunctions funcName
      else linkedFunctions
  | None => linkedFunctions
  end.

(** Body of the loop of the form-action rule. *)
Definition action_match (scriptName : string)
    (linkedFunctions : list string) (funcName : string) : list string :=
  if String.eqb (ToLower funcName) (ToLower scriptName)
     || HasPrefix (ToLower funcName) (ToLower scriptName ++ "_")
  then appendIfNotExists linkedFunctions funcName
  else linkedFunctions.

Definition action_rule (order : list string) (attr : option string)
    (linkedFunctions : list string) : list string :=
  match attr with
  | Some action =>
      if HasSuffix action ".php" || Contains action ".php?" then
        let scriptName := Base (hd "" (Split action "?")) in
        let scriptName := TrimSuffix scriptName ".php" in
        foldl (action_match scriptName) linkedFunctions order
      else linkedFunctions
  | None => linkedFunctions
  end.

(** Body of the inner loop of the hypermedia rule. *)
Definition hx_match (lastPart : string)
    (linkedFunctions : list string) (funcName : string) : list string :=
  let funcNameLower := ToLower funcName in
  let lastPartLower := ToLower lastPart in
  let funcNameLower := TrimSuffix funcNameLower "handler" in
  let funcNameLower := TrimSuffix funcNameLower "endpoint" in
  let funcNameLower := TrimSuffix funcNameLower "controller" in
  let lastPartLower := TrimSuffix lastPartLower ".html" in
  let lastPartLower := TrimSuffix lastPartLower ".php" in
  if Contains funcNameLower lastPartLower || Contains lastPartLower funcNameLower
  then appendIfNotExists linkedFunctions funcName
  else linkedFunctions.

(** Body of the second loop over the attributes. *)
Definition hx_rule (funcs : string -> list string)
    (linkedFunctions : list string) (kv : string * string) : list string :=
  let '(key, value) := kv in
  if HasPrefix key "hx-" && Contains value "/" then
    let parts := Split value "/" in
    if (0 <? length parts)%nat then
      let lastPart := List.last parts "" in
      foldl (hx_match lastPart) linkedFunctions (funcs key)
    else linkedFunctions
  else linkedFunctions.

Definition findLinkedFunctions (o : RangeOrder) (element : HtmlElement)
    (allFunctions : gmap string Function_) (allClasses : gmap string Struct)
  : list string :=
  let linkedFunctions := foldl (event_rule allFunctions) [] (events_order o) in
  let linkedFunctions :=
    exact_rule allFunctions (Attributes element !! "data-function") linkedFunctions in
  let linkedFunctions :=
    exact_rule allFunctions (Attributes element !! "onclick") linkedFunctions in
  let linkedFunctions :=
    action_rule (action_order o) (Attributes element !! "action") linkedFunctions in
  foldl (hx_rule (hx_funcs_order o)) linkedFunctions (hx_order o).

(** An order the runtime may choose: each loop visits every entry of its map
    exactly once. *)
Definition valid_order (o : RangeOrder) (element : HtmlElement)
    (allFunctions : gmap string Function_) : Prop :=
  events_order o ≡ₚ map_to_list (Attributes element) ∧
  action_order o ≡ₚ (map_to_list allFunctions).*1 ∧
  hx_order o ≡ₚ map_to_list (Attributes element) ∧
  ∀ key, hx_funcs_order o key ≡ₚ (map_to_list allFunctions).*1.

(** The order that walks every map in the order of [map_to_list]. *)
Definition canonical_order (element : HtmlElement)
    (allFunctions : gmap string Function_) : RangeOrder :=
  {| events_order := map_to_list (Attributes element);
     action_order := (map_to_list allFunctions).*1;
     hx_order := map_to_list (Attributes element);
     hx_funcs_order := fun _ => (map_to_list allFunctions).*1 |}.

Definition reversed_order (element : HtmlElement)
    (allFunctions : gmap string Function_) : RangeOrder :=
  {| events_order := reverse (map_to_list (Attributes element));
     action_order := reverse (map_to_list allFunctions).*1;
     hx_order := reverse (map_to_list (Attributes element));
     hx_funcs_order := fun _ => reverse (map_to_list allFunctions).*1 |}.

(** The names each rule proposes, in the order it proposes them: the
    resolver appends them with [appendIfNotExists]. *)
Definition event_candidates (allFunctions : gmap string Function_)
    (kv : string * string) : list string :=
  let '(key, value) := kv in
  if HasPrefix key "on" && Contains value "(" then
    let matches := FindStringSubmatch re_handler 1 value in
    if (1 <? length matches)%nat then
      let funcName := nth 1 matches "" in
      if registered allFunctions funcName then [funcName] else []
    else []
  else [].

Definition exact_candidates (allFunctions : gmap string Function_)
    (attr : option string) : list string :=
  match attr with
  | Some funcName => if registered allFunctions funcName then [funcName] else []
  | None => []
  end.

Definition action_test (scriptName funcName : string) : bool :=
  String.eqb (ToLower funcName) (ToLower scriptName)
  || HasPrefix (ToLower funcName) (ToLower scriptName ++ "_").

Definition action_candidates (order : list string) (attr : option string)
  : list string :=
  match attr with
  | Some action =>
      if HasSuffix action ".php" || Contains action ".php?" then
        List.filter
          (action_test (TrimSuffix (Base (hd "" (Split action "?"))) ".php")) order
      else []
  | None => []
  end.

Definition hx_test (lastPart funcName : string) : bool :=
  let funcNameLower :=
    TrimSuffix (TrimSuffix (TrimSuffix (ToLower funcName) "handler") "endpoint")
      "controller" in
  let lastPartLower := TrimSuffix (TrimSuffix (ToLower lastPart) ".html") ".php" in
  Contains funcNameLower lastPartLower || Contains lastPartLower funcNameLower.

Definition hx_applies (kv : string * string) : bool :=
  HasPrefix kv.1 "hx-" && Contains kv.2 "/" && (0 <? length (Split kv.2 "/"))%nat.

Definition hx_candidates (funcs : string -> list string) (kv : string * string)
  : list string :=
  if hx_applies kv
  then List.filter (hx_test (List.last (Split kv.2 "/") "")) (funcs kv.1)
  else [].

Definition candidates (o : RangeOrder) (element : HtmlElement)
    (allFunctions : gmap string Function_) : list string :=
  (flat_map (event_candidates allFunctions) (events_order o)
   ++ exact_candidates allFunctions (Attributes element !! "data-function")
   ++ exact_candidates allFunctions (Attributes element !! "onclick")
   ++ action_candidates (action_order o) (Attributes element !! "action")
   ++ flat_map (hx_candidates (hx_funcs_order o)) (hx_order o))%list.

(** Concrete inputs. *)
Definition fn (name : string) : Function_ :=
  {| f_Name := name; f_Args := []; f_Returns := []; f_Receiver := "";
     f_Line := 1; f_Calls := [] |}.

Definition element_with (attrs : list (string * string)) : HtmlElement :=
  {| ID := ""; Classes := []; Attributes := list_to_map attrs; h_Line := 1;
     LinkedFunctions := [] |}.

Definition registry_of (names : list string) : gmap string Function_ :=
  list_to_map ((fun n => (n, fn n)) <$> names).

Definition save_form : HtmlElement := element_with [("action", "save.php")].
Definition save_registry : gmap string Function_ := registry_of ["save"; "save_all"].

Definition onclick_element : HtmlElement := element_with [("onclick", "doThing()")].

End Resolver.

(** *** The tree-based extractor ([analyzeGoFile])

    The syntax tree comes from the external packages [go/parser] and
    [go/ast].  [Node] has one constructor for each node kind the program
    inspects, with the fields it reads; every other kind is [Other], which
    carries its Go type name (what [%T] prints) and its children.  Names are
    kept as strings: the identifier nodes below a declaration or a field
    trigger no case of either [ast.Inspect] callback.  [fset.Position(p).Line]
    is stored in the node as [line]. *)

Module GoExtractor.
Import GoStrings.
Open Scope string_scope.
Open Scope Z_scope.

Inductive Token := VAR | IMPORT | CONST | TYPE.

Inductive Node :=
| Ident (Name : string)
| SelectorExpr (X : Node) (Sel : string)
| StarExpr (X : Node)
| ArrayType (Len : option Node) (Elt : Node)
| BasicLit (Value : string)
| MapType (Key Value : Node)
| InterfaceType (Methods : option (list Node))
| FuncType (Params Results : option (list Node))
| ChanType (Value : Node)
| StructType (Fields : option (list Node))
| Ellipsis (Elt : Node)
| CallExpr (Fun : Node) (Args : list Node)
| Field (Names : list (string * Z)) (Type_ : Node) (line : Z)
| BlockStmt (List : list Node)
| IfStmt (line : Z) (Init : option Node) (Cond : Node)
    (Body : option (list Node)) (Else : option Node)
| ForStmt (line : Z) (Init Cond Post : option Node) (Body : option (list Node))
| SwitchStmt (line : Z) (Init Tag : option Node) (Body : option (list Node))
| CaseClause (List : list Node) (Body : list Node)
| FuncDecl (line : Z) (Recv : option (list Node)) (Name : string)
    (Params Results : option (list Node)) (Body : option (list Node))
| GenDecl (Tok : Token) (Specs : list Node)
| ValueSpec (Names : list (string * Z)) (Type_ : option Node) (Values : list Node)
| TypeSpec (Name : string) (Type_ : Node)
| ImportSpec (PathValue : string)
| Other (goType : string) (children : list Node).

(** [*ast.File]: the declarations and the import specs. *)
Record File := {
  Decls : list Node;
  Imports : list Node
}.

(** What [fmt.Sprintf("%T", expr)] prints. *)
Definition goTypeName (n : Node) : string :=
  match n with
  | Ident _ => "*ast.Ident"
  | SelectorExpr _ _ => "*ast.SelectorExpr"
  | StarExpr _ => "*ast.StarExpr"
  | ArrayType _ _ => "*ast.ArrayType"
  | BasicLit _ => "*ast.BasicLit"
  | MapType _ _ => "*ast.MapType"
  | InterfaceType _ => "*ast.InterfaceType"
  | FuncType _ _ => "*ast.FuncType"
  | ChanType _ => "*ast.ChanType"
  | StructType _ => "*ast.StructType"
  | Ellipsis _ => "*ast.Ellipsis"
  | CallExpr _ _ => "*ast.CallExpr"
  | Field _ _ _ => "*ast.Field"
  | BlockStmt _ => "*ast.BlockStmt"
  | IfStmt _ _ _ _ _ => "*ast.IfStmt"
  | ForStmt _ _ _ _ _ => "*ast.ForStmt"
  | SwitchStmt _ _ _ _ => "*ast.SwitchStmt"
  | CaseClause _ _ => "*ast.CaseClause"
  | FuncDecl _ _ _ _ _ _ => "*ast.FuncDecl"
  | GenDecl _ _ => "*ast.GenDecl"
  | ValueSpec _ _ _ => "*ast.ValueSpec"
  | TypeSpec _ _ => "*ast.TypeSpec"
  | ImportSpec _ => "*ast.ImportSpec"
  | Other goType _ => goType
  end.

(** [exprToString] *)
Fixpoint exprToString (expr : Node) : string :=
  match expr with
  | Ident Name => Name
  | SelectorExpr X Sel => exprToString X ++ "." ++ Sel
  | StarExpr X => "*" ++ exprToString X
  | ArrayType None Elt => "[]" ++ exprToString Elt
  | ArrayType (Some Len) Elt => "[" ++ exprToString Len ++ "]" ++ exprToString Elt
  | BasicLit Value => Value
  | MapType Key Value => "map[" ++ exprToString Key ++ "]" ++ exprToString Value
  | InterfaceType _ => "interface{}"
  | FuncType _ _ => "func"
  | ChanType Value => "chan " ++ exprToString Value
  | StructType _ => "struct{}"
  | Ellipsis Elt => "..." ++ exprToString Elt
  | _ => "<" ++ goTypeName expr ++ ">"
  end.

(** The nodes [ast.Inspect] hands to a callback that always returns [true]:
    the tree in depth-first order, children in the order of [ast.Walk]. *)
Fixpoint preorder (n : Node) : list Node :=
  let opt := fun o : option Node =>
    match o with Some x => preorder x | None => [] end in
  let many := fun l : list Node => flat_map preorder l in
  let fields := fun o : option (list Node) =>
    match o with Some l => flat_map preorder l | None => [] end in
  let block := fun o : option (list Node) =>
    match o with Some l => BlockStmt l :: flat_map preorder l | None => [] end in
  n ::
  match n with
  | Ident _ | BasicLit _ | ImportSpec _ => []
  | SelectorExpr X _ => preorder X
  | StarExpr X => preorder X
  | ArrayType Len Elt => opt Len ++ preorder Elt
  | MapType Key Value => preorder Key ++ preorder Value
  | InterfaceType Methods => fields Methods
  | FuncType Params Results => fields Params ++ fields Results
  | ChanType Value => preorder Value
  | StructType Fields => fields Fields
  | Ellipsis Elt => preorder Elt
  | CallExpr Fun Args => preorder Fun ++ many Args
  | Field _ Type_ _ => preorder Type_
  | BlockStmt List => many List
  | IfStmt _ Init Cond Body Else => opt Init ++ preorder Cond ++ block Body ++ opt Else
  | ForStmt _ Init Cond Post Body => opt Init ++ opt Cond ++ opt Post ++ block Body
  | SwitchStmt _ Init Tag Body => opt Init ++ opt Tag ++ block Body
  | CaseClause List Body => many List ++ many Body
  | FuncDecl _ Recv _ Params Results Body =>
      fields Recv ++ fields Params ++ fields Results ++ block Body
  | GenDecl _ Specs => many Specs
  | ValueSpec _ Type_ Values => opt Type_ ++ many Values
  | TypeSpec _ Type_ => preorder Type_
  | Other _ children => many children
  end.

(** [ast.Inspect(file, f)] *)
Definition inspect_file (node : File) : list Node := flat_map preorder (Decls node).

(** The control-flow node [extractNestedControlFlow] appends for one
    statement of a block (none for the other statement kinds). *)
Fixpoint nested_control (stmt : Node) : list ControlFlow :=
  match stmt with
  | IfStmt line _ _ Body _ =>
      [ {| cf_Type := "if"; cf_Line := line;
           cf_Children := match Body with
                          | Some List => flat_map nested_control List
                          | None => []
                          end |} ]
  | ForStmt line _ _ _ Body =>
      [ {| cf_Type := "for"; cf_Line := line;
           cf_Children := match Body with
                          | Some List => flat_map nested_control List
                          | None => []
                          end |} ]
  | SwitchStmt line _ _ Body =>
      [ {| cf_Type := "switch"; cf_Line := line;
           cf_Children :=
             match Body with
             | Some List =>
                 flat_map (fun switchStmt =>
                   match switchStmt with
                   | CaseClause _ caseBody =>
                       flat_map (fun caseStmt =>
                         match caseStmt with
                         | BlockStmt inner => flat_map nested_control inner
                         | _ => []
                         end) caseBody
                   | _ => []
                   end) List
             | None => []
             end |} ]
  | _ => []
  end.

(** [extractNestedControlFlow] on the statement list of a block. *)
Definition extractNestedControlFlow (block : list Node) : list ControlFlow :=
  flat_map nested_control block.

(** The children [analyzeGoFile] collects for a switch statement: the
    control flow of the blocks found directly in the case bodies. *)
Definition switch_children (Body : option (list Node)) : list ControlFlow :=
  match Body with
  | Some List =>
      flat_map (fun stmt =>
        match stmt with
        | CaseClause _ caseBody =>
            flat_map (fun caseStmt =>
              match caseStmt with
              | BlockStmt inner => extractNestedControlFlow inner
              | _ => []
              end) caseBody
        | _ => []
        end) List
  | None => []
  end.

Definition field_parts (n : Node) : option (list (string * Z) * Node * Z) :=
  match n with
  | Field Names Type_ line => Some (Names, Type_, line)
  | _ => None
  end.

(** Arguments of a parameter list: one [Variable] per declared name. *)
Definition extract_args (Params : option (list Node)) : list Variable_ :=
  match Params with
  | Some List =>
      flat_map (fun field =>
        match field_parts field with
        | Some (Names, Type_, _) =>
            let typeStr := exprToString Type_ in
            (fun name : string * Z =>
               {| v_Name := name.1; v_Type := typeStr; v_Scope := "argument";
                  v_Line := name.2 |}) <$> Names
        | None => []
        end) List
  | None => []
  end.

Definition extract_returns (Results : option (list Node)) : list string :=
  match Results with
  | Some List =>
      flat_map (fun field =>
        match field_parts field with
        | Some (_, Type_, _) => [exprToString Type_]
        | None => []
        end) List
  | None => []
  end.

(** The receiver type name of a method declaration, pointer marker removed;
    [None] when the declaration has no receiver. *)
Definition receiver_type (Recv : option (list Node)) : option string :=
  match Recv with
  | Some (field :: _) =>
      match field_parts field with
      | Some (_, Type_, _) => Some (TrimPrefix (exprToString Type_) "*")
      | None => None
      end
  | _ => None
  end.

(** The callback of the inner [ast.Inspect] of [extractFunction]. *)
Definition record_call (Calls : list string) (n : Node) : list string :=
  match n with
  | CallExpr (Ident Name) _ => appendIfNotExists Calls Name
  | CallExpr (SelectorExpr X Sel) _ =>
      appendIfNotExists Calls (exprToString (SelectorExpr X Sel))
  | _ => Calls
  end.

(** [extractFunction] *)
Definition extractFunction (funcDecl : Node) : Function_ :=
  match funcDecl with
  | FuncDecl line Recv Name Params Results Body =>
      {| f_Name := Name;
         f_Args := extract_args Params;
         f_Returns := extract_returns Results;
         f_Receiver := default "" (receiver_type Recv);
         f_Line := line;
         f_Calls := match Body with
                    | Some List => foldl record_call [] (preorder (BlockStmt List))
                    | None => []
                    end |}
  | _ => {| f_Name := ""; f_Args := []; f_Returns := []; f_Receiver := "";
            f_Line := 0; f_Calls := [] |}
  end.

(** [extractStructFields] *)
Definition extractStructFields (Fields : option (list Node)) : list Variable_ :=
  match Fields with
  | None => []
  | Some List =>
      flat_map (fun field =>
        match field_parts field with
        | Some (Names, Type_, line) =>
            let typeStr := exprToString Type_ in
            match Names with
            | [] => [ {| v_Name := typeStr; v_Type := typeStr;
                         v_Scope := "struct"; v_Line := line |} ]
            | _ => (fun name : string * Z =>
                      {| v_Name := name.1; v_Type := typeStr;
                         v_Scope := "struct"; v_Line := name.2 |}) <$> Names
            end
        | None => []
        end) List
  end.

(** [extractInterfaceMethods] *)
Definition extractInterfaceMethods (Methods : option (list Node)) : list Function_ :=
  match Methods with
  | None => []
  | Some List =>
      flat_map (fun method =>
        match field_parts method with
        | Some ((name, _) :: _, Type_, line) =>
            [ {| f_Name := name;
                 f_Args := match Type_ with
                           | FuncType Params _ => extract_args Params
                           | _ => []
                           end;
                 f_Returns := match Type_ with
                              | FuncType _ Results => extract_returns Results
                              | _ => []
                              end;
                 f_Receiver := "";
                 f_Line := line;
                 f_Calls := [] |} ]
        | _ => []
        end) List
  end.

(** The variables of one top-level declaration (the loop over [node.Decls]). *)
Definition global_variables (decl : Node) : list Variable_ :=
  match decl with
  | GenDecl VAR Specs =>
      flat_map (fun spec =>
        match spec with
        | ValueSpec Names Type_ Values =>
            (fun name : string * Z =>
               {| v_Name := name.1;
                  v_Type := match Type_ with
                            | Some t => exprToString t
                            | None => if (0 <? length Values)%nat
                                      then "inferred" else ""
                            end;
                  v_Scope := "global";
                  v_Line := name.2 |}) <$> Names
        | _ => []
        end) Specs
  | _ => []
  end.

Definition import_path (imp : Node) : list Import_ :=
  match imp with
  | ImportSpec PathValue => [ {| Path := Trim PathValue (String dquote "") |} ]
  | _ => []
  end.

(** The state of the walk: the summary under construction and the global
    registry [allStructs]. *)
Definition set_methods (s : Struct) (Methods : list Function_) : Struct :=
  {| s_Name := s_Name s; s_Fields := s_Fields s; s_Methods := Methods;
     s_Line := s_Line s |}.

Definition control_node (type : string) (line : Z) (Children : list ControlFlow)
  : ControlFlow :=
  {| cf_Type := type; cf_Line := line; cf_Children := Children |}.

Definition add_function (fn : Function_) (s : GoFileSummary) : GoFileSummary :=
  {| go_FilePath := go_FilePath s; go_Variables := go_Variables s;
     go_Functions := go_Functions s ++ [fn];
     go_ControlFlows := go_ControlFlows s; go_Structs := go_Structs s;
     go_Interfaces := go_Interfaces s; go_Imports := go_Imports s |}.

Definition add_struct (st : Struct) (s : GoFileSummary) : GoFileSummary :=
  {| go_FilePath := go_FilePath s; go_Variables := go_Variables s;
     go_Functions := go_Functions s;
     go_ControlFlows := go_ControlFlows s; go_Structs := go_Structs s ++ [st];
     go_Interfaces := go_Interfaces s; go_Imports := go_Imports s |}.

Definition add_interface (i : Interface) (s : GoFileSummary) : GoFileSummary :=
  {| go_FilePath := go_FilePath s; go_Variables := go_Variables s;
     go_Functions := go_Functions s;
     go_ControlFlows := go_ControlFlows s; go_Structs := go_Structs s;
     go_Interfaces := go_Interfaces s ++ [i]; go_Imports := go_Imports s |}.

Definition add_control (c : ControlFlow) (s : GoFileSummary) : GoFileSummary :=
  {| go_FilePath := go_FilePath s; go_Variables := go_Variables s;
     go_Functions := go_Functions s;
     go_ControlFlows := go_ControlFlows s ++ [c]; go_Structs := go_Structs s;
     go_Interfaces := go_Interfaces s; go_Imports := go_Imports s |}.

Definition set_structs (sts : list Struct) (s : GoFileSummary) : GoFileSummary :=
  {| go_FilePath := go_FilePath s; go_Variables := go_Variables s;
     go_Functions := go_Functions s;
     go_ControlFlows := go_ControlFlows s; go_Structs := sts;
     go_Interfaces := go_Interfaces s; go_Imports := go_Imports s |}.

(** The callback of the [ast.Inspect] of [analyzeGoFile], applied to one
    node. *)
Definition visit (st : GoFileSummary * gmap string Struct) (n : Node)
  : GoFileSummary * gmap string Struct :=
  let '(summary, allStructs) := st in
  match n with
  | FuncDecl _ Recv _ _ _ _ =>
      let function := extractFunction n in
      let summary := add_function function summary in
      match receiver_type Recv with
      | Some recvType =>
          match allStructs !! recvType with
          | Some s =>
              (summary,
               <[recvType := set_methods s (s_Methods s ++ [function])]> allStructs)
          | None => (summary, allStructs)
          end
      | None => (summary, allStructs)
      end
  | TypeSpec Name (StructType Fields) =>
      let structure :=
        {| s_Name := Name; s_Fields := extractStructFields Fields;
           s_Methods := []; s_Line := 0 |} in
      (add_struct structure summary, <[Name := structure]> allStructs)
  | TypeSpec Name (InterfaceType Methods) =>
      (add_interface {| i_Name := Name;
                        i_Methods := extractInterfaceMethods Methods |} summary,
       allStructs)
  | IfStmt line _ _ Body _ =>
      (add_control
         (control_node "if" line
            (match Body with
             | Some List => extractNestedControlFlow List
             | None => []
             end)) summary, allStructs)
  | ForStmt line _ _ _ Body =>
      (add_control
         (control_node "for" line
            (match Body with
             | Some List => extractNestedControlFlow List
             | None => []
             end)) summary, allStructs)
  | SwitchStmt line _ _ Body =>
      (add_control (control_node "switch" line (switch_children Body)) summary,
       allStructs)
  | _ => st
  end.

(** The final loop "Update struct methods". *)
Definition update_struct (allStructs : gmap string Struct) (s : Struct) : Struct :=
  match allStructs !! s_Name s with
  | Some updatedStruct =>
      if (0 <? length (s_Methods updatedStruct))%nat
      then set_methods s (s_Methods updatedStruct)
      else s
  | None => s
  end.

Definition empty_summary (filePath : string) : GoFileSummary :=
  {| go_FilePath := filePath; go_Variables := []; go_Functions := [];
     go_ControlFlows := []; go_Structs := []; go_Interfaces := [];
     go_Imports := [] |}.

(** [analyzeGoFile] after a successful parse. *)
Definition analyze_parsed (filePath : string) (node : File)
    (allStructs : gmap string Struct) : GoFileSummary * gmap string Struct :=
  let summary :=
    {| go_FilePath := filePath;
       go_Variables := flat_map global_variables (Decls node);
       go_Functions := []; go_ControlFlows := []; go_Structs := [];
       go_Interfaces := [];
       go_Imports := flat_map import_path (Imports node) |} in
  let '(summary, allStructs) := foldl visit (summary, allStructs) (inspect_file node) in
  (set_structs (update_struct allStructs <$> go_Structs summary) summary, allStructs).

(** The line [analyzeGoFile] prints for a file that does not parse:
    ["Error parsing Go file %s: %v\n"]. *)
Definition parse_diagnostic (filePath err : string) : string :=
  "Error parsing Go file " ++ filePath ++ ": " ++ err ++ String nl "".

(** [analyzeGoFile]; [parsed] is what [parser.ParseFile] returned: the error
    text or the tree. *)
Definition analyzeGoFile (filePath : string) (parsed : string + File)
    (r : Registries) : GoFileSummary * Registries :=
  match parsed with
  | inl err =>
      (empty_summary filePath,
       {| allFunctions := allFunctions r; allStructs := allStructs r;
          allClasses := allClasses r; allPythonClasses := allPythonClasses r;
          stdout := stdout r ++
            [parse_diagnostic filePath err] |})
  | inr node =>
      let '(summary, structs) := analyze_parsed filePath node (allStructs r) in
      (summary,
       {| allFunctions := allFunctions r; allStructs := structs;
          allClasses := allClasses r; allPythonClasses := allPythonClasses r;
          stdout := stdout r |})
  end.

End GoExtractor.
(** *** The delimiter-scoped extractor ([analyzePhpFile]) *)

Module Php.
Import GoStrings Regexp.
Open Scope string_scope.
Open Scope Z_scope.

Definition squote : ascii := ascii_of_nat 39.
Definition is_quote (c : ascii) : bool := Ascii.eqb c squote || Ascii.eqb c dquote.

Definition visibility : re :=
  Alt (lit_i "public") (Alt (lit_i "protected") (lit_i "private")).

(** [(?i)(include|require)(_once)?\s*\(\s*Q([^Q]+)Q\s*\)], where [Q] stands for
    the class of the two quote characters (single and double). *)
Definition includeRegex : re :=
  cat [Cap 1 (Alt (lit_i "include") (lit_i "require")); Opt (Cap 2 (lit_i "_once"));
       star cls_s; chr "("; star cls_s; Byte is_quote;
       Cap 3 (plus (fun c => negb (is_quote c))); Byte is_quote;
       star cls_s; chr ")"].

(** [(?i)class\s+(\w+)(?:\s+extends\s+(\w+))?(?:\s+implements\s+([\w,\s]+))?] *)
Definition classRegex : re :=
  cat [lit_i "class"; plus cls_s; Cap 1 (plus cls_w);
       Opt (cat [plus cls_s; lit_i "extends"; plus cls_s; Cap 2 (plus cls_w)]);
       Opt (cat [plus cls_s; lit_i "implements"; plus cls_s;
                 Cap 3 (plus (fun c => cls_w c || Ascii.eqb c "," || cls_s c))])].

(** [function\s+(\w+)\s*\((.*?)\)] *)
Definition functionRegex : re :=
  cat [lit "function"; plus cls_s; Cap 1 (plus cls_w); star cls_s; chr "(";
       Cap 2 (star_lz cls_dot); chr ")"].

(** [\$(\w+)\s*=] *)
Definition globalVarRegex : re :=
  cat [chr "$"; Cap 1 (plus cls_w); star cls_s; chr "="].

(** [(?i)(public|protected|private)\s+(\$\w+)] *)
Definition propertyRegex : re :=
  cat [Cap 1 visibility; plus cls_s; Cap 2 (cat [chr "$"; plus cls_w])].

(** [(?i)(public|protected|private)?\s*function\s+(\w+)\s*\((.*?)\)] *)
Definition methodRegex : re :=
  cat [Opt (Cap 1 visibility); star cls_s; lit_i "function"; plus cls_s;
       Cap 2 (plus cls_w); star cls_s; chr "("; Cap 3 (star_lz cls_dot); chr ")"].

(** [(\$\w+->)?(\w+)\s*\(] *)
Definition callRegex : re :=
  cat [Opt (Cap 1 (cat [chr "$"; plus cls_w; lit "->"])); Cap 2 (plus cls_w);
       star cls_s; chr "("].

(** The pattern table of [extractPhpControlFlow] and
    [findNestedPhpControlFlow]: [kw\s*\(] for each keyword. *)
Definition control_pattern (kw : string) : string * re :=
  (kw, cat [lit kw; star cls_s; chr "("]).

Definition patterns : list (string * re) :=
  control_pattern <$> ["if"; "for"; "while"; "foreach"; "switch"].

(** [isWithinString] *)
Definition isWithinString (content : string) (pos : Z) : Result bool :=
  before ← checked (slice_to content pos);
  let singleQuotes :=
    Count before (String squote "") - Count before (String backslash (String squote "")) in
  let doubleQuotes :=
    Count before (String dquote "") - Count before (String backslash (String dquote "")) in
  Ok ((singleQuotes `rem` 2 =? 1) || (doubleQuotes `rem` 2 =? 1)).

(** [isWithinFunction] *)
Definition isWithinFunction (content : string) (pos : Z) : Result bool :=
  before ← checked (slice_to content pos);
  let openCount := Count before "{" in
  let closeCount := Count before "}" in
  Ok (closeCount <? openCount).

(** [isWithinClass] and [isWithinMethod], which differ in the keyword only. *)
Definition within_keyword (keyword : string) (content : string) (pos : Z)
  : Result bool :=
  before ← checked (slice_to content pos);
  let lastPos := LastIndex before keyword in
  if lastPos =? -1 then Ok false
  else
    part ← checked (slice content lastPos pos);
    let openBracePos := Index part "{" in
    if openBracePos =? -1 then Ok false
    else
      inner ← checked (slice content (lastPos + openBracePos + 1) pos);
      let openCount := Count inner "{" in
      let closeCount := Count inner "}" in
      Ok (closeCount <=? openCount).

Definition isWithinClass : string -> Z -> Result bool := within_keyword "class ".
Definition isWithinMethod : string -> Z -> Result bool := within_keyword "function ".

Definition variable (name type scope : string) (line : Z) : Variable_ :=
  {| v_Name := name; v_Type := type; v_Scope := scope; v_Line := line |}.

(** [extractPhpProperties] *)
Definition extractPhpProperties (content : string) (classStartPos : Z)
  : Result (list Variable_) :=
  rest ← checked (slice_from content classStartPos);
  let openBracePos := Index rest "{" in
  if openBracePos =? -1 then Ok []
  else
    let classBodyStart := classStartPos + openBracePos + 1 in
    body ← checked (slice_from content classBodyStart);
    for_each (fun properties m =>
      if (4 <=? length m)%nat then
        let propPos := classBodyStart + at_index m 0 in
        inMethod ← isWithinMethod content propPos;
        if inMethod : bool then Ok properties
        else
          visibility ← checked (slice content (classBodyStart + at_index m 2)
                                              (classBodyStart + at_index m 3));
          propName ← checked (slice content (classBodyStart + at_index m 4)
                                            (classBodyStart + at_index m 5));
          before ← checked (slice_to content propPos);
          let lineNumber := countLines before in
          Ok (properties ++ [variable propName "inferred" visibility lineNumber])%list
      else Ok properties)
      (FindAllStringSubmatchIndex propertyRegex 2 body) [].

(** [parsePhpFunctionArgs] *)
Definition parsePhpFunctionArgs (argsStr : string) (lineNumber : Z) : list Variable_ :=
  foldl (fun args arg =>
    let arg := TrimSpace arg in
    if String.eqb arg "" then args
    else
      let typeParts := Fields arg in
      if (2 <=? length typeParts)%nat && HasPrefix (List.last typeParts "") "$" then
        let varName := List.last typeParts "" in
        let typeHint := Join (removelast typeParts) " " in
        (args ++ [variable varName typeHint "parameter" lineNumber])%list
      else if HasPrefix arg "$" then
        (args ++ [variable arg "mixed" "parameter" lineNumber])%list
      else args)
    [] (Split argsStr ",").

(** The loop that looks for the end of a block, shared by
    [extractPhpFunctionCalls] and [findNestedPhpControlFlow]: [rest] is
    [content[i:]], the result the final value of the end position. *)
Fixpoint brace_loop (rest : string) (i braceCount bodyEnd : Z) : Z :=
  match rest with
  | String c t =>
      if 0 <? braceCount then
        let braceCount :=
          if Ascii.eqb c "{" then braceCount + 1
          else if Ascii.eqb c "}" then braceCount - 1
          else braceCount in
        brace_loop t (i + 1) braceCount i
      else bodyEnd
  | EmptyString => bodyEnd
  end.

(** Block-end location: the body of the first block opened at or after
    [startPos], as the pair of its start and of the end position the loop
    computes; [None] when no open delimiter follows. *)
Definition find_body (content : string) (startPos : Z) : Result (option (Z * Z)) :=
  rest ← checked (slice_from content startPos);
  let openBracePos := Index rest "{" in
  if openBracePos =? -1 then Ok None
  else
    let bodyStart := startPos + openBracePos + 1 in
    Ok (Some (bodyStart,
              brace_loop (drop_bytes (Z.to_nat bodyStart) content) bodyStart 1 bodyStart)).

Definition is_construct (callName : string) : bool :=
  String.eqb callName "if" || String.eqb callName "for" || String.eqb callName "while"
  || String.eqb callName "foreach" || String.eqb callName "switch".

(** [extractPhpFunctionCalls] *)
Definition extractPhpFunctionCalls (content : string) (funcStartPos : Z)
  : Result (list string) :=
  found ← find_body content funcStartPos;
  match found with
  | None => Ok []
  | Some (funcBodyStart, funcBodyEnd) =>
      if funcBodyEnd <=? funcBodyStart then Ok []
      else
        funcBody ← checked (slice content funcBodyStart funcBodyEnd);
        Ok (foldl (fun calls m =>
              if (3 <=? length m)%nat then
                let callName := nth 2 m "" in
                if is_construct callName then calls
                else appendIfNotExists calls callName
              else calls)
            [] (FindAllStringSubmatch callRegex 2 funcBody))
  end.

(** [extractPhpMethods] *)
Definition extractPhpMethods (content : string) (classStartPos : Z) (className : string)
  : Result (list Function_) :=
  rest ← checked (slice_from content classStartPos);
  let openBracePos := Index rest "{" in
  if openBracePos =? -1 then Ok []
  else
    let classBodyStart := classStartPos + openBracePos + 1 in
    body ← checked (slice_from content classBodyStart);
    for_each (fun methods m =>
      if (6 <=? length m)%nat then
        let methodPos := classBodyStart + at_index m 0 in
        methodName ← checked (slice content (classBodyStart + at_index m 4)
                                            (classBodyStart + at_index m 5));
        argsStr ← checked (slice content (classBodyStart + at_index m 6)
                                         (classBodyStart + at_index m 7));
        before ← checked (slice_to content methodPos);
        let lineNumber := countLines before in
        calls ← extractPhpFunctionCalls content methodPos;
        Ok (methods ++
            [ {| f_Name := methodName;
                 f_Args := parsePhpFunctionArgs argsStr lineNumber;
                 f_Returns := [];
                 f_Receiver := className;
                 f_Line := lineNumber;
                 f_Calls := calls |} ])%list
      else Ok methods)
      (FindAllStringSubmatchIndex methodRegex 3 body) [].

(** The body of the loop over the matches of one pattern; [base] is the
    position the match offsets are relative to ([0] at the top level, the
    start of the body in the nested search) and [recur] the search for
    nested structures. *)
Definition control_match (recur : Z -> Walk (list ControlFlow))
    (content : string) (base : Z) (controlType : string)
    (controls : list ControlFlow) (m : list Z) : Walk (list ControlFlow) :=
  let startPos := base + at_index m 0 in
  walk_bind (walk_lift (isWithinString content startPos)) (fun inString : bool =>
  if inString then walk_ret controls
  else
    walk_bind (walk_lift (checked (slice_to content startPos))) (fun before =>
    let lineNumber := countLines before in
    walk_bind (recur startPos) (fun children =>
    walk_ret (controls ++
      [ {| cf_Type := controlType; cf_Line := lineNumber;
           cf_Children := children |} ])%list))).

(** The body of the loop over the pattern table: the matches of one
    pattern in [text]. *)
Definition control_entry (recur : Z -> Walk (list ControlFlow))
    (content : string) (base : Z) (text : string)
    (controls : list ControlFlow) (entry : string * re) : Walk (list ControlFlow) :=
  walk_each (control_match recur content base entry.1)
    (FindAllStringIndex entry.2 text) controls.

(** [findNestedPhpControlFlow].  Every recursive call starts strictly after
    the start of its caller, so [fuel] above the length of [content] is never
    exhausted. *)
Fixpoint findNestedPhpControlFlow (choose : nat -> list (string * re)) (fuel : nat)
    (content : string) (startPos : Z) : Walk (list ControlFlow) :=
  match fuel with
  | O => fun _ => NoFuel
  | S fuel =>
      walk_bind (walk_lift (find_body content startPos)) (fun found =>
      match found with
      | None => walk_ret []
      | Some (bodyStart, bodyEnd) =>
          if bodyEnd <=? bodyStart then walk_ret []
          else
            walk_bind (walk_lift (checked (slice content bodyStart bodyEnd))) (fun body =>
            fun n =>
              walk_each
                (control_entry (findNestedPhpControlFlow choose fuel content)
                   content bodyStart body)
                (choose n) [] (S n))
      end)
  end.

(** [extractPhpControlFlow] *)
Definition extractPhpControlFlow (choose : nat -> list (string * re))
    (content : string) : Walk (list ControlFlow) :=
  fun n =>
    walk_each
      (control_entry
         (findNestedPhpControlFlow choose (S (String.length content)) content)
         content 0 content)
      (choose n) [] (S n).

(** The three passes of [analyzePhpFile] that may fail, each over the
    matches of its pattern. *)
Definition php_classes (content : string) : Result (list Struct) :=
  for_each (fun classes m =>
    if (2 <=? length m)%nat then
      let startPos := at_index m 0 in
      className ← checked (slice content (at_index m 2) (at_index m 3));
      before ← checked (slice_to content startPos);
      let lineNumber := countLines before in
      fields ← extractPhpProperties content startPos;
      methods ← extractPhpMethods content startPos className;
      Ok (classes ++ [ {| s_Name := className; s_Fields := fields;
                          s_Methods := methods; s_Line := lineNumber |} ])%list
    else Ok classes)
    (FindAllStringSubmatchIndex classRegex 3 content) [].

Definition php_functions (content : string) : Result (list Function_) :=
  for_each (fun functions m =>
    if (4 <=? length m)%nat then
      let startPos := at_index m 0 in
      inClass ← isWithinClass content startPos;
      if inClass : bool then Ok functions
      else
        functionName ← checked (slice content (at_index m 2) (at_index m 3));
        argsStr ← checked (slice content (at_index m 4) (at_index m 5));
        before ← checked (slice_to content startPos);
        let lineNumber := countLines before in
        calls ← extractPhpFunctionCalls content startPos;
        Ok (functions ++
            [ {| f_Name := functionName;
                 f_Args := parsePhpFunctionArgs argsStr lineNumber;
                 f_Returns := []; f_Receiver := ""; f_Line := lineNumber;
                 f_Calls := calls |} ])%list
    else Ok functions)
    (FindAllStringSubmatchIndex functionRegex 2 content) [].

Definition php_globals (content : string) : Result (list Variable_) :=
  for_each (fun variables m =>
    if (2 <=? length m)%nat then
      let startPos := at_index m 0 in
      inFunction ← isWithinFunction content startPos;
      inClass ← (if inFunction : bool then Ok true else isWithinClass content startPos);
      if inClass : bool then Ok variables
      else
        varName ← checked (slice content (at_index m 2) (at_index m 3));
        before ← checked (slice_to content startPos);
        let lineNumber := countLines before in
        Ok (variables ++ [variable ("$" ++ varName) "inferred" "global" lineNumber])%list
    else Ok variables)
    (FindAllStringSubmatchIndex globalVarRegex 1 content) [].

Definition php_imports (content : string) : list Import_ :=
  flat_map (fun m : list string =>
    if (4 <=? length m)%nat then [ {| Path := nth 3 m "" |} ] else [])
    (FindAllStringSubmatch includeRegex 3 content).

(** [analyzePhpFile] on the text of a file that was read; the summary and
    the registries after the call. *)
Definition analyzePhpFile (choose : nat -> list (string * re)) (filePath content : string)
    (r : Registries) : Result (PhpFileSummary * Registries) :=
  classes ← php_classes content;
  functions ← php_functions content;
  flows ← extractPhpControlFlow choose content 0%nat;
  variables ← php_globals content;
  Ok ({| php_FilePath := filePath; php_Variables := variables;
         php_Functions := functions; php_ControlFlows := flows.1;
         php_Classes := classes; php_Interfaces := [];
         php_Imports := php_imports content |},
      {| allFunctions :=
           foldl (fun m fn => <[f_Name fn := fn]> m) (allFunctions r) functions;
         allStructs := allStructs r;
         allClasses :=
           foldl (fun m cls => <[s_Name cls := cls]> m) (allClasses r) classes;
         allPythonClasses := allPythonClasses r;
         stdout := stdout r |}).

(** Scenario A. *)
Definition scenario_A : string :=
  "class Foo { public function bar($x) { baz(); } }".





(** The aggregate type of scenario A as the extractor records it. *)
Definition scenario_A_class : Struct :=
  {| s_Name := "Foo";
     s_Fields := [];
     s_Methods :=
       [ {| f_Name := "bar";
            f_Args := [variable "$x" "mixed" "parameter" 1];
            f_Returns := [];
            f_Receiver := "Foo";
            f_Line := 1;
            f_Calls := ["baz"] |} ];
     s_Line := 1 |}.

(** What the claim reads off scenario A: one aggregate type [Foo] with a
    method [bar] that has the single parameter [x] and calls [baz]. *)
Definition scenario_A_as_claimed (summary : PhpFileSummary) : Prop :=
  ∃ cls method param,
    php_Classes summary = [cls] ∧ s_Name cls = "Foo"
    ∧ method ∈ s_Methods cls ∧ f_Name method = "bar"
    ∧ f_Args method = [param] ∧ v_Name param = "x"
    ∧ "baz" ∈ f_Calls method.

(** Running balance of a block.  [delimiter_weight] is what a byte adds to
    the balance; [judged_quoted] is the verdict of the quote-parity
    heuristic on a position; [counted skip_quoted content i] is what
    position [i] adds, nothing when [skip_quoted] is set and the position is
    judged inside a quoted string; [balance] is the balance after position
    [j] of the block whose body starts at [bodyStart], the open delimiter
    counting for one. *)
Definition delimiter_weight (c : ascii) : Z :=
  if Ascii.eqb c "{" then 1 else if Ascii.eqb c "}" then -1 else 0.

Definition judged_quoted (content : string) (i : Z) : bool :=
  match isWithinString content i with
  | Ok b => b
  | _ => false
  end.

Definition counted (skip_quoted : bool) (content : string) (i : Z) : Z :=
  match byte_at content i with
  | Some c => if skip_quoted && judged_quoted content i then 0 else delimiter_weight c
  | None => 0
  end.

Fixpoint sum_from (f : Z -> Z) (from : Z) (n : nat) : Z :=
  match n with
  | O => 0
  | S k => f from + sum_from f (from + 1) k
  end.

Definition balance (skip_quoted : bool) (content : string) (bodyStart j : Z) : Z :=
  1 + sum_from (counted skip_quoted content) bodyStart (Z.to_nat (j - bodyStart + 1)).

(** [e] is the first position of the body at which the balance is zero. *)
Definition block_end_at (skip_quoted : bool) (content : string) (bodyStart e : Z)
  : Prop :=
  bodyStart <= e < len content
  ∧ balance skip_quoted content bodyStart e = 0
  ∧ ∀ j, bodyStart <= j < e → balance skip_quoted content bodyStart j ≠ 0.

(** [p] is the first open delimiter at or after [startPos]. *)
Definition first_open (content : string) (startPos p : Z) : Prop :=
  startPos <= p
  ∧ byte_at content p = Some "{"%char
  ∧ ∀ i, startPos <= i < p → byte_at content i ≠ Some "{"%char.

(** A block with a close delimiter inside a quoted string. *)
Definition quoted_brace : string := "{ '}' }".

(** An order for every [range] statement: the order the table is written in. *)
Definition written_order : nat -> list (string * re) := fun _ => patterns.

End Php.
(** *** The indentation-scoped extractor ([analyzePythonFile]) *)

Module Python.
Import GoStrings Regexp.
Open Scope string_scope.
Open Scope Z_scope.

Definition newline : string := String nl "".

Definition not_in (set : string) (c : ascii) : bool := negb (mem_byte c set).

(** [(?m)^import\s+([^#\n]+)] *)
Definition importRegex : re :=
  cat [Bol; lit "import"; plus cls_s; Cap 1 (plus (not_in (String "#" newline)))].

(** [(?m)^from\s+([^\s]+)\s+import\s+([^#\n]+)] *)
Definition fromImportRegex : re :=
  cat [Bol; lit "from"; plus cls_s; Cap 1 (plus (fun c => negb (cls_s c)));
       plus cls_s; lit "import"; plus cls_s;
       Cap 2 (plus (not_in (String "#" newline)))].

(** [(?m)^class\s+(\w+)(?:\s*\(\s*([^)]{0,})\s*\))?:]; the program writes the
    repetition [{0,}] as a star. *)
Definition classRegex : re :=
  cat [Bol; lit "class"; plus cls_s; Cap 1 (plus cls_w);
       Opt (cat [star cls_s; chr "("; star cls_s; Cap 2 (star (not_in ")"));
                 star cls_s; chr ")"]);
       chr ":"].

(** [(?m)^def\s+(\w+)\s*\(\s*(.*?)\s*\):] *)
Definition funcRegex : re :=
  cat [Bol; lit "def"; plus cls_s; Cap 1 (plus cls_w); star cls_s; chr "(";
       star cls_s; Cap 2 (star_lz cls_dot); star cls_s; chr ")"; chr ":"].

(** [(?m)^(\w+)\s*=] *)
Definition globalVarRegex : re :=
  cat [Bol; Cap 1 (plus cls_w); star cls_s; chr "="].

(** [(\w+)\s*:\s*([^=]+)] *)
Definition typeHintRegex : re :=
  cat [Cap 1 (plus cls_w); star cls_s; chr ":"; star cls_s; Cap 2 (plus (not_in "="))].

(** [(?m)^\s+(\w+)\s*=] *)
Definition fieldRegex : re :=
  cat [Bol; plus cls_s; Cap 1 (plus cls_w); star cls_s; chr "="].

(** [(?m)^\s+def\s+(\w+)\s*\(\s*(.*?)\s*\):] *)
Definition methodRegex : re :=
  cat [Bol; plus cls_s; lit "def"; plus cls_s; Cap 1 (plus cls_w); star cls_s;
       chr "("; star cls_s; Cap 2 (star_lz cls_dot); star cls_s; chr ")"; chr ":"].

(** [@(\w+)(?:\(.*?\))?] *)
Definition decoratorRegex : re :=
  cat [chr "@"; Cap 1 (plus cls_w); Opt (cat [chr "("; star_lz cls_dot; chr ")"])].

(** [->\s*([^:]+)] *)
Definition returnTypeRegex : re :=
  cat [lit "->"; star cls_s; Cap 1 (plus (not_in ":"))].

(** [(\w+)\s*\(] *)
Definition callRegex : re := cat [Cap 1 (plus cls_w); star cls_s; chr "("].

(** [(\w+)\.(\w+)\s*\(] *)
Definition methodCallRegex : re :=
  cat [Cap 1 (plus cls_w); chr "."; Cap 2 (plus cls_w); star cls_s; chr "("].

(** The pattern table of [extractPythonControlFlow] and
    [findNestedPythonControlFlow]: [(?m)^(\s{0,})kw\s+.+:], and
    [(?m)^(\s{0,})try\s*:] for [try]; the program writes the repetition
    [{0,}] as a star. *)
Definition control_pattern (kw : string) : string * re :=
  (kw, cat [Bol; Cap 1 (star cls_s); lit kw; plus cls_s; plus cls_dot; chr ":"]).

Definition try_pattern : string * re :=
  ("try", cat [Bol; Cap 1 (star cls_s); lit "try"; star cls_s; chr ":"]).

Definition patterns : list (string * re) :=
  [control_pattern "if"; control_pattern "for"; control_pattern "while";
   try_pattern; control_pattern "with"].

Definition variable (name type scope : string) (line : Z) : Variable_ :=
  {| v_Name := name; v_Type := type; v_Scope := scope; v_Line := line |}.

(** [len(line) - len(strings.TrimLeft(line, " \t"))] *)
Definition indent_of (line : string) : Z :=
  len line - len (TrimLeft line (String " " (String tab ""))).

Definition blank (line : string) : bool := String.eqb (TrimSpace line) "".

(** [parsePythonFunctionArgs] *)
Definition parsePythonFunctionArgs (argsStr : string) (lineNumber : Z) : list Variable_ :=
  if String.eqb argsStr "" then []
  else
    foldl (fun args arg =>
      let arg := TrimSpace arg in
      if String.eqb arg "" then args
      else
        let parts := SplitN arg "=" 2 in
        let paramStr := TrimSpace (hd "" parts) in
        let typeHintParts := SplitN paramStr ":" 2 in
        let paramName := TrimSpace (hd "" typeHintParts) in
        let paramType :=
          if (1 <? length typeHintParts)%nat
          then TrimSpace (nth 1 typeHintParts "")
          else "Any" in
        if HasPrefix paramName "*" then args
        else (args ++ [variable paramName paramType "parameter" lineNumber])%list)
      [] (Split argsStr ",").

(** [extractPythonDecorators] *)
Definition extractPythonDecorators (content : string) (funcPos : Z)
  : Result (list string) :=
  let searchStart := if 200 <? funcPos then funcPos - 200 else 0 in
  searchText ← checked (slice content searchStart funcPos);
  Ok (flat_map (fun m : list string =>
        if (2 <=? length m)%nat then [nth 1 m ""] else [])
      (FindAllStringSubmatch decoratorRegex 1 searchText)).

(** [extractPythonReturnType] *)
Definition extractPythonReturnType (content : string) (funcEnd : Z) : Result string :=
  rest ← checked (slice_from content funcEnd);
  let endOfLine := Index rest newline in
  let endOfLine := if endOfLine =? -1 then len content - funcEnd else endOfLine in
  searchText ← checked (slice content (funcEnd - 20) (funcEnd + endOfLine));
  let returnTypeMatch := FindStringSubmatch returnTypeRegex 1 searchText in
  if (2 <=? length returnTypeMatch)%nat
  then Ok (TrimSpace (nth 1 returnTypeMatch ""))
  else Ok "".

Definition keywords : list string :=
  ["False"; "None"; "True"; "and"; "as"; "assert"; "async"; "await"; "break";
   "class"; "continue"; "def"; "del"; "elif"; "else"; "except"; "finally";
   "for"; "from"; "global"; "if"; "import"; "in"; "is"; "lambda"; "nonlocal";
   "not"; "or"; "pass"; "raise"; "return"; "try"; "while"; "with"; "yield"].

Definition builtins : list string :=
  ["abs"; "all"; "any"; "bin"; "bool"; "chr"; "dict"; "dir"; "divmod";
   "enumerate"; "filter"; "float"; "format"; "frozenset"; "getattr"; "hasattr";
   "hash"; "hex"; "id"; "input"; "int"; "isinstance"; "issubclass"; "iter";
   "len"; "list"; "map"; "max"; "min"; "next"; "oct"; "open"; "ord"; "pow";
   "print"; "property"; "range"; "repr"; "reversed"; "round"; "set"; "slice";
   "sorted"; "staticmethod"; "str"; "sum"; "super"; "tuple"; "type"; "vars";
   "zip"].

(** [isPythonKeywordOrBuiltin] *)
Definition isPythonKeywordOrBuiltin (name : string) : bool :=
  existsb (String.eqb name) keywords || existsb (String.eqb name) builtins.

(** The second loop of [extractPythonFunctionCalls]: the non-blank lines up
    to the first one indented less than the body. *)
Fixpoint body_lines (indentLevel : Z) (lines : list string) : list string :=
  match lines with
  | [] => []
  | line :: rest =>
      if blank line then body_lines indentLevel rest
      else if indent_of line <? indentLevel then []
      else line :: body_lines indentLevel rest
  end.

(** The first loop of [extractPythonFunctionCalls]: skip the blank lines
    after the header. *)
Fixpoint skip_blank (lines : list string) : list string :=
  match lines with
  | [] => []
  | line :: rest => if blank line then skip_blank rest else lines
  end.

(** [extractPythonFunctionCalls] *)
Definition extractPythonFunctionCalls (content : string) (funcPos : Z)
  : Result (list string) :=
  rest ← checked (slice_from content funcPos);
  let lines := Split rest newline in
  if (length lines <? 2)%nat then Ok []
  else
    match skip_blank (tail lines) with
    | [] => Ok []
    | first :: others =>
        let indentLevel := indent_of first in
        if indentLevel =? 0 then Ok []
        else
          let bodyText := Join (body_lines indentLevel (first :: others)) newline in
          let calls :=
            foldl (fun calls (m : list string) =>
              if (2 <=? length m)%nat then
                let funcName := nth 1 m "" in
                if isPythonKeywordOrBuiltin funcName then calls
                else appendIfNotExists calls funcName
              else calls)
            [] (FindAllStringSubmatch callRegex 1 bodyText) in
          Ok (foldl (fun calls (m : list string) =>
                if (3 <=? length m)%nat then
                  let objName := nth 1 m "" in
                  let methodName := nth 2 m "" in
                  if isPythonKeywordOrBuiltin methodName then calls
                  else appendIfNotExists calls (objName ++ "." ++ methodName)
                else calls)
              calls (FindAllStringSubmatch methodCallRegex 2 bodyText))
    end.

(** The line of [pos] up to [pos], and the text before that line. *)
Definition line_context (content : string) (pos : Z) : Result (string * string) :=
  before ← checked (slice_to content pos);
  let lineStart := LastIndex before newline in
  let lineStart := if lineStart =? -1 then 0 else lineStart + 1 in
  currentLine ← checked (slice content lineStart pos);
  head ← checked (slice_to content lineStart);
  Ok (currentLine, head).

(** [isPythonMethod] *)
Definition isPythonMethod (content : string) (pos : Z) : Result bool :=
  ctx ← line_context content pos;
  Ok (0 <? indent_of ctx.1).

(** The backward scan of [isPythonWithinFunction] over the lines before the
    current one, nearest line first. *)
Fixpoint scan_function (currentIndent : Z) (lines : list string) : bool :=
  match lines with
  | [] => false
  | line :: rest =>
      if blank line then scan_function currentIndent rest
      else
        let lineIndent := indent_of line in
        if lineIndent <=? currentIndent then
          let trimmedLine := TrimSpace line in
          if (3 <=? len trimmedLine) && String.eqb (String.substring 0 3 trimmedLine) "def"
          then true
          else if (lineIndent <? currentIndent) && (0 <? len trimmedLine)
                  && HasSuffix trimmedLine ":"
          then false
          else scan_function currentIndent rest
        else scan_function currentIndent rest
  end.

(** [isPythonWithinFunction] *)
Definition isPythonWithinFunction (content : string) (pos : Z) : Result bool :=
  ctx ← line_context content pos;
  let currentIndent := indent_of ctx.1 in
  let lines := Split ctx.2 newline in
  Ok (scan_function currentIndent (reverse lines)).

(** The backward scan of [isPythonWithinClass]. *)
Fixpoint scan_class (currentIndent : Z) (lines : list string) : Result bool :=
  match lines with
  | [] => Ok false
  | line :: rest =>
      if blank line then scan_class currentIndent rest
      else
        let lineIndent := indent_of line in
        if lineIndent <? currentIndent then
          word ← checked (slice_to (TrimSpace line) 5);
          if String.eqb word "class" then Ok true
          else if HasSuffix (TrimSpace line) ":" then Ok false
          else scan_class currentIndent rest
        else scan_class currentIndent rest
  end.

(** [isPythonWithinClass] *)
Definition isPythonWithinClass (content : string) (pos : Z) : Result bool :=
  ctx ← line_context content pos;
  let currentIndent := indent_of ctx.1 in
  let lines := Split ctx.2 newline in
  scan_class currentIndent (reverse lines).

(** [isPythonWithinMethod] *)
Definition isPythonWithinMethod (content : string) (pos : Z) : Result bool :=
  inFunction ← isPythonWithinFunction content pos;
  if inFunction : bool then isPythonWithinClass content pos else Ok false.

(** The type read off the line that starts at [startPos] (the type-hint
    lookup of the field and global-variable loops). *)
Definition hinted_type (content : string) (startPos : Z) : Result string :=
  rest ← checked (slice_from content startPos);
  let lineEnd := Index rest newline in
  let lineEnd := if lineEnd =? -1 then len content - startPos else lineEnd in
  line ← checked (slice content startPos (startPos + lineEnd));
  let typeHintMatch := FindStringSubmatch typeHintRegex 2 line in
  if (3 <=? length typeHintMatch)%nat
  then Ok (TrimSpace (nth 2 typeHintMatch ""))
  else Ok "inferred".

(** [extractPythonClassFields] *)
Definition extractPythonClassFields (content : string) (classBodyStart : Z)
  : Result (list Variable_) :=
  body ← checked (slice_from content classBodyStart);
  for_each (fun fields m =>
    if (2 <=? length m)%nat then
      let startPos := classBodyStart + at_index m 0 in
      inMethod ← isPythonWithinMethod content startPos;
      if inMethod : bool then Ok fields
      else
        fieldName ← checked (slice content (classBodyStart + at_index m 2)
                                           (classBodyStart + at_index m 3));
        before ← checked (slice_to content startPos);
        let lineNumber := countLines before in
        fieldType ← hinted_type content startPos;
        Ok (fields ++ [variable fieldName fieldType "class" lineNumber])%list
    else Ok fields)
    (FindAllStringSubmatchIndex fieldRegex 1 body) [].

(** The handling of [self] and [cls] in [extractPythonClassMethods]. *)
Definition strip_owner (decorators : list string) (args : list Variable_)
  : list Variable_ :=
  let isStatic := existsb (String.eqb "staticmethod") decorators in
  let isClassMethod := existsb (String.eqb "classmethod") decorators in
  match args with
  | [] => args
  | first :: rest =>
      if isStatic then args
      else if isClassMethod then
        (if String.eqb (v_Name first) "cls" then rest else args)
      else (if String.eqb (v_Name first) "self" then rest else args)
  end.

(** [extractPythonClassMethods] *)
Definition extractPythonClassMethods (content : string) (classBodyStart : Z)
    (className : string) : Result (list Function_) :=
  body ← checked (slice_from content classBodyStart);
  for_each (fun methods m =>
    if (4 <=? length m)%nat then
      let startPos := classBodyStart + at_index m 0 in
      methodName ← checked (slice content (classBodyStart + at_index m 2)
                                          (classBodyStart + at_index m 3));
      argsStr ← checked (slice content (classBodyStart + at_index m 4)
                                       (classBodyStart + at_index m 5));
      before ← checked (slice_to content startPos);
      let lineNumber := countLines before in
      decorators ← extractPythonDecorators content startPos;
      let args := strip_owner decorators (parsePythonFunctionArgs argsStr lineNumber) in
      returnTypeHint ← extractPythonReturnType content (classBodyStart + at_index m 1);
      calls ← extractPythonFunctionCalls content startPos;
      Ok (methods ++
          [ {| f_Name := methodName; f_Args := args;
               f_Returns := if String.eqb returnTypeHint "" then [] else [returnTypeHint];
               f_Receiver := className; f_Line := lineNumber; f_Calls := calls |} ])%list
    else Ok methods)
    (FindAllStringSubmatchIndex methodRegex 2 body) [].

(** The first loop of [findNestedPythonControlFlow]: the end of the parent
    block.  [lines] are the lines after the first, [linePos] the position of
    the first of them. *)
Fixpoint block_end (parentIndent : Z) (lines : list string) (linePos endPos : Z) : Z :=
  match lines with
  | [] => endPos
  | line :: rest =>
      if blank line then block_end parentIndent rest (linePos + len line + 1) endPos
      else if indent_of line <=? parentIndent then linePos
      else block_end parentIndent rest (linePos + len line + 1) endPos
  end.

(** The block [findNestedPythonControlFlow] searches: [content] from
    [startPos] to the end of the parent block; [None] when the bounds checks
    of the function make it return early. *)
Definition block_of (content : string) (startPos parentIndent : Z)
  : Result (option string) :=
  rest ← checked (slice_from content startPos);
  let lines := Split rest newline in
  let endPos :=
    if (1 <? length lines)%nat
    then block_end parentIndent (tail lines)
           (startPos + len (hd "" lines) + 1) (len content)
    else len content in
  let endPos := if len content <? endPos then len content else endPos in
  if len content <=? startPos then Ok None
  else if endPos <? startPos then Ok None
  else
    blockContent ← checked (slice content startPos endPos);
    Ok (Some blockContent).

(** The body of the loop over the matches of one pattern in the block;
    [recur] is the recursive call. *)
Definition nested_match (recur : Z -> Z -> Walk (list ControlFlow))
    (content : string) (startPos parentIndent : Z) (blockContent controlType : string)
    (nested : list ControlFlow) (m : list Z) : Walk (list ControlFlow) :=
  if (4 <=? length m)%nat then
    let nestedStartPos := startPos + at_index m 0 in
    let nestedIndentStart := at_index m 2 in
    let nestedIndentEnd := at_index m 3 in
    if (nestedIndentStart <? 0) || (len blockContent <? nestedIndentEnd)
       || (nestedIndentEnd <? nestedIndentStart)
    then walk_ret nested
    else
      let nestedIndent := nestedIndentEnd - nestedIndentStart in
      if nestedIndent <=? parentIndent then walk_ret nested
      else
        walk_bind (walk_lift (checked (slice_to content nestedStartPos))) (fun before =>
        let lineNumber := countLines before in
        walk_bind (recur nestedStartPos nestedIndent) (fun children =>
        walk_ret (nested ++
          [ {| cf_Type := controlType; cf_Line := lineNumber;
               cf_Children := children |} ])%list))
  else walk_ret nested.

(** The body of the loop over the pattern table. *)
Definition nested_entry (recur : Z -> Z -> Walk (list ControlFlow))
    (content : string) (startPos parentIndent : Z) (blockContent : string)
    (nested : list ControlFlow) (entry : string * re) : Walk (list ControlFlow) :=
  walk_each (nested_match recur content startPos parentIndent blockContent entry.1)
    (FindAllStringSubmatchIndex entry.2 1 blockContent) nested.

(** [findNestedPythonControlFlow].  A recursive call has a larger
    [parentIndent], which the length of [content] bounds, so [fuel] above
    that length is never exhausted. *)
Fixpoint findNestedPythonControlFlow (choose : nat -> list (string * re)) (fuel : nat)
    (content : string) (startPos parentIndent : Z) : Walk (list ControlFlow) :=
  match fuel with
  | O => fun _ => NoFuel
  | S fuel =>
      walk_bind (walk_lift (block_of content startPos parentIndent)) (fun block =>
      match block with
      | None => walk_ret []
      | Some blockContent =>
          fun n =>
            walk_each
              (nested_entry (findNestedPythonControlFlow choose fuel content)
                 content startPos parentIndent blockContent)
              (choose n) [] (S n)
      end)
  end.

(** The body of the loop of [extractPythonControlFlow] over the matches of
    one pattern; [nested] is the search for nested structures. *)
Definition root_match (nested : Z -> Z -> Walk (list ControlFlow))
    (content controlType : string)
    (controls : list ControlFlow) (m : list Z) : Walk (list ControlFlow) :=
  if (2 <=? length m)%nat then
    let startPos := at_index m 0 in
    walk_bind (walk_lift (checked (slice_to content startPos))) (fun before =>
    let lineNumber := countLines before in
    walk_bind (walk_lift (checked (slice content (at_index m 2) (at_index m 3))))
      (fun indentation =>
    walk_bind (nested startPos (len indentation)) (fun children =>
    walk_ret (controls ++
      [ {| cf_Type := controlType; cf_Line := lineNumber;
           cf_Children := children |} ])%list)))
  else walk_ret controls.

Definition root_entry (nested : Z -> Z -> Walk (list ControlFlow)) (content : string)
    (controls : list ControlFlow) (entry : string * re) : Walk (list ControlFlow) :=
  walk_each (root_match nested content entry.1)
    (FindAllStringSubmatchIndex entry.2 1 content) controls.

(** [extractPythonControlFlow] *)
Definition extractPythonControlFlow (choose : nat -> list (string * re))
    (content : string) : Walk (list ControlFlow) :=
  fun n =>
    walk_each
      (root_entry
         (findNestedPythonControlFlow choose (S (S (String.length content))) content)
         content)
      (choose n) [] (S n).

(** The imports one match of an import pattern contributes. *)
Definition imports_of_match (m : list string) : list Import_ :=
  if (2 <=? length m)%nat then
    let importPath := TrimSpace (nth 1 m "") in
    let direct :=
      if Contains importPath ","
      then flat_map (fun imp =>
             let imp := TrimSpace imp in
             if String.eqb imp "" then [] else [ {| Path := imp |} ])
             (Split importPath ",")
      else [ {| Path := importPath |} ] in
    let named :=
      if (3 <=? length m)%nat then
        let imports := TrimSpace (nth 2 m "") in
        if String.eqb imports "*" then [ {| Path := importPath ++ ".*" |} ]
        else if Contains imports ","
        then flat_map (fun imp =>
               let imp := TrimSpace imp in
               if String.eqb imp "" then [] else [ {| Path := importPath ++ "." ++ imp |} ])
               (Split imports ",")
        else [ {| Path := importPath ++ "." ++ imports |} ]
      else [] in
    (direct ++ named)%list
  else [].

Definition py_imports (content : string) : list Import_ :=
  (flat_map imports_of_match (FindAllStringSubmatch importRegex 1 content)
   ++ flat_map imports_of_match (FindAllStringSubmatch fromImportRegex 2 content))%list.

(** The class loop of [analyzePythonFile].  The parent classes it splits off
    are stored nowhere. *)
Definition py_classes (content : string) : Result (list Struct) :=
  for_each (fun classes m =>
    if (2 <=? length m)%nat then
      let startPos := at_index m 0 in
      className ← checked (slice content (at_index m 2) (at_index m 3));
      before ← checked (slice_to content startPos);
      let lineNumber := countLines before in
      let classBodyStart := at_index m 1 + 1 in
      fields ← extractPythonClassFields content classBodyStart;
      methods ← extractPythonClassMethods content classBodyStart className;
      Ok (classes ++ [ {| s_Name := className; s_Fields := fields;
                          s_Methods := methods; s_Line := lineNumber |} ])%list
    else Ok classes)
    (FindAllStringSubmatchIndex classRegex 2 content) [].

(** The function loop of [analyzePythonFile]: the functions and the
    decorators of the summary. *)
Definition py_functions (content : string) : Result (list Function_ * list string) :=
  for_each (fun (acc : list Function_ * list string) m =>
    let '(functions, allDecorators) := acc in
    if (4 <=? length m)%nat then
      let startPos := at_index m 0 in
      isMethod ← isPythonMethod content startPos;
      if isMethod : bool then Ok acc
      else
        functionName ← checked (slice content (at_index m 2) (at_index m 3));
        argsStr ← checked (slice content (at_index m 4) (at_index m 5));
        before ← checked (slice_to content startPos);
        let lineNumber := countLines before in
        decorators ← extractPythonDecorators content startPos;
        let allDecorators := foldl appendIfNotExists allDecorators decorators in
        returnTypeHint ← extractPythonReturnType content (at_index m 1);
        calls ← extractPythonFunctionCalls content startPos;
        Ok ((functions ++
             [ {| f_Name := functionName;
                  f_Args := parsePythonFunctionArgs argsStr lineNumber;
                  f_Returns := if String.eqb returnTypeHint "" then [] else [returnTypeHint];
                  f_Receiver := ""; f_Line := lineNumber; f_Calls := calls |} ])%list,
            allDecorators)
    else Ok acc)
    (FindAllStringSubmatchIndex funcRegex 2 content) ([], []).

(** The global-variable loop of [analyzePythonFile]. *)
Definition py_globals (content : string) : Result (list Variable_) :=
  for_each (fun variables m =>
    if (2 <=? length m)%nat then
      let startPos := at_index m 0 in
      inFunction ← isPythonWithinFunction content startPos;
      inClass ← (if inFunction : bool then Ok true else isPythonWithinClass content startPos);
      if inClass : bool then Ok variables
      else
        varName ← checked (slice content (at_index m 2) (at_index m 3));
        if String.eqb varName "import" || String.eqb varName "from" then Ok variables
        else
          before ← checked (slice_to content startPos);
          let lineNumber := countLines before in
          varType ← hinted_type content startPos;
          Ok (variables ++ [variable varName varType "global" lineNumber])%list
    else Ok variables)
    (FindAllStringSubmatchIndex globalVarRegex 1 content) [].

(** [analyzePythonFile] on the text of a file that was read. *)
Definition analyzePythonFile (choose : nat -> list (string * re))
    (filePath content : string) (r : Registries)
  : Result (PythonFileSummary * Registries) :=
  classes ← py_classes content;
  functions ← py_functions content;
  flows ← extractPythonControlFlow choose content 0%nat;
  variables ← py_globals content;
  Ok ({| py_FilePath := filePath; py_Variables := variables;
         py_Functions := functions.1; py_ControlFlows := flows.1;
         py_Classes := classes; py_Imports := py_imports content;
         py_Decorators := functions.2 |},
      {| allFunctions :=
           foldl (fun m fn => <[f_Name fn := fn]> m) (allFunctions r) functions.1;
         allStructs := allStructs r;
         allClasses := allClasses r;
         allPythonClasses :=
           foldl (fun m cls => <[s_Name cls := cls]> m) (allPythonClasses r) classes;
         stdout := stdout r |}).

Definition written_order : nat -> list (string * re) := fun _ => patterns.

(** Line properties the within-callable scan looks at. *)
Definition starts_def (line : string) : bool :=
  (3 <=? len (TrimSpace line))
  && String.eqb (String.substring 0 3 (TrimSpace line)) "def".

Definition ends_colon (line : string) : bool := HasSuffix (TrimSpace line) ":".

(** A line that settles the scan for a position indented by
    [currentIndent]: not blank, indented no more than the position, and
    either starting with [def] or strictly shallower and ending in the block
    marker. *)
Definition settles (currentIndent : Z) (line : string) : bool :=
  negb (blank line) && (indent_of line <=? currentIndent)
  && (starts_def line || ((indent_of line <? currentIndent) && ends_colon line)).

(** Within a callable, as the scan decides it: among the lines before the
    position, nearest first, the first line that settles the scan starts
    with [def]. *)
Definition def_settles_first (currentIndent : Z) (lines : list string) : Prop :=
  ∃ nearer header farther,
    lines = (nearer ++ header :: farther)%list
    ∧ Forall (fun line => settles currentIndent line = false) nearer
    ∧ blank header = false
    ∧ indent_of header <= currentIndent
    ∧ starts_def header = true.

(** Within a callable, in the words of the claim: a callable header of
    strictly smaller indentation precedes the position, and between the
    nearest such header and the position there is no other block header of
    smaller or equal indentation. *)
Definition callable_header (line : string) : Prop :=
  blank line = false ∧ starts_def line = true.

Definition other_block_header (line : string) : Prop :=
  blank line = false ∧ ends_colon line = true ∧ starts_def line = false.

Definition within_callable_as_claimed (currentIndent : Z) (lines : list string) : Prop :=
  ∃ nearer header farther,
    lines = (nearer ++ header :: farther)%list
    ∧ callable_header header
    ∧ indent_of header < currentIndent
    ∧ Forall (fun line => ¬ (callable_header line ∧ indent_of line < currentIndent)) nearer
    ∧ Forall (fun line => ¬ (other_block_header line ∧ indent_of line <= currentIndent))
        nearer.

(** A statement at the top level, after a function. *)
Definition after_function : string :=
  "def f():" ++ newline ++ "    pass" ++ newline ++ "x = 1".

(** A file that starts with a short function, and a file whose class
    header is wrapped over short lines, with an assignment after it. *)
Definition short_function : string :=
  "def f():" ++ newline ++ "    pass" ++ newline.

Definition wrapped_header : string :=
  "def" ++ newline ++ "class A(" ++ newline ++ " B" ++ newline ++ "    ):  y = 1".




(** One written parameter (a comma-separated piece of the argument text):
    its name, its type, the variable recorded for it, and whether it is
    written with a leading star. *)
Definition param_name (p : string) : string :=
  TrimSpace (hd "" (SplitN (TrimSpace (hd "" (SplitN (TrimSpace p) "=" 2))) ":" 2)).

Definition param_type (p : string) : string :=
  let typeHintParts := SplitN (TrimSpace (hd "" (SplitN (TrimSpace p) "=" 2))) ":" 2 in
  if (1 <? length typeHintParts)%nat then TrimSpace (nth 1 typeHintParts "") else "Any".

Definition param_variable (lineNumber : Z) (p : string) : Variable_ :=
  variable (param_name p) (param_type p) "parameter" lineNumber.

Definition starred (p : string) : bool := HasPrefix (TrimSpace p) "*".

Definition kept (p : string) : bool := negb (blank p) && negb (starred p).

(** The written parameters [*args: Tuple[int, str]] and [b]: the
    annotation of the first holds a comma. *)
Definition annotated_star : list string := ["*args: Tuple[int, str]"; " b"].

(** Scenario B: a function, a branch in it, a loop in the branch. *)
Definition scenario_B : string :=
  "def outer():" ++ newline ++
  "    if x:" ++ newline ++
  "        for i in y:" ++ newline.




End Python.
(** *** Inputs and views for the tree-based extractor *)

Module GoInputs.
Import GoStrings GoExtractor.
Open Scope string_scope.
Open Scope Z_scope.

(** [type Foo struct{}] at [line], and [func (f Foo) M() {}] at [line]. *)
Definition foo_type : Node := GenDecl TYPE [TypeSpec "Foo" (StructType (Some []))].

Definition foo_method (line : Z) : Node :=
  FuncDecl line (Some [Field [("f", line)] (Ident "Foo") line]) "M"
    (Some []) None (Some []).

(** The file that declares the type first, and the file that declares the
    method first. *)
Definition type_first : File :=
  {| Decls := [foo_type; foo_method 5]; Imports := [] |}.

Definition methods_first : File :=
  {| Decls := [foo_method 3; foo_type]; Imports := [] |}.

(** The method names of each aggregate type of a summary, and those the
    registry holds for [name]. *)
Definition summary_methods (summary : GoFileSummary) : list (string * list string) :=
  (fun s => (s_Name s, f_Name <$> s_Methods s)) <$> go_Structs summary.

Definition registry_methods (r : Registries) (name : string) : option (list string) :=
  (fun s => f_Name <$> s_Methods s) <$> allStructs r !! name.






End GoInputs.
(** *** The entity model, continued: markup, style-sheet and query files

    The globals [allCSSSelectors] and [allSQLTables] are written and never
    read; they are left out. *)

From stdpp Require Import sorting.

Record CSSRule := {
  Selector : string;
  Properties : gmap string string;
  css_Line : Z;
  MediaQuery : string
}.

Record HtmlFileSummary := {
  html_FilePath : string;
  Elements : list HtmlElement;
  EmbeddedJS : list Function_;
  EmbeddedCSS : list CSSRule;
  Includes : list string
}.

Record CSSFileSummary := {
  css_FilePath : string;
  Rules : list CSSRule;
  css_Imports : list string
}.

Record SQLStatement := {
  sql_Type : string;
  Tables : list string;
  Columns : list string;
  sql_Line : Z;
  RawQuery : string
}.

Record SQLFileSummary := {
  sql_FilePath : string;
  Statements : list SQLStatement
}.

(** *** Further library functions: [strings.ToUpper], [sort.Strings] *)

Module GoLibrary.
Import GoStrings.

Definition upper_byte (c : ascii) : ascii :=
  let n := nat_of_ascii c in
  if ((97 <=? n) && (n <=? 122))%nat then ascii_of_nat (n - 32) else c.

Fixpoint ToUpper (s : string) : string :=
  match s with
  | String c t => String (upper_byte c) (ToUpper t)
  | EmptyString => EmptyString
  end.

(** Text on which the byte-level models of case mapping and white space
    agree with the Go functions: every byte below 128. *)
Definition is_ascii_byte (c : ascii) : bool := (nat_of_ascii c <? 128)%nat.

Fixpoint all_bytes (p : ascii -> bool) (s : string) : bool :=
  match s with
  | String c t => p c && all_bytes p t
  | EmptyString => true
  end.

Definition is_ascii (s : string) : bool := all_bytes is_ascii_byte s.

(** The order of Go strings: byte-wise lexicographic. *)
Definition string_le (a b : string) : Prop := String.leb a b = true.

#[global] Instance string_le_dec (a b : string) : Decision (string_le a b).
Proof. unfold string_le. apply _. Defined.

(** [sort.Strings]: the slice in increasing order.  The order is total and
    antisymmetric, so the sorted arrangement of a slice is unique and every
    sorting algorithm returns it. *)
Definition sort_strings (l : list string) : list string := merge_sort string_le l.

End GoLibrary.
(** *** The pattern format ([convertToPatternFormat]) *)

Module Report.
Import GoStrings GoLibrary.
Open Scope string_scope.
Open Scope Z_scope.

Record Summary := {
  GoFiles : list GoFileSummary;
  PhpFiles : list PhpFileSummary;
  PythonFiles : list PythonFileSummary;
  HtmlFiles : list HtmlFileSummary;
  CssFiles : list CSSFileSummary;
  SqlFiles : list SQLFileSummary
}.

Record Config := {
  Directory : string;
  OutputFormat : string;
  Compact : bool;
  FilterEmpty : bool;
  OnlyRelevant : bool;
  MaxResults : Z;
  TargetFiles : list string;
  ExcludePatterns : list string;
  IncludePatterns : list string;
  OutputFile : string;
  PrintVersion : bool;
  Verbose : bool
}.

Record PatternSummary := {
  Timestamp : string;
  AnalyzedDir : string;
  Types : list string;
  Functions : list string;
  FileMap : gmap string (list Z);
  Files : list string;
  CSSSelectors : list string;
  SQLTables : list string;
  Details : option Summary
}.

(** [removeDuplicatesAndSort].  [range] is the order in which the [range]
    statement walks [uniqueMap]. *)
Definition unique_map (slice : list string) : gmap string bool :=
  foldl (fun uniqueMap item => <[item := true]> uniqueMap) ∅ slice.

Definition removeDuplicatesAndSort (range : gmap string bool -> list string)
    (slice : list string) : list string :=
  sort_strings (range (unique_map slice)).

(** An order a [range] statement can take: the keys of the map, each once. *)
Definition valid_range (range : gmap string bool -> list string) : Prop :=
  ∀ m, range m ≡ₚ (map_to_list m).*1.

Definition canonical_range (m : gmap string bool) : list string := (map_to_list m).*1.

(** [pattern.FileMap[name] = append(pattern.FileMap[name], fileIndex)] *)
Definition note (name : string) (fileIndex : Z) (fileMap : gmap string (list Z))
  : gmap string (list Z) :=
  <[name := (default [] (fileMap !! name) ++ [fileIndex])%list]> fileMap.

Definition set_lists (Types Functions : list string) (FileMap : gmap string (list Z))
    (Files CSSSelectors SQLTables : list string) (p : PatternSummary) : PatternSummary :=
  {| Timestamp := Timestamp p; AnalyzedDir := AnalyzedDir p;
     Types := Types; Functions := Functions; FileMap := FileMap; Files := Files;
     CSSSelectors := CSSSelectors; SQLTables := SQLTables; Details := Details p |}.

Definition add_type (fileIndex : Z) (p : PatternSummary) (name : string) : PatternSummary :=
  set_lists (Types p ++ [name]) (Functions p) (note name fileIndex (FileMap p))
    (Files p) (CSSSelectors p) (SQLTables p) p.

Definition add_function (fileIndex : Z) (p : PatternSummary) (name : string)
  : PatternSummary :=
  set_lists (Types p) (Functions p ++ [name]) (note name fileIndex (FileMap p))
    (Files p) (CSSSelectors p) (SQLTables p) p.

Definition add_reference (fileIndex : Z) (p : PatternSummary) (name : string)
  : PatternSummary :=
  set_lists (Types p) (Functions p) (note name fileIndex (FileMap p))
    (Files p) (CSSSelectors p) (SQLTables p) p.

Definition add_selector (fileIndex : Z) (p : PatternSummary) (name : string)
  : PatternSummary :=
  set_lists (Types p) (Functions p) (note name fileIndex (FileMap p))
    (Files p) (CSSSelectors p ++ [name]) (SQLTables p) p.

Definition add_table (fileIndex : Z) (p : PatternSummary) (name : string)
  : PatternSummary :=
  set_lists (Types p) (Functions p) (note name fileIndex (FileMap p))
    (Files p) (CSSSelectors p) (SQLTables p ++ [name]) p.

Definition add_file (path : string) (p : PatternSummary) : PatternSummary :=
  set_lists (Types p) (Functions p) (FileMap p) (Files p ++ [path])
    (CSSSelectors p) (SQLTables p) p.

(** The names given to a decorator and to an element identifier. *)
Definition decorator_name (decorator : string) : string := "@" ++ decorator.
Definition element_name (id : string) : string := "#" ++ id.

(** [processGoFileForPattern] *)
Definition processGoFileForPattern (goFile : GoFileSummary) (fileIndex : Z)
    (pattern : PatternSummary) : PatternSummary :=
  let pattern := foldl (add_type fileIndex) pattern (s_Name <$> go_Structs goFile) in
  let pattern := foldl (add_type fileIndex) pattern (i_Name <$> go_Interfaces goFile) in
  foldl (add_function fileIndex) pattern (f_Name <$> go_Functions goFile).

(** [processPhpFileForPattern] *)
Definition processPhpFileForPattern (phpFile : PhpFileSummary) (fileIndex : Z)
    (pattern : PatternSummary) : PatternSummary :=
  let pattern := foldl (add_type fileIndex) pattern (s_Name <$> php_Classes phpFile) in
  let pattern := foldl (add_type fileIndex) pattern (i_Name <$> php_Interfaces phpFile) in
  foldl (add_function fileIndex) pattern (f_Name <$> php_Functions phpFile).

(** [processPythonFileForPattern] *)
Definition processPythonFileForPattern (pyFile : PythonFileSummary) (fileIndex : Z)
    (pattern : PatternSummary) : PatternSummary :=
  let pattern := foldl (add_type fileIndex) pattern (s_Name <$> py_Classes pyFile) in
  let pattern := foldl (add_function fileIndex) pattern (f_Name <$> py_Functions pyFile) in
  foldl (add_type fileIndex) pattern (decorator_name <$> py_Decorators pyFile).

(** [processHtmlFileForPattern] *)
Definition processHtmlFileForPattern (htmlFile : HtmlFileSummary) (fileIndex : Z)
    (pattern : PatternSummary) : PatternSummary :=
  let pattern := foldl (add_function fileIndex) pattern (f_Name <$> EmbeddedJS htmlFile) in
  foldl (fun pattern elem =>
           if negb (String.eqb (ID elem) "")
           then add_reference fileIndex pattern (element_name (ID elem))
           else pattern)
    pattern (Elements htmlFile).

(** [processCssFileForPattern] *)
Definition processCssFileForPattern (cssFile : CSSFileSummary) (fileIndex : Z)
    (pattern : PatternSummary) : PatternSummary :=
  foldl (add_selector fileIndex) pattern (Selector <$> Rules cssFile).

(** [processSqlFileForPattern] *)
Definition processSqlFileForPattern (sqlFile : SQLFileSummary) (fileIndex : Z)
    (pattern : PatternSummary) : PatternSummary :=
  foldl (fun pattern stmt => foldl (add_table fileIndex) pattern (Tables stmt))
    pattern (Statements sqlFile).

(** One of the six loops of [convertToPatternFormat] over the files of a
    language; the state is the summary under construction and [fileIndex]. *)
Definition add_files {F : Type} (path : F -> string)
    (process : F -> Z -> PatternSummary -> PatternSummary)
    (files : list F) (st : PatternSummary * Z) : PatternSummary * Z :=
  foldl (fun st file =>
           (process file st.2 (add_file (path file) st.1), st.2 + 1))
    st files.

(** [convertToPatternFormat].  [now] is [time.Now().Format(time.RFC3339)];
    [range n] is the order of the [range] statement in the [n]-th call of
    [removeDuplicatesAndSort]. *)
Definition convertToPatternFormat (now : string)
    (range : nat -> gmap string bool -> list string)
    (summary : Summary) (config : Config) : PatternSummary :=
  let patternSummary :=
    {| Timestamp := now; AnalyzedDir := Directory config;
       Types := []; Functions := []; FileMap := ∅; Files := [];
       CSSSelectors := []; SQLTables := []; Details := None |} in
  let st := (patternSummary, 0) in
  let st := add_files go_FilePath processGoFileForPattern (GoFiles summary) st in
  let st := add_files php_FilePath processPhpFileForPattern (PhpFiles summary) st in
  let st := add_files py_FilePath processPythonFileForPattern (PythonFiles summary) st in
  let st := add_files html_FilePath processHtmlFileForPattern (HtmlFiles summary) st in
  let st := add_files css_FilePath processCssFileForPattern (CssFiles summary) st in
  let st := add_files sql_FilePath processSqlFileForPattern (SqlFiles summary) st in
  let patternSummary := st.1 in
  {| Timestamp := Timestamp patternSummary;
     AnalyzedDir := AnalyzedDir patternSummary;
     Types := removeDuplicatesAndSort (range 0%nat) (Types patternSummary);
     Functions := removeDuplicatesAndSort (range 1%nat) (Functions patternSummary);
     FileMap := FileMap patternSummary;
     Files := Files patternSummary;
     CSSSelectors := removeDuplicatesAndSort (range 2%nat) (CSSSelectors patternSummary);
     SQLTables := removeDuplicatesAndSort (range 3%nat) (SQLTables patternSummary);
     Details := Some summary |}.

(** What a file hands over: type names, function names, and the names
    noted in [FileMap], in the order they are. *)
Definition go_types (f : GoFileSummary) : list string :=
  ((s_Name <$> go_Structs f) ++ (i_Name <$> go_Interfaces f))%list.

Definition go_names (f : GoFileSummary) : list string :=
  (go_types f ++ (f_Name <$> go_Functions f))%list.

Definition php_types (f : PhpFileSummary) : list string :=
  ((s_Name <$> php_Classes f) ++ (i_Name <$> php_Interfaces f))%list.

Definition php_names (f : PhpFileSummary) : list string :=
  (php_types f ++ (f_Name <$> php_Functions f))%list.

Definition python_types (f : PythonFileSummary) : list string :=
  ((s_Name <$> py_Classes f) ++ (decorator_name <$> py_Decorators f))%list.

Definition python_names (f : PythonFileSummary) : list string :=
  ((s_Name <$> py_Classes f) ++ (f_Name <$> py_Functions f)
   ++ (decorator_name <$> py_Decorators f))%list.

Definition html_references (f : HtmlFileSummary) : list string :=
  flat_map (fun elem => if negb (String.eqb (ID elem) "")
                        then [element_name (ID elem)] else []) (Elements f).

Definition html_names (f : HtmlFileSummary) : list string :=
  ((f_Name <$> EmbeddedJS f) ++ html_references f)%list.

Definition css_names (f : CSSFileSummary) : list string := Selector <$> Rules f.

Definition sql_names (f : SQLFileSummary) : list string :=
  flat_map Tables (Statements f).

(** Path and names of every file of a summary, in the order the file
    indices are assigned. *)
Definition indexed_files (summary : Summary) : list (string * list string) :=
  (((fun f => (go_FilePath f, go_names f)) <$> GoFiles summary)
   ++ ((fun f => (php_FilePath f, php_names f)) <$> PhpFiles summary)
   ++ ((fun f => (py_FilePath f, python_names f)) <$> PythonFiles summary)
   ++ ((fun f => (html_FilePath f, html_names f)) <$> HtmlFiles summary)
   ++ ((fun f => (css_FilePath f, css_names f)) <$> CssFiles summary)
   ++ ((fun f => (sql_FilePath f, sql_names f)) <$> SqlFiles summary))%list.

(** The names of each kind, before duplicates are removed. *)
Definition type_names (summary : Summary) : list string :=
  (flat_map go_types (GoFiles summary) ++ flat_map php_types (PhpFiles summary)
   ++ flat_map python_types (PythonFiles summary))%list.

Definition function_names (summary : Summary) : list string :=
  (flat_map (fun f => f_Name <$> go_Functions f) (GoFiles summary)
   ++ flat_map (fun f => f_Name <$> php_Functions f) (PhpFiles summary)
   ++ flat_map (fun f => f_Name <$> py_Functions f) (PythonFiles summary)
   ++ flat_map (fun f => f_Name <$> EmbeddedJS f) (HtmlFiles summary))%list.

Definition selector_names (summary : Summary) : list string :=
  flat_map css_names (CssFiles summary).

Definition table_names (summary : Summary) : list string :=
  flat_map sql_names (SqlFiles summary).

(** The effect of a run of [note] for the names of one file, and for the
    files from index [fileIndex] on. *)
Definition note_names (fileIndex : Z) (fileMap : gmap string (list Z))
    (names : list string) : gmap string (list Z) :=
  foldl (fun fileMap name => note name fileIndex fileMap) fileMap names.

Fixpoint note_files (files : list (string * list string)) (fileIndex : Z)
    (fileMap : gmap string (list Z)) : gmap string (list Z) :=
  match files with
  | [] => fileMap
  | (_, names) :: rest =>
      note_files rest (fileIndex + 1) (note_names fileIndex fileMap names)
  end.

Definition contribute (types functions selectors tables names : list string)
    (fileIndex : Z) (p : PatternSummary) : PatternSummary :=
  set_lists (Types p ++ types) (Functions p ++ functions)
    (note_names fileIndex (FileMap p) names) (Files p)
    (CSSSelectors p ++ selectors) (SQLTables p ++ tables) p.

(** An entry of [FileMap] after more indices were appended to it. *)
Definition extended (entry : option (list Z)) (more : list Z) : option (list Z) :=
  match more with
  | [] => entry
  | _ => Some (default [] entry ++ more)%list
  end.

(** The indices [FileMap] holds for [name]: the index of each file that
    hands it over, once for each time it does, [fileIndex] being the index
    of the first file of [files]. *)
Fixpoint occurrences (name : string) (files : list (string * list string))
    (fileIndex : Z) : list Z :=
  match files with
  | [] => []
  | (_, names) :: rest =>
      (replicate (length (List.filter (String.eqb name) names)) fileIndex
       ++ occurrences name rest (fileIndex + 1))%list
  end.

(** [l] holds the strings of [raw], each once, in increasing order. *)
Definition sorted_set (l raw : list string) : Prop :=
  Sorted string_le l ∧ NoDup l ∧ ∀ x, x ∈ l ↔ x ∈ raw.

(** A summary with one file for each of two languages. *)
Definition two_files : Summary :=
  {| GoFiles :=
       [ {| go_FilePath := "a.go"; go_Variables := [];
            go_Functions := [ {| f_Name := "run"; f_Args := []; f_Returns := [];
                                 f_Receiver := ""; f_Line := 3; f_Calls := [] |} ];
            go_ControlFlows := [];
            go_Structs := [ {| s_Name := "Job"; s_Fields := []; s_Methods := [];
                               s_Line := 0 |} ];
            go_Interfaces := []; go_Imports := [] |} ];
     PhpFiles := [];
     PythonFiles :=
       [ {| py_FilePath := "b.py"; py_Variables := [];
            py_Functions := [ {| f_Name := "run"; f_Args := []; f_Returns := [];
                                 f_Receiver := ""; f_Line := 1; f_Calls := [] |} ];
            py_ControlFlows := []; py_Classes := []; py_Imports := [];
            py_Decorators := ["cache"] |} ];
     HtmlFiles := []; CssFiles := []; SqlFiles := [] |}.

Definition no_config : Config :=
  {| Directory := "."; OutputFormat := "pattern"; Compact := true;
     FilterEmpty := true; OnlyRelevant := false; MaxResults := 0;
     TargetFiles := []; ExcludePatterns := []; IncludePatterns := [];
     OutputFile := ""; PrintVersion := false; Verbose := false |}.

End Report.
(** *** Views on the tree-based extractor: what the walk appends for one
    node of each kind *)

Module GoViews.
Import GoStrings GoExtractor.
Open Scope string_scope.
Open Scope Z_scope.

(** The name [extractFunction] records for a call: the identifier of a
    direct call, the selector expression of a method or package call,
    nothing for a call of any other expression. *)
Definition callee (n : Node) : option string :=
  match n with
  | CallExpr (Ident Name) _ => Some Name
  | CallExpr (SelectorExpr X Sel) _ => Some (exprToString (SelectorExpr X Sel))
  | _ => None
  end.





(** The import path [p] as the parser hands it over: between double quotes. *)
Definition quoted (p : string) : string := String dquote (p ++ String dquote "").

(** The aggregate type of [GoInputs.type_first] as its summary holds it. *)
Definition foo_with_method : Struct :=
  {| s_Name := "Foo"; s_Fields := [];
     s_Methods := [extractFunction (GoInputs.foo_method 5)]; s_Line := 0 |}.

End GoViews.
(** *** Normal returns *)

(** The outcome [r] is a normal return: the call neither fails at run time
    nor runs out of budget. *)
Definition returns {A : Type} (r : Result A) : Prop :=
  match r with
  | Ok _ => True
  | _ => False
  end.

(** *** Views on the matcher: where a match and its groups lie *)

Module RegexpViews.
Import GoStrings Regexp.
Open Scope Z_scope.

(** The groups that take part in every match of a pattern. *)
Fixpoint sure_groups (r : re) : list nat :=
  match r with
  | Cat r1 r2 => (sure_groups r1 ++ sure_groups r2)%list
  | Cap n r1 => n :: sure_groups r1
  | _ => []
  end.

(** The capture positions [cs] lie between [lo] and [hi]. *)
Definition caps_within (lo hi : nat) (cs : caps) : Prop :=
  Forall (fun c : nat * (nat * nat) => (lo <= c.2.1 ∧ c.2.1 <= c.2.2 ∧ c.2.2 <= hi)%nat) cs.

(** A match found in the text between [lo] and [hi]: it lies there, its
    groups lie inside it, and the groups of [sure_groups] took part. *)
Definition match_within (r : re) (lo hi : nat) (m : nat * nat * caps) : Prop :=
  (lo <= m.1.1 ∧ m.1.1 <= m.1.2 ∧ m.1.2 <= hi)%nat
  ∧ caps_within m.1.1 m.1.2 m.2
  ∧ ∀ g, g ∈ sure_groups r → g ∈ m.2.*1.

(** The same for an index slice of a text of length [limit]: group [g] is
    either absent, both its positions [-1], or inside the match. *)
Definition group_ok (r : re) (m : list Z) (g : nat) : Prop :=
  (at_index m (2 * g) = -1 ∧ at_index m (2 * g + 1) = -1 ∧ g ∉ sure_groups r)
  ∨ (at_index m 0 <= at_index m (2 * g)
     ∧ at_index m (2 * g) <= at_index m (2 * g + 1)
     ∧ at_index m (2 * g + 1) <= at_index m 1).

Definition match_ok (r : re) (ngroups : nat) (limit : Z) (m : list Z) : Prop :=
  length m = (2 + 2 * ngroups)%nat
  ∧ 0 <= at_index m 0 ∧ at_index m 0 <= at_index m 1 ∧ at_index m 1 <= limit
  ∧ ∀ g, (1 <= g <= ngroups)%nat → group_ok r m g.

End RegexpViews.
(** *** Style sheets ([analyzeCssFile], [parseCssContent]) *)

Module Css.
Import GoStrings Regexp.
Open Scope string_scope.
Open Scope Z_scope.

(** [@import\s+(?:url\()?Q?([^Q)]+)Q?(?:\))?], where [Q] stands for the
    class of the two quote characters. *)
Definition importRegex : re :=
  cat [lit "@import"; plus cls_s; Opt (lit "url("); Opt (Byte Php.is_quote);
       Cap 1 (plus (fun c => negb (Php.is_quote c || Ascii.eqb c ")")));
       Opt (Byte Php.is_quote); Opt (chr ")")].

(** [([^{]+)(?:{([^}]{0,})})] *)
Definition ruleRegex : re :=
  cat [Cap 1 (plus (fun c => negb (Ascii.eqb c "{"))); chr "{";
       Cap 2 (star (fun c => negb (Ascii.eqb c "}"))); chr "}"].

(** [([\w-]+)\s{0,}:\s{0,}([^;]+)] *)
Definition propRegex : re :=
  cat [Cap 1 (plus (fun c => cls_w c || Ascii.eqb c "-")); star cls_s; chr ":";
       star cls_s; Cap 2 (plus (fun c => negb (Ascii.eqb c ";")))].

(** The inner loop of [parseCssContent]: the properties of one rule body. *)
Definition css_properties (body : string) : gmap string string :=
  foldl (fun properties propMatch =>
           if (3 <=? length propMatch)%nat then
             let propName := TrimSpace (nth 1 propMatch "") in
             let propValue := TrimSpace (nth 2 propMatch "") in
             <[propName := propValue]> properties
           else properties)
    ∅ (FindAllStringSubmatch propRegex 2 body).

(** The body of the outer loop; the state is the rules found so far and
    [currentMediaQuery]. *)
Definition css_rule_step (content : string) (st : list CSSRule * string)
    (m : list string) : Result (list CSSRule * string) :=
  let '(rules, currentMediaQuery) := st in
  if (3 <=? length m)%nat then
    let selector := TrimSpace (nth 1 m "") in
    let body := nth 2 m "" in
    if HasPrefix selector "@media" then Ok (rules, selector)
    else
      before ← checked (slice_to content (Index content (nth 0 m "")));
      let lineNum := countLines before in
      let rule :=
        {| Selector := selector;
           Properties := css_properties body;
           css_Line := lineNum;
           MediaQuery := if negb (String.eqb currentMediaQuery "")
                         then currentMediaQuery else "" |} in
      Ok ((rules ++ [rule])%list, currentMediaQuery)
  else Ok st.

(** [parseCssContent] *)
Definition parseCssContent (content : string) : Result (list CSSRule) :=
  st ← for_each (css_rule_step content) (FindAllStringSubmatch ruleRegex 2 content)
         ([], "");
  Ok st.1.

Definition css_imports (content : string) : list string :=
  flat_map (fun m : list string => if (2 <=? length m)%nat then [nth 1 m ""] else [])
    (FindAllStringSubmatch importRegex 1 content).

(** [analyzeCssFile] on the text of a file that was read. *)
Definition analyzeCssFile (filePath content : string) : Result CSSFileSummary :=
  rules ← parseCssContent content;
  Ok {| css_FilePath := filePath; Rules := rules; css_Imports := css_imports content |}.

(** A rule has no media query, or one. *)
Definition plain_rule (rule : CSSRule) : Prop := MediaQuery rule = "".
Definition scoped_rule (rule : CSSRule) : Prop :=
  HasPrefix (MediaQuery rule) "@media" = true.

(** What the loop of [parseCssContent] keeps true of its state, for a text
    of [limit] lines: no rule has a media query as its selector, every line
    number is one of the text, the rules without a media query come before
    those with one, and [currentMediaQuery] is empty until the first media
    query is met. *)
Definition css_rules_ok (limit : Z) (rules : list CSSRule) : Prop :=
  Forall (fun rule => HasPrefix (Selector rule) "@media" = false
                      ∧ 1 <= css_Line rule <= limit) rules.

Definition plain_then_scoped (rules : list CSSRule) (scoped : list CSSRule) : Prop :=
  ∃ plain, rules = (plain ++ scoped)%list
           ∧ Forall plain_rule plain ∧ Forall scoped_rule scoped.

Definition css_state_ok (limit : Z) (st : list CSSRule * string) : Prop :=
  css_rules_ok limit st.1
  ∧ ∃ scoped, plain_then_scoped st.1 scoped
              ∧ (st.2 = "" ∧ scoped = [] ∨ HasPrefix st.2 "@media" = true).

End Css.
(** *** Markup files ([analyzeHtmlFile])

    The document tree comes from the external package
    [golang.org/x/net/html]; a node is modelled with the fields the program
    reads: its type, its attributes and its children in order. *)

Module Html.
Import GoStrings Regexp.
Open Scope string_scope.
Open Scope Z_scope.

Inductive NodeType :=
| ErrorNode | TextNode | DocumentNode | ElementNode | CommentNode | DoctypeNode | RawNode.

Inductive HtmlNode :=
| html_node (Type_ : NodeType) (Attr : list (string * string)) (children : list HtmlNode).

(** [(?i)<\?(?:php)?\s+(?:include|require)(?:_once)?\s{0,}\(\s{0,}Q([^Q]+)Q\s{0,}\)\s{0,};?\s{0,}\?>],
    where [Q] stands for the class of the two quote characters. *)
Definition includeRegex : re :=
  cat [lit_i "<?"; Opt (lit_i "php"); plus cls_s;
       Alt (lit_i "include") (lit_i "require"); Opt (lit_i "_once");
       star cls_s; chr "("; star cls_s; Byte Php.is_quote;
       Cap 1 (plus (fun c => negb (Php.is_quote c))); Byte Php.is_quote;
       star cls_s; chr ")"; star cls_s; Opt (chr ";"); star cls_s; lit "?>"].

(** [(?s)<script[^>]{0,}>(.{0,}?)</script>] *)
Definition scriptRegex : re :=
  cat [lit "<script"; star (fun c => negb (Ascii.eqb c ">")); chr ">";
       Cap 1 (star_lz (fun _ => true)); lit "</script>"].

(** [function\s+(\w+)\s{0,}\((.{0,}?)\)] *)
Definition funcRegex : re :=
  cat [lit "function"; plus cls_s; Cap 1 (plus cls_w); star cls_s; chr "(";
       Cap 2 (star_lz cls_dot); chr ")"].

(** [(?s)<style[^>]{0,}>(.{0,}?)</style>] *)
Definition styleRegex : re :=
  cat [lit "<style"; star (fun c => negb (Ascii.eqb c ">")); chr ">";
       Cap 1 (star_lz (fun _ => true)); lit "</style>"].

Definition html_includes (content : string) : list string :=
  flat_map (fun m : list string => if (2 <=? length m)%nat then [nth 1 m ""] else [])
    (FindAllStringSubmatch includeRegex 1 content).

(** The loop over the script elements, with its inner loop over the
    functions of one script. *)
Definition html_scripts (content : string) : Result (list Function_) :=
  for_each (fun embedded m =>
    if (2 <=? length m)%nat then
      let jsContent := nth 1 m "" in
      if negb (String.eqb jsContent "") then
        for_each (fun embedded fMatch =>
          if (3 <=? length fMatch)%nat then
            let funcName := nth 1 fMatch "" in
            before ← checked (slice_to content (Index content (nth 0 m "")));
            jsBefore ← checked (slice_to jsContent (Index jsContent (nth 0 fMatch "")));
            let lineNum := countLines before + countLines jsBefore in
            Ok (embedded ++
                [ {| f_Name := funcName; f_Args := []; f_Returns := [];
                     f_Receiver := ""; f_Line := lineNum; f_Calls := [] |} ])%list
          else Ok embedded)
          (FindAllStringSubmatch funcRegex 2 jsContent) embedded
      else Ok embedded
    else Ok embedded)
    (FindAllStringSubmatch scriptRegex 1 content) [].

Definition shift_line (baseLineNum : Z) (rule : CSSRule) : CSSRule :=
  {| Selector := Selector rule; Properties := Properties rule;
     css_Line := css_Line rule + baseLineNum; MediaQuery := MediaQuery rule |}.

(** The loop over the style elements. *)
Definition html_styles (content : string) : Result (list CSSRule) :=
  for_each (fun embedded m =>
    if (2 <=? length m)%nat then
      let cssContent := nth 1 m "" in
      if negb (String.eqb cssContent "") then
        rules ← Css.parseCssContent cssContent;
        before ← checked (slice_to content (Index content (nth 0 m "")));
        let baseLineNum := countLines before in
        Ok (embedded ++ (shift_line baseLineNum <$> rules))%list
      else Ok embedded
    else Ok embedded)
    (FindAllStringSubmatch styleRegex 1 content) [].

(** The loop over the attributes of an element node. *)
Definition set_attribute (element : HtmlElement) (attr : string * string) : HtmlElement :=
  let '(key, val) := attr in
  if String.eqb key "id" then
    {| ID := val; Classes := Classes element; Attributes := Attributes element;
       h_Line := h_Line element; LinkedFunctions := LinkedFunctions element |}
  else if String.eqb key "class" then
    {| ID := ID element; Classes := Fields val; Attributes := Attributes element;
       h_Line := h_Line element; LinkedFunctions := LinkedFunctions element |}
  else
    {| ID := ID element; Classes := Classes element;
       Attributes := <[key := val]> (Attributes element);
       h_Line := h_Line element; LinkedFunctions := LinkedFunctions element |}.

Definition element_of (Attr : list (string * string)) (currentLine : Z) : HtmlElement :=
  foldl set_attribute
    {| ID := ""; Classes := []; Attributes := ∅; h_Line := currentLine;
       LinkedFunctions := [] |}
    Attr.

(** [processNode]: the elements found so far and the current line. *)
Fixpoint processNode (n : HtmlNode) (currentLine : Z) (elements : list HtmlElement)
  : list HtmlElement * Z :=
  match n with
  | html_node Type_ Attr children =>
      let elements :=
        match Type_ with
        | ElementNode => (elements ++ [element_of Attr currentLine])%list
        | _ => elements
        end in
      (fix siblings (cs : list HtmlNode) (st : list HtmlElement * Z) :=
         match cs with
         | [] => st
         | c :: rest => siblings rest (processNode c (st.2 + 1) st.1)
         end) children (elements, currentLine)
  end.

Definition empty_summary (filePath : string) : HtmlFileSummary :=
  {| html_FilePath := filePath; Elements := []; EmbeddedJS := []; EmbeddedCSS := [];
     Includes := [] |}.

(** The line [analyzeHtmlFile] prints for a text that does not parse. *)
Definition parse_diagnostic (filePath err : string) : string :=
  "Error parsing HTML file " ++ filePath ++ ": " ++ err ++ String nl "".

(** [analyzeHtmlFile] on the text of a file that was read; [parsed] is what
    [html.Parse] returned for it: the error text or the document node.  The
    result is the summary and the text printed.  The parameter
    [allFunctions] is not used by the program. *)
Definition analyzeHtmlFile (filePath content : string) (parsed : string + HtmlNode)
  : Result (HtmlFileSummary * list string) :=
  match parsed with
  | inl err => Ok (empty_summary filePath, [parse_diagnostic filePath err])
  | inr doc =>
      embeddedJS ← html_scripts content;
      embeddedCSS ← html_styles content;
      Ok ({| html_FilePath := filePath;
             Elements := (processNode doc 1 []).1;
             EmbeddedJS := embeddedJS;
             EmbeddedCSS := embeddedCSS;
             Includes := html_includes content |}, [])
  end.

(** The nodes of a tree in document order, each with its attributes, and
    the elements [processNode] records for nodes numbered from [line]. *)
Fixpoint html_preorder (n : HtmlNode) : list (NodeType * list (string * string)) :=
  match n with
  | html_node Type_ Attr children => (Type_, Attr) :: flat_map html_preorder children
  end.

Fixpoint numbered_elements (nodes : list (NodeType * list (string * string)))
    (line : Z) : list HtmlElement :=
  match nodes with
  | [] => []
  | (ElementNode, Attr) :: rest => element_of Attr line :: numbered_elements rest (line + 1)
  | _ :: rest => numbered_elements rest (line + 1)
  end.



End Html.
(** *** Query files ([analyzeSqlFile])

    The comment patterns use the anchor [$] (the end of the text, the flag m
    not being set) and [ReplaceAllString]; both are modelled here, on top of
    the matcher. *)

Module Sql.
Import GoStrings Regexp GoLibrary.
Open Scope string_scope.
Open Scope Z_scope.

Definition cr : ascii := ascii_of_nat 13.

(** Patterns with the end anchor. *)
Inductive re_end : Type :=
| Plain (r : re)
| Eot                               (* $ *)
| CatE (r1 r2 : re_end)
| AltE (r1 r2 : re_end)
| CapE (n : nat) (r : re_end).

Fixpoint run_end {R : Type} (r : re_end) (cs : caps) (pos : nat) (prev : option ascii)
    (s : string) (k : caps -> @cont R) : option R :=
  match r with
  | Plain r0 => run r0 cs pos prev s k
  | Eot =>
      match s with
      | EmptyString => k cs pos prev s
      | String _ _ => None
      end
  | CatE r1 r2 =>
      run_end r1 cs pos prev s
        (fun cs' pos' prev' s' => run_end r2 cs' pos' prev' s' k)
  | AltE r1 r2 =>
      match run_end r1 cs pos prev s k with
      | Some x => Some x
      | None => run_end r2 cs pos prev s k
      end
  | CapE n r1 =>
      run_end r1 cs pos prev s
        (fun cs' pos' prev' s' => k ((n, (pos, pos')) :: cs') pos' prev' s')
  end.

Definition match_end_here (r : re_end) (pos : nat) (prev : option ascii) (s : string)
  : option (nat * caps) :=
  run_end r [] pos prev s (fun cs e _ _ => Some (e, cs)).

(** The successive matches, as [find_all_from]. *)
Fixpoint find_all_end (r : re_end) (pos : nat) (prev : option ascii) (s : string)
    (skip : nat) : list (nat * nat * caps) :=
  match skip with
  | S k =>
      match s with
      | String c t => find_all_end r (S pos) (Some c) t k
      | EmptyString => []
      end
  | O =>
      match match_end_here r pos prev s with
      | Some (e, cs) =>
          (pos, e, cs) ::
          match s with
          | String c t => find_all_end r (S pos) (Some c) t (e - pos - 1)
          | EmptyString => []
          end
      | None =>
          match s with
          | String c t => find_all_end r (S pos) (Some c) t 0
          | EmptyString => []
          end
      end
  end.

(** A replacement template: literal text and group references. *)
Inductive piece := Text (s : string) | Group (n : nat).

Definition expand (template : list piece) (src : string) (cs : caps) : string :=
  foldr (fun p acc =>
           match p with
           | Text s => s ++ acc
           | Group n => cap_text src cs n ++ acc
           end) "" template.

(** The text between the matches is copied, each match is replaced by the
    expansion of the template (except an empty match right after another
    match); [lastMatchEnd] is the end of the match before. *)
Fixpoint replace_matches (template : list piece) (src : string)
    (ms : list (nat * nat * caps)) (lastMatchEnd : nat) : string :=
  match ms with
  | [] => drop_bytes lastMatchEnd src
  | (b, e, cs) :: rest =>
      String.substring lastMatchEnd (b - lastMatchEnd) src
      ++ (if (lastMatchEnd <? e)%nat || (b =? 0)%nat then expand template src cs else "")
      ++ replace_matches template src rest e
  end.

(** [re.ReplaceAllString(src, repl)] *)
Definition ReplaceAllString (r : re_end) (src : string) (template : list piece) : string :=
  replace_matches template src (find_all_end r 0 None src 0) 0.

(** [--.{0,}?(\r\n|\r|\n|$)] *)
Definition singleLineRegex : re_end :=
  CatE (Plain (cat [lit "--"; star_lz cls_dot]))
    (CapE 1 (AltE (Plain (lit (String cr (String nl ""))))
            (AltE (Plain (chr cr)) (AltE (Plain (chr nl)) Eot)))).

(** [(?s)/\*.{0,}?\*/] *)
Definition multiLineRegex : re_end :=
  Plain (cat [lit "/*"; star_lz (fun _ => true); lit "*/"]).

(** [removeSqlComments] *)
Definition removeSqlComments (content : string) : string :=
  let content := ReplaceAllString singleLineRegex content [Group 1] in
  ReplaceAllString multiLineRegex content [].

(** [splitSqlStatements] *)
Definition splitSqlStatements (content : string) : list string :=
  let content := removeSqlComments content in
  flat_map (fun part =>
              let part := TrimSpace part in
              if negb (String.eqb part "") then [part ++ ";"] else [])
    (Split content ";").

(** [[a-zA-Z0-9_]+] *)
Definition identRegex : re := plus cls_w.

(** [re.FindAllString(s, -1)] *)
Definition FindAllString (r : re) (s : string) : list string :=
  (fun m : list string => nth 0 m "") <$> FindAllStringSubmatch r 0 s.

Definition sqlKeywords : list string :=
  ["select"; "where"; "group"; "order"; "by";
   "having"; "limit"; "offset"; "join"; "inner";
   "outer"; "left"; "right"; "full"; "on";
   "as"; "union"; "except"; "intersect"; "values";
   "set"; "into"; "default"; "if"; "exists";
   "primary"; "key"; "foreign"; "references"].

Definition is_sql_keyword (word : string) : bool :=
  existsb (String.eqb word) sqlKeywords.

(** [extractSqlTables] *)
Definition extractSqlTables (stmt keyword : string) : Result (list string) :=
  let lowerStmt := ToLower stmt in
  let keywordPos := Index lowerStmt keyword in
  if keywordPos =? -1 then Ok []
  else
    restStmt ← checked (slice_from stmt (keywordPos + len keyword));
    Ok (List.filter (fun m => negb (is_sql_keyword (ToLower m)))
          (FindAllString identRegex restStmt)).

(** [extractSqlColumns] *)
Definition extractSqlColumns (stmt : string) : Result (list string) :=
  let lowerStmt := ToLower stmt in
  let selectPos := Index lowerStmt "select" in
  let fromPos := Index lowerStmt "from" in
  if (selectPos =? -1) || (fromPos =? -1) || (fromPos <=? selectPos) then Ok []
  else
    columnsText ← checked (slice stmt (selectPos + 6) fromPos);
    if String.eqb (TrimSpace columnsText) "*" then Ok ["*"]
    else
      Ok (foldl (fun columns part =>
            let part := TrimSpace part in
            let part :=
              if Contains part " as " then
                let parts := Split (ToLower part) " as " in
                if (2 <=? length parts)%nat then TrimSpace (nth 1 parts "") else part
              else part in
            let colMatches := FindAllString identRegex part in
            if (0 <? length colMatches)%nat
            then (columns ++ [List.last colMatches ""])%list
            else columns)
          [] (Split columnsText ",")).

(** The identifiers of the pieces of a column list: the first identifier
    of each piece that [keep] lets through. *)
Definition first_identifiers (keep : string -> bool) (colList : string) : list string :=
  flat_map (fun part =>
              let part := TrimSpace part in
              if keep part then
                match FindAllString identRegex part with
                | first :: _ => [first]
                | [] => []
                end
              else [])
    (Split colList ",").

(** [\(\s{0,}([^)]+)\s{0,}\)\s{0,}VALUES] *)
Definition colListRegex : re :=
  cat [chr "("; star cls_s; Cap 1 (plus (fun c => negb (Ascii.eqb c ")")));
       star cls_s; chr ")"; star cls_s; lit "VALUES"].

(** [extractSqlInsertColumns] *)
Definition extractSqlInsertColumns (stmt : string) : list string :=
  let colListMatch := FindStringSubmatch colListRegex 1 stmt in
  if (2 <=? length colListMatch)%nat
  then first_identifiers (fun _ => true) (nth 1 colListMatch "")
  else [].

(** [extractSqlUpdateColumns] *)
Definition extractSqlUpdateColumns (stmt : string) : Result (list string) :=
  let lowerStmt := ToLower stmt in
  let setPos := Index lowerStmt "set " in
  let wherePos := Index lowerStmt "where " in
  if setPos =? -1 then Ok []
  else
    setClause ← (if wherePos =? -1
                 then checked (slice_from stmt (setPos + 4))
                 else checked (slice stmt (setPos + 4) wherePos));
    for_each (fun columns part =>
      let eqPos := Index part "=" in
      if eqPos =? -1 then Ok columns
      else
        before ← checked (slice_to part eqPos);
        let colName := TrimSpace before in
        match FindAllString identRegex colName with
        | first :: _ => Ok (columns ++ [first])%list
        | [] => Ok columns
        end)
      (Split setClause ",") [].

(** [\(\s{0,}([^)]+)\s{0,}\)] *)
Definition colDefsRegex : re :=
  cat [chr "("; star cls_s; Cap 1 (plus (fun c => negb (Ascii.eqb c ")")));
       star cls_s; chr ")"].

Definition is_constraint (part : string) : bool :=
  let lowerPart := ToLower part in
  HasPrefix lowerPart "constraint" || HasPrefix lowerPart "primary key"
  || HasPrefix lowerPart "foreign key".

(** [extractSqlCreateColumns] *)
Definition extractSqlCreateColumns (stmt : string) : list string :=
  let colDefsMatch := FindStringSubmatch colDefsRegex 1 stmt in
  if (2 <=? length colDefsMatch)%nat
  then first_identifiers (fun part => negb (is_constraint part)) (nth 1 colDefsMatch "")
  else [].

Definition statement (type : string) (tables columns : list string) (line : Z)
    (raw : string) : SQLStatement :=
  {| sql_Type := type; Tables := tables; Columns := columns; sql_Line := line;
     RawQuery := raw |}.

(** [parseSqlStatement] *)
Definition parseSqlStatement (stmt : string) (lineNum : Z) : Result SQLStatement :=
  let raw := stmt in
  let stmt := TrimSpace stmt in
  let lowerStmt := ToLower stmt in
  if HasPrefix lowerStmt "select" then
    tables ← extractSqlTables stmt "from";
    columns ← extractSqlColumns stmt;
    Ok (statement "SELECT" tables columns lineNum raw)
  else if HasPrefix lowerStmt "insert" then
    tables ← extractSqlTables stmt "into";
    Ok (statement "INSERT" tables (extractSqlInsertColumns stmt) lineNum raw)
  else if HasPrefix lowerStmt "update" then
    tables ← extractSqlTables stmt "update";
    columns ← extractSqlUpdateColumns stmt;
    Ok (statement "UPDATE" tables columns lineNum raw)
  else if HasPrefix lowerStmt "delete" then
    tables ← extractSqlTables stmt "from";
    Ok (statement "DELETE" tables [] lineNum raw)
  else if HasPrefix lowerStmt "create table" then
    tables ← extractSqlTables stmt "table";
    Ok (statement "CREATE" tables (extractSqlCreateColumns stmt) lineNum raw)
  else if HasPrefix lowerStmt "alter table" then
    tables ← extractSqlTables stmt "table";
    Ok (statement "ALTER" tables [] lineNum raw)
  else
    firstWord ← checked (head (Fields lowerStmt));
    tables ← (if Contains lowerStmt "table" then extractSqlTables stmt "table" else Ok []);
    Ok (statement (ToUpper firstWord) tables [] lineNum raw).

(** The loop of [analyzeSqlFile]: the statements recorded so far and
    [lineNum]. *)
Definition sql_step (st : list SQLStatement * Z) (stmt : string)
  : Result (list SQLStatement * Z) :=
  let '(statements, lineNum) := st in
  sqlStmt ← parseSqlStatement stmt lineNum;
  let statements :=
    if negb (String.eqb (sql_Type sqlStmt) "")
    then (statements ++ [sqlStmt])%list else statements in
  Ok (statements, lineNum + countLines stmt).

(** [analyzeSqlFile] on the text of a file that was read. *)
Definition analyzeSqlFile (filePath content : string) : Result SQLFileSummary :=
  st ← for_each sql_step (splitSqlStatements content) ([], 1);
  Ok {| sql_FilePath := filePath; Statements := st.1 |}.

(** A statement as [splitSqlStatements] hands it over: a text without
    white space around it and without a semicolon, followed by one. *)
Definition split_statement (stmt : string) : Prop :=
  ∃ body, stmt = body ++ ";" ∧ body ≠ "" ∧ TrimSpace body = body
          ∧ all_bytes (fun c => negb (Ascii.eqb c ";")) body = true.

(** The clause [extractSqlUpdateColumns] cuts out starts before it ends:
    the text has no [set ], or no [where ], or its first [where ] comes
    after its first [set ]. *)
Definition set_clause_ordered (stmt : string) : bool :=
  let lowerStmt := ToLower stmt in
  let setPos := Index lowerStmt "set " in
  let wherePos := Index lowerStmt "where " in
  (setPos =? -1) || (wherePos =? -1) || (setPos + 4 <=? wherePos).

(** The line numbers [analyzeSqlFile] gives the statements, the first one
    being at [line]. *)
Fixpoint statement_lines (stmts : list string) (line : Z) : list Z :=
  match stmts with
  | [] => []
  | stmt :: rest => line :: statement_lines rest (line + countLines stmt)
  end.

(** A table with the word [where] in its name. *)
Definition update_somewhere : string := "update somewhere set a = 1;".

End Sql.

(** *** The file filter of [analyzeDirRecursive] *)

Module Directory.
Import GoStrings Report.
Open Scope string_scope.
Open Scope Z_scope.

Section Filter.

(** [filepath.Match pattern name].  The program drops the error of the
    call, so a malformed pattern counts as a pattern that does not match. *)
Variable Match : string -> string -> bool.

(** The set built from [config.TargetFiles]. *)
Definition targetFilesMap (config : Config) : gmap string bool :=
  foldl (fun m f => <[f := true]> m) ∅ (TargetFiles config).

(** The loop over the exclude patterns for a directory: the walk skips the
    directory at the first pattern that matches its name. *)
Fixpoint skip_directory (patterns : list string) (name : string) : bool :=
  match patterns with
  | [] => false
  | pattern :: rest => if Match pattern name then true else skip_directory rest name
  end.

(** The loop over the exclude patterns for a file; it leaves at the first
    match. *)
Fixpoint exclude_loop (patterns : list string) (name : string) (shouldProcess : bool)
  : bool :=
  match patterns with
  | [] => shouldProcess
  | pattern :: rest =>
      if Match pattern name then false else exclude_loop rest name shouldProcess
  end.

(** The loop over the include patterns; it leaves at the first match. *)
Fixpoint include_loop (patterns : list string) (name : string) (included : bool)
  : bool :=
  match patterns with
  | [] => included
  | pattern :: rest =>
      if Match pattern name then true else include_loop rest name included
  end.

(** The value of [shouldProcess] for the file called [name] when the walk
    callback tests it. *)
Definition should_process (config : Config) (name : string) : bool :=
  let shouldProcess :=
    if (0 <? size (targetFilesMap config))%nat
    then bool_decide (is_Some (targetFilesMap config !! name))
    else true in
  let shouldProcess := exclude_loop (ExcludePatterns config) name shouldProcess in
  if (0 <? length (IncludePatterns config))%nat
  then shouldProcess && include_loop (IncludePatterns config) name false
  else shouldProcess.

End Filter.

(** A configuration with the three filters given and everything else at
    its zero value. *)
Definition filter_config (targets excludes includes : list string) : Config :=
  {| Directory := "."; OutputFormat := "json"; Compact := false; FilterEmpty := false;
     OnlyRelevant := false; MaxResults := 0; TargetFiles := targets;
     ExcludePatterns := excludes; IncludePatterns := includes; OutputFile := "";
     PrintVersion := false; Verbose := false |}.

End Directory.

(** *** The first pass of [analyzeDirRecursive]

    [filepath.Walk] is outside the model: the first pass is given the calls
    the walk makes to its callback, in walk order, each with the path, the
    base name ([info.Name()]) and what the callback finds there.  For a file
    this is the path relative to the directory and what the extractor of
    its extension reads or parses from it; the case of the [switch] on the
    extension is the constructor of [Source].  Which entries follow a
    directory the callback asks to skip is the walk's business.  The maps
    [allCSSSelectors] and [allSQLTables] are written and never read; they
    are left out, here as in the extractors. *)

Module Run.
Import GoStrings Regexp Report Directory.
Open Scope string_scope.
Open Scope Z_scope.

(** What an extractor finds at a path.  For the tree-based extractor, what
    [parser.ParseFile] returned: the error text or the tree.  For the other
    extractors, what [ioutil.ReadFile] returned: the error text or the text
    of the file; for a markup file also what [html.Parse] returned for that
    text.  [OtherSource] is a file whose extension has no case. *)
Inductive Source :=
| GoSource (parsed : string + GoExtractor.File)
| PhpSource (read : string + string)
| PythonSource (read : string + string)
| HtmlSource (read : string + string * (string + Html.HtmlNode))
| CssSource (read : string + string)
| SqlSource (read : string + string)
| OtherSource.

(** One call of the callback: the walk reports an error, or hands over a
    directory, or a file. *)
Inductive Entry :=
| WalkError (err : string)
| DirEntry
| FileEntry (relPath : string) (source : Source).

Record Visit := {
  w_path : string;
  w_name : string;
  w_entry : Entry
}.

Definition no_summary : Summary :=
  {| GoFiles := []; PhpFiles := []; PythonFiles := []; HtmlFiles := [];
     CssFiles := []; SqlFiles := [] |}.

Definition store_functions (fns : list Function_) (m : gmap string Function_)
  : gmap string Function_ :=
  foldl (fun m fn => <[f_Name fn := fn]> m) m fns.

Definition store_structs (sts : list Struct) (m : gmap string Struct)
  : gmap string Struct :=
  foldl (fun m str => <[s_Name str := str]> m) m sts.

(** [fmt.Printf] of one line. *)
Definition print (line : string) (r : Registries) : Registries :=
  {| allFunctions := allFunctions r; allStructs := allStructs r;
     allClasses := allClasses r; allPythonClasses := allPythonClasses r;
     stdout := (stdout r ++ [line])%list |}.

(** [analyzePhpFile], [analyzePythonFile], [analyzeHtmlFile],
    [analyzeCssFile] and [analyzeSqlFile] with their first step: a file
    that cannot be read gets a line printed and a summary that holds its
    path and nothing else. *)
Definition read_php (choose : nat -> list (string * re)) (filePath : string)
    (read : string + string) (r : Registries) : Result (PhpFileSummary * Registries) :=
  match read with
  | inl err =>
      Ok ({| php_FilePath := filePath; php_Variables := []; php_Functions := [];
             php_ControlFlows := []; php_Classes := []; php_Interfaces := [];
             php_Imports := [] |},
          print ("Error reading PHP file " ++ filePath ++ ": " ++ err ++ String nl "") r)
  | inr content => Php.analyzePhpFile choose filePath content r
  end.

Definition read_python (choose : nat -> list (string * re)) (filePath : string)
    (read : string + string) (r : Registries)
  : Result (PythonFileSummary * Registries) :=
  match read with
  | inl err =>
      Ok ({| py_FilePath := filePath; py_Variables := []; py_Functions := [];
             py_ControlFlows := []; py_Classes := []; py_Imports := [];
             py_Decorators := [] |},
          print ("Error reading Python file " ++ filePath ++ ": " ++ err ++ String nl "") r)
  | inr content => Python.analyzePythonFile choose filePath content r
  end.

Definition read_html (filePath : string)
    (read : string + string * (string + Html.HtmlNode))
  : Result (HtmlFileSummary * list string) :=
  match read with
  | inl err =>
      Ok (Html.empty_summary filePath,
          ["Error reading HTML file " ++ filePath ++ ": " ++ err ++ String nl ""])
  | inr (content, parsed) => Html.analyzeHtmlFile filePath content parsed
  end.

Definition read_css (filePath : string) (read : string + string)
  : Result (CSSFileSummary * list string) :=
  match read with
  | inl err =>
      Ok ({| css_FilePath := filePath; Rules := []; css_Imports := [] |},
          ["Error reading CSS file " ++ filePath ++ ": " ++ err ++ String nl ""])
  | inr content => cssFile ← Css.analyzeCssFile filePath content; Ok (cssFile, [])
  end.

Definition read_sql (filePath : string) (read : string + string)
  : Result (SQLFileSummary * list string) :=
  match read with
  | inl err =>
      Ok ({| sql_FilePath := filePath; Statements := [] |},
          ["Error reading SQL file " ++ filePath ++ ": " ++ err ++ String nl ""])
  | inr content => sqlFile ← Sql.analyzeSqlFile filePath content; Ok (sqlFile, [])
  end.

(** [summary.GoFiles = append(summary.GoFiles, goFile)], and the same for
    the other five lists. *)
Definition add_go (goFile : GoFileSummary) (s : Summary) : Summary :=
  {| GoFiles := (GoFiles s ++ [goFile])%list; PhpFiles := PhpFiles s;
     PythonFiles := PythonFiles s; HtmlFiles := HtmlFiles s; CssFiles := CssFiles s;
     SqlFiles := SqlFiles s |}.

Definition add_php (phpFile : PhpFileSummary) (s : Summary) : Summary :=
  {| GoFiles := GoFiles s; PhpFiles := (PhpFiles s ++ [phpFile])%list;
     PythonFiles := PythonFiles s; HtmlFiles := HtmlFiles s; CssFiles := CssFiles s;
     SqlFiles := SqlFiles s |}.

Definition add_python (pyFile : PythonFileSummary) (s : Summary) : Summary :=
  {| GoFiles := GoFiles s; PhpFiles := PhpFiles s;
     PythonFiles := (PythonFiles s ++ [pyFile])%list; HtmlFiles := HtmlFiles s;
     CssFiles := CssFiles s; SqlFiles := SqlFiles s |}.

Definition add_html (htmlFile : HtmlFileSummary) (s : Summary) : Summary :=
  {| GoFiles := GoFiles s; PhpFiles := PhpFiles s; PythonFiles := PythonFiles s;
     HtmlFiles := (HtmlFiles s ++ [htmlFile])%list; CssFiles := CssFiles s;
     SqlFiles := SqlFiles s |}.

Definition add_css (cssFile : CSSFileSummary) (s : Summary) : Summary :=
  {| GoFiles := GoFiles s; PhpFiles := PhpFiles s; PythonFiles := PythonFiles s;
     HtmlFiles := HtmlFiles s; CssFiles := (CssFiles s ++ [cssFile])%list;
     SqlFiles := SqlFiles s |}.

Definition add_sql (sqlFile : SQLFileSummary) (s : Summary) : Summary :=
  {| GoFiles := GoFiles s; PhpFiles := PhpFiles s; PythonFiles := PythonFiles s;
     HtmlFiles := HtmlFiles s; CssFiles := CssFiles s;
     SqlFiles := (SqlFiles s ++ [sqlFile])%list |}.

Section Callback.

(** [filepath.Match], the configuration, and the iteration orders used
    while the file at a path is analysed. *)
Variable Match : string -> string -> bool.
Variable config : Config.
Variables choose_php choose_py : string -> nat -> list (string * re).

(** [if config.Verbose { fmt.Printf(...) }] *)
Definition print_verbose (line : string) (r : Registries) : Registries :=
  if Verbose config then print line r else r.

(** The exclude pattern at which the loop over [config.ExcludePatterns]
    leaves: the first one that matches [name]. *)
Fixpoint first_match (patterns : list string) (name : string) : option string :=
  match patterns with
  | [] => None
  | pattern :: rest =>
      if Match pattern name then Some pattern else first_match rest name
  end.

(** What the loop over the exclude patterns prints for a directory
    ([what] is [directory]) or a file ([what] is [file]). *)
Definition print_skipped (what name : string) (r : Registries) : Registries :=
  match first_match (ExcludePatterns config) name with
  | Some pattern =>
      print_verbose ("Skipping " ++ what ++ ": " ++ name
                     ++ " (matches exclude pattern: " ++ pattern ++ ")" ++ String nl "") r
  | None => r
  end.

(** The [switch] on the extension of a file that is to be processed. *)
Definition analyse (path relPath : string) (source : Source)
    (st : Summary * Registries) : Result (Summary * Registries) :=
  let '(summary, r) := st in
  match source with
  | GoSource parsed =>
      let r := print_verbose ("Analyzing Go file: " ++ relPath ++ String nl "") r in
      let '(goFile, r) := GoExtractor.analyzeGoFile path parsed r in
      Ok (add_go goFile summary,
          {| allFunctions := store_functions (go_Functions goFile) (allFunctions r);
             allStructs := store_structs (go_Structs goFile) (allStructs r);
             allClasses := allClasses r;
             allPythonClasses := allPythonClasses r;
             stdout := stdout r |})
  | PhpSource read =>
      let r := print_verbose ("Analyzing PHP file: " ++ relPath ++ String nl "") r in
      res ← read_php (choose_php path) path read r;
      let '(phpFile, r) := res in
      Ok (add_php phpFile summary,
          {| allFunctions := store_functions (php_Functions phpFile) (allFunctions r);
             allStructs := allStructs r;
             allClasses := store_structs (php_Classes phpFile) (allClasses r);
             allPythonClasses := allPythonClasses r;
             stdout := stdout r |})
  | PythonSource read =>
      let r := print_verbose ("Analyzing Python file: " ++ relPath ++ String nl "") r in
      res ← read_python (choose_py path) path read r;
      let '(pyFile, r) := res in
      Ok (add_python pyFile summary,
          {| allFunctions := store_functions (py_Functions pyFile) (allFunctions r);
             allStructs := allStructs r;
             allClasses := allClasses r;
             allPythonClasses := store_structs (py_Classes pyFile) (allPythonClasses r);
             stdout := stdout r |})
  | HtmlSource read =>
      let r := print_verbose ("Analyzing HTML file: " ++ relPath ++ String nl "") r in
      res ← read_html path read;
      let '(htmlFile, printed) := res in
      Ok (add_html htmlFile summary, foldl (fun r line => print line r) r printed)
  | CssSource read =>
      let r := print_verbose ("Analyzing CSS file: " ++ relPath ++ String nl "") r in
      res ← read_css path read;
      let '(cssFile, printed) := res in
      Ok (add_css cssFile summary, foldl (fun r line => print line r) r printed)
  | SqlSource read =>
      let r := print_verbose ("Analyzing SQL file: " ++ relPath ++ String nl "") r in
      res ← read_sql path read;
      let '(sqlFile, printed) := res in
      Ok (add_sql sqlFile summary, foldl (fun r line => print line r) r printed)
  | OtherSource => Ok (summary, r)
  end.

(** The callback of the walk. *)
Definition visit (st : Summary * Registries) (v : Visit)
  : Result (Summary * Registries) :=
  let '(summary, r) := st in
  match w_entry v with
  | WalkError err =>
      Ok (summary,
          print_verbose ("Error accessing path " ++ w_path v ++ ": " ++ err
                         ++ String nl "") r)
  | DirEntry => Ok (summary, print_skipped "directory" (w_name v) r)
  | FileEntry relPath source =>
      let r := print_skipped "file" (w_name v) r in
      if should_process Match config (w_name v)
      then analyse (w_path v) relPath source (summary, r)
      else Ok (summary, r)
  end.

Definition first_pass (entries : list Visit) (st : Summary * Registries)
  : Result (Summary * Registries) :=
  for_each visit entries st.

End Callback.

(** The call of the callback for a Go file that does not parse. *)
Definition go_parse_failure (path name relPath err : string) : Visit :=
  {| w_path := path; w_name := name;
     w_entry := FileEntry relPath (GoSource (inl err)) |}.

(** Two states of the first pass that differ by one more Go summary
    [extra], inserted after the summaries [goBefore], and by the printed
    lines [lines], inserted after the lines [outBefore]. *)
Definition framed (goBefore : list GoFileSummary) (outBefore : list string)
    (extra : GoFileSummary) (lines : list string) (st st' : Summary * Registries)
  : Prop :=
  ∃ goAfter outAfter,
    GoFiles st.1 = (goBefore ++ goAfter)%list
    ∧ GoFiles st'.1 = (goBefore ++ extra :: goAfter)%list
    ∧ PhpFiles st'.1 = PhpFiles st.1
    ∧ PythonFiles st'.1 = PythonFiles st.1
    ∧ HtmlFiles st'.1 = HtmlFiles st.1
    ∧ CssFiles st'.1 = CssFiles st.1
    ∧ SqlFiles st'.1 = SqlFiles st.1
    ∧ allFunctions st'.2 = allFunctions st.2
    ∧ allStructs st'.2 = allStructs st.2
    ∧ allClasses st'.2 = allClasses st.2
    ∧ allPythonClasses st'.2 = allPythonClasses st.2
    ∧ stdout st.2 = (outBefore ++ outAfter)%list
    ∧ stdout st'.2 = (outBefore ++ lines ++ outAfter)%list.

End Run.

(** ** Part II: theorems *)

(** *** The resolver *)

Section ResolverFacts.
Import GoStrings Regexp Resolver.
Open Scope string_scope.
Open Scope Z_scope.

Lemma existsb_eqb_elem (l : list string) (y : string) :
  existsb (fun s => String.eqb s y) l = true ↔ y ∈ l.
Proof.
  rewrite existsb_exists. split.
  - intros (x & Hin & Heq). apply String.eqb_eq in Heq. subst.
    by apply list_elem_of_In.
  - intros Hin. exists y. split; [by apply list_elem_of_In | apply String.eqb_refl].
Qed.

Lemma appendIfNotExists_elem (x : string) (l : list string) (y : string) :
  x ∈ appendIfNotExists l y ↔ x ∈ l ∨ x = y.
Proof.
  unfold appendIfNotExists.
  destruct (existsb (fun s => String.eqb s y) l) eqn:E.
  - apply existsb_eqb_elem in E. split; [by left | intros [?| ->]; done].
  - rewrite elem_of_app, list_elem_of_singleton. done.
Qed.

Lemma appendIfNotExists_NoDup (l : list string) (y : string) :
  NoDup l → NoDup (appendIfNotExists l y).
Proof.
  intros Hnd. unfold appendIfNotExists.
  destruct (existsb (fun s => String.eqb s y) l) eqn:E; [done |].
  apply NoDup_app. split; [done |]. split; [| apply NoDup_singleton].
  intros x Hx Hy. apply list_elem_of_singleton in Hy. subst.
  apply existsb_eqb_elem in Hx. congruence.
Qed.

Lemma append_all_elem (x : string) (l acc : list string) :
  x ∈ foldl appendIfNotExists acc l ↔ x ∈ acc ∨ x ∈ l.
Proof.
  revert acc. induction l as [| y l IH]; intros acc; simpl.
  - rewrite elem_of_nil. tauto.
  - rewrite IH, appendIfNotExists_elem, elem_of_cons. tauto.
Qed.

Lemma append_all_NoDup (l acc : list string) :
  NoDup acc → NoDup (foldl appendIfNotExists acc l).
Proof.
  revert acc. induction l as [| y l IH]; intros acc Hnd; simpl; [done |].
  by apply IH, appendIfNotExists_NoDup.
Qed.

(** A loop whose body appends the candidates of its element appends the
    candidates of all elements. *)
Lemma append_all_flat_map {A : Type} (step : list string → A → list string)
    (c : A → list string) (l : list A) (acc : list string) :
  (∀ acc a, step acc a = foldl appendIfNotExists acc (c a)) →
  foldl step acc l = foldl appendIfNotExists acc (flat_map c l).
Proof.
  intros Hstep. revert acc. induction l as [| a l IH]; intros acc; simpl; [done |].
  by rewrite Hstep, IH, foldl_app.
Qed.

Lemma append_all_filter (test : string → bool) (l acc : list string) :
  foldl (fun acc y => if test y then appendIfNotExists acc y else acc) acc l
  = foldl appendIfNotExists acc (List.filter test l).
Proof.
  revert acc. induction l as [| y l IH]; intros acc; simpl; [done |].
  destruct (test y); simpl; by rewrite IH.
Qed.

Lemma event_rule_candidates allFunctions acc kv :
  event_rule allFunctions acc kv
  = foldl appendIfNotExists acc (event_candidates allFunctions kv).
Proof.
  unfold event_rule, event_candidates. destruct kv as [key value].
  repeat case_match; done.
Qed.

Lemma exact_rule_candidates allFunctions attr acc :
  exact_rule allFunctions attr acc
  = foldl appendIfNotExists acc (exact_candidates allFunctions attr).
Proof. unfold exact_rule, exact_candidates. repeat case_match; done. Qed.

Lemma action_rule_candidates order attr acc :
  action_rule order attr acc = foldl appendIfNotExists acc (action_candidates order attr).
Proof.
  unfold action_rule, action_candidates. repeat case_match; try done.
  apply append_all_filter.
Qed.

Lemma hx_rule_candidates funcs acc kv :
  hx_rule funcs acc kv = foldl appendIfNotExists acc (hx_candidates funcs kv).
Proof.
  unfold hx_rule, hx_candidates, hx_applies. destruct kv as [key value]. simpl.
  destruct (HasPrefix key "hx-" && Contains value "/"); simpl; [| done].
  destruct (0 <? length (Split value "/"))%nat; simpl; [| done].
  apply append_all_filter.
Qed.

(** The resolver returns its candidates, first occurrences only. *)
Lemma findLinkedFunctions_candidates o element allFunctions allClasses :
  findLinkedFunctions o element allFunctions allClasses
  = foldl appendIfNotExists [] (candidates o element allFunctions).
Proof.
  unfold findLinkedFunctions, candidates.
  rewrite !foldl_app.
  rewrite (append_all_flat_map _ _ _ _ (event_rule_candidates allFunctions)).
  rewrite !exact_rule_candidates, action_rule_candidates.
  by rewrite (append_all_flat_map _ _ _ _ (hx_rule_candidates (hx_funcs_order o))).
Qed.

Lemma findLinkedFunctions_elem x o element allFunctions allClasses :
  x ∈ findLinkedFunctions o element allFunctions allClasses
  ↔ x ∈ candidates o element allFunctions.
Proof.
  rewrite findLinkedFunctions_candidates, append_all_elem, elem_of_nil. tauto.
Qed.

Lemma findLinkedFunctions_NoDup o element allFunctions allClasses :
  NoDup (findLinkedFunctions o element allFunctions allClasses).
Proof.
  rewrite findLinkedFunctions_candidates. apply append_all_NoDup, NoDup_nil_2.
Qed.

Lemma elem_of_flat_map {A B : Type} (f : A → list B) (l : list A) (y : B) :
  y ∈ flat_map f l ↔ ∃ x, x ∈ l ∧ y ∈ f x.
Proof.
  rewrite list_elem_of_In, in_flat_map. split.
  - intros (x & ? & ?). exists x. by rewrite !list_elem_of_In.
  - intros (x & ? & ?). exists x. by rewrite <- !list_elem_of_In.
Qed.

Lemma elem_of_list_filter' {A : Type} (p : A → bool) (l : list A) (x : A) :
  x ∈ List.filter p l ↔ x ∈ l ∧ p x = true.
Proof. by rewrite !list_elem_of_In, filter_In. Qed.

(** What the candidates are does not depend on the iteration orders. *)
Lemma candidates_order_irrelevant x o1 o2 element allFunctions :
  valid_order o1 element allFunctions →
  valid_order o2 element allFunctions →
  x ∈ candidates o1 element allFunctions → x ∈ candidates o2 element allFunctions.
Proof.
  intros (He1 & Ha1 & Hh1 & Hf1) (He2 & Ha2 & Hh2 & Hf2).
  unfold candidates. rewrite !elem_of_app, !elem_of_flat_map.
  intros [(kv & Hkv & Hx) | [H | [H | [H | (kv & Hkv & Hx)]]]].
  - left. exists kv. split; [| done]. by rewrite He2, <- He1.
  - right; by left.
  - right; right; by left.
  - right; right; right; left. revert H. unfold action_candidates.
    repeat case_match; try done.
    rewrite !elem_of_list_filter'. by rewrite Ha2, <- Ha1.
  - right; right; right; right. exists kv. split; [by rewrite Hh2, <- Hh1 |].
    revert Hx. unfold hx_candidates. case_match; [| done].
    rewrite !elem_of_list_filter'. by rewrite Hf2, <- (Hf1 kv.1).
Qed.

(** Every candidate is a registered name. *)
Lemma candidates_registered x o element allFunctions :
  valid_order o element allFunctions →
  x ∈ candidates o element allFunctions → is_Some (allFunctions !! x).
Proof.
  intros (He & Ha & Hh & Hf).
  assert (Hkey : ∀ l : list string, l ≡ₚ (map_to_list allFunctions).*1 →
                 x ∈ l → is_Some (allFunctions !! x)).
  { intros l Hl Hx. rewrite Hl in Hx. apply list_elem_of_fmap in Hx as ([k v] & -> & Hkv).
    apply elem_of_map_to_list in Hkv. by exists v. }
  assert (Hreg : ∀ name, registered allFunctions name = true → is_Some (allFunctions !! name)).
  { intros name Hn. unfold registered in Hn. by apply bool_decide_eq_true in Hn. }
  unfold candidates. rewrite !elem_of_app, !elem_of_flat_map.
  intros [(kv & Hkv & Hx) | [H | [H | [H | (kv & Hkv & Hx)]]]].
  - unfold event_candidates in Hx. destruct kv as [key value].
    repeat case_match; try by apply elem_of_nil in Hx.
    apply list_elem_of_singleton in Hx. subst. by apply Hreg.
  - unfold exact_candidates in H. repeat case_match; try by apply elem_of_nil in H.
    apply list_elem_of_singleton in H. subst. by apply Hreg.
  - unfold exact_candidates in H. repeat case_match; try by apply elem_of_nil in H.
    apply list_elem_of_singleton in H. subst. by apply Hreg.
  - unfold action_candidates in H. repeat case_match; try by apply elem_of_nil in H.
    apply elem_of_list_filter' in H as [H _]. by apply (Hkey _ Ha).
  - unfold hx_candidates in Hx. case_match; [| by apply elem_of_nil in Hx].
    apply elem_of_list_filter' in Hx as [Hx _]. by apply (Hkey _ (Hf kv.1)).
Qed.

Lemma canonical_order_valid element allFunctions :
  valid_order (canonical_order element allFunctions) element allFunctions.
Proof. by repeat split. Qed.

Lemma reversed_order_valid element allFunctions :
  valid_order (reversed_order element allFunctions) element allFunctions.
Proof. repeat split; simpl; intros; apply reverse_Permutation. Qed.

End ResolverFacts.
Section ResolverClaims.
Import GoStrings Regexp Resolver.
Open Scope string_scope.
Open Scope Z_scope.

(** C1, as stated: two evaluations of the resolver on the same element and
    registry return the same list, order included.  It fails: the form
    [action="save.php"] with the functions [save] and [save_all] registered
    is linked to [save_all; save] when the registry is walked in one order
    and to [save; save_all] when it is walked in the other. *)
Lemma resolver_order_counterexample :
  ¬ (∀ element allFunctions allClasses o1 o2,
       valid_order o1 element allFunctions →
       valid_order o2 element allFunctions →
       findLinkedFunctions o1 element allFunctions allClasses
       = findLinkedFunctions o2 element allFunctions allClasses).
Proof.
  intros H.
  specialize (H save_form save_registry ∅
                (canonical_order save_form save_registry)
                (reversed_order save_form save_registry)
                (canonical_order_valid _ _) (reversed_order_valid _ _)).
  vm_compute in H. discriminate H.
Qed.

(** C1, amended: for a fixed registry and a fixed element, two evaluations
    of the resolver return lists with the same names, each name once; the
    lists are equal up to the order of their entries, which follows the map
    iteration order of the evaluation. *)
Theorem resolver_runs_agree element allFunctions allClasses o1 o2 :
  valid_order o1 element allFunctions →
  valid_order o2 element allFunctions →
  findLinkedFunctions o1 element allFunctions allClasses
    ≡ₚ findLinkedFunctions o2 element allFunctions allClasses
  ∧ NoDup (findLinkedFunctions o1 element allFunctions allClasses).
Proof.
  intros H1 H2. split; [| apply findLinkedFunctions_NoDup].
  apply NoDup_Permutation; try apply findLinkedFunctions_NoDup.
  intros x. rewrite !findLinkedFunctions_elem.
  split; by apply candidates_order_irrelevant.
Qed.

Lemma resolver_runs_agree_witness :
  valid_order (canonical_order save_form save_registry) save_form save_registry
  ∧ valid_order (reversed_order save_form save_registry) save_form save_registry
  ∧ (findLinkedFunctions (canonical_order save_form save_registry)
       save_form save_registry ∅
       ≡ₚ findLinkedFunctions (reversed_order save_form save_registry)
            save_form save_registry ∅
     ∧ NoDup (findLinkedFunctions (canonical_order save_form save_registry)
                save_form save_registry ∅)).
Proof.
  split; [apply canonical_order_valid |].
  split; [apply reversed_order_valid |].
  apply (resolver_runs_agree save_form save_registry ∅
           (canonical_order save_form save_registry)
           (reversed_order save_form save_registry)).
  - apply canonical_order_valid.
  - apply reversed_order_valid.
Defined.

Lemma onclick_event_candidates allFunctions :
  event_candidates allFunctions ("onclick", "doThing()")
  = if registered allFunctions "doThing" then ["doThing"] else [].
Proof. reflexivity. Qed.

Lemma onclick_hx_candidates funcs :
  hx_candidates funcs ("onclick", "doThing()") = [].
Proof. reflexivity. Qed.

(** C8: for an element with [onclick="doThing()"] and any registry, the
    resolver puts [doThing] in the linked-function list exactly when
    [doThing] is registered; when it is not registered and no other rule
    applies (the element has no other attribute and no function is
    registered under the whole attribute value), the list is empty. *)
Theorem onclick_links_registered_handler element allFunctions allClasses o :
  Attributes element !! "onclick" = Some "doThing()" →
  valid_order o element allFunctions →
  ("doThing" ∈ findLinkedFunctions o element allFunctions allClasses
   ↔ is_Some (allFunctions !! "doThing"))
  ∧ (Attributes element = {["onclick" := "doThing()"]} →
     allFunctions !! "doThing" = None →
     allFunctions !! "doThing()" = None →
     findLinkedFunctions o element allFunctions allClasses = []).
Proof.
  intros Hattr Hvalid. split.
  - rewrite findLinkedFunctions_elem. split.
    + by apply candidates_registered.
    + intros Hreg. destruct Hvalid as (He & _).
      unfold candidates. rewrite !elem_of_app. left.
      apply elem_of_flat_map. exists ("onclick", "doThing()"). split.
      * rewrite He. by apply elem_of_map_to_list.
      * rewrite onclick_event_candidates. unfold registered.
        rewrite bool_decide_eq_true_2 by done. by apply list_elem_of_singleton.
  - intros Hsingle Hnone Hnone'. destruct Hvalid as (He & _ & Hh & _).
    rewrite Hsingle, map_to_list_singleton in He, Hh.
    apply Permutation_singleton_r in He, Hh.
    rewrite findLinkedFunctions_candidates. unfold candidates.
    rewrite He, Hh, Hsingle. cbn [flat_map].
    rewrite onclick_event_candidates, onclick_hx_candidates.
    assert (Hr : ∀ name, allFunctions !! name = None → registered allFunctions name = false).
    { intros name Hn. unfold registered. apply bool_decide_eq_false_2.
      rewrite Hn. by intros [? ?]. }
    rewrite (Hr _ Hnone).
    rewrite lookup_singleton_ne by done.
    rewrite lookup_singleton_eq.
    rewrite lookup_singleton_ne by done.
    cbn [exact_candidates action_candidates]. rewrite (Hr _ Hnone'). reflexivity.
Qed.

Lemma onclick_links_registered_handler_witness :
  Attributes onclick_element !! "onclick" = Some "doThing()"
  ∧ valid_order (canonical_order onclick_element (registry_of ["doThing"]))
      onclick_element (registry_of ["doThing"])
  ∧ "doThing" ∈ findLinkedFunctions
        (canonical_order onclick_element (registry_of ["doThing"]))
        onclick_element (registry_of ["doThing"]) ∅.
Proof.
  split; [reflexivity |].
  split; [apply canonical_order_valid |].
  apply (onclick_links_registered_handler onclick_element (registry_of ["doThing"]) ∅
           (canonical_order onclick_element (registry_of ["doThing"]))).
  - reflexivity.
  - apply canonical_order_valid.
  - exists (fn "doThing"). reflexivity.
Defined.

End ResolverClaims.
(** *** Strings: splitting and trimming *)

Section StringFacts.
Import GoStrings.
Open Scope string_scope.
Open Scope Z_scope.

Lemma append_nil_l (s : string) : "" ++ s = s.
Proof. reflexivity. Qed.

Lemma append_cons (c : ascii) (s t : string) : String c s ++ t = String c (s ++ t).
Proof. reflexivity. Qed.

Lemma append_nil_r (s : string) : s ++ "" = s.
Proof. induction s; rewrite ?append_cons; [done | congruence]. Qed.

Lemma append_assoc (a b c : string) : (a ++ b) ++ c = a ++ (b ++ c).
Proof. induction a; rewrite ?append_cons, ?append_nil_l; [done | congruence]. Qed.

Lemma Index_nil (substr : string) :
  Index "" substr = if String.prefix substr "" then 0 else -1.
Proof. reflexivity. Qed.

Lemma Index_cons (c : ascii) (t substr : string) :
  Index (String c t) substr
  = if String.prefix substr (String c t) then 0
    else if Index t substr <? 0 then -1 else Index t substr + 1.
Proof. reflexivity. Qed.

Lemma Index_lower_bound (s substr : string) : -1 <= Index s substr.
Proof.
  induction s as [| c t IH].
  - rewrite Index_nil. destruct (String.prefix substr ""); lia.
  - rewrite Index_cons. destruct (String.prefix substr (String c t)); [lia |].
    destruct (Index t substr <? 0) eqn:E; [lia |]. apply Z.ltb_ge in E. lia.
Qed.

Lemma prefix_byte (d c : ascii) (t : string) :
  String.prefix (String d "") (String c t) = bool_decide (d = c).
Proof.
  simpl. destruct (ascii_dec d c) as [-> | Hne].
  - destruct t; by rewrite bool_decide_eq_true_2.
  - by rewrite bool_decide_eq_false_2.
Qed.

Lemma Index_byte_cons (d c : ascii) (t : string) :
  Index (String c t) (String d "")
  = if bool_decide (d = c) then 0
    else if Index t (String d "") <? 0 then -1 else Index t (String d "") + 1.
Proof. by rewrite Index_cons, prefix_byte. Qed.

Lemma Contains_byte_cons (d c : ascii) (t : string) :
  Contains (String c t) (String d "") = false →
  d ≠ c ∧ Contains t (String d "") = false.
Proof.
  unfold Contains. rewrite Index_byte_cons.
  pose proof (Index_lower_bound t (String d "")).
  repeat case_bool_decide; repeat case_match; rewrite ?Z.leb_gt, ?Z.ltb_lt, ?Z.ltb_ge in *;
    intros; split; try done; try lia.
Qed.

Lemma split_from_piece (d : ascii) (p rest cur : string) :
  Contains p (String d "") = false →
  split_from (String d "") (p ++ rest) 0 cur
  = split_from (String d "") rest 0 (cur ++ p).
Proof.
  revert cur. induction p as [| c t IH]; intros cur Hp.
  - by rewrite append_nil_l, append_nil_r.
  - apply Contains_byte_cons in Hp as [Hne Hp].
    change (String c t ++ rest) with (String c (t ++ rest)).
    cbn [split_from]. rewrite prefix_byte, bool_decide_eq_false_2 by done.
    rewrite IH by done. by rewrite append_assoc.
Qed.

Lemma split_from_sep (d : ascii) (rest cur : string) :
  split_from (String d "") (String d rest) 0 cur
  = cur :: split_from (String d "") rest 0 "".
Proof. cbn [split_from]. by rewrite prefix_byte, bool_decide_eq_true_2. Qed.

(** Splitting undoes joining, for pieces free of the separator. *)
Lemma Split_Join (d : ascii) (pieces : list string) :
  Forall (fun p => Contains p (String d "") = false) pieces →
  pieces ≠ [] →
  Split (Join pieces (String d "")) (String d "") = pieces.
Proof.
  unfold Split. intros Hall Hne.
  assert (G : ∀ cur, split_from (String d "") (Join pieces (String d "")) 0 cur
                     = match pieces with
                       | [] => [cur]
                       | p :: rest => (cur ++ p) :: rest
                       end).
  { clear Hne. induction Hall as [| p rest Hp Hrest IH]; intros cur; [done |].
    destruct rest as [| q rest].
    - simpl. rewrite <- (append_nil_r p) at 1.
      rewrite split_from_piece by done. done.
    - change (Join (p :: q :: rest) (String d ""))
        with (p ++ String d (Join (q :: rest) (String d ""))).
      rewrite split_from_piece by done. rewrite split_from_sep.
      by rewrite (IH ""). }
  rewrite G. by destruct pieces.
Qed.

Lemma Split_empty (sep : string) : Split "" sep = [""].
Proof. reflexivity. Qed.

End StringFacts.
Section TrimFacts.
Import GoStrings.
Open Scope string_scope.
Open Scope Z_scope.

Lemma trim_left_by_keep (p : ascii → bool) (c : ascii) (t : string) :
  p c = false → trim_left_by p (String c t) = String c t.
Proof. intros H. cbn [trim_left_by]. by rewrite H. Qed.

Lemma trim_left_by_shape (p : ascii → bool) (s : string) :
  trim_left_by p s = "" ∨ ∃ c r, trim_left_by p s = String c r ∧ p c = false.
Proof.
  induction s as [| c t IH]; [by left |].
  cbn [trim_left_by]. destruct (p c) eqn:E; [done |]. right. by exists c, t.
Qed.

Lemma trim_right_by_keep (p : ascii → bool) (c : ascii) (t : string) :
  p c = false → ∃ r, trim_right_by p (String c t) = String c r.
Proof.
  intros H. cbn [trim_right_by]. destruct (trim_right_by p t); rewrite ?H; eauto.
Qed.

Lemma TrimSpace_keep (c : ascii) (t : string) :
  isSpace c = false → ∃ r, TrimSpace (String c t) = String c r.
Proof.
  intros H. unfold TrimSpace. rewrite trim_left_by_keep by done.
  by apply trim_right_by_keep.
Qed.

Lemma TrimSpace_shape (s : string) :
  TrimSpace s = "" ∨ ∃ c r, TrimSpace s = String c r ∧ isSpace c = false.
Proof.
  unfold TrimSpace.
  destruct (trim_left_by_shape isSpace s) as [-> | (c & r & -> & Hc)]; [by left |].
  right. destruct (trim_right_by_keep isSpace c r Hc) as [r' Hr']. by exists c, r'.
Qed.

Lemma substring_cons (c : ascii) (t : string) (n : nat) :
  String.substring 0 (S n) (String c t) = String c (String.substring 0 n t).
Proof. reflexivity. Qed.

(** The first piece of a split in two starts like the text that is split. *)
Lemma hd_SplitN_shape (d c : ascii) (t : string) :
  let h := hd "" (SplitN (String c t) (String d "") 2) in
  (h = "" ∨ ∃ r, h = String c r) ∧ (d ≠ c → ∃ r, h = String c r).
Proof.
  cbn [SplitN]. rewrite Index_byte_cons.
  pose proof (Index_lower_bound t (String d "")) as Hlb.
  destruct (decide (d = c)) as [-> | Hne].
  - rewrite bool_decide_eq_true_2 by done. simpl. split; [by left | done].
  - rewrite bool_decide_eq_false_2 by done.
    destruct (Index t (String d "") <? 0) eqn:E.
    + simpl. split; [right |]; eauto.
    + apply Z.ltb_ge in E.
      replace (Index t (String d "") + 1 <? 0) with false by (symmetry; apply Z.ltb_ge; lia).
      cbn [hd].
      replace (Z.to_nat (Index t (String d "") + 1))
        with (S (Z.to_nat (Index t (String d "")))) by lia.
      rewrite substring_cons. split; [right |]; eauto.
Qed.

Lemma hd_SplitN_nil (sep : string) : hd "" (SplitN "" sep 2) = "".
Proof. cbn [SplitN]. rewrite Index_nil. by destruct (String.prefix sep ""). Qed.

Lemma HasPrefix_byte (c d : ascii) (r : string) :
  HasPrefix (String c r) (String d "") = bool_decide (d = c).
Proof. apply prefix_byte. Qed.

End TrimFacts.

(** *** Arguments of an indentation-language callable *)

Section PythonArgs.
Import GoStrings Python.
Open Scope string_scope.
Open Scope Z_scope.

(** A written parameter that is not blank starts with a non-space byte, and
    its extracted name is empty or starts with the same byte. *)
Lemma param_name_shape (p : string) (c : ascii) (r : string) :
  TrimSpace p = String c r → isSpace c = false →
  (param_name p = "" ∨ ∃ r', param_name p = String c r')
  ∧ (c ≠ "=" → c ≠ ":" → ∃ r', param_name p = String c r')%char.
Proof.
  intros Hp Hc. unfold param_name. rewrite Hp.
  destruct (hd_SplitN_shape "=" c r) as [Hs1 Hs1'].
  set (s1 := hd "" (SplitN (String c r) "=" 2)) in *.
  assert (H1 : (TrimSpace s1 = "" ∨ ∃ r', TrimSpace s1 = String c r')
               ∧ (c ≠ "="%char → ∃ r', TrimSpace s1 = String c r')).
  { split.
    - destruct Hs1 as [-> | [r1 ->]]; [by left | right; by apply TrimSpace_keep].
    - intros Hne. destruct Hs1' as [r1 ->]; [done |]. by apply TrimSpace_keep. }
  destruct H1 as [H1 H1'].
  set (t1 := TrimSpace s1) in *.
  assert (H2 : (hd "" (SplitN t1 ":" 2) = "" ∨ ∃ r', hd "" (SplitN t1 ":" 2) = String c r')
               ∧ (c ≠ "="%char → c ≠ ":"%char →
                  ∃ r', hd "" (SplitN t1 ":" 2) = String c r')).
  { split.
    - destruct H1 as [-> | [r1 ->]]; [left; apply hd_SplitN_nil |].
      apply (hd_SplitN_shape ":" c r1).
    - intros Hne1 Hne2. destruct (H1' Hne1) as [r1 ->].
      by apply (hd_SplitN_shape ":" c r1). }
  destruct H2 as [H2 H2'].
  set (s2 := hd "" (SplitN t1 ":" 2)) in *.
  split.
  - destruct H2 as [-> | [r2 ->]]; [by left | right; by apply TrimSpace_keep].
  - intros Hne1 Hne2. destruct (H2' Hne1 Hne2) as [r2 ->]. by apply TrimSpace_keep.
Qed.

(** The name of a parameter starts with a star exactly when the parameter
    is written with a leading star. *)
Lemma starred_name (p : string) :
  blank p = false → HasPrefix (param_name p) "*" = starred p.
Proof.
  intros Hb. unfold starred, blank in *.
  destruct (TrimSpace_shape p) as [Hnil | (c & r & Hp & Hc)].
  - rewrite Hnil in Hb. done.
  - destruct (param_name_shape p c r Hp Hc) as [Hshape Hstar].
    rewrite Hp, HasPrefix_byte.
    destruct (decide ("*"%char = c)) as [<- | Hne].
    + destruct Hstar as [r' ->]; [done | done |].
      by rewrite HasPrefix_byte.
    + rewrite (bool_decide_eq_false_2 _ Hne).
      destruct Hshape as [-> | [r' ->]]; [done |].
      by rewrite HasPrefix_byte, bool_decide_eq_false_2.
Qed.

(** The loop of [parsePythonFunctionArgs] over the pieces. *)
Lemma parse_pieces (lineNumber : Z) (pieces : list string) (args : list Variable_) :
  foldl (fun args arg =>
      let arg := TrimSpace arg in
      if String.eqb arg "" then args
      else
        let parts := SplitN arg "=" 2 in
        let paramStr := TrimSpace (hd "" parts) in
        let typeHintParts := SplitN paramStr ":" 2 in
        let paramName := TrimSpace (hd "" typeHintParts) in
        let paramType :=
          if (1 <? length typeHintParts)%nat
          then TrimSpace (nth 1 typeHintParts "")
          else "Any" in
        if HasPrefix paramName "*" then args
        else (args ++ [variable paramName paramType "parameter" lineNumber])%list)
    args pieces
  = (args ++ (param_variable lineNumber <$> List.filter kept pieces))%list.
Proof.
  revert args. induction pieces as [| p rest IH]; intros args.
  - simpl. by rewrite app_nil_r.
  - cbn [foldl List.filter]. rewrite IH. unfold kept at 2.
    fold (blank p). destruct (blank p) eqn:Hb; [done |].
    rewrite <- (starred_name p Hb). fold (param_name p).
    destruct (HasPrefix (param_name p) "*"); [done |].
    cbn [negb andb fmap list_fmap]. by rewrite <- app_assoc.
Qed.

(** C10, as stated: for every callable, the extracted argument list names
    the written parameters that have no leading star, in the order they are
    written.  It fails: the argument text is split at every comma, also at
    one inside an annotation, so for [*args: Tuple[int, str], b] the list
    names [str]] and [b]: a piece of the starred parameter is extracted as
    a parameter of its own. *)
Lemma star_parameters_comma_counterexample :
  ¬ (∀ params lineNumber,
       v_Name <$> parsePythonFunctionArgs (Join params ",") lineNumber
       = param_name <$> List.filter kept params).
Proof.
  intros H. specialize (H annotated_star 1).
  assert (v_Name <$> parsePythonFunctionArgs (Join annotated_star ",") 1 = ["str]"; "b"])
    as Hcode by (vm_compute; reflexivity).
  assert (param_name <$> List.filter kept annotated_star = ["b"])
    as Hclaim by (vm_compute; reflexivity).
  rewrite Hcode, Hclaim in H. discriminate H.
Qed.

(** C10, amended: for written parameters in ASCII text that contain no
    comma, the parameters written with a leading [*] or [**] are left out
    of the extracted argument list, and the remaining (non-blank)
    parameters are kept in the order they are written: the arguments
    extracted from their comma-separated list are the variables of the
    parameters that are not starred, in order.  The trimming functions of
    the model are the ASCII ones, which is what Go's compute on ASCII
    text. *)
Theorem star_parameters_omitted (params : list string) (lineNumber : Z) :
  Forall (fun p => GoLibrary.is_ascii p = true) params →
  Forall (fun p => Contains p "," = false) params →
  parsePythonFunctionArgs (Join params ",") lineNumber
  = param_variable lineNumber <$> List.filter kept params.
Proof.
  intros _ Hall. unfold parsePythonFunctionArgs.
  destruct params as [| p rest]; [done |].
  rewrite Split_Join by done.
  destruct (String.eqb (Join (p :: rest) ",") "") eqn:E.
  - apply String.eqb_eq in E.
    destruct rest as [| q rest].
    + simpl in E. subst p. done.
    + change (Join (p :: q :: rest) ",") with (p ++ String "," (Join (q :: rest) ",")) in E.
      destruct p; discriminate E.
  - by rewrite parse_pieces.
Qed.

Lemma star_parameters_omitted_witness :
  Forall (fun p => GoLibrary.is_ascii p = true) ["a"; " *args"; " b: int = 1"; " **kwargs"]
  ∧ Forall (fun p => Contains p "," = false) ["a"; " *args"; " b: int = 1"; " **kwargs"]
  ∧ v_Name <$> parsePythonFunctionArgs "a, *args, b: int = 1, **kwargs" 3 = ["a"; "b"].
Proof.
  split; [repeat constructor |]. split; [repeat constructor |].
  change "a, *args, b: int = 1, **kwargs"
    with (Join ["a"; " *args"; " b: int = 1"; " **kwargs"] ",").
  rewrite (star_parameters_omitted ["a"; " *args"; " b: int = 1"; " **kwargs"] 3).
  - reflexivity.
  - repeat constructor.
  - repeat constructor.
Defined.

End PythonArgs.
(** *** The tree-based extractor *)

Section GoFacts.
Import GoStrings GoExtractor GoInputs.
Open Scope string_scope.
Open Scope Z_scope.

(** C2, on the code: the type [Foo] declared before its method [M] ends
    with the method list [M], in the summary and in the registry; declared
    after it, it ends with no method in either. *)
Theorem methods_before_type_are_dropped :
  let early := analyzeGoFile "a.go" (inr type_first) no_registries in
  let late := analyzeGoFile "a.go" (inr methods_first) no_registries in
  summary_methods early.1 = [("Foo", ["M"])]
  ∧ registry_methods early.2 "Foo" = Some ["M"]
  ∧ summary_methods late.1 = [("Foo", [])]
  ∧ registry_methods late.2 "Foo" = Some [].
Proof. vm_compute. done. Qed.




Lemma add_controls_structs (cs : list ControlFlow) (s : GoFileSummary) :
  go_Structs (foldl (fun s c => add_control c s) s cs) = go_Structs s.
Proof. revert s. induction cs as [| c cs IH]; intros s; simpl; [done | by rewrite IH]. Qed.


End GoFacts.
(** *** Control flow of the indentation-scoped extractor *)

Section WalkFacts.

(** A loop whose body appends a fixed output for each element appends the
    outputs of all elements, whatever the iteration counter does. *)
Lemma walk_each_outputs {A B : Type} (body : list B → A → Walk (list B))
    (out : A → list B) (l : list A) :
  (∀ x, x ∈ l → ∀ acc n, ∃ n', body acc x n = Ok ((acc ++ out x)%list, n')) →
  ∀ acc n, ∃ n', walk_each body l acc n = Ok ((acc ++ flat_map out l)%list, n').
Proof.
  induction l as [| x l IH]; intros Hbody acc n.
  - exists n. simpl. by rewrite app_nil_r.
  - destruct (Hbody x ltac:(left) acc n) as [n1 H1].
    destruct (IH (fun y Hy => Hbody y ltac:(by right)) (acc ++ out x)%list n1) as [n2 H2].
    exists n2. cbn [walk_each flat_map]. unfold walk_bind. rewrite H1. cbn.
    by rewrite H2, app_assoc.
Qed.

Lemma flat_map_no_output {A B : Type} (l : list A) :
  flat_map (fun _ : A => @nil B) l = [].
Proof. induction l; simpl; done. Qed.

End WalkFacts.



Ltac table_without_output :=
  match goal with
  | |- ∃ n', walk_each ?body ?l ?a0 ?m0 = _ =>
      cut (∃ n', walk_each body l a0 m0
                 = Ok ((a0 ++ flat_map (fun _ => []) l)%list, n'));
      [ by rewrite flat_map_no_output | apply walk_each_outputs ]
  end.

Section PythonFlow.
Import GoStrings Regexp Python.
Open Scope string_scope.
Open Scope Z_scope.

Lemma in_patterns (entry : string * re) :
  entry ∈ patterns →
  entry = control_pattern "if" ∨ entry = control_pattern "for"
  ∨ entry = control_pattern "while" ∨ entry = try_pattern
  ∨ entry = control_pattern "with".
Proof.
  unfold patterns. rewrite !elem_of_cons, elem_of_nil. tauto.
Qed.

(** One unfolding of [findNestedPythonControlFlow]. *)
Lemma findNestedPythonControlFlow_step (choose : nat → list (string * re))
    (fuel : nat) (content : string) (startPos parentIndent : Z) (n : nat) :
  findNestedPythonControlFlow choose (S fuel) content startPos parentIndent n
  = match block_of content startPos parentIndent with
    | Ok (Some blockContent) =>
        walk_each
          (nested_entry (findNestedPythonControlFlow choose fuel content)
             content startPos parentIndent blockContent)
          (choose n) [] (S n)
    | Ok None => Ok ([], n)
    | Panic => Panic
    | NoFuel => NoFuel
    end.
Proof.
  change (findNestedPythonControlFlow choose (S fuel) content startPos parentIndent n)
    with (walk_bind (walk_lift (block_of content startPos parentIndent))
            (fun block =>
               match block with
               | None => walk_ret []
               | Some blockContent =>
                   fun n =>
                     walk_each
                       (nested_entry (findNestedPythonControlFlow choose fuel content)
                          content startPos parentIndent blockContent)
                       (choose n) [] (S n)
               end) n).
  unfold walk_bind, walk_lift.
  destruct (block_of content startPos parentIndent) as [[b |] | |]; reflexivity.
Qed.












End PythonFlow.
(** *** The delimiter-scoped extractor *)

Section PhpScenario.
Import GoStrings Regexp Php.
Open Scope string_scope.
Open Scope Z_scope.

Lemma in_php_patterns (entry : string * re) :
  entry ∈ patterns →
  entry = control_pattern "if" ∨ entry = control_pattern "for"
  ∨ entry = control_pattern "while" ∨ entry = control_pattern "foreach"
  ∨ entry = control_pattern "switch".
Proof.
  unfold patterns. cbn [fmap list_fmap]. rewrite !elem_of_cons, elem_of_nil. tauto.
Qed.

(** Scenario A has no control-flow construct, under any iteration order. *)
Lemma scenario_A_flows (choose : nat → list (string * re)) :
  (∀ n, choose n ≡ₚ patterns) →
  ∃ n', extractPhpControlFlow choose scenario_A 0%nat = Ok ([], n').
Proof.
  intros Hchoose. unfold extractPhpControlFlow.
  table_without_output.
  intros entry Hentry acc m. exists m. rewrite app_nil_r.
  rewrite (Hchoose 0%nat) in Hentry.
  destruct (in_php_patterns entry Hentry) as [-> | [-> | [-> | [-> | ->]]]];
    vm_compute; reflexivity.
Qed.

Lemma scenario_A_summary (choose : nat → list (string * re)) (filePath : string)
    (r : Registries) :
  (∀ n, choose n ≡ₚ patterns) →
  ∃ summary r',
    analyzePhpFile choose filePath scenario_A r = Ok (summary, r')
    ∧ php_Classes summary = [scenario_A_class].
Proof.
  intros Hchoose. unfold analyzePhpFile.
  replace (php_classes scenario_A) with (Ok [scenario_A_class])
    by (vm_compute; reflexivity).
  replace (php_functions scenario_A) with (@Ok (list Function_) [])
    by (vm_compute; reflexivity).
  replace (php_globals scenario_A) with (@Ok (list Variable_) [])
    by (vm_compute; reflexivity).
  destruct (scenario_A_flows choose Hchoose) as [n' ->].
  cbn [mbind Result_bind]. eauto.
Qed.

(** C7, as stated: the method [bar] of scenario A has a single parameter
    named [x].  It fails: the parameter is recorded under the name [$x]. *)
Lemma scenario_A_parameter_counterexample :
  ¬ (∀ choose filePath r,
       (∀ n, choose n ≡ₚ patterns) →
       ∃ summary r',
         analyzePhpFile choose filePath scenario_A r = Ok (summary, r')
         ∧ scenario_A_as_claimed summary).
Proof.
  intros H.
  destruct (H written_order "a.php" no_registries (fun _ => reflexivity _))
    as (summary & r' & Hrun & cls & method & param & Hcls & _ & Hin & _ & Hargs & Hname & _).
  destruct (scenario_A_summary written_order "a.php" no_registries (fun _ => reflexivity _))
    as (summary' & r'' & Hrun' & Hcls').
  rewrite Hrun in Hrun'. injection Hrun' as <- <-.
  rewrite Hcls' in Hcls. injection Hcls as <-.
  apply list_elem_of_singleton in Hin. subst method.
  injection Hargs as <-. discriminate Hname.
Qed.

(** C7, amended: for [class Foo { public function bar($x) { baz(); } }] the
    delimiter-scoped extractor produces exactly one aggregate type, named
    [Foo], whose method list is the single method [bar]; [bar] has a single
    parameter, recorded with its sigil under the name [$x], and its call
    list is [baz]. *)
Theorem scenario_A_class_extracted (choose : nat → list (string * re))
    (filePath : string) (r : Registries) :
  (∀ n, choose n ≡ₚ patterns) →
  ∃ summary r',
    analyzePhpFile choose filePath scenario_A r = Ok (summary, r')
    ∧ php_Classes summary = [scenario_A_class]
    ∧ s_Name scenario_A_class = "Foo"
    ∧ (f_Name <$> s_Methods scenario_A_class) = ["bar"]
    ∧ (fun m => v_Name <$> f_Args m) <$> s_Methods scenario_A_class = [["$x"]]
    ∧ f_Calls <$> s_Methods scenario_A_class = [["baz"]].
Proof.
  intros Hchoose.
  destruct (scenario_A_summary choose filePath r Hchoose) as (summary & r' & Hrun & Hcls).
  exists summary, r'. repeat split; done.
Qed.

Lemma scenario_A_class_extracted_witness :
  (∀ n, written_order n ≡ₚ patterns)
  ∧ ∃ summary r',
      analyzePhpFile written_order "a.php" scenario_A no_registries = Ok (summary, r')
      ∧ php_Classes summary = [scenario_A_class]
      ∧ s_Name scenario_A_class = "Foo"
      ∧ (f_Name <$> s_Methods scenario_A_class) = ["bar"]
      ∧ (fun m => v_Name <$> f_Args m) <$> s_Methods scenario_A_class = [["$x"]]
      ∧ f_Calls <$> s_Methods scenario_A_class = [["baz"]].
Proof.
  split; [intros n; reflexivity |].
  apply (scenario_A_class_extracted written_order "a.php" no_registries).
  intros n. reflexivity.
Defined.

(** One unfolding of [findNestedPhpControlFlow]. *)
Lemma findNestedPhpControlFlow_step (choose : nat → list (string * re))
    (fuel : nat) (content : string) (startPos : Z) (n : nat) :
  findNestedPhpControlFlow choose (S fuel) content startPos n
  = match find_body content startPos with
    | Ok (Some (bodyStart, bodyEnd)) =>
        if bodyEnd <=? bodyStart then Ok ([], n)
        else
          match checked (slice content bodyStart bodyEnd) with
          | Ok body =>
              walk_each
                (control_entry (findNestedPhpControlFlow choose fuel content)
                   content bodyStart body)
                (choose n) [] (S n)
          | Panic => Panic
          | NoFuel => NoFuel
          end
    | Ok None => Ok ([], n)
    | Panic => Panic
    | NoFuel => NoFuel
    end.
Proof.
  change (findNestedPhpControlFlow choose (S fuel) content startPos n)
    with (walk_bind (walk_lift (find_body content startPos))
            (fun found =>
               match found with
               | None => walk_ret []
               | Some (bodyStart, bodyEnd) =>
                   if bodyEnd <=? bodyStart then walk_ret []
                   else
                     walk_bind (walk_lift (checked (slice content bodyStart bodyEnd)))
                       (fun body n =>
                          walk_each
                            (control_entry (findNestedPhpControlFlow choose fuel content)
                               content bodyStart body)
                            (choose n) [] (S n))
               end) n).
  unfold walk_bind, walk_lift.
  destruct (find_body content startPos) as [[[bodyStart bodyEnd] |] | |];
    cbn [mbind Result_bind fst snd]; try reflexivity.
  destruct (bodyEnd <=? bodyStart); [reflexivity |].
  destruct (checked (slice content bodyStart bodyEnd)); reflexivity.
Qed.







End PhpScenario.
(** *** Block-end location *)

Section BlockEnd.
Import GoStrings Regexp Php.
Open Scope string_scope.
Open Scope Z_scope.

Lemma substring_drop_bytes (s : string) (n : nat) :
  (n <= String.length s)%nat →
  String.substring n (String.length s - n) s = drop_bytes n s.
Proof.
  revert n. induction s as [| c t IH]; intros n Hn.
  - destruct n; [done | simpl in Hn; lia].
  - destruct n as [| n].
    + cbn [drop_bytes]. rewrite Nat.sub_0_r.
      change (String.length (String c t)) with (S (String.length t)).
      rewrite substring_cons. f_equal.
      specialize (IH 0%nat ltac:(lia)). rewrite Nat.sub_0_r in IH.
      rewrite IH. by destruct t.
    + cbn [drop_bytes]. simpl in Hn. rewrite <- IH by lia. reflexivity.
Qed.

Lemma slice_from_drop (content : string) (startPos : Z) :
  0 <= startPos <= len content →
  slice_from content startPos = Some (drop_bytes (Z.to_nat startPos) content).
Proof.
  intros H. unfold slice_from, slice, len in *.
  replace ((0 <=? startPos) && (startPos <=? Z.of_nat (String.length content))
           && (Z.of_nat (String.length content) <=? Z.of_nat (String.length content)))
    with true by (symmetry; rewrite !andb_true_iff, !Z.leb_le; lia).
  f_equal.
  replace (Z.to_nat (Z.of_nat (String.length content) - startPos))
    with (String.length content - Z.to_nat startPos)%nat by lia.
  apply substring_drop_bytes. lia.
Qed.

Lemma get_drop_bytes (s : string) (n k : nat) :
  String.get k (drop_bytes n s) = String.get (n + k) s.
Proof.
  revert n. induction s as [| c t IH]; intros n.
  - destruct n; simpl; by destruct k.
  - destruct n as [| n]; [done |]. cbn [drop_bytes]. rewrite IH. reflexivity.
Qed.

Lemma get_Some_lt (s : string) (n : nat) (c : ascii) :
  String.get n s = Some c → (n < String.length s)%nat.
Proof.
  revert n. induction s as [| d t IH]; intros n H; [done |].
  destruct n as [| n]; simpl in *; [lia |]. apply IH in H. lia.
Qed.

Lemma byte_at_Some (content : string) (i : Z) (c : ascii) :
  byte_at content i = Some c →
  0 <= i < len content ∧ String.get (Z.to_nat i) content = Some c.
Proof.
  unfold byte_at, len. destruct (0 <=? i) eqn:E; [| done].
  apply Z.leb_le in E. intros H. split; [| done].
  apply get_Some_lt in H. lia.
Qed.

Lemma byte_at_nat (content : string) (i : Z) :
  0 <= i → byte_at content i = String.get (Z.to_nat i) content.
Proof. intros H. unfold byte_at. by rewrite (proj2 (Z.leb_le 0 i) H). Qed.

(** The index of the first occurrence of a byte. *)
Lemma Index_first_byte (d : ascii) (s : string) (k : nat) :
  (∀ i, (i < k)%nat → String.get i s ≠ Some d) →
  String.get k s = Some d →
  Index s (String d "") = Z.of_nat k.
Proof.
  revert s. induction k as [| k IH]; intros s Hbefore Hat.
  - destruct s as [| c t]; [done |]. simpl in Hat. injection Hat as ->.
    by rewrite Index_byte_cons, bool_decide_eq_true_2.
  - destruct s as [| c t]; [done |]. simpl in Hat.
    rewrite Index_byte_cons.
    assert (d ≠ c) as Hne.
    { intros ->. by apply (Hbefore 0%nat ltac:(lia)). }
    rewrite bool_decide_eq_false_2 by done.
    rewrite (IH t); [| | done].
    + replace (Z.of_nat k <? 0) with false by (symmetry; apply Z.ltb_ge; lia). lia.
    + intros i Hi. apply (Hbefore (S i)). lia.
Qed.

Lemma brace_loop_stopped (rest : string) (i bodyEnd : Z) :
  brace_loop rest i 0 bodyEnd = bodyEnd.
Proof. by destruct rest. Qed.

Lemma brace_loop_step (c : ascii) (t : string) (i braceCount bodyEnd : Z) :
  0 < braceCount →
  brace_loop (String c t) i braceCount bodyEnd
  = brace_loop t (i + 1) (braceCount + delimiter_weight c) i.
Proof.
  intros H. cbn [brace_loop]. rewrite (proj2 (Z.ltb_lt 0 braceCount) H).
  unfold delimiter_weight.
  destruct (Ascii.eqb c "{"); [done |].
  destruct (Ascii.eqb c "}"); [done |]. by rewrite Z.add_0_r.
Qed.

Lemma delimiter_weight_bound (c : ascii) : -1 <= delimiter_weight c <= 1.
Proof. unfold delimiter_weight. repeat case_match; lia. Qed.

Lemma sum_from_S (f : Z → Z) (from : Z) (n : nat) :
  sum_from f from (S n) = f from + sum_from f (from + 1) n.
Proof. reflexivity. Qed.

Lemma counted_all (content : string) (i : Z) (c : ascii) :
  byte_at content i = Some c → counted false content i = delimiter_weight c.
Proof. intros H. unfold counted. by rewrite H. Qed.

Lemma byte_at_in_range (content : string) (i : Z) :
  0 <= i < len content → ∃ c, byte_at content i = Some c.
Proof.
  intros [Hi Hlen]. rewrite byte_at_nat by done. unfold len in Hlen.
  assert (Z.to_nat i < String.length content)%nat as Hlt by lia.
  revert Hlt. generalize (Z.to_nat i). clear.
  induction content as [| d t IH]; intros n Hlt; [simpl in Hlt; lia |].
  destruct n as [| n]; [by exists d |]. simpl in *. apply IH. lia.
Qed.

(** The loop stops at the first position where the balance is zero. *)
Lemma brace_loop_end (content : string) (m : nat) :
  ∀ (rest : string) (i braceCount bodyEnd : Z),
    0 <= i →
    (∀ k : nat, String.get k rest = byte_at content (i + Z.of_nat k)) →
    0 < braceCount →
    i + Z.of_nat m < len content →
    braceCount + sum_from (counted false content) i (S m) = 0 →
    (∀ m' : nat, (m' < m)%nat →
       braceCount + sum_from (counted false content) i (S m') ≠ 0) →
    brace_loop rest i braceCount bodyEnd = i + Z.of_nat m.
Proof.
  induction m as [| m IH]; intros rest i braceCount bodyEnd Hi Hrest Hpos Hlen Hzero Hmin.
  - destruct (byte_at_in_range content i ltac:(lia)) as [c Hc].
    pose proof (Hrest 0%nat) as H0. rewrite Z.add_0_r, Hc in H0.
    destruct rest as [| c' t]; [done |]. simpl in H0. injection H0 as ->.
    rewrite brace_loop_step by done.
    rewrite sum_from_S, (counted_all _ _ _ Hc) in Hzero. cbn [sum_from] in Hzero.
    replace (braceCount + delimiter_weight c) with 0 by lia.
    rewrite brace_loop_stopped. lia.
  - destruct (byte_at_in_range content i ltac:(lia)) as [c Hc].
    pose proof (Hrest 0%nat) as H0. rewrite Z.add_0_r, Hc in H0.
    destruct rest as [| c' t]; [done |]. simpl in H0. injection H0 as ->.
    rewrite brace_loop_step by done.
    pose proof (delimiter_weight_bound c) as Hw.
    pose proof (Hmin 0%nat ltac:(lia)) as Hfirst.
    rewrite sum_from_S, (counted_all _ _ _ Hc) in Hfirst. cbn [sum_from] in Hfirst.
    rewrite sum_from_S, (counted_all _ _ _ Hc) in Hzero.
    rewrite (IH t (i + 1) (braceCount + delimiter_weight c) i).
    + lia.
    + lia.
    + intros k. specialize (Hrest (S k)). simpl in Hrest. rewrite Hrest.
      f_equal. lia.
    + lia.
    + lia.
    + lia.
    + intros m' Hm'. specialize (Hmin (S m') ltac:(lia)).
      rewrite sum_from_S, (counted_all _ _ _ Hc) in Hmin. lia.
Qed.

(** C5, as stated: the block end is the first position at which the balance
    is zero when delimiters judged to be inside a quoted string are ignored.
    It fails: in [{ '}' }] the close delimiter inside the quotes ends the
    block at position 3, where the balance that ignores it is still one;
    that balance reaches zero at position 6. *)
Lemma block_end_quoted_counterexample :
  ¬ (∀ content startPos p e,
       0 <= startPos →
       first_open content startPos p →
       block_end_at true content (p + 1) e →
       find_body content startPos = Ok (Some (p + 1, e))).
Proof.
  intros H. specialize (H quoted_brace 0 0 6 ltac:(lia)).
  assert (find_body quoted_brace 0 = Ok (Some (1, 3))) as Hcode
    by (vm_compute; reflexivity).
  rewrite Hcode in H. clear Hcode.
  assert (Ok (Some (1, 3)) = @Ok (option (Z * Z)) (Some (0 + 1, 6))) as Habs;
    [| discriminate Habs].
  apply H.
  - split; [lia |]. split; [reflexivity |]. intros i Hi. lia.
  - split; [vm_compute; split; [discriminate | reflexivity] |].
    split; [vm_compute; reflexivity |].
    intros j Hj.
    assert (j = 1 ∨ j = 2 ∨ j = 3 ∨ j = 4 ∨ j = 5) as Hcases by lia.
    destruct Hcases as [-> | [-> | [-> | [-> | ->]]]]; vm_compute; discriminate.
Qed.

(** C5, amended: block-end location takes the first open delimiter at or
    after the starting position and returns, for a block that is closed,
    the minimal position after it at which the running balance of open and
    close delimiters is exactly zero; every delimiter occurrence counts,
    those inside quoted strings included. *)
Theorem block_end_is_first_zero_balance (content : string) (startPos p e : Z) :
  0 <= startPos →
  first_open content startPos p →
  block_end_at false content (p + 1) e →
  find_body content startPos = Ok (Some (p + 1, e)).
Proof.
  intros Hstart (Hle & Hopen & Hfirst) (Hrange & Hzero & Hmin).
  apply byte_at_Some in Hopen as [Hp Hget].
  unfold find_body.
  rewrite slice_from_drop by lia. cbn [checked mbind Result_bind].
  assert (Index (drop_bytes (Z.to_nat startPos) content) "{" = p - startPos) as HIndex.
  { rewrite (Index_first_byte "{" _ (Z.to_nat (p - startPos))); [lia | |].
    - intros i Hi. rewrite get_drop_bytes.
      specialize (Hfirst (startPos + Z.of_nat i) ltac:(lia)).
      rewrite byte_at_nat in Hfirst by lia.
      by replace (Z.to_nat (startPos + Z.of_nat i))
        with (Z.to_nat startPos + i)%nat in Hfirst by lia.
    - rewrite get_drop_bytes.
      by replace (Z.to_nat startPos + Z.to_nat (p - startPos))%nat
        with (Z.to_nat p) by lia. }
  rewrite HIndex.
  replace (p - startPos =? -1) with false by (symmetry; apply Z.eqb_neq; lia).
  replace (startPos + (p - startPos) + 1) with (p + 1) by lia.
  do 3 f_equal.
  rewrite (brace_loop_end content (Z.to_nat (e - (p + 1)))); try lia.
  - intros k. rewrite get_drop_bytes, byte_at_nat by lia. f_equal. lia.
  - unfold balance in Hzero.
    by replace (Z.to_nat (e - (p + 1) + 1)) with (S (Z.to_nat (e - (p + 1))))
      in Hzero by lia.
  - intros m' Hm'. specialize (Hmin (p + 1 + Z.of_nat m') ltac:(lia)).
    unfold balance in Hmin.
    by replace (Z.to_nat (p + 1 + Z.of_nat m' - (p + 1) + 1)) with (S m') in Hmin by lia.
Qed.

Lemma block_end_is_first_zero_balance_witness :
  0 <= 0
  ∧ first_open quoted_brace 0 0
  ∧ block_end_at false quoted_brace (0 + 1) 3
  ∧ find_body quoted_brace 0 = Ok (Some (0 + 1, 3)).
Proof.
  assert (first_open quoted_brace 0 0) as Hopen.
  { split; [lia |]. split; [reflexivity |]. intros i Hi. lia. }
  assert (block_end_at false quoted_brace (0 + 1) 3) as Hend.
  { split; [vm_compute; split; [discriminate | reflexivity] |].
    split; [vm_compute; reflexivity |].
    intros j Hj.
    assert (j = 1 ∨ j = 2) as Hcases by lia.
    destruct Hcases as [-> | ->]; vm_compute; discriminate. }
  split; [lia |]. split; [exact Hopen |]. split; [exact Hend |].
  apply (block_end_is_first_zero_balance quoted_brace 0 0 3); [lia | exact Hopen | exact Hend].
Defined.

End BlockEnd.
(** *** The within-callable predicate *)

Section WithinCallable.
Import GoStrings Regexp Python.
Open Scope string_scope.
Open Scope Z_scope.

Lemma blank_false_len (line : string) : blank line = false → 0 < len (TrimSpace line).
Proof.
  unfold blank, len. destruct (TrimSpace line); [done |]. simpl. lia.
Qed.

(** The scan, one line at a time. *)
Lemma scan_function_cons (currentIndent : Z) (line : string) (rest : list string) :
  scan_function currentIndent (line :: rest)
  = if settles currentIndent line then starts_def line
    else scan_function currentIndent rest.
Proof.
  cbn [scan_function]. unfold settles. fold (starts_def line). fold (ends_colon line).
  destruct (blank line) eqn:Hb; [done |]. cbn [negb andb].
  destruct (indent_of line <=? currentIndent); [| done]. cbn [andb].
  destruct (starts_def line); [done |]. cbn [orb].
  rewrite (proj2 (Z.ltb_lt _ _) (blank_false_len line Hb)).
  rewrite andb_true_r. by destruct ((indent_of line <? currentIndent) && ends_colon line).
Qed.

Lemma scan_function_spec (currentIndent : Z) (lines : list string) :
  scan_function currentIndent lines = true ↔ def_settles_first currentIndent lines.
Proof.
  induction lines as [| line rest IH].
  - split; [done |]. intros (nearer & header & farther & H & _). by destruct nearer.
  - rewrite scan_function_cons. destruct (settles currentIndent line) eqn:Hs.
    + split.
      * intros Hdef. exists [], line, rest. split; [done |]. split; [constructor |].
        unfold settles in Hs. rewrite !andb_true_iff, negb_true_iff, Z.leb_le in Hs.
        tauto.
      * intros (nearer & header & farther & Heq & Hnear & _ & _ & Hdef).
        destruct nearer as [| l nearer]; simpl in Heq; injection Heq as -> ->; [done |].
        inversion Hnear; congruence.
    + rewrite IH. split.
      * intros (nearer & header & farther & -> & Hnear & Hrest).
        exists (line :: nearer), header, farther. split; [done |].
        split; [by constructor | done].
      * intros (nearer & header & farther & Heq & Hnear & Hb & Hind & Hdef).
        destruct nearer as [| l nearer]; simpl in Heq; injection Heq as -> ->.
        -- unfold settles in Hs. rewrite Hb, Hdef in Hs.
           rewrite (proj2 (Z.leb_le _ _) Hind) in Hs. done.
        -- exists nearer, header, farther. split; [done |].
           split; [by inversion Hnear | done].
Qed.

Lemma substring_length (s : string) (n : nat) :
  (n <= String.length s)%nat → String.length (String.substring 0 n s) = n.
Proof.
  revert n. induction s as [| c t IH]; intros n Hn.
  - destruct n; [done | simpl in Hn; lia].
  - destruct n as [| n]; [done |]. rewrite substring_cons. simpl in *.
    rewrite IH; lia.
Qed.

Lemma slice_in_range (s : string) (lo hi : Z) :
  0 <= lo → lo <= hi → hi <= len s →
  slice s lo hi = Some (String.substring (Z.to_nat lo) (Z.to_nat (hi - lo)) s).
Proof.
  intros H1 H2 H3. unfold slice.
  by rewrite (proj2 (Z.leb_le _ _) H1), (proj2 (Z.leb_le _ _) H2),
    (proj2 (Z.leb_le _ _) H3).
Qed.

Lemma LastIndex_bounds (s : string) (d : ascii) (t : string) :
  -1 <= LastIndex s (String d t) <= len s - 1.
Proof.
  unfold len. induction s as [| c s IH].
  - simpl. lia.
  - cbn [LastIndex]. change (String.length (String c s)) with (S (String.length s)).
    destruct (0 <=? LastIndex s (String d t)) eqn:E.
    + apply Z.leb_le in E. lia.
    + destruct (String.prefix (String d t) (String c s)); lia.
Qed.

(** The line context of a position inside the text is always defined. *)
Lemma line_context_defined (content : string) (pos : Z) :
  0 <= pos <= len content →
  ∃ currentLine head, line_context content pos = Ok (currentLine, head).
Proof.
  intros Hpos. unfold line_context, slice_to.
  rewrite slice_in_range by lia. cbn [checked mbind Result_bind].
  set (before := String.substring (Z.to_nat 0) (Z.to_nat (pos - 0)) content).
  assert (len before = pos) as Hlen.
  { unfold before, len in *. change (Z.to_nat 0) with 0%nat.
    rewrite substring_length; lia. }
  pose proof (LastIndex_bounds before nl "") as Hb. fold newline in Hb.
  set (lineStart := if LastIndex before newline =? -1 then 0
                    else LastIndex before newline + 1).
  assert (0 <= lineStart <= pos) as Hls.
  { unfold lineStart. destruct (LastIndex before newline =? -1) eqn:E; [lia |].
    apply Z.eqb_neq in E. lia. }
  rewrite (slice_in_range content lineStart pos) by lia.
  cbn [checked mbind Result_bind].
  rewrite (slice_in_range content 0 lineStart) by lia.
  cbn [checked mbind Result_bind]. eauto.
Qed.

(** C6, as stated: the predicate holds exactly when a callable header of
    strictly smaller indentation precedes the position with no other block
    header of smaller or equal indentation in between.  It fails: for the
    top-level statement after a function, at indentation zero, the predicate
    holds although no line is indented less than the statement. *)
Lemma within_callable_counterexample :
  ¬ (∀ content pos currentLine head,
       line_context content pos = Ok (currentLine, head) →
       (isPythonWithinFunction content pos = Ok true
        ↔ within_callable_as_claimed (indent_of currentLine)
            (reverse (Split head newline)))).
Proof.
  intros H.
  specialize (H after_function 18 "" ("def f():" ++ newline ++ "    pass" ++ newline)
                ltac:(vm_compute; reflexivity)).
  destruct H as [H _].
  destruct (H ltac:(vm_compute; reflexivity))
    as (nearer & header & farther & Hlines & _ & Hindent & _).
  assert (header ∈ reverse (Split ("def f():" ++ newline ++ "    pass" ++ newline) newline))
    as Hin.
  { rewrite Hlines. apply elem_of_app. right. by left. }
  replace (reverse (Split ("def f():" ++ newline ++ "    pass" ++ newline) newline))
    with [""; "    pass"; "def f():"] in Hin by (vm_compute; reflexivity).
  rewrite !elem_of_cons, elem_of_nil in Hin.
  destruct Hin as [-> | [-> | [-> | []]]]; vm_compute in Hindent; discriminate Hindent.
Qed.

(** C6, amended: for every ASCII text and position in it, the
    within-callable predicate returns, and it returns true exactly when,
    scanning the lines before the position's line backwards, the first line
    that is not blank, is indented no more than the position, and either
    starts with [def] or is indented strictly less and ends with the block
    marker, is one that starts with [def].  A [def] line of the same
    indentation as the position counts, and a shallower-or-equal block
    header stops the scan only when it is strictly shallower.  The text is
    ASCII because the trimming functions of the model are the ASCII ones,
    which is what Go's compute on ASCII text. *)
Theorem within_callable_scan (content : string) (pos : Z) :
  GoLibrary.is_ascii content = true →
  0 <= pos <= len content →
  ∃ currentLine head b,
    line_context content pos = Ok (currentLine, head)
    ∧ isPythonWithinFunction content pos = Ok b
    ∧ (b = true
       ↔ def_settles_first (indent_of currentLine) (reverse (Split head newline))).
Proof.
  intros _ Hpos.
  destruct (line_context_defined content pos Hpos) as (currentLine & head & Hctx).
  exists currentLine, head,
    (scan_function (indent_of currentLine) (reverse (Split head newline))).
  split; [done |]. split.
  - unfold isPythonWithinFunction. by rewrite Hctx.
  - apply scan_function_spec.
Qed.

Lemma within_callable_scan_witness :
  GoLibrary.is_ascii after_function = true
  ∧ 0 <= 18 <= len after_function
  ∧ ∃ currentLine head b,
      line_context after_function 18 = Ok (currentLine, head)
      ∧ isPythonWithinFunction after_function 18 = Ok b
      ∧ (b = true
         ↔ def_settles_first (indent_of currentLine) (reverse (Split head newline))).
Proof.
  split; [vm_compute; reflexivity |].
  split; [vm_compute; split; discriminate |].
  apply (within_callable_scan after_function 18).
  - vm_compute. reflexivity.
  - vm_compute; split; discriminate.
Defined.

(** C4, on the code: a file that starts with [def f():] makes
    [analyzePythonFile] fail: the signature ends at position 8, and
    [extractPythonReturnType] slices from twenty bytes before that.  A file
    whose class header is wrapped over a line of fewer than five bytes makes
    it fail as well: the class body starts at position 23, the field found
    there is judged within a function, and [isPythonWithinClass] slices five
    bytes off the one-byte line above. *)
Theorem short_lines_panic (choose : nat → list (string * re))
    (filePath : string) (r : Registries) :
  FindAllStringSubmatchIndex funcRegex 2 short_function = [[0; 8; 4; 5; 6; 6]]
  ∧ extractPythonReturnType short_function 8 = Panic
  ∧ analyzePythonFile choose filePath short_function r = Panic
  ∧ FindAllStringSubmatchIndex classRegex 2 wrapped_header = [[4; 22; 10; 11; 14; 20]]
  ∧ isPythonWithinFunction wrapped_header 23 = Ok true
  ∧ isPythonWithinClass wrapped_header 23 = Panic
  ∧ analyzePythonFile choose filePath wrapped_header r = Panic.
Proof.
  split; [vm_compute; reflexivity |].
  split; [vm_compute; reflexivity |].
  split.
  { unfold analyzePythonFile.
    replace (py_classes short_function) with (@Ok (list Struct) [])
      by (vm_compute; reflexivity).
    replace (py_functions short_function)
      with (@Panic (list Function_ * list string)) by (vm_compute; reflexivity).
    reflexivity. }
  split; [vm_compute; reflexivity |].
  split; [vm_compute; reflexivity |].
  split; [vm_compute; reflexivity |].
  unfold analyzePythonFile.
  replace (py_classes wrapped_header) with (@Panic (list Struct))
    by (vm_compute; reflexivity).
  reflexivity.
Qed.

End WithinCallable.
(** *** Loops over lists *)

Section Loops.

Lemma for_each_app {A B : Type} (body : B → A → Result B) (l1 l2 : list A) (b : B) :
  for_each body (l1 ++ l2) b = (b' ← for_each body l1 b; for_each body l2 b').
Proof.
  revert b. induction l1 as [| x l1 IH]; intros b; [done |].
  cbn [app for_each]. destruct (body b x); cbn [mbind Result_bind]; [apply IH | done | done].
Qed.

End Loops.
(** *** Nested control flow *)

Section Nesting.
Import GoStrings Regexp GoExtractor GoInputs Python.
Open Scope string_scope.
Open Scope Z_scope.




End Nesting.
(** *** The recursion budget of the model is never exhausted *)

Section Budget.
Import GoStrings Regexp.
Open Scope string_scope.
Open Scope Z_scope.

Lemma checked_fueled {A : Type} (o : option A) : checked o ≠ NoFuel.
Proof. by destruct o. Qed.

Lemma checked_Ok {A : Type} (o : option A) (a : A) : checked o = Ok a → o = Some a.
Proof. destruct o; simpl; congruence. Qed.

Lemma walk_lift_fueled {A : Type} (r : Result A) (n : nat) :
  r ≠ NoFuel → walk_lift r n ≠ NoFuel.
Proof. unfold walk_lift. by destruct r. Qed.

Lemma walk_lift_Ok {A : Type} (r : Result A) (n n' : nat) (a : A) :
  walk_lift r n = Ok (a, n') → r = Ok a ∧ n' = n.
Proof. unfold walk_lift. destruct r; simpl; intros [=]; by subst. Qed.

Lemma walk_bind_fueled {A B : Type} (m : Walk A) (f : A → Walk B) (n : nat) :
  m n ≠ NoFuel →
  (∀ a n', m n = Ok (a, n') → f a n' ≠ NoFuel) →
  walk_bind m f n ≠ NoFuel.
Proof.
  unfold walk_bind. intros Hm Hf. destruct (m n) as [[a n'] | |]; simpl; [| done | done].
  by apply Hf.
Qed.

Lemma walk_each_fueled {A B : Type} (body : B → A → Walk B) (l : list A) :
  (∀ x, x ∈ l → ∀ acc n, body acc x n ≠ NoFuel) →
  ∀ acc n, walk_each body l acc n ≠ NoFuel.
Proof.
  induction l as [| x l IH]; intros Hbody acc n; [done |].
  cbn [walk_each]. apply walk_bind_fueled.
  - apply Hbody. by left.
  - intros acc' n' _. apply IH. intros y Hy. apply Hbody. by right.
Qed.

(** Matches start inside the text. *)
Lemma find_all_from_start (r : re) (s : string) :
  ∀ (pos : nat) (prev : option ascii) (skip : nat) (m : nat * nat * caps),
    m ∈ find_all_from r pos prev s skip →
    (pos <= m.1.1 <= pos + String.length s)%nat.
Proof.
  induction s as [| c t IH]; intros pos prev skip m Hm.
  - destruct skip; cbn [find_all_from] in Hm; [| by apply elem_of_nil in Hm].
    destruct (match_here r pos prev "") as [[e cs] |]; [| by apply elem_of_nil in Hm].
    apply list_elem_of_singleton in Hm. subst. simpl. lia.
  - destruct skip as [| skip]; cbn [find_all_from] in Hm.
    + destruct (match_here r pos prev (String c t)) as [[e cs] |].
      * apply elem_of_cons in Hm as [-> | Hm]; [simpl; lia |].
        apply IH in Hm. simpl. lia.
      * apply IH in Hm. simpl. lia.
    + apply IH in Hm. simpl. lia.
Qed.

Lemma match_start_bounds (r : re) (ngroups : nat) (s : string) (m : list Z) :
  m ∈ FindAllStringSubmatchIndex r ngroups s → 0 <= at_index m 0 <= len s.
Proof.
  unfold FindAllStringSubmatchIndex. intros Hm.
  apply list_elem_of_fmap in Hm as ([[b e] cs] & -> & Hin).
  apply find_all_from_start in Hin. unfold len, at_index, index_slice.
  cbn [app nth fst snd] in *. lia.
Qed.

Lemma slice_Some (s : string) (lo hi : Z) (piece : string) :
  slice s lo hi = Some piece → 0 <= lo ∧ lo <= hi ∧ hi <= len s ∧ len piece = hi - lo.
Proof.
  unfold slice.
  destruct (0 <=? lo) eqn:E1; [| done]. destruct (lo <=? hi) eqn:E2; [| done].
  destruct (hi <=? len s) eqn:E3; [| done]. cbn [andb].
  apply Z.leb_le in E1, E2, E3. intros [= <-]. repeat split; try done.
  unfold len in *.
  assert (∀ (t : string) (a b : nat), (a + b <= String.length t)%nat →
            String.length (String.substring a b t) = b) as Hsub.
  { clear. induction t as [| c t IH]; intros a b Hab.
    - simpl in Hab. assert (a = 0 ∧ b = 0)%nat as [-> ->] by lia. done.
    - destruct a as [| a].
      + destruct b as [| b]; [done |]. rewrite substring_cons. simpl in *.
        rewrite IH; lia.
      + simpl in *. apply IH. lia. }
  rewrite Hsub; lia.
Qed.

End Budget.

Section PhpBudget.
Import GoStrings Regexp Php.
Open Scope string_scope.
Open Scope Z_scope.

Lemma find_body_start (content : string) (startPos bodyStart bodyEnd : Z) :
  find_body content startPos = Ok (Some (bodyStart, bodyEnd)) → startPos < bodyStart.
Proof.
  unfold find_body. destruct (slice_from content startPos) as [rest |]; [| done].
  cbn [checked mbind Result_bind].
  pose proof (Index_lower_bound rest "{") as Hlb.
  destruct (Index rest "{" =? -1) eqn:E; [done |]. apply Z.eqb_neq in E.
  intros [= <- _]. lia.
Qed.

Lemma find_body_fueled (content : string) (startPos : Z) :
  find_body content startPos ≠ NoFuel.
Proof.
  unfold find_body. destruct (slice_from content startPos) as [rest |]; [| done].
  cbn [checked mbind Result_bind]. by destruct (Index rest "{" =? -1).
Qed.

Lemma findNestedPhpControlFlow_fueled (choose : nat → list (string * re))
    (content : string) :
  ∀ (fuel : nat) (startPos : Z) (n : nat),
    0 <= startPos <= len content →
    len content - startPos < Z.of_nat fuel →
    findNestedPhpControlFlow choose fuel content startPos n ≠ NoFuel.
Proof.
  induction fuel as [| fuel IH]; intros startPos n Hpos Hfuel; [lia |].
  rewrite findNestedPhpControlFlow_step.
  pose proof (find_body_fueled content startPos) as Hfound.
  destruct (find_body content startPos) as [[[bodyStart bodyEnd] |] | |] eqn:Hbody;
    try done.
  apply find_body_start in Hbody.
  destruct (bodyEnd <=? bodyStart); [done |].
  destruct (slice content bodyStart bodyEnd) as [body |] eqn:Hslice; [| done].
  apply slice_Some in Hslice as (Hb1 & Hb2 & Hb3 & Hb4).
  cbn [checked]. apply walk_each_fueled. intros entry _ acc m.
  unfold control_entry. apply walk_each_fueled. intros mt Hmt acc' m'.
  apply match_start_bounds in Hmt.
  unfold control_match. apply walk_bind_fueled.
  { apply walk_lift_fueled. unfold isWithinString.
    destruct (slice_to content (bodyStart + at_index mt 0)); done. }
  intros inString n1 _. destruct inString; [done |].
  apply walk_bind_fueled; [apply walk_lift_fueled, checked_fueled |].
  intros before n2 _. apply walk_bind_fueled; [| done].
  apply IH; lia.
Qed.

(** The budget [extractPhpControlFlow] starts with is enough. *)
Theorem extractPhpControlFlow_fueled (choose : nat → list (string * re))
    (content : string) (n : nat) :
  extractPhpControlFlow choose content n ≠ NoFuel.
Proof.
  unfold extractPhpControlFlow. apply walk_each_fueled. intros entry _ acc m.
  unfold control_entry. apply walk_each_fueled. intros mt Hmt acc' m'.
  apply match_start_bounds in Hmt.
  unfold control_match. apply walk_bind_fueled.
  { apply walk_lift_fueled. unfold isWithinString.
    destruct (slice_to content (0 + at_index mt 0)); done. }
  intros inString n1 _. destruct inString; [done |].
  apply walk_bind_fueled; [apply walk_lift_fueled, checked_fueled |].
  intros before n2 _. apply walk_bind_fueled; [| done].
  apply findNestedPhpControlFlow_fueled; unfold len in *; lia.
Qed.

End PhpBudget.

Section PythonBudget.
Import GoStrings Regexp Python.
Open Scope string_scope.
Open Scope Z_scope.

Lemma block_of_length (content : string) (startPos parentIndent : Z)
    (blockContent : string) :
  block_of content startPos parentIndent = Ok (Some blockContent) →
  len blockContent <= len content.
Proof.
  unfold block_of. destruct (slice_from content startPos) as [rest |]; [| done].
  cbn [checked mbind Result_bind].
  match goal with |- context [if len content <? ?e then _ else _] =>
    generalize (if len content <? e then len content else e) end.
  intros endPos. destruct (len content <=? startPos); [done |].
  destruct (endPos <? startPos); [done |].
  destruct (slice content startPos endPos) as [piece |] eqn:Hslice; [| done].
  cbn [checked mbind Result_bind]. intros [= <-].
  apply slice_Some in Hslice. lia.
Qed.

Lemma block_of_fueled (content : string) (startPos parentIndent : Z) :
  block_of content startPos parentIndent ≠ NoFuel.
Proof.
  unfold block_of. destruct (slice_from content startPos) as [rest |]; [| done].
  cbn [checked mbind Result_bind].
  match goal with |- context [if len content <? ?e then _ else _] =>
    generalize (if len content <? e then len content else e) end.
  intros endPos. destruct (len content <=? startPos); [done |].
  destruct (endPos <? startPos); [done |].
  by destruct (slice content startPos endPos).
Qed.

Lemma findNestedPythonControlFlow_fueled (choose : nat → list (string * re))
    (content : string) :
  ∀ (fuel : nat) (startPos parentIndent : Z) (n : nat),
    parentIndent <= len content →
    len content - parentIndent < Z.of_nat fuel →
    findNestedPythonControlFlow choose fuel content startPos parentIndent n ≠ NoFuel.
Proof.
  induction fuel as [| fuel IH]; intros startPos parentIndent n Hindent Hfuel; [lia |].
  rewrite findNestedPythonControlFlow_step.
  pose proof (block_of_fueled content startPos parentIndent) as Hfueled.
  destruct (block_of content startPos parentIndent) as [[blockContent |] | |] eqn:Hblock;
    try done.
  apply block_of_length in Hblock.
  apply walk_each_fueled. intros entry _ acc m.
    unfold nested_entry. apply walk_each_fueled. intros mt Hmt acc' m'.
    unfold nested_match.
    destruct (4 <=? length mt)%nat; [| done].
    destruct ((at_index mt 2 <? 0) || (len blockContent <? at_index mt 3)
              || (at_index mt 3 <? at_index mt 2)) eqn:Hcheck; [done |].
    apply orb_false_iff in Hcheck as [Hcheck H3].
    apply orb_false_iff in Hcheck as [H1 H2].
    apply Z.ltb_ge in H1, H2, H3.
    destruct (at_index mt 3 - at_index mt 2 <=? parentIndent) eqn:Hdeeper; [done |].
    apply Z.leb_gt in Hdeeper.
    apply walk_bind_fueled; [apply walk_lift_fueled, checked_fueled |].
    intros before n2 _. apply walk_bind_fueled; [| done].
    apply IH; lia.
Qed.

(** The budget [extractPythonControlFlow] starts with is enough. *)
Theorem extractPythonControlFlow_fueled (choose : nat → list (string * re))
    (content : string) (n : nat) :
  extractPythonControlFlow choose content n ≠ NoFuel.
Proof.
  unfold extractPythonControlFlow. apply walk_each_fueled. intros entry _ acc m.
  unfold root_entry. apply walk_each_fueled. intros mt Hmt acc' m'.
  unfold root_match. destruct (2 <=? length mt)%nat; [| done].
  apply walk_bind_fueled; [apply walk_lift_fueled, checked_fueled |].
  intros before n1 _.
  apply walk_bind_fueled; [apply walk_lift_fueled, checked_fueled |].
  intros indentation n2 Hind.
  apply walk_lift_Ok in Hind as [Hind _]. apply checked_Ok, slice_Some in Hind.
  apply walk_bind_fueled; [| done].
  apply findNestedPythonControlFlow_fueled; unfold len in *; lia.
Qed.

End PythonBudget.
(** *** Utility functions and the pattern format *)

Section StringOrder.
Import GoStrings GoLibrary.
Open Scope string_scope.

Lemma ascii_compare_lt (x y : ascii) :
  Ascii.compare x y = Lt ↔ (N_of_ascii x < N_of_ascii y)%N.
Proof. unfold Ascii.compare. apply N.compare_lt_iff. Qed.

Lemma ascii_compare_gt (x y : ascii) :
  Ascii.compare x y = Gt ↔ (N_of_ascii y < N_of_ascii x)%N.
Proof. unfold Ascii.compare. apply N.compare_gt_iff. Qed.

Lemma string_compare_trans (a : string) :
  ∀ b c, String.compare a b ≠ Gt → String.compare b c ≠ Gt → String.compare a c ≠ Gt.
Proof.
  induction a as [| x a IH]; intros [| y b] [| z c]; simpl; try done.
  destruct (Ascii.compare x y) eqn:Exy; [| | done].
  - apply Ascii.compare_eq_iff in Exy as ->.
    destruct (Ascii.compare y z); [apply IH | done | done].
  - intros _. destruct (Ascii.compare y z) eqn:Eyz; [| | done].
    + apply Ascii.compare_eq_iff in Eyz as <-. by rewrite Exy.
    + intros _. apply ascii_compare_lt in Exy, Eyz.
      assert (Ascii.compare x z = Lt) as -> by (apply ascii_compare_lt; by eapply N.lt_trans). done.
Qed.

Lemma string_le_compare (a b : string) : string_le a b ↔ String.compare a b ≠ Gt.
Proof. unfold string_le, String.leb. by destruct (String.compare a b). Qed.

#[global] Instance string_le_trans : Transitive string_le.
Proof.
  intros a b c Hab Hbc. apply string_le_compare in Hab, Hbc.
  apply string_le_compare. by eapply string_compare_trans.
Qed.

#[global] Instance string_le_total : Total string_le.
Proof. intros a b. apply String.leb_total. Qed.

#[global] Instance string_le_antisym : AntiSymm (=) string_le.
Proof. intros a b Hab Hba. by apply String.leb_antisym. Qed.

End StringOrder.

Section Utilities.
Import GoStrings GoLibrary Report.
Open Scope string_scope.

Lemma unique_map_lookup (slice : list string) (m : gmap string bool) (x : string) :
  is_Some (foldl (fun uniqueMap item => <[item := true]> uniqueMap) m slice !! x)
  ↔ x ∈ slice ∨ is_Some (m !! x).
Proof.
  revert m. induction slice as [| y slice IH]; intros m; simpl.
  - rewrite elem_of_nil. tauto.
  - rewrite IH, elem_of_cons. destruct (decide (x = y)) as [-> | Hne].
    + rewrite lookup_insert_eq. split; [auto | intros _; right; eauto].
    + rewrite lookup_insert_ne by done. tauto.
Qed.

Lemma range_elem (range : gmap string bool → list string) (m : gmap string bool)
    (x : string) :
  valid_range range → x ∈ range m ↔ is_Some (m !! x).
Proof.
  intros Hrange. rewrite (Hrange m), list_elem_of_fmap. split.
  - intros ([k v] & -> & Hin). apply elem_of_map_to_list in Hin. eauto.
  - intros [v Hv]. exists (x, v). split; [done |]. by apply elem_of_map_to_list.
Qed.

Lemma range_NoDup (range : gmap string bool → list string) (m : gmap string bool) :
  valid_range range → NoDup (range m).
Proof. intros Hrange. rewrite (Hrange m). apply NoDup_fst_map_to_list. Qed.

Lemma canonical_range_valid : valid_range canonical_range.
Proof. by intros m. Qed.

Lemma removeDuplicatesAndSort_elem range (slice : list string) (x : string) :
  valid_range range → x ∈ removeDuplicatesAndSort range slice ↔ x ∈ slice.
Proof.
  intros Hrange. unfold removeDuplicatesAndSort, sort_strings.
  rewrite merge_sort_Permutation, range_elem by done.
  unfold unique_map. rewrite unique_map_lookup, lookup_empty.
  split; [intros [H | [v Hv]]; [done | done] | auto].
Qed.

Lemma removeDuplicatesAndSort_Sorted range (slice : list string) :
  Sorted string_le (removeDuplicatesAndSort range slice).
Proof. apply Sorted_merge_sort, _. Qed.

Lemma removeDuplicatesAndSort_NoDup range (slice : list string) :
  valid_range range → NoDup (removeDuplicatesAndSort range slice).
Proof.
  intros Hrange. unfold removeDuplicatesAndSort, sort_strings.
  rewrite merge_sort_Permutation. by apply range_NoDup.
Qed.

(** X1.  [appendIfNotExists] keeps a slice free of duplicates: the slice it
    returns holds the item, holds nothing else that is new, starts with the
    slice it was given, and appending the same item again changes nothing. *)
Theorem appendIfNotExists_keeps_set (slice : list string) (item : string) :
  NoDup slice →
  NoDup (appendIfNotExists slice item)
  ∧ (∀ x, x ∈ appendIfNotExists slice item ↔ x ∈ slice ∨ x = item)
  ∧ slice `prefix_of` appendIfNotExists slice item
  ∧ appendIfNotExists (appendIfNotExists slice item) item = appendIfNotExists slice item.
Proof.
  intros Hnodup. split; [by apply appendIfNotExists_NoDup |].
  split; [intros x; apply appendIfNotExists_elem |].
  unfold appendIfNotExists.
  destruct (existsb (λ s, String.eqb s item) slice) eqn:E.
  - split; [done |]. by rewrite E.
  - split; [by exists [item] |].
    rewrite existsb_app. cbn [existsb]. by rewrite String.eqb_refl, orb_true_r.
Qed.

Lemma appendIfNotExists_keeps_set_witness :
  NoDup ["a"; "b"] ∧ appendIfNotExists (appendIfNotExists ["a"; "b"] "c") "c" = ["a"; "b"; "c"].
Proof.
  assert (NoDup ["a"; "b"]) as Hnodup.
  { apply NoDup_cons. split; [| apply NoDup_singleton].
    by intros Hin%list_elem_of_singleton. }
  split; [done |].
  destruct (appendIfNotExists_keeps_set ["a"; "b"] "c" Hnodup) as (_ & _ & _ & ->).
  reflexivity.
Defined.

(** X2.  [removeDuplicatesAndSort] returns the strings of the slice, each
    once, in increasing byte order, whatever order the [range] statement
    over its map takes. *)
Theorem removeDuplicatesAndSort_sorted_set range range' (slice : list string) :
  valid_range range → valid_range range' →
  Sorted string_le (removeDuplicatesAndSort range slice)
  ∧ NoDup (removeDuplicatesAndSort range slice)
  ∧ (∀ x, x ∈ removeDuplicatesAndSort range slice ↔ x ∈ slice)
  ∧ removeDuplicatesAndSort range' slice = removeDuplicatesAndSort range slice.
Proof.
  intros Hrange Hrange'. split; [apply removeDuplicatesAndSort_Sorted |].
  split; [by apply removeDuplicatesAndSort_NoDup |].
  split; [intros x; by apply removeDuplicatesAndSort_elem |].
  apply (Sorted_unique string_le); try apply removeDuplicatesAndSort_Sorted.
  unfold removeDuplicatesAndSort, sort_strings.
  by rewrite !merge_sort_Permutation, (Hrange _), (Hrange' _).
Qed.

Lemma removeDuplicatesAndSort_sorted_set_witness :
  removeDuplicatesAndSort (fun m => reverse (canonical_range m)) ["b"; "a"; "b"]
  = removeDuplicatesAndSort canonical_range ["b"; "a"; "b"].
Proof.
  apply (removeDuplicatesAndSort_sorted_set canonical_range
           (fun m => reverse (canonical_range m)) ["b"; "a"; "b"]).
  - intros m. reflexivity.
  - intros m. apply reverse_Permutation.
Defined.

End Utilities.

Section PatternFormat.
Import GoStrings GoLibrary Report.
Open Scope string_scope.
Open Scope Z_scope.

Lemma contribute_nothing (fileIndex : Z) (p : PatternSummary) :
  contribute [] [] [] [] [] fileIndex p = p.
Proof. destruct p. unfold contribute, set_lists. simpl. by rewrite !app_nil_r. Qed.

Lemma contribute_twice t1 f1 s1 b1 n1 t2 f2 s2 b2 n2 (fileIndex : Z) (p : PatternSummary) :
  contribute t2 f2 s2 b2 n2 fileIndex (contribute t1 f1 s1 b1 n1 fileIndex p)
  = contribute (t1 ++ t2) (f1 ++ f2) (s1 ++ s2) (b1 ++ b2) (n1 ++ n2) fileIndex p.
Proof.
  unfold contribute, set_lists, note_names. simpl.
  by rewrite foldl_app, !app_assoc.
Qed.

Lemma add_one_contribute (fileIndex : Z) (p : PatternSummary) (name : string) :
  add_type fileIndex p name = contribute [name] [] [] [] [name] fileIndex p
  ∧ add_function fileIndex p name = contribute [] [name] [] [] [name] fileIndex p
  ∧ add_selector fileIndex p name = contribute [] [] [name] [] [name] fileIndex p
  ∧ add_table fileIndex p name = contribute [] [] [] [name] [name] fileIndex p
  ∧ add_reference fileIndex p name = contribute [] [] [] [] [name] fileIndex p.
Proof.
  unfold add_type, add_function, add_selector, add_table, add_reference,
    contribute, set_lists, note_names. simpl. by rewrite !app_nil_r.
Qed.

Lemma add_types_contribute (fileIndex : Z) (names : list string) (p : PatternSummary) :
  foldl (add_type fileIndex) p names = contribute names [] [] [] names fileIndex p.
Proof.
  revert p. induction names as [| name names IH]; intros p; simpl.
  - by rewrite contribute_nothing.
  - rewrite IH.
    rewrite (proj1 (add_one_contribute fileIndex p name)).
    by rewrite contribute_twice.
Qed.

Lemma add_functions_contribute (fileIndex : Z) (names : list string) (p : PatternSummary) :
  foldl (add_function fileIndex) p names = contribute [] names [] [] names fileIndex p.
Proof.
  revert p. induction names as [| name names IH]; intros p; simpl.
  - by rewrite contribute_nothing.
  - rewrite IH.
    rewrite (proj1 (proj2 (add_one_contribute fileIndex p name))).
    by rewrite contribute_twice.
Qed.

Lemma add_selectors_contribute (fileIndex : Z) (names : list string) (p : PatternSummary) :
  foldl (add_selector fileIndex) p names = contribute [] [] names [] names fileIndex p.
Proof.
  revert p. induction names as [| name names IH]; intros p; simpl.
  - by rewrite contribute_nothing.
  - rewrite IH.
    rewrite (proj1 (proj2 (proj2 (add_one_contribute fileIndex p name)))).
    by rewrite contribute_twice.
Qed.

Lemma add_tables_contribute (fileIndex : Z) (names : list string) (p : PatternSummary) :
  foldl (add_table fileIndex) p names = contribute [] [] [] names names fileIndex p.
Proof.
  revert p. induction names as [| name names IH]; intros p; simpl.
  - by rewrite contribute_nothing.
  - rewrite IH.
    rewrite (proj1 (proj2 (proj2 (proj2 (add_one_contribute fileIndex p name))))).
    by rewrite contribute_twice.
Qed.

Lemma processGoFileForPattern_contribute goFile fileIndex p :
  processGoFileForPattern goFile fileIndex p
  = contribute (go_types goFile) (f_Name <$> go_Functions goFile) [] []
      (go_names goFile) fileIndex p.
Proof.
  unfold processGoFileForPattern.
  rewrite !add_types_contribute, add_functions_contribute, !contribute_twice.
  unfold go_names, go_types. by rewrite ?app_nil_r, <- ?app_assoc.
Qed.

Lemma processPhpFileForPattern_contribute phpFile fileIndex p :
  processPhpFileForPattern phpFile fileIndex p
  = contribute (php_types phpFile) (f_Name <$> php_Functions phpFile) [] []
      (php_names phpFile) fileIndex p.
Proof.
  unfold processPhpFileForPattern.
  rewrite !add_types_contribute, add_functions_contribute, !contribute_twice.
  unfold php_names, php_types. by rewrite ?app_nil_r, <- ?app_assoc.
Qed.

Lemma processPythonFileForPattern_contribute pyFile fileIndex p :
  processPythonFileForPattern pyFile fileIndex p
  = contribute (python_types pyFile) (f_Name <$> py_Functions pyFile) [] []
      (python_names pyFile) fileIndex p.
Proof.
  unfold processPythonFileForPattern.
  rewrite !add_types_contribute, add_functions_contribute, !contribute_twice.
  unfold python_names, python_types. by rewrite ?app_nil_r, <- ?app_assoc.
Qed.

Lemma processHtmlFileForPattern_contribute htmlFile fileIndex p :
  processHtmlFileForPattern htmlFile fileIndex p
  = contribute [] (f_Name <$> EmbeddedJS htmlFile) [] []
      (html_names htmlFile) fileIndex p.
Proof.
  unfold processHtmlFileForPattern, html_names, html_references.
  rewrite add_functions_contribute.
  generalize (f_Name <$> EmbeddedJS htmlFile). intros names.
  assert (∀ elems q,
    foldl (λ pattern elem,
             if negb (String.eqb (ID elem) "")
             then add_reference fileIndex pattern (element_name (ID elem))
             else pattern) q elems
    = contribute [] [] [] []
        (flat_map (λ elem, if negb (String.eqb (ID elem) "")
                           then [element_name (ID elem)] else []) elems) fileIndex q)
    as Hrefs.
  { induction elems as [| elem elems IH]; intros q; simpl.
    - by rewrite contribute_nothing.
    - rewrite IH. destruct (negb (String.eqb (ID elem) "")).
      + rewrite (proj2 (proj2 (proj2 (proj2
                   (add_one_contribute fileIndex q (element_name (ID elem))))))).
        by rewrite contribute_twice.
      + done. }
  rewrite Hrefs, contribute_twice. by rewrite !app_nil_r.
Qed.

Lemma processCssFileForPattern_contribute cssFile fileIndex p :
  processCssFileForPattern cssFile fileIndex p
  = contribute [] [] (css_names cssFile) [] (css_names cssFile) fileIndex p.
Proof. unfold processCssFileForPattern. by rewrite add_selectors_contribute. Qed.

Lemma processSqlFileForPattern_contribute sqlFile fileIndex p :
  processSqlFileForPattern sqlFile fileIndex p
  = contribute [] [] [] (sql_names sqlFile) (sql_names sqlFile) fileIndex p.
Proof.
  unfold processSqlFileForPattern, sql_names.
  generalize (Statements sqlFile). intros stmts. revert p.
  induction stmts as [| stmt stmts IH]; intros p; simpl.
  - by rewrite contribute_nothing.
  - by rewrite IH, add_tables_contribute, contribute_twice.
Qed.

Lemma add_files_contribute {F : Type} (path : F → string)
    (process : F → Z → PatternSummary → PatternSummary)
    (ty fn se ta na : F → list string) (files : list F) :
  (∀ f idx p, process f idx p = contribute (ty f) (fn f) (se f) (ta f) (na f) idx p) →
  ∀ p i,
    add_files path process files (p, i)
    = (set_lists (Types p ++ flat_map ty files) (Functions p ++ flat_map fn files)
         (note_files ((λ f, (path f, na f)) <$> files) i (FileMap p))
         (Files p ++ (path <$> files))
         (CSSSelectors p ++ flat_map se files) (SQLTables p ++ flat_map ta files) p,
       i + Z.of_nat (length files)).
Proof.
  intros Hprocess. unfold add_files.
  induction files as [| f files IH]; intros p i; simpl.
  - destruct p. unfold set_lists. simpl. by rewrite !app_nil_r, Z.add_0_r.
  - rewrite IH, Hprocess. unfold contribute, add_file, set_lists. simpl.
    rewrite <- !app_assoc. simpl. f_equal. lia.
Qed.

Lemma note_files_app (l1 l2 : list (string * list string)) (i : Z)
    (m : gmap string (list Z)) :
  note_files (l1 ++ l2) i m = note_files l2 (i + Z.of_nat (length l1)) (note_files l1 i m).
Proof.
  revert i m. induction l1 as [| [path names] l1 IH]; intros i m; simpl.
  - by rewrite Z.add_0_r.
  - rewrite IH. f_equal. lia.
Qed.

Lemma flat_map_nothing {A B : Type} (l : list A) : flat_map (λ _ : A, @nil B) l = [].
Proof. by induction l. Qed.

Lemma add_files_lists {F : Type} (path : F → string)
    (process : F → Z → PatternSummary → PatternSummary)
    (ty fn se ta na : F → list string) (files : list F)
    (p p' : PatternSummary) (i i' : Z) :
  (∀ f idx p, process f idx p = contribute (ty f) (fn f) (se f) (ta f) (na f) idx p) →
  add_files path process files (p, i) = (p', i') →
  Types p' = (Types p ++ flat_map ty files)%list
  ∧ Functions p' = (Functions p ++ flat_map fn files)%list
  ∧ FileMap p' = note_files ((λ f, (path f, na f)) <$> files) i (FileMap p)
  ∧ Files p' = (Files p ++ (path <$> files))%list
  ∧ CSSSelectors p' = (CSSSelectors p ++ flat_map se files)%list
  ∧ SQLTables p' = (SQLTables p ++ flat_map ta files)%list
  ∧ i' = i + Z.of_nat (length files).
Proof.
  intros Hprocess. rewrite (add_files_contribute _ _ _ _ _ _ _ _ Hprocess).
  by intros [= <- <-].
Qed.

(** The lists of the pattern format before duplicates are removed. *)
Lemma convertToPatternFormat_lists now range summary config :
  let p := convertToPatternFormat now range summary config in
  FileMap p = note_files (indexed_files summary) 0 ∅
  ∧ Files p = (indexed_files summary).*1
  ∧ Types p = removeDuplicatesAndSort (range 0%nat) (type_names summary)
  ∧ Functions p = removeDuplicatesAndSort (range 1%nat) (function_names summary)
  ∧ CSSSelectors p = removeDuplicatesAndSort (range 2%nat) (selector_names summary)
  ∧ SQLTables p = removeDuplicatesAndSort (range 3%nat) (table_names summary).
Proof.
  unfold convertToPatternFormat. cbv zeta.
  destruct (add_files go_FilePath _ _ _) as [p1 i1] eqn:E1.
  eapply add_files_lists in E1 as (T1 & F1 & M1 & P1 & C1 & S1 & ->);
    [| apply processGoFileForPattern_contribute].
  destruct (add_files php_FilePath _ _ _) as [p2 i2] eqn:E2.
  eapply add_files_lists in E2 as (T2 & F2 & M2 & P2 & C2 & S2 & ->);
    [| apply processPhpFileForPattern_contribute].
  destruct (add_files py_FilePath _ _ _) as [p3 i3] eqn:E3.
  eapply add_files_lists in E3 as (T3 & F3 & M3 & P3 & C3 & S3 & ->);
    [| apply processPythonFileForPattern_contribute].
  destruct (add_files html_FilePath _ _ _) as [p4 i4] eqn:E4.
  eapply add_files_lists in E4 as (T4 & F4 & M4 & P4 & C4 & S4 & ->);
    [| apply processHtmlFileForPattern_contribute].
  destruct (add_files css_FilePath _ _ _) as [p5 i5] eqn:E5.
  eapply add_files_lists in E5 as (T5 & F5 & M5 & P5 & C5 & S5 & ->);
    [| apply processCssFileForPattern_contribute].
  destruct (add_files sql_FilePath _ _ _) as [p6 i6] eqn:E6.
  eapply add_files_lists in E6 as (T6 & F6 & M6 & P6 & C6 & S6 & ->);
    [| apply processSqlFileForPattern_contribute].
  cbn [fst snd Types Functions FileMap Files CSSSelectors SQLTables] in *.
  rewrite T6, T5, T4, T3, T2, T1, F6, F5, F4, F3, F2, F1, M6, M5, M4, M3, M2, M1,
    P6, P5, P4, P3, P2, P1, C6, C5, C4, C3, C2, C1, S6, S5, S4, S3, S2, S1.
  unfold indexed_files, type_names, function_names, selector_names, table_names.
  rewrite !flat_map_nothing, !app_nil_r. cbn [app].
  rewrite !note_files_app, !length_fmap, !fmap_app, <- !list_fmap_compose,
    <- !app_assoc.
  repeat split.
Qed.

Lemma extended_twice (entry : option (list Z)) (l1 l2 : list Z) :
  extended (extended entry l1) l2 = extended entry (l1 ++ l2).
Proof.
  destruct l1 as [| x l1]; [done |]. destruct l2 as [| y l2]; simpl.
  - by rewrite app_nil_r.
  - by rewrite <- app_assoc.
Qed.

Lemma note_names_lookup (idx : Z) (names : list string) (m : gmap string (list Z))
    (name : string) :
  note_names idx m names !! name
  = extended (m !! name)
      (replicate (length (List.filter (String.eqb name) names)) idx).
Proof.
  unfold note_names. revert m.
  induction names as [| n names IH]; intros m; simpl; [done |].
  rewrite IH. unfold note. destruct (String.eqb_spec name n) as [-> | Hne]; simpl.
  - rewrite lookup_insert_eq.
    change (Some (default [] (m !! n) ++ [idx])%list)
      with (extended (m !! n) [idx]).
    by rewrite extended_twice.
  - by rewrite lookup_insert_ne.
Qed.

Lemma note_files_lookup (files : list (string * list string)) (i : Z)
    (m : gmap string (list Z)) (name : string) :
  note_files files i m !! name = extended (m !! name) (occurrences name files i).
Proof.
  revert i m. induction files as [| [path names] files IH]; intros i m; simpl; [done |].
  by rewrite IH, note_names_lookup, extended_twice.
Qed.

Lemma filter_eqb_elem (name : string) (names : list string) :
  length (List.filter (String.eqb name) names) ≠ 0%nat ↔ name ∈ names.
Proof.
  induction names as [| n names IH]; simpl.
  - rewrite elem_of_nil. tauto.
  - rewrite elem_of_cons. destruct (String.eqb_spec name n) as [-> | Hne]; simpl.
    + split; [auto | lia].
    + rewrite IH. split; [auto | by intros [? | ?]].
Qed.

Lemma elem_of_occurrences (name : string) (files : list (string * list string))
    (k i : Z) :
  i ∈ occurrences name files k
  ↔ ∃ (j : nat) path names,
      files !! j = Some (path, names) ∧ name ∈ names ∧ i = k + Z.of_nat j.
Proof.
  revert k. induction files as [| [path names] files IH]; intros k; simpl.
  - rewrite elem_of_nil. split; [done | intros (j & ? & ? & Hj & _); done].
  - rewrite elem_of_app, elem_of_replicate, filter_eqb_elem, IH. split.
    + intros [[-> Hin] | (j & path' & names' & Hj & Hin & ->)].
      * exists 0%nat, path, names. split; [done |]. split; [done | lia].
      * exists (S j), path', names'. split; [done |]. split; [done | lia].
    + intros ([| j] & path' & names' & Hj & Hin & ->); simpl in Hj.
      * injection Hj as <- <-. left. split; [lia | done].
      * right. exists j, path', names'. split; [done |]. split; [done | lia].
Qed.

(** X3.  In the pattern format, [FileMap] holds index [i] for a name
    exactly when the [i]-th file, counting the files in the order Go, PHP,
    Python, HTML, CSS, SQL, declares that name; [Files] holds the path of
    that file at index [i]. *)
Theorem pattern_file_map_indices now range summary config (name : string) (i : Z) :
  let p := convertToPatternFormat now range summary config in
  (∃ idxs, FileMap p !! name = Some idxs ∧ i ∈ idxs)
  ↔ (∃ path names,
       0 <= i
       ∧ indexed_files summary !! Z.to_nat i = Some (path, names)
       ∧ name ∈ names
       ∧ Files p !! Z.to_nat i = Some path).
Proof.
  destruct (convertToPatternFormat_lists now range summary config)
    as (Hmap & Hfiles & _).
  cbv zeta. rewrite Hmap, Hfiles, note_files_lookup, lookup_empty.
  split.
  - intros (idxs & Hidxs & Hin).
    assert (i ∈ occurrences name (indexed_files summary) 0) as Hocc.
    { destruct (occurrences name (indexed_files summary) 0) as [| x l]; [done |].
      simpl in Hidxs. by injection Hidxs as <-. }
    apply elem_of_occurrences in Hocc as (j & path & names & Hj & Hname & ->).
    exists path, names. rewrite Z.add_0_l, Nat2Z.id.
    split; [lia |]. split; [done |]. split; [done |].
    by rewrite list_lookup_fmap, Hj.
  - intros (path & names & Hi & Hlook & Hname & _).
    assert (i ∈ occurrences name (indexed_files summary) 0) as Hocc.
    { apply elem_of_occurrences. exists (Z.to_nat i), path, names.
      split; [done |]. split; [done | lia]. }
    destruct (occurrences name (indexed_files summary) 0) as [| x l] eqn:E;
      [by apply elem_of_nil in Hocc |].
    exists (x :: l). by split.
Qed.

(** X4.  In the pattern format the four name lists hold exactly the type,
    function, selector and table names of the analysed files, each name
    once, in increasing byte order. *)
Theorem pattern_name_lists now range summary config :
  (∀ n, valid_range (range n)) →
  let p := convertToPatternFormat now range summary config in
  sorted_set (Types p) (type_names summary)
  ∧ sorted_set (Functions p) (function_names summary)
  ∧ sorted_set (CSSSelectors p) (selector_names summary)
  ∧ sorted_set (SQLTables p) (table_names summary).
Proof.
  intros Hrange. cbv zeta.
  destruct (convertToPatternFormat_lists now range summary config)
    as (_ & _ & -> & -> & -> & ->).
  unfold sorted_set.
  repeat split;
    first [ apply removeDuplicatesAndSort_Sorted
          | by apply removeDuplicatesAndSort_NoDup
          | by apply removeDuplicatesAndSort_elem ].
Qed.

Lemma pattern_name_lists_witness :
  let p := convertToPatternFormat "now" (fun _ => canonical_range) two_files no_config in
  sorted_set (Types p) (type_names two_files)
  ∧ sorted_set (Functions p) (function_names two_files)
  ∧ sorted_set (CSSSelectors p) (selector_names two_files)
  ∧ sorted_set (SQLTables p) (table_names two_files).
Proof.
  apply (pattern_name_lists "now" (fun _ => canonical_range) two_files no_config).
  intros n m. reflexivity.
Defined.

End PatternFormat.
(** *** The tree-based extractor: what a summary lists *)

Section GoLists.
Import GoStrings GoLibrary GoExtractor GoViews.
Open Scope string_scope.
Open Scope Z_scope.

Lemma record_calls_NoDup (nodes : list Node) (calls : list string) :
  NoDup calls → NoDup (foldl record_call calls nodes).
Proof.
  revert calls. induction nodes as [| n nodes IH]; intros calls Hnd; simpl; [done |].
  apply IH. destruct n; try done. simpl.
  destruct n; try done; by apply appendIfNotExists_NoDup.
Qed.

Lemma record_call_callee (calls : list string) (n : Node) :
  record_call calls n
  = match callee n with
    | Some name => appendIfNotExists calls name
    | None => calls
    end.
Proof. destruct n; try done. simpl. by destruct n. Qed.

Lemma record_calls_elem (nodes : list Node) (calls : list string) (x : string) :
  x ∈ foldl record_call calls nodes
  ↔ x ∈ calls ∨ ∃ n, n ∈ nodes ∧ callee n = Some x.
Proof.
  revert calls. induction nodes as [| n nodes IH]; intros calls; simpl.
  - split; [auto | intros [? | (n & Hn & _)]; [done | by apply elem_of_nil in Hn]].
  - rewrite IH, record_call_callee. split.
    + intros [Hin | (m & Hm & Hcallee)].
      * destruct (callee n) as [name |] eqn:E; [| by left].
        apply appendIfNotExists_elem in Hin as [Hin | ->]; [by left |].
        right. exists n. split; [by left | done].
      * right. exists m. split; [by right | done].
    + intros [Hin | (m & Hm & Hcallee)].
      * left. destruct (callee n); [| done]. apply appendIfNotExists_elem. by left.
      * apply elem_of_cons in Hm as [-> | Hm].
        -- left. rewrite Hcallee. apply appendIfNotExists_elem. by right.
        -- right. by exists m.
Qed.

(** X5.  The calls [extractFunction] records for a function declaration
    are the names of the direct calls and the selector calls found anywhere
    in its body, each name once. *)
Theorem go_calls_listed_once (line : Z) (Recv : option (list Node)) (Name : string)
    (Params Results : option (list Node)) (body : list Node) :
  let function := extractFunction (FuncDecl line Recv Name Params Results (Some body)) in
  NoDup (f_Calls function)
  ∧ ∀ x, x ∈ f_Calls function
         ↔ ∃ n, n ∈ preorder (BlockStmt body) ∧ callee n = Some x.
Proof.
  cbn [extractFunction f_Calls]. split.
  - apply record_calls_NoDup, NoDup_nil_2.
  - intros x. rewrite record_calls_elem. split; [| auto].
    intros [Hin | H]; [by apply elem_of_nil in Hin | done].
Qed.





Lemma visit_registers (st : GoFileSummary * gmap string Struct) (n : Node) :
  (∀ s, s ∈ go_Structs st.1 → s_Methods s = [] ∧ is_Some (st.2 !! s_Name s)) →
  ∀ s, s ∈ go_Structs (visit st n).1
       → s_Methods s = [] ∧ is_Some ((visit st n).2 !! s_Name s).
Proof.
  destruct st as [summary structs]. intros Hinv.
  destruct n; cbn [visit fst snd]; try done.
  - destruct (receiver_type Recv) as [recvType |]; [| done].
    destruct (structs !! recvType) as [u |] eqn:E; [| done].
    cbn [fst snd add_function go_Structs]. intros s Hs.
    destruct (Hinv s Hs) as [Hm Hk]. split; [done |].
    apply lookup_insert_is_Some. destruct (decide (recvType = s_Name s)); auto.
  - destruct n; cbn [fst snd add_struct add_interface go_Structs]; try done.
    intros s Hs. apply elem_of_app in Hs as [Hs | Hs].
    + destruct (Hinv s Hs) as [Hm Hk]. split; [done |].
      apply lookup_insert_is_Some. destruct (decide (Name = s_Name s)); auto.
    + apply list_elem_of_singleton in Hs as ->. cbn [s_Methods s_Name].
      split; [done |]. rewrite lookup_insert_eq. eauto.
Qed.

Lemma walk_registers (nodes : list Node) (st : GoFileSummary * gmap string Struct) :
  (∀ s, s ∈ go_Structs st.1 → s_Methods s = [] ∧ is_Some (st.2 !! s_Name s)) →
  ∀ s, s ∈ go_Structs (foldl visit st nodes).1
       → s_Methods s = [] ∧ is_Some ((foldl visit st nodes).2 !! s_Name s).
Proof.
  revert st. induction nodes as [| n nodes IH]; intros st Hinv; simpl; [done |].
  apply IH. by apply visit_registers.
Qed.

(** X7.  After a Go file is analysed, every aggregate type of its summary
    is in the registry under its name, and the summary and the registry
    give it the same methods. *)
Theorem go_structs_agree_with_registry (filePath : string) (node : File)
    (structs : gmap string Struct) :
  let result := analyze_parsed filePath node structs in
  ∀ s, s ∈ go_Structs result.1
       → ∃ u, result.2 !! s_Name s = Some u ∧ s_Methods s = s_Methods u.
Proof.
  unfold analyze_parsed.
  match goal with |- context [foldl visit ?st ?nodes] =>
    pose proof (walk_registers nodes st) as H; destruct (foldl visit st nodes) as [s m]
  end.
  cbn [fst snd set_structs go_Structs] in *. intros s' Hs'.
  apply list_elem_of_fmap in Hs' as (s0 & -> & Hs0).
  destruct (H ltac:(intros ? Hin; by apply elem_of_nil in Hin) s0 Hs0) as [Hm [u Hu]].
  exists u. unfold update_struct. rewrite Hu.
  destruct (0 <? length (s_Methods u))%nat eqn:E; cbn [set_methods s_Name s_Methods].
  - done.
  - split; [done |]. rewrite Hm. destruct (s_Methods u); [done | by simpl in E].
Qed.

Lemma go_structs_agree_with_registry_witness :
  ∃ u, (analyze_parsed "a.go" GoInputs.type_first ∅).2 !! s_Name foo_with_method = Some u
       ∧ s_Methods foo_with_method = s_Methods u.
Proof.
  apply (go_structs_agree_with_registry "a.go" GoInputs.type_first ∅ foo_with_method).
  vm_compute. constructor.
Defined.

Lemma trim_right_by_none (p : ascii → bool) (s : string) :
  all_bytes (λ c, negb (p c)) s = true → trim_right_by p s = s.
Proof.
  induction s as [| c t IH]; [done |]. cbn [all_bytes trim_right_by].
  intros [Hc Ht]%andb_true_iff. rewrite (IH Ht).
  apply negb_true_iff in Hc. rewrite Hc. by destruct t.
Qed.

Lemma trim_right_by_last (p : ascii → bool) (s : string) (d : ascii) :
  p d = true → trim_right_by p (s ++ String d "") = trim_right_by p s.
Proof.
  intros Hd. induction s as [| c t IH].
  - simpl. by rewrite Hd.
  - rewrite append_cons. cbn [trim_right_by]. by rewrite IH.
Qed.

Lemma trim_between (q : ascii → bool) (d : ascii) (p : string) :
  q d = true → all_bytes (λ c, negb (q c)) p = true →
  trim_right_by q (trim_left_by q (String d (p ++ String d ""))) = p.
Proof.
  intros Hd Hp. cbn [trim_left_by]. rewrite Hd. destruct p as [| c t].
  - simpl. by rewrite Hd.
  - rewrite append_cons. pose proof Hp as Hp'. cbn [all_bytes] in Hp'.
    apply andb_true_iff in Hp' as [Hc Ht]. apply negb_true_iff in Hc.
    cbn [trim_left_by]. rewrite Hc, <- append_cons, trim_right_by_last by done.
    by apply trim_right_by_none.
Qed.

(** X8.  For an import written between double quotes, the path recorded
    is the text between the quotes. *)
Theorem go_import_path_unquoted (p : string) :
  all_bytes (λ c, negb (Ascii.eqb c dquote)) p = true →
  import_path (ImportSpec (quoted p)) = [ {| Path := p |} ].
Proof.
  intros Hp. unfold import_path, quoted, Trim. do 2 f_equal.
  apply (trim_between (λ c, mem_byte c (String dquote ""))); [done |].
  clear -Hp. induction p as [| c t IH]; [done |]. cbn [all_bytes] in *.
  apply andb_true_iff in Hp as [Hc Ht]. rewrite (IH Ht), andb_true_r.
  simpl. by rewrite orb_false_r.
Qed.

Lemma go_import_path_unquoted_witness :
  import_path (ImportSpec (quoted "net/http")) = [ {| Path := "net/http" |} ].
Proof. apply (go_import_path_unquoted "net/http"). reflexivity. Defined.

End GoLists.
(** *** The matcher: a match and its groups lie inside the text *)

Section MatcherFacts.
Import GoStrings Regexp RegexpViews.
Open Scope string_scope.

Lemma drop_bytes_add (n1 n2 : nat) (s : string) :
  drop_bytes n2 (drop_bytes n1 s) = drop_bytes (n1 + n2) s.
Proof.
  revert s. induction n1 as [| n1 IH]; intros s; [done |].
  destruct s as [| c t]; simpl; [by destruct n2 | apply IH].
Qed.

Lemma drop_bytes_length (n : nat) (s : string) :
  String.length (drop_bytes n s) = (String.length s - n)%nat.
Proof.
  revert s. induction n as [| n IH]; intros s; simpl; [lia |].
  destruct s as [| c t]; simpl; [done | apply IH].
Qed.

Lemma star_greedy_sound {R : Type} (p : ascii → bool) (k : cont) (s : string) :
  ∀ (pos : nat) (prev : option ascii) (x : R),
    star_greedy p k pos prev s = Some x →
    ∃ n prev', k (pos + n)%nat prev' (drop_bytes n s) = Some x
               ∧ (n <= String.length s)%nat.
Proof.
  induction s as [| c t IH]; intros pos prev x; cbn [star_greedy].
  - intros H. exists 0%nat, prev. by rewrite Nat.add_0_r.
  - destruct (p c).
    + destruct (star_greedy p k (S pos) (Some c) t) as [y |] eqn:E.
      * intros [= <-]. apply IH in E as (n & prev' & Hk & Hn).
        exists (S n), prev'. rewrite Nat.add_succ_r. simpl. split; [done | lia].
      * intros H. exists 0%nat, prev. rewrite Nat.add_0_r. split; [done | simpl; lia].
    + intros H. exists 0%nat, prev. rewrite Nat.add_0_r. split; [done | simpl; lia].
Qed.

Lemma star_lazy_sound {R : Type} (p : ascii → bool) (k : cont) (s : string) :
  ∀ (pos : nat) (prev : option ascii) (x : R),
    star_lazy p k pos prev s = Some x →
    ∃ n prev', k (pos + n)%nat prev' (drop_bytes n s) = Some x
               ∧ (n <= String.length s)%nat.
Proof.
  induction s as [| c t IH]; intros pos prev x; cbn [star_lazy].
  - destruct (k pos prev "") as [y |] eqn:E; [| done].
    intros [= <-]. exists 0%nat, prev. by rewrite Nat.add_0_r.
  - destruct (k pos prev (String c t)) as [y |] eqn:E.
    + intros [= <-]. exists 0%nat, prev. rewrite Nat.add_0_r. split; [done | simpl; lia].
    + destruct (p c); [| done]. intros H.
      apply IH in H as (n & prev' & Hk & Hn).
      exists (S n), prev'. rewrite Nat.add_succ_r. simpl. split; [done | lia].
Qed.

Lemma caps_within_wider (lo hi lo' hi' : nat) (cs : caps) :
  (lo' <= lo)%nat → (hi <= hi')%nat → caps_within lo hi cs → caps_within lo' hi' cs.
Proof.
  intros Hlo Hhi Hcs. unfold caps_within in *.
  eapply Forall_impl; [exact Hcs |]. intros c. simpl. lia.
Qed.

(** A successful run hands its continuation the rest of the text, with the
    groups it met inside what it consumed. *)
Lemma run_sound {R : Type} (r : re) :
  ∀ (cs : caps) (pos : nat) (prev : option ascii) (s : string)
    (k : caps → cont) (x : R),
    run r cs pos prev s k = Some x →
    ∃ new n prev',
      k (new ++ cs)%list (pos + n)%nat prev' (drop_bytes n s) = Some x
      ∧ (n <= String.length s)%nat
      ∧ caps_within pos (pos + n) new
      ∧ ∀ g, g ∈ sure_groups r → g ∈ new.*1.
Proof.
  induction r as [p | r1 IH1 r2 IH2 | r1 IH1 r2 IH2 | r1 IH1 | greedy p | g r1 IH1 | |];
    intros cs pos prev s k x; cbn [run sure_groups].
  - destruct s as [| c t]; [done |]. destruct (p c); [| done]. intros H.
    exists [], 1%nat, (Some c). rewrite Nat.add_1_r. simpl.
    split; [done |]. split; [lia |]. split; [constructor |].
    intros g Hg. by apply elem_of_nil in Hg.
  - intros H. apply IH1 in H as (new1 & n1 & prev1 & H & Hn1 & Hc1 & Hg1).
    apply IH2 in H as (new2 & n2 & prev2 & H & Hn2 & Hc2 & Hg2).
    rewrite drop_bytes_length in Hn2.
    exists (new2 ++ new1)%list, (n1 + n2)%nat, prev2.
    rewrite <- app_assoc, Nat.add_assoc, <- drop_bytes_add.
    split; [done |]. split; [lia |]. split.
    + apply Forall_app. split.
      * eapply caps_within_wider; [| | exact Hc2]; lia.
      * eapply caps_within_wider; [| | exact Hc1]; lia.
    + intros g Hg. rewrite fmap_app. apply elem_of_app.
      apply elem_of_app in Hg as [Hg | Hg]; auto.
  - destruct (run r1 cs pos prev s k) as [y |] eqn:E.
    + intros [= <-]. apply IH1 in E as (new & n & prev' & H & Hn & Hc & _).
      exists new, n, prev'. repeat split; try done.
      intros g Hg. by apply elem_of_nil in Hg.
    + intros H. apply IH2 in H as (new & n & prev' & H & Hn & Hc & _).
      exists new, n, prev'. repeat split; try done.
      intros g Hg. by apply elem_of_nil in Hg.
  - destruct (run r1 cs pos prev s k) as [y |] eqn:E.
    + intros [= <-]. apply IH1 in E as (new & n & prev' & H & Hn & Hc & _).
      exists new, n, prev'. repeat split; try done.
      intros g Hg. by apply elem_of_nil in Hg.
    + intros H. exists [], 0%nat, prev. rewrite Nat.add_0_r. simpl.
      split; [done |]. split; [lia |]. split; [constructor |].
      intros g Hg. by apply elem_of_nil in Hg.
  - intros H.
    assert (∃ n prev', k cs (pos + n)%nat prev' (drop_bytes n s) = Some x
                       ∧ (n <= String.length s)%nat) as (n & prev' & Hk & Hn).
    { destruct greedy; [by apply star_greedy_sound in H | by apply star_lazy_sound in H]. }
    exists [], n, prev'. simpl. split; [done |]. split; [done |].
    split; [constructor |]. intros g Hg. by apply elem_of_nil in Hg.
  - intros H. apply IH1 in H as (new & n & prev' & H & Hn & Hc & Hg).
    exists ((g, (pos, (pos + n)%nat)) :: new), n, prev'. simpl.
    split; [done |]. split; [done |]. split.
    + constructor; [simpl; lia | done].
    + intros g' Hg'. apply elem_of_cons in Hg' as [-> | Hg']; [by left | right; auto].
  - intros H. exists [], 0%nat, prev. rewrite Nat.add_0_r. simpl.
    assert (k cs pos prev s = Some x) as Hk.
    { destruct prev as [c |]; [| done]. by destruct (Ascii.eqb c nl). }
    split; [done |]. split; [lia |]. split; [constructor |].
    intros g Hg. by apply elem_of_nil in Hg.
  - intros H. exists [], 0%nat, prev. rewrite Nat.add_0_r. simpl.
    split; [done |]. split; [lia |]. split; [constructor |].
    intros g Hg. by apply elem_of_nil in Hg.
Qed.

Lemma match_here_within (r : re) (pos : nat) (prev : option ascii) (s : string)
    (e : nat) (cs : caps) :
  match_here r pos prev s = Some (e, cs) →
  match_within r pos (pos + String.length s) (pos, e, cs).
Proof.
  unfold match_here. intros H.
  apply run_sound in H as (new & n & prev' & [= <- <-] & Hn & Hc & Hg).
  rewrite app_nil_r. unfold match_within. simpl. split; [lia |]. by split.
Qed.

Lemma match_within_wider (r : re) (lo hi lo' hi' : nat) (m : nat * nat * caps) :
  (lo' <= lo)%nat → (hi <= hi')%nat → match_within r lo hi m → match_within r lo' hi' m.
Proof. unfold match_within. intros Hlo Hhi (Hm & Hc & Hg). split; [lia | done]. Qed.

Lemma find_all_from_within (r : re) (s : string) :
  ∀ (pos : nat) (prev : option ascii) (skip : nat) (m : nat * nat * caps),
    m ∈ find_all_from r pos prev s skip →
    match_within r pos (pos + String.length s) m.
Proof.
  induction s as [| c t IH]; intros pos prev skip m Hm.
  - destruct skip; cbn [find_all_from] in Hm; [| by apply elem_of_nil in Hm].
    destruct (match_here r pos prev "") as [[e cs] |] eqn:E; [| by apply elem_of_nil in Hm].
    apply list_elem_of_singleton in Hm as ->. by apply match_here_within in E.
  - destruct skip as [| skip]; cbn [find_all_from] in Hm.
    + destruct (match_here r pos prev (String c t)) as [[e cs] |] eqn:E.
      * apply elem_of_cons in Hm as [-> | Hm]; [by apply match_here_within in E |].
        apply IH in Hm. eapply match_within_wider; [| | exact Hm]; simpl; lia.
      * apply IH in Hm. eapply match_within_wider; [| | exact Hm]; simpl; lia.
    + apply IH in Hm. eapply match_within_wider; [| | exact Hm]; simpl; lia.
Qed.

End MatcherFacts.

Section IndexSlices.
Import GoStrings Regexp RegexpViews.
Open Scope string_scope.
Open Scope Z_scope.

Lemma nth_flat_map_pairs (f : nat → list Z) (d : Z) :
  (∀ x, length (f x) = 2%nat) →
  ∀ (n a i j : nat), (i < n)%nat → (j < 2)%nat →
    nth (2 * i + j) (flat_map f (seq a n)) d = nth j (f (a + i)%nat) d.
Proof.
  intros Hf. induction n as [| n IH]; intros a i j Hi Hj; [lia |].
  cbn [seq flat_map]. destruct i as [| i].
  - rewrite Nat.add_0_r. simpl. rewrite app_nth1 by (rewrite Hf; lia). done.
  - rewrite app_nth2 by (rewrite Hf; lia). rewrite Hf.
    replace (2 * S i + j - 2)%nat with (2 * i + j)%nat by lia.
    rewrite IH by lia. f_equal. f_equal. lia.
Qed.

Lemma length_flat_map_pairs (f : nat → list Z) :
  (∀ x, length (f x) = 2%nat) →
  ∀ (n a : nat), length (flat_map f (seq a n)) = (2 * n)%nat.
Proof.
  intros Hf. induction n as [| n IH]; intros a; [done |].
  cbn [seq flat_map]. rewrite length_app, Hf, IH. lia.
Qed.

Lemma cap_index_length (cs : caps) (g : nat) : length (cap_index cs g) = 2%nat.
Proof. unfold cap_index. by destruct (get_cap cs g) as [[b e] |]. Qed.

Lemma at_index_group (ngroups : nat) (b e : nat) (cs : caps) (g j : nat) :
  (1 <= g <= ngroups)%nat → (j < 2)%nat →
  at_index (index_slice ngroups (b, e, cs)) (2 * g + j) = nth j (cap_index cs g) (-1).
Proof.
  intros Hg Hj. unfold at_index, index_slice.
  rewrite app_nth2 by (simpl; lia). cbn [length].
  replace (2 * g + j - 2)%nat with (2 * (g - 1) + j)%nat by lia.
  rewrite (nth_flat_map_pairs _ _ (cap_index_length cs)) by lia.
  do 2 f_equal. lia.
Qed.

Lemma get_cap_Some (cs : caps) (g b e : nat) :
  get_cap cs g = Some (b, e) → (g, (b, e)) ∈ cs.
Proof.
  unfold get_cap. destruct (List.find _ cs) as [[g' be] |] eqn:E; [| done].
  simpl. intros [= ->]. apply find_some in E as [Hin Heq].
  apply Nat.eqb_eq in Heq. simpl in Heq. subst. by apply list_elem_of_In.
Qed.

Lemma get_cap_None (cs : caps) (g : nat) : get_cap cs g = None → g ∉ cs.*1.
Proof.
  unfold get_cap. destruct (List.find _ cs) as [c |] eqn:E; [done |]. intros _ Hin.
  apply list_elem_of_fmap in Hin as ([g' be] & -> & Hin).
  apply list_elem_of_In in Hin.
  pose proof (find_none _ _ E _ Hin) as Hne. simpl in Hne.
  by rewrite Nat.eqb_refl in Hne.
Qed.

(** The index slice of a match found in a text of length [limit]. *)
Lemma index_slice_ok (r : re) (ngroups : nat) (limit : nat) (m : nat * nat * caps) :
  match_within r 0 limit m → match_ok r ngroups (Z.of_nat limit) (index_slice ngroups m).
Proof.
  destruct m as [[b e] cs]. intros (Hm & Hc & Hg). simpl in Hm, Hc, Hg.
  unfold match_ok. split.
  { unfold index_slice. rewrite length_app, (length_flat_map_pairs _ (cap_index_length cs)).
    simpl. lia. }
  change (at_index (index_slice ngroups (b, e, cs)) 0) with (Z.of_nat b).
  change (at_index (index_slice ngroups (b, e, cs)) 1) with (Z.of_nat e).
  split; [lia |]. split; [lia |]. split; [lia |].
  intros g Hrange. unfold group_ok.
  change (at_index (index_slice ngroups (b, e, cs)) 0) with (Z.of_nat b).
  change (at_index (index_slice ngroups (b, e, cs)) 1) with (Z.of_nat e).
  replace (2 * g)%nat with (2 * g + 0)%nat at 1 3 4 by lia.
  rewrite !at_index_group by lia.
  unfold cap_index. destruct (get_cap cs g) as [[b' e'] |] eqn:E.
  - right. apply get_cap_Some in E.
    unfold caps_within in Hc. rewrite Forall_forall in Hc.
    specialize (Hc _ E). simpl in *. lia.
  - left. split; [done |]. split; [done |].
    intros Hsure. by apply (get_cap_None _ _ E), Hg.
Qed.

Lemma FindAllStringSubmatchIndex_ok (r : re) (ngroups : nat) (s : string) (m : list Z) :
  m ∈ FindAllStringSubmatchIndex r ngroups s → match_ok r ngroups (len s) m.
Proof.
  unfold FindAllStringSubmatchIndex. intros Hm.
  apply list_elem_of_fmap in Hm as (m0 & -> & Hin).
  apply find_all_from_within in Hin. by apply index_slice_ok.
Qed.

(** A sure group of a match is a pair of positions inside the match. *)
Lemma sure_group_bounds (r : re) (ngroups : nat) (limit : Z) (m : list Z) (g : nat) :
  match_ok r ngroups limit m → (1 <= g <= ngroups)%nat → g ∈ sure_groups r →
  at_index m 0 <= at_index m (2 * g)
  ∧ at_index m (2 * g) <= at_index m (2 * g + 1)
  ∧ at_index m (2 * g + 1) <= at_index m 1.
Proof.
  intros (_ & _ & _ & _ & Hgroups) Hg Hsure.
  by destruct (Hgroups g Hg) as [(_ & _ & Hnot) | H].
Qed.

End IndexSlices.
(** *** The delimiter-scoped extractor never fails *)

Section Returns.
Import GoStrings Regexp.
Open Scope string_scope.
Open Scope Z_scope.

Lemma returns_Ok {A : Type} (r : Result A) : returns r ↔ ∃ a, r = Ok a.
Proof. destruct r; simpl; split; try done; eauto; by intros [? ?]. Qed.

Lemma returns_bind {A B : Type} (m : Result A) (f : A → Result B) :
  returns m → (∀ a, m = Ok a → returns (f a)) → returns (a ← m; f a).
Proof. destruct m as [a | |]; simpl; [| done | done]. intros _ Hf. by apply Hf. Qed.

Lemma for_each_returns {A B : Type} (body : B → A → Result B) (l : list A) :
  (∀ x, x ∈ l → ∀ acc, returns (body acc x)) → ∀ acc, returns (for_each body l acc).
Proof.
  induction l as [| x l IH]; intros Hbody acc; [done |].
  cbn [for_each]. apply returns_bind.
  - apply Hbody. by left.
  - intros acc' _. apply IH. intros y Hy. apply Hbody. by right.
Qed.

Lemma slice_returns (s : string) (lo hi : Z) :
  0 <= lo → lo <= hi → hi <= len s →
  ∃ piece, slice s lo hi = Some piece ∧ len piece = hi - lo.
Proof.
  intros H1 H2 H3. rewrite slice_in_range by done. eexists. split; [done |].
  by eapply slice_Some, slice_in_range.
Qed.

Lemma prefix_length (a b : string) :
  String.prefix a b = true → (String.length a <= String.length b)%nat.
Proof.
  revert b. induction a as [| x a IH]; intros b; [simpl; lia |].
  destruct b as [| y b]; cbn [String.prefix String.length]; [done |].
  destruct (ascii_dec x y); [| done].
  intros H. apply IH in H. lia.
Qed.

(** An occurrence found by [strings.Index] lies inside the text. *)
Lemma Index_bounds (s substr : string) :
  0 <= Index s substr → Index s substr + len substr <= len s.
Proof.
  unfold len. induction s as [| c t IH].
  - rewrite Index_nil. destruct (String.prefix substr "") eqn:E; [| lia].
    apply prefix_length in E. simpl in *. lia.
  - rewrite Index_cons. destruct (String.prefix substr (String c t)) eqn:E.
    + apply prefix_length in E. lia.
    + destruct (Index t substr <? 0) eqn:E'; [lia |]. apply Z.ltb_ge in E'.
      intros _. specialize (IH E'). simpl. lia.
Qed.

Lemma walk_lift_returns {A : Type} (r : Result A) (n : nat) :
  returns r → returns (walk_lift r n).
Proof. unfold walk_lift. by destruct r. Qed.

Lemma walk_bind_returns {A B : Type} (m : Walk A) (f : A → Walk B) (n : nat) :
  returns (m n) → (∀ a n', m n = Ok (a, n') → returns (f a n')) →
  returns (walk_bind m f n).
Proof.
  unfold walk_bind. intros Hm Hf. destruct (m n) as [[a n'] | |]; simpl; [| done | done].
  by apply Hf.
Qed.

Lemma walk_each_returns {A B : Type} (body : B → A → Walk B) (l : list A) :
  (∀ x, x ∈ l → ∀ acc n, returns (body acc x n)) →
  ∀ acc n, returns (walk_each body l acc n).
Proof.
  induction l as [| x l IH]; intros Hbody acc n; [done |].
  cbn [walk_each]. apply walk_bind_returns.
  - apply Hbody. by left.
  - intros acc' n' _. apply IH. intros y Hy. apply Hbody. by right.
Qed.

End Returns.

Section PhpReturns.
Import GoStrings Regexp RegexpViews Php.
Open Scope string_scope.
Open Scope Z_scope.

Lemma isWithinString_returns (content : string) (pos : Z) :
  0 <= pos <= len content → returns (isWithinString content pos).
Proof.
  intros H. unfold isWithinString, slice_to.
  destruct (slice_returns content 0 pos) as (before & -> & _); [lia | lia | lia |]. done.
Qed.

Lemma isWithinFunction_returns (content : string) (pos : Z) :
  0 <= pos <= len content → returns (isWithinFunction content pos).
Proof.
  intros H. unfold isWithinFunction, slice_to.
  destruct (slice_returns content 0 pos) as (before & -> & _); [lia | lia | lia |]. done.
Qed.

Lemma within_keyword_returns (d : ascii) (t : string) (content : string) (pos : Z) :
  0 <= pos <= len content → returns (within_keyword (String d t) content pos).
Proof.
  intros H. unfold within_keyword, slice_to.
  destruct (slice_returns content 0 pos) as (before & -> & Hlen); [lia | lia | lia |].
  cbn [checked mbind Result_bind].
  pose proof (LastIndex_bounds before d t) as Hlast.
  destruct (LastIndex before (String d t) =? -1) eqn:E; [done |].
  apply Z.eqb_neq in E.
  destruct (slice_returns content (LastIndex before (String d t)) pos)
    as (part & -> & Hpart); [lia | lia | lia |].
  cbn [checked mbind Result_bind].
  pose proof (Index_lower_bound part "{") as Hlb.
  destruct (Index part "{" =? -1) eqn:E'; [done |]. apply Z.eqb_neq in E'.
  pose proof (Index_bounds part "{" ltac:(lia)) as Hub.
  change (len "{") with 1 in Hub.
  destruct (slice_returns content (LastIndex before (String d t) + Index part "{" + 1) pos)
    as (inner & -> & _); [lia | lia | lia |].
  done.
Qed.

Lemma brace_loop_bounds (rest : string) :
  ∀ (i braceCount bodyEnd : Z),
    brace_loop rest i braceCount bodyEnd = bodyEnd
    ∨ i <= brace_loop rest i braceCount bodyEnd < i + len rest.
Proof.
  unfold len. induction rest as [| c t IH]; intros i braceCount bodyEnd; [by left |].
  cbn [brace_loop]. destruct (0 <? braceCount); [| by left]. right.
  match goal with |- context [brace_loop t (i + 1) ?b i] =>
    destruct (IH (i + 1) b i) as [-> | H] end; simpl; lia.
Qed.

Lemma find_body_bounds (content : string) (startPos : Z) :
  0 <= startPos <= len content →
  find_body content startPos = Ok None
  ∨ ∃ bodyStart bodyEnd,
      find_body content startPos = Ok (Some (bodyStart, bodyEnd))
      ∧ startPos < bodyStart <= len content
      ∧ (bodyEnd = bodyStart ∨ bodyStart <= bodyEnd < len content).
Proof.
  intros H. unfold find_body, slice_from.
  destruct (slice_returns content startPos (len content)) as (rest & -> & Hrest);
    [lia | lia | lia |].
  cbn [checked mbind Result_bind].
  pose proof (Index_lower_bound rest "{") as Hlb.
  destruct (Index rest "{" =? -1) eqn:E; [by left |]. apply Z.eqb_neq in E. right.
  pose proof (Index_bounds rest "{" ltac:(lia)) as Hub. change (len "{") with 1 in Hub.
  eexists _, _. split; [done |]. split; [lia |].
  match goal with |- context [brace_loop ?r ?i 1 ?i] =>
    destruct (brace_loop_bounds r i 1 i) as [-> | Hb]; [by left | right] end.
  unfold len in *. rewrite drop_bytes_length in Hb. lia.
Qed.

Lemma extractPhpFunctionCalls_returns (content : string) (pos : Z) :
  0 <= pos <= len content → returns (extractPhpFunctionCalls content pos).
Proof.
  intros H. unfold extractPhpFunctionCalls.
  destruct (find_body_bounds content pos H) as [-> | (bs & be & -> & Hbs & Hbe)]; [done |].
  cbn [mbind Result_bind].
  destruct (be <=? bs) eqn:E; [done |]. apply Z.leb_gt in E.
  destruct (slice_returns content bs be) as (body & -> & _); [lia | lia | lia |]. done.
Qed.

(** What the loops over the matches of a pattern rely on. *)
Lemma match_positions (r : re) (ngroups : nat) (text : string) (m : list Z) :
  m ∈ FindAllStringSubmatchIndex r ngroups text →
  0 <= at_index m 0 ∧ at_index m 0 <= at_index m 1 ∧ at_index m 1 <= len text
  ∧ ∀ g, (1 <= g <= ngroups)%nat → g ∈ sure_groups r →
         at_index m 0 <= at_index m (2 * g)
         ∧ at_index m (2 * g) <= at_index m (2 * g + 1)
         ∧ at_index m (2 * g + 1) <= at_index m 1.
Proof.
  intros Hm. apply FindAllStringSubmatchIndex_ok in Hm.
  pose proof (sure_group_bounds r ngroups (len text) m) as Hsure.
  destruct Hm as (Hlen & H0 & H01 & H1 & Hgroups).
  repeat split; try done; intros; apply Hsure; try done; by repeat split.
Qed.

Ltac sure_group H g :=
  let Hg := fresh "Hgroup" in
  pose proof (H g ltac:(lia) ltac:(vm_compute; repeat constructor)) as Hg;
  cbn [Nat.mul Nat.add] in Hg.

Ltac take_slice :=
  match goal with
  | |- context [checked (slice ?s ?lo ?hi)] =>
      let piece := fresh "piece" in
      let Hlen := fresh "Hlen" in
      destruct (slice_returns s lo hi) as (piece & -> & Hlen);
      [lia | lia | lia | cbn [checked mbind Result_bind]]
  | |- context [checked (slice_to ?s ?hi)] => unfold slice_to; take_slice
  | |- context [checked (slice_from ?s ?lo)] => unfold slice_from; take_slice
  end.

Lemma extractPhpProperties_returns (content : string) (pos : Z) :
  0 <= pos <= len content → returns (extractPhpProperties content pos).
Proof.
  intros H. unfold extractPhpProperties. take_slice.
  pose proof (Index_lower_bound piece "{") as Hlb.
  destruct (Index piece "{" =? -1) eqn:E; [done |]. apply Z.eqb_neq in E.
  pose proof (Index_bounds piece "{" ltac:(lia)) as Hub. change (len "{") with 1 in Hub.
  cbv zeta. take_slice.
  apply for_each_returns. intros m Hm acc.
  apply match_positions in Hm as (H0 & H01 & H1 & Hsure).
  sure_group Hsure 1%nat. sure_group Hsure 2%nat.
  destruct (4 <=? length m)%nat; [| done].
  apply returns_bind; [apply within_keyword_returns; lia |].
  intros inMethod _. destruct inMethod; [done |].
  do 3 take_slice. done.
Qed.

Lemma extractPhpMethods_returns (content : string) (pos : Z) (className : string) :
  0 <= pos <= len content → returns (extractPhpMethods content pos className).
Proof.
  intros H. unfold extractPhpMethods. take_slice.
  pose proof (Index_lower_bound piece "{") as Hlb.
  destruct (Index piece "{" =? -1) eqn:E; [done |]. apply Z.eqb_neq in E.
  pose proof (Index_bounds piece "{" ltac:(lia)) as Hub. change (len "{") with 1 in Hub.
  cbv zeta. take_slice.
  apply for_each_returns. intros m Hm acc.
  apply match_positions in Hm as (H0 & H01 & H1 & Hsure).
  sure_group Hsure 2%nat. sure_group Hsure 3%nat.
  destruct (6 <=? length m)%nat; [| done].
  do 3 take_slice.
  apply returns_bind; [apply extractPhpFunctionCalls_returns; lia | done].
Qed.

Lemma php_classes_returns (content : string) : returns (php_classes content).
Proof.
  unfold php_classes. apply for_each_returns. intros m Hm acc.
  apply match_positions in Hm as (H0 & H01 & H1 & Hsure).
  sure_group Hsure 1%nat.
  destruct (2 <=? length m)%nat; [| done].
  cbv zeta. do 2 take_slice.
  apply returns_bind; [apply extractPhpProperties_returns; lia |]. intros fields _.
  apply returns_bind; [apply extractPhpMethods_returns; lia | done].
Qed.

Lemma php_functions_returns (content : string) : returns (php_functions content).
Proof.
  unfold php_functions. apply for_each_returns. intros m Hm acc.
  apply match_positions in Hm as (H0 & H01 & H1 & Hsure).
  sure_group Hsure 1%nat. sure_group Hsure 2%nat.
  destruct (4 <=? length m)%nat; [| done].
  cbv zeta. apply returns_bind; [apply within_keyword_returns; lia |].
  intros inClass _. destruct inClass; [done |].
  do 3 take_slice.
  apply returns_bind; [apply extractPhpFunctionCalls_returns; lia | done].
Qed.

Lemma php_globals_returns (content : string) : returns (php_globals content).
Proof.
  unfold php_globals. apply for_each_returns. intros m Hm acc.
  apply match_positions in Hm as (H0 & H01 & H1 & Hsure).
  sure_group Hsure 1%nat.
  destruct (2 <=? length m)%nat; [| done].
  cbv zeta. apply returns_bind; [apply isWithinFunction_returns; lia |].
  intros inFunction _.
  apply returns_bind.
  { destruct inFunction; [done | apply within_keyword_returns; lia]. }
  intros inClass _. destruct inClass; [done |].
  do 2 take_slice. done.
Qed.

Lemma control_entry_returns (recur : Z → Walk (list ControlFlow))
    (content : string) (base : Z) (text : string) (entry : string * re) :
  0 <= base → base + len text <= len content →
  (∀ startPos n, base <= startPos <= base + len text → returns (recur startPos n)) →
  ∀ controls n, returns (control_entry recur content base text controls entry n).
Proof.
  intros Hbase Htext Hrecur controls n. unfold control_entry.
  apply walk_each_returns. intros m Hm acc n'.
  apply match_positions in Hm as (H0 & H01 & H1 & _).
  unfold control_match. apply walk_bind_returns.
  { apply walk_lift_returns, isWithinString_returns. lia. }
  intros inString n1 _. destruct inString; [done |].
  apply walk_bind_returns.
  { apply walk_lift_returns. take_slice. done. }
  intros before n2 _. apply walk_bind_returns; [apply Hrecur; lia | done].
Qed.

Lemma findNestedPhpControlFlow_returns (choose : nat → list (string * re))
    (content : string) :
  ∀ (fuel : nat) (startPos : Z) (n : nat),
    0 <= startPos <= len content →
    len content - startPos < Z.of_nat fuel →
    returns (findNestedPhpControlFlow choose fuel content startPos n).
Proof.
  induction fuel as [| fuel IH]; intros startPos n Hpos Hfuel; [lia |].
  rewrite findNestedPhpControlFlow_step.
  destruct (find_body_bounds content startPos Hpos)
    as [-> | (bodyStart & bodyEnd & -> & Hbs & Hbe)]; [done |].
  destruct (bodyEnd <=? bodyStart) eqn:E; [done |]. apply Z.leb_gt in E.
  destruct (slice_returns content bodyStart bodyEnd) as (body & -> & Hbody);
    [lia | lia | lia |].
  cbn [checked]. apply walk_each_returns. intros entry _ acc m.
  apply control_entry_returns; [lia | lia |].
  intros pos n' Hp. apply IH; lia.
Qed.

Lemma extractPhpControlFlow_returns (choose : nat → list (string * re))
    (content : string) (n : nat) :
  returns (extractPhpControlFlow choose content n).
Proof.
  unfold extractPhpControlFlow. apply walk_each_returns. intros entry _ acc m.
  apply control_entry_returns; [lia | lia |].
  intros pos n' Hp. apply findNestedPhpControlFlow_returns; unfold len in *; lia.
Qed.

(** X9.  [analyzePhpFile] returns a summary for every text: none of its
    slice expressions fails, whatever the text and whatever order the
    pattern tables are walked in. *)
Theorem analyzePhpFile_always_returns (choose : nat → list (string * re))
    (filePath content : string) (r : Registries) :
  ∃ summary registries,
    analyzePhpFile choose filePath content r = Ok (summary, registries).
Proof.
  unfold analyzePhpFile.
  pose proof (php_classes_returns content) as Hc.
  destruct (php_classes content) as [classes | |]; [| done | done].
  pose proof (php_functions_returns content) as Hf.
  destruct (php_functions content) as [functions | |]; [| done | done].
  pose proof (extractPhpControlFlow_returns choose content 0%nat) as Hw.
  destruct (extractPhpControlFlow choose content 0%nat) as [flows | |]; [| done | done].
  pose proof (php_globals_returns content) as Hg.
  destruct (php_globals content) as [variables | |]; [| done | done].
  cbn [mbind Result_bind]. eauto.
Qed.

End PhpReturns.
(** *** The delimiter-scoped extractor: calls and parameters *)

Section PhpLists.
Import GoStrings Regexp RegexpViews Php.
Open Scope string_scope.
Open Scope Z_scope.

Lemma php_calls_loop (ms : list (list string)) (calls : list string) :
  NoDup calls → Forall (λ c, is_construct c = false) calls →
  let result :=
    foldl (λ calls m,
      if (3 <=? length m)%nat then
        let callName := nth 2 m "" in
        if is_construct callName then calls else appendIfNotExists calls callName
      else calls) calls ms in
  NoDup result ∧ Forall (λ c, is_construct c = false) result.
Proof.
  revert calls. induction ms as [| m ms IH]; intros calls Hnd Hall; [done |].
  cbn [foldl]. apply IH.
  - destruct (3 <=? length m)%nat; [| done].
    destruct (is_construct (nth 2 m "")); [done | by apply appendIfNotExists_NoDup].
  - destruct (3 <=? length m)%nat; [| done].
    destruct (is_construct (nth 2 m "")) eqn:E; [done |].
    apply Forall_forall. intros c Hc.
    apply appendIfNotExists_elem in Hc as [Hc | ->]; [| done].
    rewrite Forall_forall in Hall. by apply Hall.
Qed.

(** X10.  For every position inside a text, [extractPhpFunctionCalls]
    returns a list that names no call twice and never names one of the
    language constructs [if], [for], [while], [foreach], [switch]. *)
Theorem php_calls_listed_once (content : string) (funcStartPos : Z) :
  0 <= funcStartPos <= len content →
  ∃ calls, extractPhpFunctionCalls content funcStartPos = Ok calls
           ∧ NoDup calls
           ∧ Forall (λ c, is_construct c = false) calls.
Proof.
  intros H. unfold extractPhpFunctionCalls.
  destruct (find_body_bounds content funcStartPos H)
    as [-> | (bs & be & -> & Hbs & Hbe)].
  { exists []. repeat split; constructor. }
  cbn [mbind Result_bind].
  destruct (be <=? bs) eqn:E; [exists []; repeat split; constructor |].
  apply Z.leb_gt in E.
  destruct (slice_returns content bs be) as (body & -> & _); [lia | lia | lia |].
  cbn [checked mbind Result_bind]. eexists. split; [done |].
  apply php_calls_loop; constructor.
Qed.

Lemma php_calls_listed_once_witness :
  ∃ calls, extractPhpFunctionCalls scenario_A 19 = Ok calls
           ∧ NoDup calls
           ∧ Forall (λ c, is_construct c = false) calls.
Proof. apply (php_calls_listed_once scenario_A 19). vm_compute. by split. Defined.

Lemma php_parameters_loop (lineNumber : Z) (pieces : list string)
    (args : list Variable_) :
  Forall (λ v, HasPrefix (v_Name v) "$" = true
               ∧ v_Scope v = "parameter" ∧ v_Line v = lineNumber) args →
  Forall (λ v, HasPrefix (v_Name v) "$" = true
               ∧ v_Scope v = "parameter" ∧ v_Line v = lineNumber)
    (foldl (λ args arg,
       let arg := TrimSpace arg in
       if String.eqb arg "" then args
       else
         let typeParts := Fields arg in
         if (2 <=? length typeParts)%nat && HasPrefix (List.last typeParts "") "$" then
           let varName := List.last typeParts "" in
           let typeHint := Join (removelast typeParts) " " in
           (args ++ [variable varName typeHint "parameter" lineNumber])%list
         else if HasPrefix arg "$" then
           (args ++ [variable arg "mixed" "parameter" lineNumber])%list
         else args) args pieces).
Proof.
  revert args. induction pieces as [| arg pieces IH]; intros args Hargs; [done |].
  cbn [foldl]. apply IH. cbv zeta.
  destruct (String.eqb (TrimSpace arg) ""); [done |].
  destruct ((2 <=? length (Fields (TrimSpace arg)))%nat
            && HasPrefix (List.last (Fields (TrimSpace arg)) "") "$") eqn:E.
  - apply andb_true_iff in E as [_ E]. apply Forall_app. split; [done |].
    by repeat constructor.
  - destruct (HasPrefix (TrimSpace arg) "$") eqn:E'; [| done].
    apply Forall_app. split; [done |]. by repeat constructor.
Qed.

(** X11.  Every parameter [parsePhpFunctionArgs] records has a name that
    starts with the dollar sign, the scope [parameter] and the line number
    it was given. *)
Theorem php_parameters_shape (argsStr : string) (lineNumber : Z) :
  Forall (λ v, HasPrefix (v_Name v) "$" = true
               ∧ v_Scope v = "parameter" ∧ v_Line v = lineNumber)
    (parsePhpFunctionArgs argsStr lineNumber).
Proof. apply php_parameters_loop. constructor. Qed.

End PhpLists.
(** *** Style sheets and markup files *)

Section TextFacts.
Import GoStrings Regexp RegexpViews.
Open Scope string_scope.
Open Scope Z_scope.

Lemma for_each_invariant {A B : Type} (P : B → Prop) (body : B → A → Result B)
    (l : list A) :
  (∀ x, x ∈ l → ∀ acc, P acc → ∃ acc', body acc x = Ok acc' ∧ P acc') →
  ∀ acc, P acc → ∃ acc', for_each body l acc = Ok acc' ∧ P acc'.
Proof.
  induction l as [| x l IH]; intros Hbody acc Hacc; [by exists acc |].
  cbn [for_each]. destruct (Hbody x ltac:(by left) acc Hacc) as (acc' & -> & Hacc').
  cbn [mbind Result_bind]. apply IH; [| done]. intros y Hy. apply Hbody. by right.
Qed.

Lemma prefix_substring (s : string) :
  ∀ b n : nat, (b + n <= String.length s)%nat →
    String.prefix (String.substring b n s) (drop_bytes b s) = true.
Proof.
  induction s as [| c t IH]; intros b n Hbn.
  - simpl in Hbn. assert (b = 0 ∧ n = 0)%nat as [-> ->] by lia. done.
  - destruct b as [| b].
    + cbn [drop_bytes]. destruct n as [| n]; [done |].
      rewrite substring_cons. cbn [String.prefix].
      destruct (ascii_dec c c) as [_ | Hne]; [| done].
      specialize (IH 0%nat n). cbn [drop_bytes] in IH.
      destruct t; apply IH; simpl in *; lia.
    + cbn [drop_bytes]. simpl in Hbn. apply (IH b n). lia.
Qed.

(** A text that occurs at position [b] is found at or before [b]. *)
Lemma Index_occurs (substr : string) :
  ∀ (b : nat) (s : string), (b <= String.length s)%nat →
    String.prefix substr (drop_bytes b s) = true →
    0 <= Index s substr <= Z.of_nat b.
Proof.
  induction b as [| b IH]; intros s Hb Hp.
  - cbn [drop_bytes] in Hp. destruct s as [| c t].
    + rewrite Index_nil, Hp. lia.
    + rewrite Index_cons, Hp. lia.
  - destruct s as [| c t]; [simpl in Hb; lia |].
    cbn [drop_bytes] in Hp. simpl in Hb.
    rewrite Index_cons. destruct (String.prefix substr (String c t)); [lia |].
    specialize (IH t ltac:(lia) Hp).
    replace (Index t substr <? 0) with false by (symmetry; apply Z.ltb_ge; lia). lia.
Qed.

(** The texts of a match: one for the match and one for each group; the
    text of the match occurs in the text searched. *)
Lemma submatch_texts_occur (r : re) (ngroups : nat) (s : string) (m : list string) :
  m ∈ FindAllStringSubmatch r ngroups s →
  length m = S ngroups ∧ 0 <= Index s (nth 0 m "") <= len s.
Proof.
  unfold FindAllStringSubmatch. intros Hm.
  apply list_elem_of_fmap in Hm as ([[b e] cs] & -> & Hin).
  apply find_all_from_within in Hin as ((Hb & Hbe & He) & _). simpl in Hb, Hbe, He.
  unfold submatch_texts. split; [simpl; by rewrite length_fmap, length_seq |].
  cbn [nth].
  pose proof (Index_occurs (String.substring b (e - b) s) b s ltac:(lia)
                (prefix_substring s b (e - b) ltac:(lia))) as H.
  unfold len. lia.
Qed.

Lemma whole_match_slice (r : re) (ngroups : nat) (s : string) (m : list string) :
  m ∈ FindAllStringSubmatch r ngroups s →
  ∃ before, slice_to s (Index s (nth 0 m "")) = Some before.
Proof.
  intros Hm. apply submatch_texts_occur in Hm as [_ Hindex]. unfold slice_to.
  destruct (slice_returns s 0 (Index s (nth 0 m ""))) as (before & -> & _);
    [lia | lia | lia |]. eauto.
Qed.

Lemma count_from_app (d : ascii) (a b : string) :
  count_from (String d "") (a ++ b) 0
  = count_from (String d "") a 0 + count_from (String d "") b 0.
Proof.
  induction a as [| c a IH]; [by rewrite append_nil_l |].
  rewrite append_cons. cbn [count_from String.length Nat.sub].
  rewrite !prefix_byte. destruct (bool_decide (d = c)); rewrite IH; lia.
Qed.

End TextFacts.

Section LineFacts.
Import GoStrings.
Open Scope string_scope.
Open Scope Z_scope.

Lemma count_from_nonneg (substr s : string) (skip : nat) : 0 <= count_from substr s skip.
Proof.
  revert skip. induction s as [| c t IH]; intros skip; cbn [count_from]; [lia |].
  destruct skip; [| apply IH].
  destruct (String.prefix substr (String c t)); [| apply IH].
  specialize (IH (String.length substr - 1)%nat). lia.
Qed.

Lemma countLines_app (a b : string) :
  countLines (a ++ b) = countLines a + countLines b - 1.
Proof. unfold countLines, Count. rewrite count_from_app. lia. Qed.

Lemma countLines_positive (s : string) : 1 <= countLines s.
Proof. unfold countLines, Count. pose proof (count_from_nonneg (String nl "") s 0). lia. Qed.

Lemma substring_drop_append (s : string) (n : nat) :
  (n <= String.length s)%nat → String.substring 0 n s ++ drop_bytes n s = s.
Proof.
  revert n. induction s as [| c t IH]; intros n Hn.
  - destruct n; [done | simpl in Hn; lia].
  - destruct n as [| n]; [done |]. rewrite substring_cons, append_cons.
    cbn [drop_bytes]. simpl in Hn. rewrite IH; [done | lia].
Qed.

(** The line of a position lies between 1 and the number of lines. *)
Lemma countLines_before (s : string) (p : Z) (before : string) :
  slice_to s p = Some before → 1 <= countLines before <= countLines s.
Proof.
  intros H. pose proof (countLines_positive before) as Hpos.
  unfold slice_to in H. pose proof H as Hb. apply slice_Some in Hb as (_ & Hp0 & Hp & _).
  rewrite slice_in_range in H by lia. injection H as <-.
  rewrite Z.sub_0_r in *. change (Z.to_nat 0) with 0%nat in *.
  pose proof (substring_drop_append s (Z.to_nat p) ltac:(unfold len in Hp; lia)) as Hs.
  pose proof (countLines_app (String.substring 0 (Z.to_nat p) s)
                (drop_bytes (Z.to_nat p) s)) as Happ.
  rewrite Hs in Happ.
  pose proof (countLines_positive (drop_bytes (Z.to_nat p) s)). lia.
Qed.

End LineFacts.

Section CssFacts.
Import GoStrings Regexp RegexpViews Css.
Open Scope string_scope.
Open Scope Z_scope.

Lemma media_query_not_empty (cur : string) :
  HasPrefix cur "@media" = true → String.eqb cur "" = false.
Proof. by destruct cur. Qed.

Lemma css_rule_step_ok (content : string) (st : list CSSRule * string) (m : list string) :
  m ∈ FindAllStringSubmatch ruleRegex 2 content →
  css_state_ok (countLines content) st →
  ∃ st', css_rule_step content st m = Ok st' ∧ css_state_ok (countLines content) st'.
Proof.
  intros Hm (Hrules & scoped & (plain & Hsplit & Hplain & Hscoped) & Hcur).
  destruct st as [rules cur]. simpl in Hrules, Hsplit, Hcur.
  destruct (whole_match_slice _ _ _ _ Hm) as [before Hbefore].
  apply submatch_texts_occur in Hm as [Hlen _].
  unfold css_rule_step. rewrite Hlen. cbn [Nat.leb]. cbv zeta.
  destruct (HasPrefix (TrimSpace (nth 1 m "")) "@media") eqn:Hmedia.
  - eexists. split; [done |]. split; [done |]. exists scoped.
    split; [by exists plain | by right].
  - rewrite Hbefore. cbn [checked mbind Result_bind]. eexists. split; [done |].
    split.
    + apply Forall_app. split; [done |]. constructor; [| constructor].
      cbn [Selector css_Line]. split; [done |]. by eapply countLines_before.
    + cbn [fst snd]. destruct Hcur as [[-> ->] | Hcur].
      * exists []. split; [| by left]. eexists (plain ++ [_])%list.
        rewrite Hsplit, !app_nil_r. split; [done |]. split; [| constructor].
        apply Forall_app. split; [done |]. by repeat constructor.
      * exists (scoped ++ [
          {| Selector := TrimSpace (nth 1 m "");
             Properties := css_properties (nth 2 m "");
             css_Line := countLines before;
             MediaQuery := if negb (String.eqb cur "") then cur else "" |} ])%list.
        split; [| by right]. exists plain. rewrite Hsplit, <- app_assoc.
        split; [done |]. split; [done |]. apply Forall_app. split; [done |].
        constructor; [| constructor]. unfold scoped_rule. cbn [MediaQuery].
        by rewrite (media_query_not_empty cur Hcur).
Qed.

(** X12.  [parseCssContent] returns for every text.  No rule it returns
    has a media query as its selector, every line number is a line of the
    text, and once a rule carries a media query every later rule carries
    one too: the media query is never reset. *)
Theorem css_rules_shape (content : string) :
  ∃ rules scoped,
    parseCssContent content = Ok rules
    ∧ css_rules_ok (countLines content) rules
    ∧ plain_then_scoped rules scoped.
Proof.
  unfold parseCssContent.
  destruct (for_each_invariant (css_state_ok (countLines content))
              (css_rule_step content) (FindAllStringSubmatch ruleRegex 2 content)
              (λ m Hm acc Hacc, css_rule_step_ok content acc m Hm Hacc) ([], ""))
    as ([rules cur] & -> & Hrules & scoped & Hsplit & _).
  { split; [constructor |]. exists []. split; [| by left].
    exists []. split; [done |]. split; constructor. }
  exists rules, scoped. by split.
Qed.

Lemma parseCssContent_lines (content : string) :
  ∃ rules, parseCssContent content = Ok rules ∧ Forall (λ rule, 1 <= css_Line rule) rules.
Proof.
  unfold parseCssContent.
  destruct (for_each_invariant (css_state_ok (countLines content))
              (css_rule_step content) (FindAllStringSubmatch ruleRegex 2 content)
              (λ m Hm acc Hacc, css_rule_step_ok content acc m Hm Hacc) ([], ""))
    as ([rules cur] & -> & Hrules & _).
  { split; [constructor |]. exists []. split; [| by left].
    exists []. split; [done |]. split; constructor. }
  exists rules. split; [done |]. eapply Forall_impl; [exact Hrules |].
  intros rule. simpl. lia.
Qed.

End CssFacts.
(** *** Markup files *)

Section HtmlFacts.
Import GoStrings Regexp RegexpViews Css Html.
Open Scope string_scope.
Open Scope Z_scope.

Lemma html_scripts_ok (content : string) :
  ∃ embedded, html_scripts content = Ok embedded
              ∧ Forall (λ f, 2 <= f_Line f) embedded.
Proof.
  unfold html_scripts. apply for_each_invariant; [| constructor].
  intros m Hm acc Hacc.
  destruct (whole_match_slice _ _ _ _ Hm) as [before Hbefore].
  destruct (2 <=? length m)%nat; [| by exists acc].
  cbv zeta. destruct (negb (String.eqb (nth 1 m "") "")); [| by exists acc].
  apply for_each_invariant; [| done].
  intros fMatch HfMatch acc' Hacc'.
  destruct (whole_match_slice _ _ _ _ HfMatch) as [jsBefore HjsBefore].
  destruct (3 <=? length fMatch)%nat; [| by exists acc'].
  rewrite Hbefore, HjsBefore. cbn [checked mbind Result_bind].
  eexists. split; [done |]. apply Forall_app. split; [done |].
  constructor; [| constructor]. cbn [f_Line].
  apply countLines_before in Hbefore, HjsBefore. lia.
Qed.

Lemma html_styles_ok (content : string) :
  ∃ embedded, html_styles content = Ok embedded
              ∧ Forall (λ rule, 2 <= css_Line rule) embedded.
Proof.
  unfold html_styles. apply for_each_invariant; [| constructor].
  intros m Hm acc Hacc.
  destruct (whole_match_slice _ _ _ _ Hm) as [before Hbefore].
  destruct (2 <=? length m)%nat; [| by exists acc].
  cbv zeta. destruct (negb (String.eqb (nth 1 m "") "")); [| by exists acc].
  pose proof (parseCssContent_lines (nth 1 m "")) as (rules & -> & Hrules).
  rewrite Hbefore. cbn [checked mbind Result_bind].
  eexists. split; [done |]. apply Forall_app. split; [done |].
  apply Forall_fmap. eapply Forall_impl; [exact Hrules |].
  intros rule Hrule. cbn [shift_line css_Line compose].
  apply countLines_before in Hbefore. simpl in Hrule. lia.
Qed.

(** X13.  [analyzeHtmlFile] returns a summary for every text and every
    document tree.  The line it gives an embedded function or an embedded
    style rule is the sum of two line numbers that both start at 1, so it
    is at least 2. *)
Theorem analyzeHtmlFile_always_returns (filePath content : string) (doc : HtmlNode) :
  ∃ summary,
    analyzeHtmlFile filePath content (inr doc) = Ok (summary, [])
    ∧ Forall (λ f, 2 <= f_Line f) (EmbeddedJS summary)
    ∧ Forall (λ rule, 2 <= css_Line rule) (EmbeddedCSS summary).
Proof.
  unfold analyzeHtmlFile.
  destruct (html_scripts_ok content) as (js & -> & Hjs).
  destruct (html_styles_ok content) as (css & -> & Hcss).
  cbn [mbind Result_bind]. eexists. split; [done |]. by split.
Qed.

Lemma HtmlNode_forall_ind (P : HtmlNode → Prop) :
  (∀ t a cs, Forall P cs → P (html_node t a cs)) → ∀ n, P n.
Proof.
  intros H. fix IH 1. intros [t a cs]. apply H.
  induction cs as [| c cs IHcs]; constructor; [apply IH | apply IHcs].
Qed.

Lemma numbered_elements_app (l1 l2 : list (NodeType * list (string * string)))
    (line : Z) :
  numbered_elements (l1 ++ l2) line
  = (numbered_elements l1 line
     ++ numbered_elements l2 (line + Z.of_nat (length l1)))%list.
Proof.
  revert line. induction l1 as [| [t a] l1 IH]; intros line.
  - simpl. by rewrite Z.add_0_r.
  - cbn [app numbered_elements length]. rewrite IH.
    replace (line + 1 + Z.of_nat (length l1)) with (line + Z.of_nat (S (length l1)))
      by lia.
    by destruct t.
Qed.

Lemma processNode_numbered (n : HtmlNode) :
  ∀ (line : Z) (elements : list HtmlElement),
    processNode n line elements
    = ((elements ++ numbered_elements (html_preorder n) line)%list,
       line + Z.of_nat (length (html_preorder n)) - 1).
Proof.
  induction n as [t a cs IH] using HtmlNode_forall_ind. intros line elements.
  cbn [processNode html_preorder].
  assert (∀ st : list HtmlElement * Z,
    (fix siblings (cs : list HtmlNode) (st : list HtmlElement * Z) :=
       match cs with
       | [] => st
       | c :: rest => siblings rest (processNode c (st.2 + 1) st.1)
       end) cs st
    = ((st.1 ++ numbered_elements (flat_map html_preorder cs) (st.2 + 1))%list,
       st.2 + Z.of_nat (length (flat_map html_preorder cs)))) as Hsiblings.
  { induction IH as [| c cs Hc _ IHcs]; intros [els l].
    - simpl. by rewrite app_nil_r, Z.add_0_r.
    - cbn [flat_map fst snd]. rewrite Hc, IHcs. cbn [fst snd].
      rewrite numbered_elements_app, length_app, <- app_assoc.
      f_equal; [do 3 f_equal |]; lia. }
  rewrite Hsiblings. cbn [fst snd numbered_elements length].
  f_equal; [| lia]. destruct t; by rewrite <- ?app_assoc.
Qed.


(** X14.  The line [analyzeHtmlFile] gives an element is one more than the
    number of nodes before it in document order: the elements recorded are
    the element nodes of the tree, in document order, each numbered by its
    position among all nodes. *)
Theorem html_elements_numbered (filePath content : string) (doc : HtmlNode) :
  ∃ summary out,
    analyzeHtmlFile filePath content (inr doc) = Ok (summary, out)
    ∧ Elements summary = numbered_elements (html_preorder doc) 1.
Proof.
  unfold analyzeHtmlFile.
  destruct (html_scripts_ok content) as (js & -> & _).
  destruct (html_styles_ok content) as (css & -> & _).
  cbn [mbind Result_bind]. eexists _, _. split; [done |].
  cbn [Elements]. by rewrite processNode_numbered.
Qed.






End HtmlFacts.
(** *** Query files *)

Section SqlText.
Import GoStrings GoLibrary.
Open Scope string_scope.
Open Scope Z_scope.

Lemma ToLower_length (s : string) : len (ToLower s) = len s.
Proof. unfold len. induction s as [| c t IH]; simpl; [done | lia]. Qed.

(** Where [strings.Index] finds a text, the text is. *)
Lemma Index_found (s substr : string) :
  0 <= Index s substr →
  String.prefix substr (drop_bytes (Z.to_nat (Index s substr)) s) = true.
Proof.
  induction s as [| c t IH].
  - rewrite Index_nil. by destruct (String.prefix substr "") eqn:E.
  - rewrite Index_cons. destruct (String.prefix substr (String c t)) eqn:E; [done |].
    destruct (Index t substr <? 0) eqn:E'; [lia |]. apply Z.ltb_ge in E'. intros _.
    replace (Z.to_nat (Index t substr + 1)) with (S (Z.to_nat (Index t substr))) by lia.
    cbn [drop_bytes]. by apply IH.
Qed.

Lemma all_bytes_app (p : ascii → bool) (a b : string) :
  all_bytes p (a ++ b) = all_bytes p a && all_bytes p b.
Proof.
  induction a as [| c a IH]; [by rewrite append_nil_l |].
  rewrite append_cons. cbn [all_bytes]. by rewrite IH, andb_assoc.
Qed.

Lemma all_bytes_trim_left (p q : ascii → bool) (s : string) :
  all_bytes p s = true → all_bytes p (trim_left_by q s) = true.
Proof.
  induction s as [| c t IH]; [done |]. cbn [trim_left_by]. intros H.
  destruct (q c); [| done]. apply IH. cbn [all_bytes] in H.
  by apply andb_true_iff in H as [_ H].
Qed.

Lemma all_bytes_trim_right (p q : ascii → bool) (s : string) :
  all_bytes p s = true → all_bytes p (trim_right_by q s) = true.
Proof.
  induction s as [| c t IH]; [done |]. cbn [trim_right_by all_bytes].
  intros [Hc Ht]%andb_true_iff. specialize (IH Ht).
  destruct (trim_right_by q t) as [| d r].
  - destruct (q c); [done |]. cbn [all_bytes]. by rewrite Hc.
  - cbn [all_bytes] in *. by rewrite Hc, IH.
Qed.

Lemma trim_right_by_idem (q : ascii → bool) (s : string) :
  trim_right_by q (trim_right_by q s) = trim_right_by q s.
Proof.
  induction s as [| c t IH]; [done |]. cbn [trim_right_by].
  destruct (trim_right_by q t) as [| d r] eqn:E.
  - destruct (q c) eqn:Hc; [done |]. cbn [trim_right_by]. by rewrite Hc.
  - cbn [trim_right_by]. cbn [trim_right_by] in IH.
    destruct (trim_right_by q r) as [| d' r'] eqn:E'.
    + destruct (q d) eqn:Hd; [done |]. by injection IH as ->.
    + by rewrite IH.
Qed.

Lemma TrimSpace_idem (s : string) : TrimSpace (TrimSpace s) = TrimSpace s.
Proof.
  unfold TrimSpace.
  destruct (trim_left_by_shape isSpace s) as [-> | (c & r & -> & Hc)]; [done |].
  destruct (trim_right_by_keep isSpace c r Hc) as [r' Hr'].
  rewrite Hr', trim_left_by_keep, <- Hr' by done. apply trim_right_by_idem.
Qed.

(** The pieces of a split hold no separator byte. *)
Lemma split_from_pieces (d : ascii) (s cur : string) :
  all_bytes (λ c, negb (Ascii.eqb c d)) cur = true →
  Forall (λ piece, all_bytes (λ c, negb (Ascii.eqb c d)) piece = true)
    (split_from (String d "") s 0 cur).
Proof.
  revert cur. induction s as [| c t IH]; intros cur Hcur.
  - by repeat constructor.
  - cbn [split_from String.length Nat.sub]. rewrite prefix_byte.
    case_bool_decide as Hd.
    + constructor; [done |]. by apply IH.
    + apply IH. rewrite all_bytes_app, Hcur. cbn [all_bytes andb].
      rewrite andb_true_r. apply negb_true_iff, Ascii.eqb_neq. congruence.
Qed.

Lemma Fields_head (c : ascii) (r : string) :
  isSpace c = false → ∃ w ws, Fields (String c r) = w :: ws ∧ w ≠ "".
Proof.
  intros Hc. unfold Fields. cbn [fields_from]. rewrite Hc, append_nil_l.
  assert (∀ s cur, cur ≠ "" → ∃ w ws, fields_from s cur = w :: ws ∧ w ≠ "") as H.
  { induction s as [| d t IH]; intros cur Hcur; cbn [fields_from].
    - destruct (String.eqb_spec cur ""); [done | eauto].
    - destruct (isSpace d).
      + destruct (String.eqb_spec cur ""); [done | eauto].
      + apply IH. by destruct cur. }
  by apply H.
Qed.

Lemma ToUpper_not_empty (s : string) : s ≠ "" → ToUpper s ≠ "".
Proof. by destruct s. Qed.

Lemma lower_byte_space (c : ascii) : isSpace c = false → isSpace (lower_byte c) = false.
Proof.
  intros H. unfold lower_byte.
  destruct ((65 <=? nat_of_ascii c) && (nat_of_ascii c <=? 90))%nat eqn:E; [| done].
  apply andb_true_iff in E as [E1 E2]. apply Nat.leb_le in E1, E2.
  unfold isSpace. rewrite nat_ascii_embedding by lia.
  apply orb_false_iff. split.
  - apply andb_false_iff. right. apply Nat.leb_gt. lia.
  - apply Nat.eqb_neq. lia.
Qed.

End SqlText.

Section SqlSplit.
Import GoStrings GoLibrary Regexp Sql.
Open Scope string_scope.
Open Scope Z_scope.

Lemma split_statements_loop (pieces : list string) :
  Forall (λ piece, all_bytes (λ c, negb (Ascii.eqb c ";")) piece = true) pieces →
  Forall split_statement
    (flat_map (λ part, let part := TrimSpace part in
                       if negb (String.eqb part "") then [part ++ ";"] else [])
       pieces).
Proof.
  induction 1 as [| piece pieces Hpiece _ IH]; [constructor |].
  cbn [flat_map]. apply Forall_app. split; [| done]. cbv zeta.
  destruct (String.eqb_spec (TrimSpace piece) "") as [| Hne]; [constructor |].
  constructor; [| constructor]. exists (TrimSpace piece).
  split; [done |]. split; [done |]. split; [apply TrimSpace_idem |].
  by apply all_bytes_trim_right, all_bytes_trim_left.
Qed.

Lemma sql_statements_shape_lemma (content : string) :
  Forall split_statement (splitSqlStatements content).
Proof.
  unfold splitSqlStatements. cbv zeta. apply split_statements_loop.
  unfold Split. by apply split_from_pieces.
Qed.

(** X16.  Every statement [splitSqlStatements] returns is a non-empty
    text without surrounding white space and without a semicolon, followed
    by one semicolon; a last statement that the file leaves unterminated
    is given its semicolon too. *)
Theorem sql_statements_shape (content : string) :
  Forall split_statement (splitSqlStatements content).
Proof.
  unfold splitSqlStatements. cbv zeta. apply split_statements_loop.
  unfold Split. by apply split_from_pieces.
Qed.

Lemma split_statement_starts (stmt : string) :
  split_statement stmt →
  ∃ c r, TrimSpace stmt = String c r ∧ isSpace c = false.
Proof.
  intros (body & -> & Hne & Htrim & _).
  destruct (TrimSpace_shape body) as [Hnil | (c & r & Hbody & Hc)]; [congruence |].
  rewrite Htrim in Hbody. subst body. rewrite append_cons.
  destruct (TrimSpace_keep c (r ++ ";") Hc) as [r' ->]. eauto.
Qed.

End SqlSplit.

Section SqlStatements.
Import GoStrings GoLibrary Regexp RegexpViews Sql.
Open Scope string_scope.
Open Scope Z_scope.

Lemma extractSqlTables_returns (stmt keyword : string) :
  returns (extractSqlTables stmt keyword).
Proof.
  unfold extractSqlTables. cbv zeta.
  pose proof (Index_lower_bound (ToLower stmt) keyword) as Hlb.
  destruct (Index (ToLower stmt) keyword =? -1) eqn:E; [done |]. apply Z.eqb_neq in E.
  pose proof (Index_bounds (ToLower stmt) keyword ltac:(lia)) as Hub.
  rewrite ToLower_length in Hub.
  assert (0 <= len keyword) by (unfold len; lia).
  unfold slice_from.
  destruct (slice_returns stmt (Index (ToLower stmt) keyword + len keyword) (len stmt))
    as (rest & -> & _); [lia | lia | lia |]. done.
Qed.

Lemma update_columns_loop (pieces : list string) (columns : list string) :
  returns
    (for_each (λ columns part,
       let eqPos := Index part "=" in
       if eqPos =? -1 then Ok columns
       else
         before ← checked (slice_to part eqPos);
         let colName := TrimSpace before in
         match FindAllString identRegex colName with
         | first :: _ => Ok (columns ++ [first])%list
         | [] => Ok columns
         end) pieces columns).
Proof.
  apply for_each_returns. intros part _ acc. cbv zeta.
  pose proof (Index_lower_bound part "=") as Hlb.
  destruct (Index part "=" =? -1) eqn:E; [done |]. apply Z.eqb_neq in E.
  pose proof (Index_bounds part "=" ltac:(lia)) as Hub. change (len "=") with 1 in Hub.
  unfold slice_to.
  destruct (slice_returns part 0 (Index part "=")) as (before & -> & _);
    [lia | lia | lia |].
  cbn [checked mbind Result_bind].
  by destruct (FindAllString identRegex (TrimSpace before)).
Qed.

Lemma extractSqlUpdateColumns_outcome (stmt : string) :
  (set_clause_ordered stmt = true → returns (extractSqlUpdateColumns stmt))
  ∧ (set_clause_ordered stmt = false → extractSqlUpdateColumns stmt = Panic).
Proof.
  unfold set_clause_ordered, extractSqlUpdateColumns. cbv zeta.
  pose proof (Index_lower_bound (ToLower stmt) "set ") as Hs.
  pose proof (Index_lower_bound (ToLower stmt) "where ") as Hw.
  destruct (Index (ToLower stmt) "set " =? -1) eqn:Es; [by split |].
  apply Z.eqb_neq in Es.
  pose proof (Index_bounds (ToLower stmt) "set " ltac:(lia)) as Hsb.
  rewrite ToLower_length in Hsb. change (len "set ") with 4 in Hsb.
  destruct (Index (ToLower stmt) "where " =? -1) eqn:Ew.
  - split; [intros _ | done]. unfold slice_from.
    destruct (slice_returns stmt (Index (ToLower stmt) "set " + 4) (len stmt))
      as (clause & -> & _); [lia | lia | lia |].
    cbn [checked mbind Result_bind]. apply update_columns_loop.
  - apply Z.eqb_neq in Ew.
    pose proof (Index_bounds (ToLower stmt) "where " ltac:(lia)) as Hwb.
    rewrite ToLower_length in Hwb. change (len "where ") with 6 in Hwb.
    cbn [orb]. split.
    + intros Hord%Z.leb_le.
      destruct (slice_returns stmt (Index (ToLower stmt) "set " + 4)
                  (Index (ToLower stmt) "where ")) as (clause & -> & _);
        [lia | lia | lia |].
      cbn [checked mbind Result_bind]. apply update_columns_loop.
    + intros Hord%Z.leb_gt. unfold slice.
      replace (Index (ToLower stmt) "set " + 4 <=? Index (ToLower stmt) "where ")
        with false by (symmetry; apply Z.leb_gt; lia).
      by rewrite andb_false_r.
Qed.

(** X17.  On an ASCII statement, [extractSqlUpdateColumns] fails at run
    time exactly when the text holds [set ] and its first [where ] starts
    before the end of its first [set ]: the slice it takes for the set
    clause then ends before it starts.  In every other case it returns. *)
Theorem sql_update_columns_outcome (stmt : string) :
  is_ascii stmt = true →
  (set_clause_ordered stmt = true → ∃ columns, extractSqlUpdateColumns stmt = Ok columns)
  ∧ (set_clause_ordered stmt = false → extractSqlUpdateColumns stmt = Panic).
Proof.
  intros _. destruct (extractSqlUpdateColumns_outcome stmt) as [Hok Hfail].
  split; [| done]. intros H. by apply returns_Ok, Hok.
Qed.

Lemma sql_update_columns_outcome_witness :
  extractSqlUpdateColumns update_somewhere = Panic.
Proof.
  apply (sql_update_columns_outcome update_somewhere); reflexivity.
Defined.

Lemma prefix_cons_inv (a : ascii) (x u : string) :
  String.prefix (String a x) u = true → ∃ u', u = String a u' ∧ String.prefix x u' = true.
Proof.
  destruct u as [| b u']; cbn [String.prefix]; [done |].
  destruct (ascii_dec a b) as [-> | Hne]; [eauto | done].
Qed.

(** The first [from] after a [select] starts after the end of it. *)
Lemma select_before_from (s : string) :
  0 <= Index s "select" → Index s "select" < Index s "from" →
  Index s "select" + 6 <= Index s "from".
Proof.
  intros Hp Hq. pose proof (Index_found s "select" Hp) as Hsel.
  pose proof (Index_found s "from" ltac:(lia)) as Hfrom.
  destruct (Z.le_gt_cases (Index s "select" + 6) (Index s "from")) as [| Hlt]; [done |].
  exfalso.
  replace (Z.to_nat (Index s "from"))
    with (Z.to_nat (Index s "select")
          + Z.to_nat (Index s "from" - Index s "select"))%nat in Hfrom by lia.
  rewrite <- drop_bytes_add in Hfrom.
  set (u := drop_bytes (Z.to_nat (Index s "select")) s) in *.
  apply prefix_cons_inv in Hsel as (u1 & Hu & Hsel).
  apply prefix_cons_inv in Hsel as (u2 & -> & Hsel).
  apply prefix_cons_inv in Hsel as (u3 & -> & Hsel).
  apply prefix_cons_inv in Hsel as (u4 & -> & Hsel).
  apply prefix_cons_inv in Hsel as (u5 & -> & Hsel).
  apply prefix_cons_inv in Hsel as (u6 & -> & _).
  rewrite Hu in Hfrom.
  assert (∃ k, Z.to_nat (Index s "from" - Index s "select") = S k ∧ (k < 5)%nat)
    as (k & Hk & Hk5) by (exists (Z.to_nat (Index s "from" - Index s "select") - 1)%nat; lia).
  rewrite Hk in Hfrom. cbn [drop_bytes] in Hfrom.
  do 5 (destruct k as [| k];
        [cbn [drop_bytes] in Hfrom; by apply prefix_cons_inv in Hfrom as (? & [=] & _) |]).
  lia.
Qed.

Lemma extractSqlColumns_returns (stmt : string) : returns (extractSqlColumns stmt).
Proof.
  unfold extractSqlColumns. cbv zeta.
  pose proof (Index_lower_bound (ToLower stmt) "select") as Hs.
  pose proof (Index_lower_bound (ToLower stmt) "from") as Hf.
  destruct ((Index (ToLower stmt) "select" =? -1) || (Index (ToLower stmt) "from" =? -1)
            || (Index (ToLower stmt) "from" <=? Index (ToLower stmt) "select")) eqn:E;
    [done |].
  apply orb_false_iff in E as [E E3]. apply orb_false_iff in E as [E1 E2].
  apply Z.eqb_neq in E1, E2. apply Z.leb_gt in E3.
  pose proof (select_before_from (ToLower stmt) ltac:(lia) E3) as Hsf.
  pose proof (Index_bounds (ToLower stmt) "from" ltac:(lia)) as Hfb.
  rewrite ToLower_length in Hfb. change (len "from") with 4 in Hfb.
  destruct (slice_returns stmt (Index (ToLower stmt) "select" + 6)
              (Index (ToLower stmt) "from")) as (text & -> & _); [lia | lia | lia |].
  cbn [checked mbind Result_bind].
  by destruct (String.eqb (TrimSpace text) "*").
Qed.

(** A statement that [splitSqlStatements] hands over is parsed, given its
    line and kept as it is, unless it is an update whose set clause is not
    ordered. *)
Lemma parseSqlStatement_returns (stmt : string) (lineNum : Z) :
  split_statement stmt →
  set_clause_ordered (TrimSpace stmt) = true →
  ∃ sqlStmt, parseSqlStatement stmt lineNum = Ok sqlStmt
             ∧ String.eqb (sql_Type sqlStmt) "" = false
             ∧ sql_Line sqlStmt = lineNum ∧ RawQuery sqlStmt = stmt.
Proof.
  intros Hsplit Hord. apply split_statement_starts in Hsplit as (c & r & Hstmt & Hc).
  unfold parseSqlStatement. cbv zeta.
  assert (∀ keyword, ∃ tables, extractSqlTables (TrimSpace stmt) keyword = Ok tables)
    as Htables by (intros keyword; apply returns_Ok, extractSqlTables_returns).
  destruct (HasPrefix (ToLower (TrimSpace stmt)) "select").
  { destruct (Htables "from") as [tables ->].
    destruct (proj1 (returns_Ok _) (extractSqlColumns_returns (TrimSpace stmt)))
      as [columns ->].
    cbn [mbind Result_bind]. eexists. by repeat split. }
  destruct (HasPrefix (ToLower (TrimSpace stmt)) "insert").
  { destruct (Htables "into") as [tables ->].
    cbn [mbind Result_bind]. eexists. by repeat split. }
  destruct (HasPrefix (ToLower (TrimSpace stmt)) "update").
  { destruct (Htables "update") as [tables ->].
    destruct (proj1 (returns_Ok _)
                (proj1 (extractSqlUpdateColumns_outcome (TrimSpace stmt)) Hord))
      as [columns ->].
    cbn [mbind Result_bind]. eexists. by repeat split. }
  destruct (HasPrefix (ToLower (TrimSpace stmt)) "delete").
  { destruct (Htables "from") as [tables ->].
    cbn [mbind Result_bind]. eexists. by repeat split. }
  destruct (HasPrefix (ToLower (TrimSpace stmt)) "create table").
  { destruct (Htables "table") as [tables ->].
    cbn [mbind Result_bind]. eexists. by repeat split. }
  destruct (HasPrefix (ToLower (TrimSpace stmt)) "alter table").
  { destruct (Htables "table") as [tables ->].
    cbn [mbind Result_bind]. eexists. by repeat split. }
  rewrite Hstmt. cbn [ToLower].
  destruct (Fields_head (lower_byte c) (ToLower r) (lower_byte_space c Hc))
    as (w & ws & -> & Hw).
  cbn [head checked mbind Result_bind].
  assert (∃ tables,
    (if Contains (String (lower_byte c) (ToLower r)) "table"
     then extractSqlTables (String c r) "table" else Ok []) = Ok tables) as [tables ->].
  { destruct (Contains _ "table"); [| eauto].
    rewrite <- Hstmt. apply Htables. }
  cbn [mbind Result_bind]. eexists. split; [done |].
  cbn [statement sql_Type sql_Line RawQuery]. split; [| done].
  apply String.eqb_neq. by apply ToUpper_not_empty.
Qed.

Lemma sql_loop (stmts : list string) :
  Forall (λ stmt, split_statement stmt ∧ set_clause_ordered (TrimSpace stmt) = true)
    stmts →
  ∀ (statements : list SQLStatement) (lineNum : Z),
    ∃ new lineNum',
      for_each sql_step stmts (statements, lineNum) = Ok ((statements ++ new)%list, lineNum')
      ∧ RawQuery <$> new = stmts
      ∧ sql_Line <$> new = statement_lines stmts lineNum.
Proof.
  induction 1 as [| stmt stmts [Hsplit Hord] _ IH]; intros statements lineNum.
  - exists [], lineNum. by rewrite app_nil_r.
  - cbn [for_each]. unfold sql_step at 2.
    destruct (parseSqlStatement_returns stmt lineNum Hsplit Hord)
      as (sqlStmt & -> & Htype & Hline & Hraw).
    cbn [mbind Result_bind]. rewrite Htype. cbn [negb].
    destruct (IH (statements ++ [sqlStmt])%list (lineNum + countLines stmt))
      as (new & lineNum' & -> & Hraws & Hlines).
    exists (sqlStmt :: new), lineNum'. rewrite <- app_assoc.
    split; [done |]. cbn [fmap list_fmap statement_lines].
    fold (fmap (M := list) RawQuery new). fold (fmap (M := list) sql_Line new).
    by rewrite Hraw, Hline, Hraws, Hlines.
Qed.

(** X18.  When every statement of a query file is ASCII and no update has
    its first [where ] before the end of its first [set ], [analyzeSqlFile]
    returns one entry for each statement [splitSqlStatements] hands over,
    in order.  The first entry is given line 1, and each later one the line
    of the entry before plus one plus the number of line feeds in that
    statement: the lines count the statements' own text, not the file's. *)
Theorem sql_statements_recorded (filePath content : string) :
  Forall (λ stmt, is_ascii stmt = true ∧ set_clause_ordered (TrimSpace stmt) = true)
    (splitSqlStatements content) →
  ∃ summary,
    analyzeSqlFile filePath content = Ok summary
    ∧ RawQuery <$> Statements summary = splitSqlStatements content
    ∧ sql_Line <$> Statements summary = statement_lines (splitSqlStatements content) 1.
Proof.
  intros Hall. unfold analyzeSqlFile.
  destruct (sql_loop (splitSqlStatements content)) with (statements := @nil SQLStatement)
    (lineNum := 1) as (new & lineNum' & -> & Hraws & Hlines).
  { pose proof (sql_statements_shape_lemma content) as Hshape.
    rewrite Forall_forall in Hall, Hshape. apply Forall_forall. intros stmt Hstmt.
    split; [by apply Hshape | by apply Hall]. }
  cbn [mbind Result_bind]. eexists. split; [done |]. by split.
Qed.

Lemma sql_statements_recorded_witness :
  ∃ summary,
    analyzeSqlFile "a.sql" "select * from t; delete from t where a = 1" = Ok summary
    ∧ RawQuery <$> Statements summary
      = splitSqlStatements "select * from t; delete from t where a = 1"
    ∧ sql_Line <$> Statements summary
      = statement_lines (splitSqlStatements "select * from t; delete from t where a = 1") 1.
Proof.
  apply (sql_statements_recorded "a.sql" "select * from t; delete from t where a = 1").
  vm_compute. by repeat constructor.
Defined.

Lemma bind_not_NoFuel {A B : Type} (m : Result A) (f : A → Result B) :
  m ≠ NoFuel → (∀ a, f a ≠ NoFuel) → (a ← m; f a) ≠ NoFuel.
Proof. destruct m; simpl; auto. Qed.

Lemma returns_not_NoFuel {A : Type} (r : Result A) : returns r → r ≠ NoFuel.
Proof. by destruct r. Qed.

Lemma parseSqlStatement_not_NoFuel (stmt : string) (lineNum : Z) :
  parseSqlStatement stmt lineNum ≠ NoFuel.
Proof.
  unfold parseSqlStatement. cbv zeta.
  assert (∀ keyword, extractSqlTables (TrimSpace stmt) keyword ≠ NoFuel) as Htables
    by (intros keyword; apply returns_not_NoFuel, extractSqlTables_returns).
  repeat case_match;
    repeat (apply bind_not_NoFuel;
            [first [ apply Htables
                   | apply returns_not_NoFuel, extractSqlColumns_returns
                   | apply checked_fueled
                   | done
                   | idtac ]
            | intros ?]); try done.
  destruct (set_clause_ordered (TrimSpace stmt)) eqn:E.
  - by apply returns_not_NoFuel, extractSqlUpdateColumns_outcome.
  - by rewrite (proj2 (extractSqlUpdateColumns_outcome (TrimSpace stmt)) E).
Qed.

Lemma for_each_fails {A B : Type} (body : B → A → Result B) (l : list A) (x : A) :
  (∀ y acc, body acc y ≠ NoFuel) → x ∈ l → (∀ acc, body acc x = Panic) →
  ∀ acc, for_each body l acc = Panic.
Proof.
  intros Hfuel Hx Hfail. induction l as [| y l IH]; intros acc.
  - by apply elem_of_nil in Hx.
  - cbn [for_each]. apply elem_of_cons in Hx as [<- | Hx].
    + by rewrite Hfail.
    + pose proof (Hfuel y acc) as Hy.
      destruct (body acc y) as [acc' | |]; [| done | done]. by apply IH.
Qed.

Lemma update_statement_parsed (stmt : string) (lineNum : Z) :
  HasPrefix (ToLower (TrimSpace stmt)) "update" = true →
  set_clause_ordered (TrimSpace stmt) = false →
  parseSqlStatement stmt lineNum = Panic.
Proof.
  intros Hupdate Hord. unfold parseSqlStatement. cbv zeta.
  pose proof Hupdate as Hu. unfold HasPrefix in Hu.
  apply prefix_cons_inv in Hu as (l & Hl & _).
  rewrite Hl in *. change (HasPrefix (String "u" l) "select") with false.
  change (HasPrefix (String "u" l) "insert") with false. rewrite Hupdate.
  destruct (proj1 (returns_Ok _) (extractSqlTables_returns (TrimSpace stmt) "update"))
    as [tables ->].
  cbn [mbind Result_bind].
  by rewrite (proj2 (extractSqlUpdateColumns_outcome (TrimSpace stmt)) Hord).
Qed.

(** X19.  One update statement whose first [where ] starts before the end
    of its first [set ], such as an update of a table named [somewhere],
    makes [analyzeSqlFile] fail for the whole file. *)
Theorem sql_update_fails_file (filePath content : string) (stmt : string) :
  stmt ∈ splitSqlStatements content →
  is_ascii stmt = true →
  HasPrefix (ToLower (TrimSpace stmt)) "update" = true →
  set_clause_ordered (TrimSpace stmt) = false →
  analyzeSqlFile filePath content = Panic.
Proof.
  intros Hin _ Hupdate Hord. unfold analyzeSqlFile.
  rewrite (for_each_fails sql_step (splitSqlStatements content) stmt); [done | | done |].
  - intros y [statements lineNum]. unfold sql_step.
    apply bind_not_NoFuel; [apply parseSqlStatement_not_NoFuel | done].
  - intros [statements lineNum]. unfold sql_step.
    by rewrite update_statement_parsed.
Qed.

Lemma sql_update_fails_file_witness :
  analyzeSqlFile "a.sql" "select 1; update somewhere set a = 1" = Panic.
Proof.
  apply (sql_update_fails_file "a.sql" "select 1; update somewhere set a = 1"
           update_somewhere).
  - vm_compute. right. left.
  - reflexivity.
  - reflexivity.
  - reflexivity.
Defined.

End SqlStatements.

Section SqlComments.
Import GoStrings GoLibrary Regexp Sql.
Open Scope string_scope.
Open Scope Z_scope.

(** A pattern that begins with a literal text matches only where the text
    is. *)
Lemma lit_needs_prefix {R : Type} (w : string) :
  w ≠ "" →
  ∀ (s : string) (cs : caps) (pos : nat) (prev : option ascii) (k : caps → @cont R),
    String.prefix w s = false → run (lit w) cs pos prev s k = None.
Proof.
  induction w as [| c w IH]; [done |]. intros _ s cs pos prev k Hs.
  destruct s as [| d s']; [by destruct w |].
  cbn [String.prefix] in Hs.
  destruct w as [| c' w'].
  - cbn [lit chr run]. destruct (Ascii.eqb_spec c d) as [-> | Hne]; [| done].
    destruct (ascii_dec d d); [by destruct s' | done].
  - change (lit (String c (String c' w'))) with (Cat (chr c) (lit (String c' w'))).
    cbn [run chr]. destruct (Ascii.eqb_spec c d) as [-> | Hne]; [| done].
    destruct (ascii_dec d d); [| done]. by apply IH.
Qed.

Lemma drop_bytes_all (s : string) (k : nat) :
  (String.length s <= k)%nat → drop_bytes k s = "".
Proof.
  revert k. induction s as [| c t IH]; intros k Hk; [by destruct k |].
  destruct k as [| k]; simpl in *; [lia | apply IH; lia].
Qed.

Lemma Index_none (s w : string) (k : nat) :
  Index s w < 0 → String.prefix w (drop_bytes k s) = false.
Proof.
  intros Hnone. destruct (String.prefix w (drop_bytes k s)) eqn:E; [| done].
  exfalso. destruct (Nat.le_gt_cases k (String.length s)) as [Hk | Hk].
  - pose proof (Index_occurs w k s Hk E). lia.
  - rewrite drop_bytes_all in E by lia.
    rewrite <- (drop_bytes_all s (String.length s)) in E by lia.
    pose proof (Index_occurs w (String.length s) s ltac:(lia) E). lia.
Qed.

Lemma find_all_end_nothing (r : re_end) (s : string) :
  (∀ k pos prev, match_end_here r pos prev (drop_bytes k s) = None) →
  ∀ pos prev, find_all_end r pos prev s 0 = [].
Proof.
  induction s as [| c t IH]; intros Hnone pos prev; cbn [find_all_end].
  - pose proof (Hnone 0%nat pos prev) as H0. cbn [drop_bytes] in H0. by rewrite H0.
  - pose proof (Hnone 0%nat pos prev) as H0. cbn [drop_bytes] in H0. rewrite H0.
    apply IH. intros k. apply (Hnone (S k)).
Qed.

(** X20.  [removeSqlComments] returns a text that holds neither [--] nor
    the opening of a block comment as it is. *)
Theorem sql_comment_free_text_unchanged (content : string) :
  Contains content "--" = false → Contains content "/*" = false →
  removeSqlComments content = content.
Proof.
  unfold Contains. intros Hline%Z.leb_gt Hblock%Z.leb_gt.
  unfold removeSqlComments, ReplaceAllString. cbv zeta.
  rewrite (find_all_end_nothing singleLineRegex content).
  - cbn [replace_matches drop_bytes].
    rewrite (find_all_end_nothing multiLineRegex content); [done |].
    intros k pos prev. unfold match_end_here, multiLineRegex. cbn [run_end cat run].
    apply lit_needs_prefix; [done |]. by apply Index_none.
  - intros k pos prev. unfold match_end_here, singleLineRegex. cbn [run_end cat run].
    apply lit_needs_prefix; [done |]. by apply Index_none.
Qed.

Lemma sql_comment_free_text_unchanged_witness :
  removeSqlComments "select a - b from t" = "select a - b from t".
Proof. apply (sql_comment_free_text_unchanged "select a - b from t"); reflexivity. Defined.

End SqlComments.
(** *** The indentation-scoped extractor: what it returns and where it fails *)

Section LineAnchor.
Import GoStrings Regexp RegexpViews.
Open Scope string_scope.
Open Scope Z_scope.

(** A pattern that starts with the line anchor matches only where the
    previous byte is a line feed, or at the start of the text. *)
Lemma anchored_match_here (r : re) (pos : nat) (prev : option ascii) (s : string)
    (x : nat * caps) :
  match_here (Cat Bol r) pos prev s = Some x → prev = None ∨ prev = Some nl.
Proof.
  unfold match_here. cbn [run]. destruct prev as [c |]; [| by left].
  destruct (Ascii.eqb c nl) eqn:E; [| done].
  apply Ascii.eqb_eq in E. subst. by right.
Qed.

Lemma length_append (a b : string) :
  String.length (a ++ b) = (String.length a + String.length b)%nat.
Proof. induction a as [| c a IH]; [done |]. rewrite append_cons. simpl. by rewrite IH. Qed.

Lemma anchored_matches (r : re) (s : string) :
  ∀ (pre : string) (prev : option ascii) (skip : nat) (m : nat * nat * caps),
    (prev = None → pre = "") →
    (∀ c, prev = Some c → ∃ p, pre = p ++ String c "") →
    m ∈ find_all_from (Cat Bol r) (String.length pre) prev s skip →
    ∃ before after,
      pre ++ s = before ++ after ∧ String.length before = m.1.1
      ∧ (before = "" ∨ ∃ p, before = p ++ String nl "").
Proof.
  assert (∀ (pre : string) (prev : option ascii) (t : string) (x : nat * caps),
            (prev = None → pre = "") →
            (∀ c, prev = Some c → ∃ p, pre = p ++ String c "") →
            match_here (Cat Bol r) (String.length pre) prev t = Some x →
            ∃ before after,
              pre ++ t = before ++ after ∧ String.length before = String.length pre
              ∧ (before = "" ∨ ∃ p, before = p ++ String nl "")) as Hhere.
  { intros pre prev t x Hnone Hsome Hx. exists pre, t. split; [done |]. split; [done |].
    apply anchored_match_here in Hx as [-> | ->]; [left; by apply Hnone |].
    right. by apply Hsome. }
  induction s as [| c t IH]; intros pre prev skip m Hnone Hsome Hm.
  - destruct skip; cbn [find_all_from] in Hm; [| by apply elem_of_nil in Hm].
    destruct (match_here (Cat Bol r) (String.length pre) prev "") as [[e cs] |] eqn:E;
      [| by apply elem_of_nil in Hm].
    apply list_elem_of_singleton in Hm as ->. by eapply Hhere.
  - assert (∀ skip', m ∈ find_all_from (Cat Bol r) (S (String.length pre)) (Some c) t skip' →
              ∃ before after,
                pre ++ String c t = before ++ after ∧ String.length before = m.1.1
                ∧ (before = "" ∨ ∃ p, before = p ++ String nl "")) as Hnext.
    { intros skip' Hin.
      replace (pre ++ String c t) with ((pre ++ String c "") ++ t)
        by (by rewrite append_assoc).
      apply (IH (pre ++ String c "") (Some c) skip'); [done | |].
      - intros c' [= <-]. by exists pre.
      - by rewrite length_append, Nat.add_1_r. }
    destruct skip as [| skip]; cbn [find_all_from] in Hm; [| by eapply Hnext].
    destruct (match_here (Cat Bol r) (String.length pre) prev (String c t))
      as [[e cs] |] eqn:E; [| by eapply Hnext].
    apply elem_of_cons in Hm as [-> | Hm]; [by eapply Hhere | by eapply Hnext].
Qed.

Lemma substring_prefix_append (a b : string) :
  String.substring 0 (String.length a) (a ++ b) = a.
Proof.
  induction a as [| c a IH]; [by destruct b |].
  rewrite append_cons. cbn [String.length]. by rewrite substring_cons, IH.
Qed.

Lemma LastIndex_last_byte (p : string) (d : ascii) :
  LastIndex (p ++ String d "") (String d "") = len p.
Proof.
  unfold len. induction p as [| c p IH].
  - rewrite append_nil_l. cbn [LastIndex String.prefix String.length].
    by destruct (ascii_dec d d).
  - rewrite append_cons. cbn [LastIndex]. rewrite IH.
    destruct (0 <=? Z.of_nat (String.length p)) eqn:E; [simpl String.length; lia |].
    apply Z.leb_gt in E. lia.
Qed.

Lemma len_nil (s : string) : len s = 0 → s = "".
Proof. unfold len. by destruct s. Qed.

(** The start of a match of a line-anchored pattern, as a position of the
    text: the text before it is empty or ends with a line feed. *)
Lemma anchored_start (r : re) (ngroups : nat) (content : string) (m : list Z) :
  m ∈ FindAllStringSubmatchIndex (Cat Bol r) ngroups content →
  ∃ before after,
    content = before ++ after ∧ len before = at_index m 0
    ∧ (before = "" ∨ ∃ p, before = p ++ String nl "").
Proof.
  unfold FindAllStringSubmatchIndex. intros Hm.
  apply list_elem_of_fmap in Hm as ([[b e] cs] & -> & Hin).
  apply (anchored_matches r content "" None 0) in Hin as (before & after & H1 & H2 & H3);
    [| done | done].
  exists before, after. split; [done |]. split; [| done].
  unfold len. simpl in H2. by rewrite H2.
Qed.

End LineAnchor.

Section PythonOutcomes.
Import GoStrings Regexp RegexpViews Python.
Open Scope string_scope.
Open Scope Z_scope.

Ltac sure_group H g :=
  let Hg := fresh "Hgroup" in
  pose proof (H g ltac:(lia) ltac:(vm_compute; repeat constructor)) as Hg;
  cbn [Nat.mul Nat.add] in Hg.

Ltac take_slice :=
  match goal with
  | |- context [checked (slice ?s ?lo ?hi)] =>
      let piece := fresh "piece" in
      let Hlen := fresh "Hlen" in
      destruct (slice_returns s lo hi) as (piece & -> & Hlen);
      [lia | lia | lia | cbn [checked mbind Result_bind]]
  | |- context [checked (slice_to ?s ?hi)] => unfold slice_to; take_slice
  | |- context [checked (slice_from ?s ?lo)] => unfold slice_from; take_slice
  end.

Lemma anchored_not_indented (content before after : string) :
  content = before ++ after →
  (before = "" ∨ ∃ p, before = p ++ String nl "") →
  isPythonMethod content (len before) = Ok false.
Proof.
  intros -> Hbefore. unfold isPythonMethod, line_context, slice_to.
  assert (len before <= len (before ++ after)) as Hle
    by (unfold len; rewrite length_append; lia).
  assert (0 <= len before) as H0 by (unfold len; lia).
  rewrite (slice_in_range (before ++ after) 0 (len before)) by lia.
  rewrite Z.sub_0_r. unfold len at 2. rewrite Nat2Z.id.
  change (Z.to_nat 0) with 0%nat. rewrite substring_prefix_append.
  cbn [checked mbind Result_bind].
  assert ((if LastIndex before newline =? -1 then 0 else LastIndex before newline + 1)
          = len before) as ->.
  { destruct Hbefore as [-> | [p ->]]; [done |].
    unfold newline. rewrite LastIndex_last_byte.
    destruct (len p =? -1) eqn:E; [apply Z.eqb_eq in E; unfold len in E; lia |].
    unfold len. rewrite length_append. simpl. lia. }
  destruct (slice_returns (before ++ after) (len before) (len before))
    as (line & -> & Hline); [lia | lia | lia |].
  cbn [checked mbind Result_bind].
  destruct (slice_returns (before ++ after) 0 (len before))
    as (head & -> & _); [lia | lia | lia |].
  cbn [checked mbind Result_bind fst].
  replace (len before - len before) with 0 in Hline by lia.
  apply len_nil in Hline as ->. done.
Qed.

(** X21.  The pattern for functions is anchored at the start of a line, so
    the text between the start of the line and a match is empty: for every
    match of the pattern [isPythonMethod] answers no, and the test that
    skips methods in the function loop of [analyzePythonFile] skips
    nothing. *)
Theorem python_function_match_is_no_method (content : string) (m : list Z) :
  m ∈ FindAllStringSubmatchIndex funcRegex 2 content →
  isPythonMethod content (at_index m 0) = Ok false.
Proof.
  intros Hm.
  apply (anchored_start _ 2 content m) in Hm as (before & after & Hc & <- & Hb).
  by eapply anchored_not_indented.
Qed.

Lemma python_function_match_is_no_method_witness :
  isPythonMethod scenario_B (at_index [0; 12; 4; 9; 10; 10] 0) = Ok false.
Proof.
  apply (python_function_match_is_no_method scenario_B [0; 12; 4; 9; 10; 10]).
  vm_compute. by left.
Defined.

Lemma end_of_line_bounds (rest : string) (limit : Z) :
  len rest = limit →
  0 <= (if Index rest newline =? -1 then limit else Index rest newline) <= limit.
Proof.
  intros <-. pose proof (Index_lower_bound rest newline) as Hlow.
  pose proof (Index_bounds rest newline) as Hup.
  destruct (Index rest newline =? -1) eqn:E; [unfold len; lia |].
  apply Z.eqb_neq in E. change (len newline) with 1 in Hup. lia.
Qed.

Lemma return_type_early (content : string) (funcEnd : Z) :
  0 <= funcEnd <= len content → funcEnd < 20 →
  extractPythonReturnType content funcEnd = Panic.
Proof.
  intros H H20. unfold extractPythonReturnType. take_slice. cbv zeta.
  unfold slice. destruct (0 <=? funcEnd - 20) eqn:E; [apply Z.leb_le in E; lia | done].
Qed.

(** X22.  For a position inside the text, [extractPythonReturnType] returns
    when at least twenty bytes precede the position and fails at run time
    when fewer do: the slice it searches starts twenty bytes before the
    position, and nothing checks that the text reaches that far back. *)
Theorem python_return_type_outcome (content : string) (funcEnd : Z) :
  0 <= funcEnd <= len content →
  (20 <= funcEnd → ∃ hint, extractPythonReturnType content funcEnd = Ok hint)
  ∧ (funcEnd < 20 → extractPythonReturnType content funcEnd = Panic).
Proof.
  intros H. split; [| by apply return_type_early].
  intros H20. unfold extractPythonReturnType. take_slice. cbv zeta.
  pose proof (end_of_line_bounds piece (len content - funcEnd) Hlen) as Hend.
  take_slice.
  match goal with |- context [(2 <=? ?n)%nat] => destruct (2 <=? n)%nat end; eauto.
Qed.

Lemma python_return_type_outcome_witness :
  (20 <= 21 → ∃ hint, extractPythonReturnType after_function 21 = Ok hint)
  ∧ (21 < 20 → extractPythonReturnType after_function 21 = Panic).
Proof. apply (python_return_type_outcome after_function 21). vm_compute. by split. Defined.

Lemma for_each_not_NoFuel {A B : Type} (body : B → A → Result B) (l : list A) :
  (∀ x acc, body acc x ≠ NoFuel) → ∀ acc, for_each body l acc ≠ NoFuel.
Proof.
  intros Hbody. induction l as [| x l IH]; intros acc; [done |].
  cbn [for_each]. by apply bind_not_NoFuel.
Qed.

Ltac fueled :=
  repeat first
    [ done
    | apply checked_fueled
    | apply bind_not_NoFuel; [| intros ?]
    | apply for_each_not_NoFuel; intros ? ?
    | case_match ].

Lemma line_context_not_NoFuel (content : string) (pos : Z) :
  line_context content pos ≠ NoFuel.
Proof. unfold line_context. cbv zeta. fueled. Qed.

Lemma scan_class_not_NoFuel (currentIndent : Z) (lines : list string) :
  scan_class currentIndent lines ≠ NoFuel.
Proof. induction lines as [| line rest IH]; [done |]. cbn [scan_class]. cbv zeta. fueled. Qed.

Lemma isPythonWithinMethod_not_NoFuel (content : string) (pos : Z) :
  isPythonWithinMethod content pos ≠ NoFuel.
Proof.
  pose proof (line_context_not_NoFuel content pos) as Hline.
  pose proof scan_class_not_NoFuel as Hscan.
  unfold isPythonWithinMethod, isPythonWithinFunction, isPythonWithinClass. cbv zeta.
  fueled.
Qed.

Lemma hinted_type_not_NoFuel (content : string) (startPos : Z) :
  hinted_type content startPos ≠ NoFuel.
Proof. unfold hinted_type. cbv zeta. fueled. Qed.

Lemma extractPythonDecorators_not_NoFuel (content : string) (funcPos : Z) :
  extractPythonDecorators content funcPos ≠ NoFuel.
Proof. unfold extractPythonDecorators. cbv zeta. fueled. Qed.

Lemma extractPythonReturnType_not_NoFuel (content : string) (funcEnd : Z) :
  extractPythonReturnType content funcEnd ≠ NoFuel.
Proof. unfold extractPythonReturnType. cbv zeta. fueled. Qed.

Lemma extractPythonFunctionCalls_not_NoFuel (content : string) (funcPos : Z) :
  extractPythonFunctionCalls content funcPos ≠ NoFuel.
Proof. unfold extractPythonFunctionCalls. cbv zeta. fueled. Qed.

Lemma extractPythonClassFields_not_NoFuel (content : string) (classBodyStart : Z) :
  extractPythonClassFields content classBodyStart ≠ NoFuel.
Proof.
  pose proof isPythonWithinMethod_not_NoFuel as Hmethod.
  pose proof hinted_type_not_NoFuel as Hhint.
  unfold extractPythonClassFields. cbv zeta. fueled.
Qed.

Lemma extractPythonClassMethods_not_NoFuel (content : string) (classBodyStart : Z)
    (className : string) :
  extractPythonClassMethods content classBodyStart className ≠ NoFuel.
Proof.
  pose proof extractPythonDecorators_not_NoFuel as Hdec.
  pose proof extractPythonReturnType_not_NoFuel as Hret.
  pose proof extractPythonFunctionCalls_not_NoFuel as Hcalls.
  unfold extractPythonClassMethods. cbv zeta. fueled.
Qed.

Lemma py_classes_not_NoFuel (content : string) : py_classes content ≠ NoFuel.
Proof.
  pose proof extractPythonClassFields_not_NoFuel as Hfields.
  pose proof extractPythonClassMethods_not_NoFuel as Hmethods.
  unfold py_classes. cbv zeta. fueled.
Qed.

Lemma extractPythonDecorators_returns (content : string) (funcPos : Z) :
  0 <= funcPos <= len content → returns (extractPythonDecorators content funcPos).
Proof.
  intros H. unfold extractPythonDecorators. cbv zeta.
  destruct (200 <? funcPos) eqn:E; [apply Z.ltb_lt in E | apply Z.ltb_ge in E];
    by take_slice.
Qed.

(** The body of the function loop at a match whose end lies in the first
    twenty bytes. *)
Lemma short_signature_step (content : string) (m : list Z)
    (acc : list Function_ * list string) :
  m ∈ FindAllStringSubmatchIndex funcRegex 2 content →
  at_index m 1 < 20 →
  (let '(functions, allDecorators) := acc in
   if (4 <=? length m)%nat then
     let startPos := at_index m 0 in
     isMethod ← isPythonMethod content startPos;
     if isMethod : bool then Ok acc
     else
       functionName ← checked (slice content (at_index m 2) (at_index m 3));
       argsStr ← checked (slice content (at_index m 4) (at_index m 5));
       before ← checked (slice_to content startPos);
       let lineNumber := countLines before in
       decorators ← extractPythonDecorators content startPos;
       let allDecorators := foldl appendIfNotExists allDecorators decorators in
       returnTypeHint ← extractPythonReturnType content (at_index m 1);
       calls ← extractPythonFunctionCalls content startPos;
       Ok ((functions ++
            [ {| f_Name := functionName;
                 f_Args := parsePythonFunctionArgs argsStr lineNumber;
                 f_Returns := if String.eqb returnTypeHint "" then [] else [returnTypeHint];
                 f_Receiver := ""; f_Line := lineNumber; f_Calls := calls |} ])%list,
           allDecorators)
   else Ok acc) = Panic.
Proof.
  intros Hm Hshort. destruct acc as [functions allDecorators].
  pose proof (FindAllStringSubmatchIndex_ok _ _ _ _ Hm) as (Hlen & _).
  pose proof (anchored_start _ 2 content m Hm) as (before & after & Hc & Hb & Hline).
  apply match_positions in Hm as (H0 & H01 & H1 & Hsure).
  sure_group Hsure 1%nat. sure_group Hsure 2%nat.
  rewrite Hlen. cbn [Nat.leb Nat.mul Nat.add]. cbv zeta.
  rewrite <- Hb, (anchored_not_indented content before after Hc Hline), Hb.
  cbn [mbind Result_bind]. do 3 take_slice.
  pose proof (extractPythonDecorators_returns content (at_index m 0) ltac:(lia)) as Hdec.
  destruct (extractPythonDecorators content (at_index m 0)) as [decorators | |];
    [| done | done].
  cbn [mbind Result_bind]. by rewrite return_type_early by lia.
Qed.

(** X23.  A function whose signature, up to its colon, ends within the
    first twenty bytes of the file makes [analyzePythonFile] fail at run
    time: the function loop reaches [extractPythonReturnType] with a
    position that has fewer than twenty bytes before it. *)
Theorem python_short_signature_fails (choose : nat → list (string * re))
    (filePath content : string) (r : Registries) (m : list Z) :
  m ∈ FindAllStringSubmatchIndex funcRegex 2 content →
  at_index m 1 < 20 →
  analyzePythonFile choose filePath content r = Panic.
Proof.
  intros Hm Hshort. unfold analyzePythonFile.
  pose proof (py_classes_not_NoFuel content) as Hclasses.
  destruct (py_classes content) as [classes | |]; [| done | done].
  cbn [mbind Result_bind].
  replace (py_functions content) with (@Panic (list Function_ * list string)); [done |].
  symmetry. unfold py_functions. apply (for_each_fails _ _ m); [| done |].
  - pose proof extractPythonDecorators_not_NoFuel as Hdec.
    pose proof extractPythonReturnType_not_NoFuel as Hret.
    pose proof extractPythonFunctionCalls_not_NoFuel as Hcalls.
    pose proof line_context_not_NoFuel as Hctx.
    intros y acc. unfold isPythonMethod. cbv zeta. fueled.
  - intros acc. by apply short_signature_step.
Qed.

Lemma python_short_signature_fails_witness :
  analyzePythonFile (λ _, patterns) "a.py" short_function no_registries = Panic.
Proof.
  apply (python_short_signature_fails _ _ short_function _ [0; 8; 4; 5; 6; 6]).
  - vm_compute. by left.
  - vm_compute. done.
Defined.

Lemma keyword_has_no_dot (name : string) :
  isPythonKeywordOrBuiltin name = true →
  GoLibrary.all_bytes (λ c, negb (Ascii.eqb c ".")) name = true.
Proof.
  assert (Forall (λ k, GoLibrary.all_bytes (λ c, negb (Ascii.eqb c ".")) k = true)
            (keywords ++ builtins)) as Hall by (vm_compute; repeat constructor).
  unfold isPythonKeywordOrBuiltin. rewrite <- existsb_app, existsb_exists.
  intros (k & Hin & Heq). apply String.eqb_eq in Heq as ->.
  rewrite Forall_forall in Hall. by apply Hall, list_elem_of_In.
Qed.

Lemma dotted_is_no_keyword (objName methodName : string) :
  isPythonKeywordOrBuiltin (objName ++ "." ++ methodName) = false.
Proof.
  destruct (isPythonKeywordOrBuiltin (objName ++ "." ++ methodName)) eqn:E; [| done].
  apply keyword_has_no_dot in E. rewrite all_bytes_app in E.
  apply andb_true_iff in E as [_ E]. rewrite append_cons in E. by cbn in E.
Qed.

Lemma calls_loop {A : Type} (P : string → Prop) (step : list string → A → list string)
    (ms : list A) :
  (∀ calls m, NoDup calls → Forall P calls →
              NoDup (step calls m) ∧ Forall P (step calls m)) →
  ∀ calls, NoDup calls → Forall P calls →
           NoDup (foldl step calls ms) ∧ Forall P (foldl step calls ms).
Proof.
  intros Hstep. induction ms as [| m ms IH]; intros calls Hnd Hall; [done |].
  cbn [foldl]. destruct (Hstep calls m Hnd Hall) as [Hnd' Hall']. by apply IH.
Qed.

Lemma append_call (P : string → Prop) (calls : list string) (name : string) :
  NoDup calls → Forall P calls → P name →
  NoDup (appendIfNotExists calls name) ∧ Forall P (appendIfNotExists calls name).
Proof.
  intros Hnd Hall Hname. split; [by apply appendIfNotExists_NoDup |].
  apply Forall_forall. intros c Hc.
  apply appendIfNotExists_elem in Hc as [Hc | ->]; [| done].
  rewrite Forall_forall in Hall. by apply Hall.
Qed.

(** X24.  For every position inside a text, [extractPythonFunctionCalls]
    returns a list that names no call twice and holds no keyword and no
    built-in name. *)
Theorem python_calls_listed_once (content : string) (funcPos : Z) :
  0 <= funcPos <= len content →
  ∃ calls, extractPythonFunctionCalls content funcPos = Ok calls
           ∧ NoDup calls
           ∧ Forall (λ c, isPythonKeywordOrBuiltin c = false) calls.
Proof.
  intros H. unfold extractPythonFunctionCalls. take_slice. cbv zeta.
  destruct (length (Split piece newline) <? 2)%nat;
    [exists []; repeat split; constructor |].
  destruct (skip_blank (tail (Split piece newline))) as [| first others];
    [exists []; repeat split; constructor |].
  destruct (indent_of first =? 0); [exists []; repeat split; constructor |].
  eexists. split; [done |].
  match goal with |- NoDup (foldl _ ?inner _) ∧ _ =>
    assert (NoDup inner ∧ Forall (λ c, isPythonKeywordOrBuiltin c = false) inner)
      as [Hnd Hall] end.
  { apply (calls_loop (λ c, isPythonKeywordOrBuiltin c = false));
      [| constructor | constructor].
    intros calls m Hnd Hall. destruct (2 <=? length m)%nat; [| done].
    destruct (isPythonKeywordOrBuiltin (nth 1 m "")) eqn:E; [done |].
    by apply append_call. }
  apply (calls_loop (λ c, isPythonKeywordOrBuiltin c = false)); [| done | done].
  intros calls m Hnd' Hall'. destruct (3 <=? length m)%nat; [| done].
  destruct (isPythonKeywordOrBuiltin (nth 2 m "")); [done |].
  apply append_call; [done | done | apply dotted_is_no_keyword].
Qed.

Lemma python_calls_listed_once_witness :
  ∃ calls, extractPythonFunctionCalls scenario_B 0 = Ok calls
           ∧ NoDup calls
           ∧ Forall (λ c, isPythonKeywordOrBuiltin c = false) calls.
Proof. apply (python_calls_listed_once scenario_B 0). vm_compute. by split. Defined.

Lemma block_of_returns (content : string) (startPos parentIndent : Z) :
  0 <= startPos <= len content →
  block_of content startPos parentIndent = Ok None
  ∨ ∃ blockContent,
      block_of content startPos parentIndent = Ok (Some blockContent)
      ∧ startPos + len blockContent <= len content.
Proof.
  intros H. unfold block_of. take_slice. cbv zeta.
  match goal with |- context [if len content <? ?e then _ else _] =>
    assert ((if len content <? e then len content else e) <= len content) as Hend
      by (destruct (len content <? e) eqn:E; [lia | by apply Z.ltb_ge in E]);
    revert Hend; generalize (if len content <? e then len content else e) end.
  intros endPos Hend. destruct (len content <=? startPos); [by left |].
  destruct (endPos <? startPos) eqn:E; [by left |]. apply Z.ltb_ge in E.
  take_slice. right. eexists. split; [done | lia].
Qed.

Lemma findNestedPythonControlFlow_returns (choose : nat → list (string * re))
    (content : string) :
  ∀ (fuel : nat) (startPos parentIndent : Z) (n : nat),
    0 <= startPos <= len content →
    parentIndent <= len content →
    len content - parentIndent < Z.of_nat fuel →
    returns (findNestedPythonControlFlow choose fuel content startPos parentIndent n).
Proof.
  induction fuel as [| fuel IH]; intros startPos parentIndent n Hpos Hindent Hfuel; [lia |].
  rewrite findNestedPythonControlFlow_step.
  destruct (block_of_returns content startPos parentIndent Hpos)
    as [-> | (blockContent & -> & Hblock)]; [done |].
  apply walk_each_returns. intros entry _ acc m.
  unfold nested_entry. apply walk_each_returns. intros mt Hmt acc' m'.
  apply match_positions in Hmt as (H0 & H01 & H1 & _).
  unfold nested_match. destruct (4 <=? length mt)%nat; [| done]. cbv zeta.
  destruct ((at_index mt 2 <? 0) || (len blockContent <? at_index mt 3)
            || (at_index mt 3 <? at_index mt 2)) eqn:Hcheck; [done |].
  apply orb_false_iff in Hcheck as [Hcheck H3].
  apply orb_false_iff in Hcheck as [H2 H2'].
  apply Z.ltb_ge in H2, H2', H3.
  destruct (at_index mt 3 - at_index mt 2 <=? parentIndent) eqn:Hdeeper; [done |].
  apply Z.leb_gt in Hdeeper.
  apply walk_bind_returns.
  { apply walk_lift_returns. by take_slice. }
  intros before n2 _. apply walk_bind_returns; [| done].
  apply IH; lia.
Qed.

Lemma pattern_group_sure (entry : string * re) :
  entry ∈ patterns → 1%nat ∈ sure_groups entry.2.
Proof.
  intros H. apply in_patterns in H as [-> | [-> | [-> | [-> | ->]]]];
    vm_compute; repeat constructor.
Qed.

(** X25.  With the pattern table walked in any order, even a different one
    at every [range] statement, [extractPythonControlFlow] returns for
    every text: the bounds checks of the nested search cover its slices,
    the indentation group takes part in every match, and each nested call
    has a larger indentation, which the length of the text bounds. *)
Theorem python_control_flow_always_returns (choose : nat → list (string * re))
    (content : string) (n : nat) :
  (∀ k entry, entry ∈ choose k → entry ∈ patterns) →
  ∃ flows n', extractPythonControlFlow choose content n = Ok (flows, n').
Proof.
  intros Hchoose.
  enough (returns (extractPythonControlFlow choose content n)) as Hr.
  { destruct (extractPythonControlFlow choose content n) as [[flows n'] | |];
      [eauto | done | done]. }
  unfold extractPythonControlFlow. apply walk_each_returns. intros entry Hentry acc m.
  apply Hchoose, pattern_group_sure in Hentry.
  unfold root_entry. apply walk_each_returns. intros mt Hmt acc' m'.
  apply match_positions in Hmt as (H0 & H01 & H1 & Hsure).
  pose proof (Hsure 1%nat ltac:(lia) Hentry) as Hgroup. cbn [Nat.mul Nat.add] in Hgroup.
  unfold root_match. destruct (2 <=? length mt)%nat; [| done]. cbv zeta.
  apply walk_bind_returns.
  { apply walk_lift_returns. by take_slice. }
  intros before n1 _. apply walk_bind_returns.
  { apply walk_lift_returns. by take_slice. }
  intros indentation n2 Hind.
  apply walk_lift_Ok in Hind as [Hind _]. apply checked_Ok, slice_Some in Hind.
  apply walk_bind_returns; [| done].
  apply findNestedPythonControlFlow_returns; unfold len in *; lia.
Qed.

Lemma python_control_flow_always_returns_witness :
  ∃ flows n', extractPythonControlFlow (λ _, patterns) scenario_B 0%nat = Ok (flows, n').
Proof. apply (python_control_flow_always_returns (λ _, patterns) scenario_B 0). done. Defined.

End PythonOutcomes.
(** *** The cross-reference resolver: what it can link *)

Section ResolverMore.
Import GoStrings Regexp Resolver.
Open Scope string_scope.
Open Scope Z_scope.

(** X26.  Whatever the attributes of an element, every name the resolver
    returns is a key of the function registry: no rule links a name that is
    not registered, and with an empty registry nothing is linked. *)
Theorem linked_functions_are_registered element allFunctions allClasses o :
  valid_order o element allFunctions →
  Forall (λ name, is_Some (allFunctions !! name))
    (findLinkedFunctions o element allFunctions allClasses)
  ∧ (allFunctions = ∅ → findLinkedFunctions o element allFunctions allClasses = []).
Proof.
  intros Hvalid.
  assert (Forall (λ name, is_Some (allFunctions !! name))
            (findLinkedFunctions o element allFunctions allClasses)) as Hall.
  { apply Forall_forall. intros name Hname. apply findLinkedFunctions_elem in Hname.
    by eapply candidates_registered. }
  split; [done |]. intros ->.
  destruct (findLinkedFunctions o element ∅ allClasses) as [| name rest]; [done |].
  apply Forall_cons in Hall as [[fn Hfn] _]. by rewrite lookup_empty in Hfn.
Qed.

Lemma linked_functions_are_registered_witness :
  Forall (λ name, is_Some (save_registry !! name))
    (findLinkedFunctions (canonical_order save_form save_registry)
       save_form save_registry ∅)
  ∧ (save_registry = ∅ →
     findLinkedFunctions (canonical_order save_form save_registry)
       save_form save_registry ∅ = []).
Proof.
  apply (linked_functions_are_registered save_form save_registry ∅
           (canonical_order save_form save_registry)).
  apply canonical_order_valid.
Defined.

Lemma split_from_not_empty (sep s : string) :
  ∀ (skip : nat) (cur : string), split_from sep s skip cur ≠ [].
Proof.
  induction s as [| c t IH]; intros skip cur; [done |].
  cbn [split_from]. destruct skip; [| apply IH].
  destruct (String.prefix sep (String c t)); [done | apply IH].
Qed.

Lemma last_cons {A : Type} (a d : A) (l : list A) :
  l ≠ [] → List.last (a :: l) d = List.last l d.
Proof. by destruct l. Qed.

(** The last piece of a text that ends with the separator is empty. *)
Lemma split_from_last_sep (d : ascii) (p : string) :
  ∀ cur, List.last (split_from (String d "") (p ++ String d "") 0 cur) "" = "".
Proof.
  induction p as [| c t IH]; intros cur.
  - rewrite append_nil_l, split_from_sep. done.
  - rewrite append_cons. cbn [split_from]. rewrite prefix_byte.
    case_bool_decide; [| apply IH].
    rewrite last_cons by apply split_from_not_empty. apply IH.
Qed.

Lemma Contains_last_sep (d : ascii) (p : string) :
  Contains (p ++ String d "") (String d "") = true.
Proof.
  unfold Contains. apply Z.leb_le. induction p as [| c t IH].
  - rewrite append_nil_l, Index_byte_cons. by rewrite bool_decide_eq_true_2.
  - rewrite append_cons, Index_byte_cons. case_bool_decide; [done |].
    destruct (Index (t ++ String d "") (String d "") <? 0) eqn:E; [| lia].
    apply Z.ltb_lt in E. lia.
Qed.

Lemma Contains_nothing (s : string) : Contains s "" = true.
Proof. unfold Contains. by destruct s. Qed.

(** Against an empty last path segment, every function name passes the
    test of the fifth rule. *)
Lemma hx_test_empty (funcName : string) : hx_test "" funcName = true.
Proof.
  unfold hx_test. cbv zeta.
  change (TrimSuffix (TrimSuffix (ToLower "") ".html") ".php") with "".
  by rewrite Contains_nothing.
Qed.

(** X27.  An attribute whose name starts with [hx-] and whose value ends
    with a slash links the element to every registered function: the last
    path segment is then empty, and every name contains the empty text. *)
Theorem hx_trailing_slash_links_every_function element allFunctions allClasses o
    (key path name : string) :
  valid_order o element allFunctions →
  Attributes element !! key = Some (path ++ "/") →
  HasPrefix key "hx-" = true →
  is_Some (allFunctions !! name) →
  name ∈ findLinkedFunctions o element allFunctions allClasses.
Proof.
  intros (_ & _ & Hh & Hf) Hattr Hkey [fn Hfn].
  rewrite findLinkedFunctions_elem. unfold candidates. rewrite !elem_of_app.
  do 4 right. apply elem_of_flat_map. exists (key, path ++ "/"). split.
  { rewrite Hh. by apply elem_of_map_to_list. }
  unfold hx_candidates, hx_applies. cbn [fst snd].
  rewrite Hkey, Contains_last_sep. cbn [andb].
  assert ((0 <? length (Split (path ++ "/") "/"))%nat = true) as ->.
  { apply Nat.ltb_lt. unfold Split.
    pose proof (split_from_not_empty "/" (path ++ "/") 0 "") as Hne.
    destruct (split_from "/" (path ++ "/") 0 ""); [done | simpl; lia]. }
  apply elem_of_list_filter'. split.
  - rewrite (Hf key). apply list_elem_of_fmap. exists (name, fn). split; [done |].
    by apply elem_of_map_to_list.
  - unfold Split. rewrite split_from_last_sep. apply hx_test_empty.
Qed.

Lemma hx_trailing_slash_links_every_function_witness :
  "save_all" ∈ findLinkedFunctions
    (canonical_order (element_with [("hx-get", "/api/")]) save_registry)
    (element_with [("hx-get", "/api/")]) save_registry ∅.
Proof.
  apply (hx_trailing_slash_links_every_function (element_with [("hx-get", "/api/")])
           save_registry ∅ _ "hx-get" "/api" "save_all").
  - apply canonical_order_valid.
  - reflexivity.
  - reflexivity.
  - exists (fn "save_all"). reflexivity.
Defined.

End ResolverMore.
(** *** The directory walk: which files are analysed, which function a
    name stands for *)

Section DirectoryWalk.
Import GoStrings Report Directory.
Open Scope string_scope.
Open Scope Z_scope.

Variable Match : string → string → bool.

Lemma exclude_loop_spec (patterns : list string) (name : string) (shouldProcess : bool) :
  exclude_loop Match patterns name shouldProcess
  = shouldProcess && forallb (λ pattern, negb (Match pattern name)) patterns.
Proof.
  induction patterns as [| pattern rest IH]; cbn [exclude_loop forallb].
  - by rewrite andb_true_r.
  - destruct (Match pattern name); cbn [negb andb]; [by rewrite andb_false_r | done].
Qed.

Lemma include_loop_spec (patterns : list string) (name : string) :
  include_loop Match patterns name false = existsb (λ pattern, Match pattern name) patterns.
Proof.
  induction patterns as [| pattern rest IH]; cbn [include_loop existsb]; [done |].
  by destruct (Match pattern name).
Qed.

Lemma skip_directory_spec (patterns : list string) (name : string) :
  skip_directory Match patterns name = existsb (λ pattern, Match pattern name) patterns.
Proof.
  induction patterns as [| pattern rest IH]; cbn [skip_directory existsb]; [done |].
  by destruct (Match pattern name).
Qed.

Lemma existsb_Exists {A : Type} (f : A → bool) (l : list A) :
  existsb f l = true ↔ Exists (λ x, f x = true) l.
Proof.
  rewrite existsb_exists, Exists_exists.
  split; intros (p & Hp & Hm); exists p; (split; [by apply list_elem_of_In | done]).
Qed.

Lemma targetFilesMap_size (config : Config) :
  (0 <? size (targetFilesMap config))%nat = true ↔ TargetFiles config ≠ [].
Proof.
  unfold targetFilesMap. rewrite Nat.ltb_lt. split.
  - intros Hsize Hnil. rewrite Hnil in Hsize. cbn [foldl] in Hsize.
    rewrite map_size_empty in Hsize. lia.
  - intros Hne. destruct (TargetFiles config) as [| f rest] eqn:E; [done |].
    assert (is_Some (foldl (λ m f, <[f := true]> m) (∅ : gmap string bool)
                       (f :: rest) !! f)) as [b Hb]
      by (apply unique_map_lookup; left; by left).
    destruct (decide (size (foldl (λ m f, <[f := true]> m) (∅ : gmap string bool)
                              (f :: rest)) = 0%nat)) as [Hzero | Hpos]; [| lia].
    apply map_size_empty_inv in Hzero. rewrite Hzero in Hb. by rewrite lookup_empty in Hb.
Qed.

(** X28.  For a file the walk visits, [shouldProcess] is true exactly when
    the name of the file passes three tests: it is one of the target
    files, if any are given; no exclude pattern matches it; and one of the
    include patterns matches it, if any are given.  An exclude pattern so
    wins over a target file and over an include pattern.  The exclude
    patterns are tried on the names of directories as well: the walk skips
    a directory exactly when one of them matches its name. *)
Theorem file_filter_decision (config : Config) (name : string) :
  (should_process Match config name = true
   ↔ (TargetFiles config = [] ∨ name ∈ TargetFiles config)
     ∧ Forall (λ pattern, Match pattern name = false) (ExcludePatterns config)
     ∧ (IncludePatterns config = []
        ∨ Exists (λ pattern, Match pattern name = true) (IncludePatterns config)))
  ∧ (skip_directory Match (ExcludePatterns config) name = true
     ↔ Exists (λ pattern, Match pattern name = true) (ExcludePatterns config)).
Proof.
  split; [| by rewrite skip_directory_spec, existsb_Exists].
  unfold should_process. cbv zeta. rewrite exclude_loop_spec, include_loop_spec.
  assert ((if (0 <? size (targetFilesMap config))%nat
           then bool_decide (is_Some (targetFilesMap config !! name)) else true) = true
          ↔ TargetFiles config = [] ∨ name ∈ TargetFiles config) as Htarget.
  { pose proof (targetFilesMap_size config) as Hsize.
    destruct (0 <? size (targetFilesMap config))%nat.
    - rewrite bool_decide_eq_true. unfold targetFilesMap.
      rewrite unique_map_lookup. split.
      + intros [Hin | [b Hb]]; [by right | by rewrite lookup_empty in Hb].
      + intros [Hnil | Hin]; [by apply Hsize in Hnil | by left].
    - split; [| done]. intros _. left.
      destruct (TargetFiles config); [done |].
      by assert (false = true) by (by apply Hsize). }
  assert (forallb (λ pattern, negb (Match pattern name)) (ExcludePatterns config) = true
          ↔ Forall (λ pattern, Match pattern name = false) (ExcludePatterns config))
    as Hexclude.
  { rewrite forallb_forall, Forall_forall. split; intros H p Hp.
    - apply list_elem_of_In, H in Hp. by destruct (Match p name).
    - apply list_elem_of_In, H in Hp. by rewrite Hp. }
  destruct (IncludePatterns config) as [| pattern rest] eqn:E.
  - cbn [length Nat.ltb Nat.leb]. rewrite andb_true_iff, Htarget, Hexclude.
    split; [intros [? ?]; auto | intros (? & ? & _); auto].
  - change (0 <? length (pattern :: rest))%nat with true. cbv iota.
    rewrite !andb_true_iff, Htarget, Hexclude, existsb_Exists.
    split; [intros [[? ?] ?]; auto | intros (? & ? & [? | ?]); [done | auto]].
Qed.

End DirectoryWalk.

Section Registry.
Import GoStrings Run.
Open Scope string_scope.

Lemma store_functions_other (fns : list Function_) (m : gmap string Function_)
    (name : string) :
  Forall (λ g, f_Name g ≠ name) fns → store_functions fns m !! name = m !! name.
Proof.
  revert m. induction fns as [| fn fns IH]; intros m Hfns; [reflexivity |].
  apply Forall_cons in Hfns as [Hfn Hfns].
  change (store_functions (fn :: fns) m)
    with (store_functions fns (<[f_Name fn := fn]> m)).
  rewrite IH by done. by apply lookup_insert_ne.
Qed.

(** X29.  The function registry holds one function per name, the one
    stored last: of two functions of the same name, from one file or from
    files in different languages, the later one replaces the earlier; a
    name none of the stored functions has keeps its entry. *)
Theorem registry_keeps_last (before after : list Function_) (fn : Function_)
    (m : gmap string Function_) :
  Forall (λ g, f_Name g ≠ f_Name fn) after →
  store_functions (before ++ fn :: after) m !! f_Name fn = Some fn
  ∧ ∀ name, Forall (λ g, f_Name g ≠ name) (before ++ fn :: after) →
            store_functions (before ++ fn :: after) m !! name = m !! name.
Proof.
  intros Hafter. split; [| intros name; apply store_functions_other].
  unfold store_functions. rewrite foldl_app. cbn [foldl].
  fold (store_functions before m).
  fold (store_functions after (<[f_Name fn := fn]> (store_functions before m))).
  rewrite store_functions_other by done. apply lookup_insert_eq.
Qed.

Lemma registry_keeps_last_witness :
  store_functions ([Resolver.fn "save"] ++ {| f_Name := "save"; f_Args := [];
      f_Returns := []; f_Receiver := "T"; f_Line := 7; f_Calls := [] |} :: [Resolver.fn "load"])
    ∅ !! "save"
  = Some {| f_Name := "save"; f_Args := []; f_Returns := []; f_Receiver := "T";
            f_Line := 7; f_Calls := [] |}.
Proof.
  apply (registry_keeps_last [Resolver.fn "save"] [Resolver.fn "load"]
           {| f_Name := "save"; f_Args := []; f_Returns := []; f_Receiver := "T";
              f_Line := 7; f_Calls := [] |} ∅).
  by repeat constructor.
Defined.

End Registry.
(** *** Parse failures in the first pass *)

Section ParseFailure.
Import GoStrings Regexp GoExtractor Report Directory Run.
Open Scope string_scope.
Open Scope Z_scope.

Variable Match : string → string → bool.
Variable config : Config.
Variables choose_php choose_py : string → nat → list (string * re).

(** A file that is to be processed matches no exclude pattern, so nothing
    is printed about skipping it. *)
Lemma first_match_none (name : string) :
  should_process Match config name = true →
  first_match Match (ExcludePatterns config) name = None.
Proof.
  unfold should_process. cbv zeta. rewrite exclude_loop_spec.
  intros H.
  assert (forallb (λ pattern, negb (Match pattern name)) (ExcludePatterns config) = true)
    as Hall.
  { destruct (0 <? length (IncludePatterns config))%nat.
    - apply andb_true_iff in H as [H _]. by apply andb_true_iff in H as [_ H].
    - by apply andb_true_iff in H as [_ H]. }
  clear H. induction (ExcludePatterns config) as [| pattern rest IH]; [done |].
  cbn [forallb first_match] in *. apply andb_true_iff in Hall as [Hp Hrest].
  destruct (Match pattern name); [done | by apply IH].
Qed.

Lemma print_framed goBefore outBefore extra lines (line : string)
    (S S' : Summary) (r r' : Registries) :
  framed goBefore outBefore extra lines (S, r) (S', r') →
  framed goBefore outBefore extra lines (S, print line r) (S', print line r').
Proof.
  intros (goAfter & outAfter & Hg & Hg' & Hphp & Hpy & Hhtml & Hcss & Hsql
          & Hf & Hs & Hc & Hpc & Ho & Ho').
  exists goAfter, (outAfter ++ [line])%list. cbn [fst snd print stdout allFunctions
    allStructs allClasses allPythonClasses] in *.
  rewrite Ho, Ho', <- !app_assoc. done.
Qed.

Lemma print_verbose_framed goBefore outBefore extra lines (line : string)
    (S S' : Summary) (r r' : Registries) :
  framed goBefore outBefore extra lines (S, r) (S', r') →
  framed goBefore outBefore extra lines
    (S, print_verbose config line r) (S', print_verbose config line r').
Proof.
  intros H. unfold print_verbose. destruct (Verbose config); [by apply print_framed | done].
Qed.

Lemma print_skipped_framed goBefore outBefore extra lines (what name : string)
    (S S' : Summary) (r r' : Registries) :
  framed goBefore outBefore extra lines (S, r) (S', r') →
  framed goBefore outBefore extra lines
    (S, print_skipped Match config what name r)
    (S', print_skipped Match config what name r').
Proof.
  intros H. unfold print_skipped.
  destruct (first_match Match (ExcludePatterns config) name);
    [by apply print_verbose_framed | done].
Qed.

Lemma prints_framed goBefore outBefore extra lines (printed : list string)
    (S S' : Summary) (r r' : Registries) :
  framed goBefore outBefore extra lines (S, r) (S', r') →
  framed goBefore outBefore extra lines
    (S, foldl (λ r line, print line r) r printed)
    (S', foldl (λ r line, print line r) r' printed).
Proof.
  revert r r'. induction printed as [| line printed IH]; intros r r' H; [done |].
  cbn [foldl]. by apply IH, print_framed.
Qed.

Ltac after_print L :=
  match goal with
  | H : framed _ _ _ _ (?S, ?r) (?S', ?r') |- _ =>
      apply (print_verbose_framed _ _ _ _ L) in H;
      revert H;
      generalize (print_verbose config L r') (print_verbose config L r);
      clear r r'; intros r' r H;
      destruct H as (goAfter & outAfter & Hg & Hg' & Hphp & Hpy & Hhtml & Hcss & Hsql
                     & Hf & Hs & Hc & Hpc & Ho & Ho');
      cbn [fst snd] in *
  end.

(** The [switch] takes the same case in both states, and leaves the extra
    summary and lines in place. *)
Lemma analyse_framed goBefore outBefore extra lines (path relPath : string)
    (source : Source) (st st' : Summary * Registries) :
  framed goBefore outBefore extra lines st st' →
  match analyse config choose_php choose_py path relPath source st with
  | Ok st2 =>
      ∃ st2', analyse config choose_php choose_py path relPath source st' = Ok st2'
              ∧ framed goBefore outBefore extra lines st2 st2'
  | Panic => analyse config choose_php choose_py path relPath source st' = Panic
  | NoFuel => analyse config choose_php choose_py path relPath source st' = NoFuel
  end.
Proof.
  destruct st as [S r], st' as [S' r']. intros Hframed.
  destruct source as [parsed | read | read | read | read | read |]; cbn [analyse].
  - after_print ("Analyzing Go file: " ++ relPath ++ String nl "").
    destruct parsed as [err | node]; cbn [analyzeGoFile].
    + eexists. split; [reflexivity |].
      exists (goAfter ++ [empty_summary path])%list,
             (outAfter ++ [parse_diagnostic path err])%list.
      cbn [fst snd add_go GoFiles PhpFiles PythonFiles HtmlFiles CssFiles SqlFiles
           allFunctions allStructs allClasses allPythonClasses stdout go_Functions
           go_Structs empty_summary store_functions store_structs foldl].
      rewrite Hg, Hg', Ho, Ho', Hf, Hs, Hc, Hpc, Hphp, Hpy, Hhtml, Hcss, Hsql.
      rewrite <- !app_assoc. done.
    + rewrite Hs.
      destruct (analyze_parsed path node (allStructs r)) as [goFile structs].
      eexists. split; [reflexivity |].
      exists (goAfter ++ [goFile])%list, outAfter.
      cbn [fst snd add_go GoFiles PhpFiles PythonFiles HtmlFiles CssFiles SqlFiles
           allFunctions allStructs allClasses allPythonClasses stdout].
      rewrite Hg, Hg', Ho, Ho', Hf, Hc, Hpc, Hphp, Hpy, Hhtml, Hcss, Hsql.
      rewrite <- !app_assoc. done.
  - after_print ("Analyzing PHP file: " ++ relPath ++ String nl "").
    destruct read as [err | content]; cbn [read_php mbind Result_bind].
    + eexists. split; [reflexivity |].
      exists goAfter,
        (outAfter
         ++ [("Error reading PHP file " ++ path ++ ": " ++ err ++ String nl "")%string])%list.
      cbn [fst snd add_php GoFiles PhpFiles PythonFiles HtmlFiles CssFiles SqlFiles
           print allFunctions allStructs allClasses allPythonClasses stdout
           php_Functions php_Classes store_functions store_structs foldl].
      rewrite Hg, Hg', Ho, Ho', Hf, Hs, Hc, Hpc, Hphp, Hpy, Hhtml, Hcss, Hsql.
      rewrite <- !app_assoc. done.
    + unfold Php.analyzePhpFile.
      destruct (Php.php_classes content) as [classes | |]; cbn [mbind Result_bind];
        try done.
      destruct (Php.php_functions content) as [functions | |]; cbn [mbind Result_bind];
        try done.
      destruct (Php.extractPhpControlFlow (choose_php path) content 0%nat) as [flows | |];
        cbn [mbind Result_bind]; try done.
      destruct (Php.php_globals content) as [variables | |]; cbn [mbind Result_bind];
        try done.
      eexists. split; [reflexivity |].
      exists goAfter, outAfter.
      cbn [fst snd add_php GoFiles PhpFiles PythonFiles HtmlFiles CssFiles SqlFiles
           allFunctions allStructs allClasses allPythonClasses stdout].
      rewrite Hg, Hg', Ho, Ho', Hf, Hs, Hc, Hpc, Hphp, Hpy, Hhtml, Hcss, Hsql. done.
  - after_print ("Analyzing Python file: " ++ relPath ++ String nl "").
    destruct read as [err | content]; cbn [read_python mbind Result_bind].
    + eexists. split; [reflexivity |].
      exists goAfter,
        (outAfter
         ++ [("Error reading Python file " ++ path ++ ": " ++ err
              ++ String nl "")%string])%list.
      cbn [fst snd add_python GoFiles PhpFiles PythonFiles HtmlFiles CssFiles SqlFiles
           print allFunctions allStructs allClasses allPythonClasses stdout
           py_Functions py_Classes store_functions store_structs foldl].
      rewrite Hg, Hg', Ho, Ho', Hf, Hs, Hc, Hpc, Hphp, Hpy, Hhtml, Hcss, Hsql.
      rewrite <- !app_assoc. done.
    + unfold Python.analyzePythonFile.
      destruct (Python.py_classes content) as [classes | |]; cbn [mbind Result_bind];
        try done.
      destruct (Python.py_functions content) as [functions | |]; cbn [mbind Result_bind];
        try done.
      destruct (Python.extractPythonControlFlow (choose_py path) content 0%nat)
        as [flows | |]; cbn [mbind Result_bind]; try done.
      destruct (Python.py_globals content) as [variables | |]; cbn [mbind Result_bind];
        try done.
      eexists. split; [reflexivity |].
      exists goAfter, outAfter.
      cbn [fst snd add_python GoFiles PhpFiles PythonFiles HtmlFiles CssFiles SqlFiles
           allFunctions allStructs allClasses allPythonClasses stdout].
      rewrite Hg, Hg', Ho, Ho', Hf, Hs, Hc, Hpc, Hphp, Hpy, Hhtml, Hcss, Hsql. done.
  - apply (print_verbose_framed _ _ _ _ ("Analyzing HTML file: " ++ relPath ++ String nl ""))
      in Hframed.
    destruct (read_html path read) as [[htmlFile printed] | |];
      cbn [mbind Result_bind]; try done.
    eexists. split; [reflexivity |].
    apply (prints_framed _ _ _ _ printed) in Hframed.
    destruct Hframed as (goAfter & outAfter & Hg & Hg' & Hphp & Hpy & Hhtml & Hcss & Hsql
                         & Hrest).
    exists goAfter, outAfter. cbn [fst snd] in *.
    cbn [add_html GoFiles PhpFiles PythonFiles HtmlFiles CssFiles SqlFiles].
    by rewrite Hhtml.
  - apply (print_verbose_framed _ _ _ _ ("Analyzing CSS file: " ++ relPath ++ String nl ""))
      in Hframed.
    destruct (read_css path read) as [[cssFile printed] | |];
      cbn [mbind Result_bind]; try done.
    eexists. split; [reflexivity |].
    apply (prints_framed _ _ _ _ printed) in Hframed.
    destruct Hframed as (goAfter & outAfter & Hg & Hg' & Hphp & Hpy & Hhtml & Hcss & Hsql
                         & Hrest).
    exists goAfter, outAfter. cbn [fst snd] in *.
    cbn [add_css GoFiles PhpFiles PythonFiles HtmlFiles CssFiles SqlFiles].
    by rewrite Hcss.
  - apply (print_verbose_framed _ _ _ _ ("Analyzing SQL file: " ++ relPath ++ String nl ""))
      in Hframed.
    destruct (read_sql path read) as [[sqlFile printed] | |];
      cbn [mbind Result_bind]; try done.
    eexists. split; [reflexivity |].
    apply (prints_framed _ _ _ _ printed) in Hframed.
    destruct Hframed as (goAfter & outAfter & Hg & Hg' & Hphp & Hpy & Hhtml & Hcss & Hsql
                         & Hrest).
    exists goAfter, outAfter. cbn [fst snd] in *.
    cbn [add_sql GoFiles PhpFiles PythonFiles HtmlFiles CssFiles SqlFiles].
    by rewrite Hsql.
  - by exists (S', r').
Qed.

Lemma visit_framed goBefore outBefore extra lines (v : Visit)
    (st st' : Summary * Registries) :
  framed goBefore outBefore extra lines st st' →
  match visit Match config choose_php choose_py st v with
  | Ok st2 =>
      ∃ st2', visit Match config choose_php choose_py st' v = Ok st2'
              ∧ framed goBefore outBefore extra lines st2 st2'
  | Panic => visit Match config choose_php choose_py st' v = Panic
  | NoFuel => visit Match config choose_php choose_py st' v = NoFuel
  end.
Proof.
  destruct st as [S r], st' as [S' r']. intros Hframed. unfold visit.
  destruct (w_entry v) as [err | | relPath source].
  - eexists. split; [reflexivity |]. by apply print_verbose_framed.
  - eexists. split; [reflexivity |]. by apply print_skipped_framed.
  - apply (print_skipped_framed _ _ _ _ "file" (w_name v)) in Hframed.
    destruct (should_process Match config (w_name v)).
    + by apply analyse_framed.
    + by eexists.
Qed.

Lemma first_pass_framed goBefore outBefore extra lines (entries : list Visit) :
  ∀ st st' : Summary * Registries,
    framed goBefore outBefore extra lines st st' →
    match first_pass Match config choose_php choose_py entries st with
    | Ok st2 =>
        ∃ st2', first_pass Match config choose_php choose_py entries st' = Ok st2'
                ∧ framed goBefore outBefore extra lines st2 st2'
    | Panic => first_pass Match config choose_php choose_py entries st' = Panic
    | NoFuel => first_pass Match config choose_php choose_py entries st' = NoFuel
    end.
Proof.
  unfold first_pass. induction entries as [| v entries IH]; intros st st' Hframed.
  - by exists st'.
  - cbn [for_each]. pose proof (visit_framed _ _ _ _ v st st' Hframed) as Hvisit.
    destruct (visit Match config choose_php choose_py st v) as [st1 | |];
      cbn [mbind Result_bind].
    + destruct Hvisit as (st1' & -> & Hframed1). cbn [mbind Result_bind]. by apply IH.
    + by rewrite Hvisit.
    + by rewrite Hvisit.
Qed.

(** The callback at a Go file that does not parse and is to be processed:
    it appends the summary that holds the path and nothing else, and prints
    the line about the file (when verbose) and the diagnostic. *)
Lemma visit_parse_failure (path name relPath err : string) (S : Summary)
    (r : Registries) :
  should_process Match config name = true →
  ∃ st',
    visit Match config choose_php choose_py (S, r)
      (go_parse_failure path name relPath err) = Ok st'
    ∧ framed (GoFiles S) (stdout r) (empty_summary path)
        ((if Verbose config
          then [("Analyzing Go file: " ++ relPath ++ String nl "")%string] else [])
         ++ [("Error parsing Go file " ++ path ++ ": " ++ err ++ String nl "")%string])
        (S, r) st'.
Proof.
  intros Hprocess. unfold visit, go_parse_failure. cbn [w_entry w_name w_path].
  unfold print_skipped. rewrite (first_match_none name Hprocess), Hprocess.
  cbn [analyse analyzeGoFile]. eexists. split; [reflexivity |].
  exists [], []. unfold print_verbose, parse_diagnostic.
  destruct (Verbose config);
    cbn [fst snd add_go GoFiles PhpFiles PythonFiles HtmlFiles CssFiles SqlFiles print
         allFunctions allStructs allClasses allPythonClasses stdout go_Functions
         go_Structs empty_summary store_functions store_structs foldl app];
    rewrite ?app_nil_r, <- ?app_assoc; done.
Qed.

(** C9: a Go file whose parse fails gets a summary that holds its path and
    nothing else, and the line [Error parsing Go file], with the path and
    the error, is printed.  The first pass goes on: when the file is one
    the walk processes, the pass over all entries of the walk, of whatever
    kind, completes whenever the pass over the other entries does, with the
    same summaries and the same registries, plus the path-only summary and
    the printed lines at the place of the failing file; and when the pass
    over the other entries fails at run time, it fails the same way with
    the file among them. *)
Theorem parse_failure_is_contained (path name relPath err : string)
    (before after : list Visit) (st : Summary * Registries) :
  should_process Match config name = true →
  (∀ r, analyzeGoFile path (inl err) r
        = ({| go_FilePath := path; go_Variables := []; go_Functions := [];
              go_ControlFlows := []; go_Structs := []; go_Interfaces := [];
              go_Imports := [] |},
           {| allFunctions := allFunctions r; allStructs := allStructs r;
              allClasses := allClasses r; allPythonClasses := allPythonClasses r;
              stdout := stdout r
                ++ [("Error parsing Go file " ++ path ++ ": " ++ err
                     ++ String nl "")%string] |}))
  ∧ (∀ S R,
       first_pass Match config choose_php choose_py (before ++ after) st = Ok (S, R) →
       ∃ S' R' goBefore goAfter outBefore outAfter,
         first_pass Match config choose_php choose_py
           (before ++ go_parse_failure path name relPath err :: after) st
         = Ok (S', R')
         ∧ GoFiles S = (goBefore ++ goAfter)%list
         ∧ GoFiles S'
           = (goBefore
              ++ {| go_FilePath := path; go_Variables := []; go_Functions := [];
                    go_ControlFlows := []; go_Structs := []; go_Interfaces := [];
                    go_Imports := [] |} :: goAfter)%list
         ∧ PhpFiles S' = PhpFiles S
         ∧ PythonFiles S' = PythonFiles S
         ∧ HtmlFiles S' = HtmlFiles S
         ∧ CssFiles S' = CssFiles S
         ∧ SqlFiles S' = SqlFiles S
         ∧ allFunctions R' = allFunctions R
         ∧ allStructs R' = allStructs R
         ∧ allClasses R' = allClasses R
         ∧ allPythonClasses R' = allPythonClasses R
         ∧ stdout R = (outBefore ++ outAfter)%list
         ∧ stdout R'
           = (outBefore
              ++ ((if Verbose config
                   then [("Analyzing Go file: " ++ relPath ++ String nl "")%string]
                   else [])
                  ++ [("Error parsing Go file " ++ path ++ ": " ++ err
                       ++ String nl "")%string])
              ++ outAfter)%list)
  ∧ (¬ returns (first_pass Match config choose_php choose_py (before ++ after) st) →
     first_pass Match config choose_php choose_py
       (before ++ go_parse_failure path name relPath err :: after) st
     = first_pass Match config choose_php choose_py (before ++ after) st).
Proof.
  intros Hprocess. split; [done |].
  unfold first_pass. rewrite !for_each_app. cbn [for_each].
  destruct (for_each (visit Match config choose_php choose_py) before st)
    as [[S1 R1] | |]; cbn [mbind Result_bind]; [| by split | by split].
  destruct (visit_parse_failure path name relPath err S1 R1 Hprocess)
    as (st1' & -> & Hframed). cbn [mbind Result_bind].
  pose proof (first_pass_framed _ _ _ _ after (S1, R1) st1' Hframed) as Hrest.
  unfold first_pass in Hrest.
  destruct (for_each (visit Match config choose_php choose_py) after (S1, R1))
    as [st2 | |].
  - split; [| by intros []]. intros S R [= ->].
    destruct Hrest as ([S' R'] & -> & goAfter & outAfter & H).
    exists S', R', (GoFiles S1), goAfter, (stdout R1), outAfter.
    split; [done |]. exact H.
  - split; [done |]. by intros _.
  - split; [done |]. by intros _.
Qed.

End ParseFailure.

Section ParseFailureWitness.
Import GoStrings Regexp GoExtractor Report Directory Run.
Open Scope string_scope.

Lemma parse_failure_is_contained_witness :
  should_process (λ _ _, false) (filter_config [] [] []) "bad.go" = true
  ∧ ∃ S R,
      first_pass (λ _ _, false) (filter_config [] [] [])
        (λ _, Php.written_order) (λ _, Python.written_order)
        ([ {| w_path := "src"; w_name := "src"; w_entry := DirEntry |};
           {| w_path := "src/a.go"; w_name := "a.go";
              w_entry := FileEntry "a.go" (GoSource (inr GoInputs.type_first)) |} ]
         ++ [ {| w_path := "src/b.php"; w_name := "b.php";
                 w_entry := FileEntry "b.php" (PhpSource (inr Php.scenario_A)) |};
              {| w_path := "src/c.css"; w_name := "c.css";
                 w_entry := FileEntry "c.css" (CssSource (inl "permission denied")) |} ])
        (no_summary, no_registries)
      = Ok (S, R)
      ∧ ∃ S' R' goBefore goAfter outBefore outAfter,
          first_pass (λ _ _, false) (filter_config [] [] [])
            (λ _, Php.written_order) (λ _, Python.written_order)
            ([ {| w_path := "src"; w_name := "src"; w_entry := DirEntry |};
               {| w_path := "src/a.go"; w_name := "a.go";
                  w_entry := FileEntry "a.go" (GoSource (inr GoInputs.type_first)) |} ]
             ++ go_parse_failure "src/bad.go" "bad.go" "bad.go" "expected declaration"
                :: [ {| w_path := "src/b.php"; w_name := "b.php";
                        w_entry := FileEntry "b.php" (PhpSource (inr Php.scenario_A)) |};
                     {| w_path := "src/c.css"; w_name := "c.css";
                        w_entry :=
                          FileEntry "c.css" (CssSource (inl "permission denied")) |} ])
            (no_summary, no_registries)
          = Ok (S', R')
          ∧ GoFiles S = (goBefore ++ goAfter)%list
          ∧ GoFiles S'
            = (goBefore
               ++ {| go_FilePath := "src/bad.go"; go_Variables := []; go_Functions := [];
                     go_ControlFlows := []; go_Structs := []; go_Interfaces := [];
                     go_Imports := [] |} :: goAfter)%list
          ∧ PhpFiles S' = PhpFiles S
          ∧ PythonFiles S' = PythonFiles S
          ∧ HtmlFiles S' = HtmlFiles S
          ∧ CssFiles S' = CssFiles S
          ∧ SqlFiles S' = SqlFiles S
          ∧ allFunctions R' = allFunctions R
          ∧ allStructs R' = allStructs R
          ∧ allClasses R' = allClasses R
          ∧ allPythonClasses R' = allPythonClasses R
          ∧ stdout R = (outBefore ++ outAfter)%list
          ∧ stdout R'
            = (outBefore
               ++ ((if Verbose (filter_config [] [] [])
                    then [("Analyzing Go file: " ++ "bad.go" ++ String nl "")%string]
                    else [])
                   ++ [("Error parsing Go file " ++ "src/bad.go" ++ ": "
                        ++ "expected declaration" ++ String nl "")%string])
               ++ outAfter)%list.
Proof.
  split; [reflexivity |].
  eexists _, _. split.
  - vm_compute. reflexivity.
  - apply (proj1 (proj2 (parse_failure_is_contained (λ _ _, false)
             (filter_config [] [] []) (λ _, Php.written_order) (λ _, Python.written_order)
             "src/bad.go" "bad.go" "bad.go" "expected declaration"
             [ {| w_path := "src"; w_name := "src"; w_entry := DirEntry |};
               {| w_path := "src/a.go"; w_name := "a.go";
                  w_entry := FileEntry "a.go" (GoSource (inr GoInputs.type_first)) |} ]
             [ {| w_path := "src/b.php"; w_name := "b.php";
                  w_entry := FileEntry "b.php" (PhpSource (inr Php.scenario_A)) |};
               {| w_path := "src/c.css"; w_name := "c.css";
                  w_entry := FileEntry "c.css" (CssSource (inl "permission denied")) |} ]
             (no_summary, no_registries) eq_refl))).
    vm_compute. reflexivity.
Defined.

End ParseFailureWitness.
